(* ===== verification/_CoqProject ===== *)
-Q . S2P
Prelude.v
PeersState.v
Peerset.v
Codec.v
Substream.v
Text.v
ProtoHandler.v
CustomProto.v
NetConfig.v
Discovery.v
DebugInfo.v
NetService.v
NetState.v
Libra.v
SchemaDB.v
Storage.v
Accumulator.v
ChannelTypes.v
ChannelStore.v
TxApplier.v
Chain.v
Compiler.v
ChainRpc.v
Faucet.v
StateAccess.v
Overlay.v
ChannelStm.v
Channel.v
Messages.v
Wallet.v
Invoices.v
Futures.v
Stats.v
Node.v
NodeServer.v
NodeRpc.v
Cli.v
AntRouter.v
Graph.v
TableRouter.v
RouterServer.v
Startup.v
Watcher.v
Instances.v
NetWitnesses.v
Witnesses.v
NodeWitnesses.v
RouterWitnesses.v
WatchWitnesses.v
OverlayWitnesses.v
ServiceWitnesses.v
RpcWitnesses.v
CliWitnesses.v
ServerWitnesses.v
