(* ===== verification/Prelude.v ===== *)
(** * Stargate: verification development

    Stargate is a node for payment channels on a libra chain.  The participants of a channel exchange
    proposals (transactions of the channel), execute them in the Move VM on a shared off-chain state,
    sign their outcome and apply them to a local ledger; a transaction may also travel to the chain, and
    what the chain says about the channel is applied to the same ledger.  Payments go over several channels,
    along paths that a router finds.  The nodes reach each other over a libp2p network.

    ** The parts and how they interact

    - The network ([src/network-libp2p/]).  A peer set manager decides which peers to connect to, accept and
      drop; a behaviour carries that out over the swarm of libp2p and the handlers of the connections, which
      open, use and close substreams; it is composed with the discovery of nodes and with what is known about
      them, and a service on top reports protocols that open, close and receive messages.
    - The overlay ([src/sgnetwork/]) sends messages between accounts over that service, with acknowledgements.
    - The storage ([src/sgstorage/]) keeps, for each channel, tables in one RocksDB shared by all
      channels, and over them a store: ledger infos, transactions, write sets, the pending transaction.
    - The channel ([src/sgwallet/src/channel/], [tx_applier.rs]) is an actor.  Its handlers ask a state
      machine ([ChannelStm]) what a message means, persist the pending transaction in the store, and
      hand agreed or on-chain transactions to the applier ([TxApplier]), which extends an accumulator
      and commits to the store.
    - The wallet ([src/sgwallet/]) is the actor that owns the channels of an account.
    - The chain ([src/sgchain/], and the watchers and the state accessor of [src/sgwallet/]): a client that asks
      for account states, transactions and events, views of the state that the VM reads while the state
      machine executes a proposal, and streams that follow the chain.
    - The node ([src/node/node_internal/]) joins the wallet, the overlay and a router ([src/router/]): it
      answers the messages of other nodes, makes invoices and relays payments.  Users reach it over gRPC
      ([src/node/node_service/], [src/node/node_client/]), from a command line ([src/cli/]) that also compiles Move
      packages ([src/sgcompiler/]) and asks a faucet for coins ([src/sgfaucet/]).

    ** Files

    Every file models the sources it names in its own opening comment, under the names of the source.

    - [Prelude]: outcomes of Rust code ([res]: [Ok], [Err], [Panic]), machine integers, stateful code that
      can fail part way ([stM] with the triples [hoare]), iteration over hash tables ([HashOrder]).
    - [PeersState], [Peerset]: the peer set.  The state is a record with the fields of the Rust struct;
      the queue of messages and the channel of actions are lists, the clock an argument.
    - [Substream], [ProtoHandler], [CustomProto]: the custom protocol, from the substream to the behaviour.
      The swarm, the timers and the other side are inputs, in any order that keeps libp2p's contracts.
    - [NetConfig], [Discovery], [DebugInfo], [NetService], [NetState]: settings and key file, the discovery of
      nodes, the cache of what is known about them, the composed behaviour, the service and its diagnostic state.
    - [Codec], [SchemaDB]: keys, prefixes, the trait [SchemaDB] as a class with laws, and the database of
      one channel ([ChannelDB]) as an instance of it over an abstract engine.
    - [Storage]: creating and opening the database with its column families.
    - [Libra], [Accumulator]: classes for the libra crates, which are a git submodule outside the tree.
    - [ChannelTypes], [ChannelStore]: the data of a channel and its store, generic in the database.
    - [TxApplier], [Chain], [ChannelStm], [Channel]: the wallet's side of a channel, one definition per
      method and per message handler.  A handler is an [stM]: it returns a result and the state it left,
      also when it fails.  The answers of the chain, the times read from the clock and the outcome of each
      database write are inputs, so that a theorem about all inputs is one about all failures.
    - [ChainRpc], [StateAccess], [Watcher]: the client of the chain, the accessor of its state, and the streams
      and subscriptions that follow it.
    - [Overlay]: the overlay network, as a set of nodes and the messages under way.
    - [Messages], [Wallet], [Invoices], [Futures], [Stats], [Node]: the messages between nodes with their conversions,
      the wallet actor, and the node with its invoices, waiting requests and statistics.
    - [NodeRpc]: the RPC messages, service and client of a node.
    - [Text], [Compiler], [Faucet], [Cli]: strings and paths of the standard library, the compiler of packages with the
      registry of a wallet, the faucet, and the command line over the node, the chain, the faucet and the compiler.
    - [AntRouter], [Graph], [TableRouter]: the two routers and the graph database of the second.
    - [NodeServer], [RouterServer]: the tasks of a node and of its routers, with their channels, as lists of actions in any
      order.  [Startup]: the configuration, the key file and the way from them to a running node.
    - [Instances], [NetWitnesses], [Witnesses], [NodeWitnesses], [RouterWitnesses], [WatchWitnesses],
      [OverlayWitnesses], [ServiceWitnesses], [RpcWitnesses], [CliWitnesses], [ServerWitnesses]: an in-memory engine, small libra, accumulators, chain, codecs and
      libp2p that satisfy the laws, and the theorems applied to concrete runs.

    ** What the theorems show

    - Channel: whatever messages arrive and whatever fails, every off-chain transaction in the ledger is
      signed by exactly the participants ([offchain_ledger_is_cosigned]); the ledger only grows and the
      pending transaction only moves forward ([channel_only_moves_forward]); an applied proposal is
      answered with its recorded signature ([applied_proposal_is_answered]).
    - State machine: which signatures are accepted ([signature_accepted_iff_valid]); two honest
      participants reach the same agreed transaction ([honest_participants_agree]); and a defect: the
      signature of an outsider blocks the agreement ([outsider_signature_blocks_consensus]).
    - Applier and store: they refine an abstract ledger, the list of applied transactions
      ([apply_exactly_next], [applied_history_readable]), and re-opening the database after a failure at
      any point rebuilds it ([crash_recovery]).
    - Database and codecs: [ChannelDB] implements the trait, isolated from the other channels
      ([channel_db_read_your_writes], [channel_db_iterates], [channel_db_isolated]); key order is version
      order ([key_codec_correct]); the range of a prefix is exact unless the prefix is all ones
      ([prefix_next_correct]), where the search for the last entry fails ([seek_to_last_misses_all_ones]).  A storage opens again unless
      its creation failed half way ([storage_reopens]).
    - Wallet: in any sequence of requests every channel keeps a co-signed ledger
      ([wallet_ledgers_are_cosigned]) and a request touches one channel only ([wallet_calls_are_local]).
    - Node: a payment over several hops settles ([multi_hop_payment_settles]); a request completes once, with
      its own answer ([futures_complete_once]); a call over RPC is a call of the node ([rpc_reaches_node]); and defects: malformed messages panic
      ([malformed_messages_panic]) and a rejected payment is forwarded ([rejected_payment_is_forwarded]).
    - Command line: a typed line runs the method of the node with the words of the line ([typed_commands_reach_node]); the
      lines of three groups never end the shell ([node_and_explorer_lines_never_panic]), some others do
      ([weak_guards_end_the_shell]), and some names cannot be typed ([names_with_blanks_unreachable]).  A compiled
      package is its directory ([compiled_package_is_directory]) and is read back as written
      ([package_file_roundtrip]); the faucet pays who has little ([faucet_pays_the_poor]).
    - Running node: in any order of its tasks each message and each call is handled once and each caller gets its own answer
      ([node_handles_everything_once]), and a shutdown leaves no caller waiting ([shutdown_settles_every_call]).  A node is
      made of its configuration and one key ([node_starts_as_configured]).
    - Routers: a path that the ants return is one of channels ([ant_search_returns_path]), the table router
      returns the one of least pressure ([table_route_is_least]); and defects: the statistics lock themselves
      up ([statistics_stay_empty]) and a closed channel takes another with it
      ([closing_locked_channel_drops_another]).  Messages reach their router in order ([mix_router_dispatches]), unless
      the table router could not start ([table_failure_ends_routing]).
    - Chain: caching in the state views is not observable ([state_view_reads_are_stable]); watching for a
      transaction ends ([watch_transaction_ends]); streams give every item once and in order
      ([event_stream_in_order]) and subscribers all they asked for ([subscribers_see_every_match]); the
      accessor answers with what the chain said ([accessor_answers]).
    - Peer set: no run panics and the state stays well-formed ([peerset_never_panics]); the messages agree with
      the table at every moment ([peerset_history_legal]); allocation terminates, favours reserved peers and
      wastes no slot ([alloc_slots_fills]); what happens to incoming connections, bans and reputations.
    - Network: packets keep their order ([substream_sends_in_order]); handlers keep their contract
      ([handler_keeps_contract]); the behaviour does not panic, agrees with the peer set and with its user
      ([behaviour_never_panics], [behaviour_links_in_sync], [behaviour_api_contract]), but may lose a link
      ([reconnection_loses_link]) or forget to open ([inbound_substream_forgets_enable]).  The service follows
      it ([service_follows_protocols]); random queries back off ([random_queries_back_off]), what is known of a
      node is kept for ten minutes ([node_info_kept]) and the key for ever ([identity_persists]).  An
      acknowledged message of the overlay has arrived ([acknowledged_messages_arrived]).

    ** Conventions, bounds and fuel

    A machine integer is a [Z] with its range written out; arithmetic that leaves the range is a [Panic],
    as in a build with overflow checks, and wraps or saturates where the source says so.  A [usize] that
    counts elements of a collection held in memory is bounded by the size of that collection, which the
    invariants carry.  The key codecs work on [to_be_bytes], eight bytes, which the theorems use on values
    of [u64].  [assert!], [debug_assert!], [expect] and [unwrap] are [Panic]s and the theorems say where
    they cannot happen.  Logging and metrics are left out; so are locks, whose critical sections are single
    operations of one actor, except in [Stats], where a lock is what goes wrong.

    Loops that do not follow a list have fuel, and the theorems show when it is enough.
    - The two allocation loops of the peer set: each turn connects a peer, so one more than the number of known
      peers ([alloc_fuel]) does ([alloc_priority_ok], [alloc_highest_ok]).
    - The loop of the behaviour over the messages of the peer set: the theorems give a bound for every run.
    - A substream that shuts down ([shutdown_fuel]): one turn.  The loop of the service over the events of its
      behaviour: one turn for each and one ([poll_swarm_loop_ok]).  The timer of the random queries: two turns
      ([poll_random_query_ends]).
    - The ordering of the hops of ants ([format_loop]): one more than the number of hops.  Watching for a
      transaction: a hundred turns ([watch_transaction_ends]).  A payment: four messages for each hop.
    - The loops over Kademlia, mDNS, ping and identify end when libp2p has nothing more to say, which is not known;
      [random_queries_back_off] and [node_info_kept] are about every fuel with which they end.
    The decay of the reputations iterates once per elapsed second, by recursion on that number.

    ** What is not modelled

    The transport of libp2p, the arguments and child processes of the node and the mock chain of the tests are input and
    output around code outside the tree.  The threads and the runtime that drive the futures are left out; handlers of an actor run one after the other.
    The libra crates, RocksDB, petgraph, libp2p, tokio, protobuf and the actor runtime are not part of the
    sources; what the modelled code uses of them is a parameter. *)

From stdpp Require Export gmap strings list fin_maps sets.
From Stdlib Require Export ZArith Lia.

(** ** Outcomes of Rust code

    A Rust function that returns [Result<T>] and that may also panic has three outcomes.
    [Err] carries the leading words of the error message; [Panic] stands for [panic!],
    [unwrap]/[expect] on the wrong variant, a failed [assert!]/[debug_assert!], and an integer
    overflow (the debug profile's checks are on). *)
Inductive res (A : Type) : Type :=
| Ok (a : A)
| Err (e : string)
| Panic (e : string).
Arguments Ok {A} a.
Arguments Err {A} e.
Arguments Panic {A} e.

#[global] Instance res_ret : MRet res := fun A a => Ok a.
#[global] Instance res_bind : MBind res := fun A B f m =>
  match m with
  | Ok a => f a
  | Err e => Err e
  | Panic e => Panic e
  end.
#[global] Instance res_fmap : FMap res := fun A B f m =>
  match m with
  | Ok a => Ok (f a)
  | Err e => Err e
  | Panic e => Panic e
  end.

(** [ensure!(b, msg)] *)
Definition ensure (b : bool) (e : string) : res unit :=
  if b then Ok tt else Err e.

(** [assert!(b)], [debug_assert!(b)] *)
Definition rassert (b : bool) (e : string) : res unit :=
  if b then Ok tt else Panic e.

(** [o.ok_or(e)] *)
Definition ok_or {A} (o : option A) (e : string) : res A :=
  match o with Some a => Ok a | None => Err e end.

(** [o.unwrap()], [o.expect(e)] *)
Definition expect {A} (o : option A) (e : string) : res A :=
  match o with Some a => Ok a | None => Panic e end.

(** [r.unwrap()], [r.expect(..)] on a result *)
Definition expect_ok {A} (m : res A) : res A :=
  match m with Err e => Panic e | _ => m end.

Definition is_ok {A} (m : res A) : bool :=
  match m with Ok _ => true | _ => false end.
Definition no_panic {A} (m : res A) : Prop :=
  match m with Panic _ => False | _ => True end.

(** A [for] loop over [l] whose body may fail. *)
Fixpoint foldM {A S} (f : S -> A -> res S) (s : S) (l : list A) : res S :=
  match l with
  | [] => Ok s
  | x :: l' => s' ← f s x; foldM f s' l'
  end.

(** ** Stateful operations

    A method of a mutable object that may fail: the outcome, and the object after it, which an error
    leaves as far as it got. *)
Definition stM (S A : Type) : Type := S -> res A * S.

#[global] Instance stM_ret {S} : MRet (stM S) := fun A a s => (Ok a, s).
#[global] Instance stM_bind {S} : MBind (stM S) := fun A B f m s =>
  match m s with
  | (Ok a, s') => f a s'
  | (Err e, s') => (Err e, s')
  | (Panic e, s') => (Panic e, s')
  end.
Definition lift {S A} (r : res A) : stM S A := fun s => (r, s).
Definition getS {S} : stM S S := fun s => (Ok s, s).
Definition modifyS {S} (f : S -> S) : stM S unit := fun s => (Ok tt, f s).

(** [hoare I P m Q]: from [P], [m] establishes [Q] when it returns and [I] when it fails. *)
Definition hoare {S A} (I P : S -> Prop) (m : stM S A) (Q : A -> S -> Prop) : Prop :=
  forall s, P s -> match m s with (Ok a, s') => Q a s' | (_, s') => I s' end.

Section hoare.
Context {S : Type} (I : S -> Prop).

Lemma hoare_bind {A B} P (m : stM S A) Q (f : A -> stM S B) R :
  hoare I P m Q -> (forall a, hoare I (Q a) (f a) R) -> hoare I P (m ≫= f) R.
Proof.
  intros Hm Hf s HP. specialize (Hm s HP). unfold mbind, stM_bind. destruct (m s) as [[a|e|e] s']; [|done..].
  by apply Hf.
Qed.

(** Symbolic execution: the state is a known value. *)
Lemma hoare_get {A} (P : S -> Prop) (f : S -> stM S A) R :
  (forall s, P s -> hoare I (eq s) (f s) R) -> hoare I P (getS ≫= f) R.
Proof. intros Hf s HP. by apply (Hf s HP). Qed.

Lemma hoare_lift {A B} s (r : res A) (f : A -> stM S B) R :
  I s -> (forall a, r = Ok a -> hoare I (eq s) (f a) R) -> hoare I (eq s) (lift r ≫= f) R.
Proof. intros HI Hf s' <-. unfold mbind, stM_bind, lift. destruct r as [a|e|e]; [|done..]. by apply (Hf a). Qed.

Lemma hoare_lift_last {A} s (r : res A) (R : A -> S -> Prop) :
  I s -> (forall a, r = Ok a -> R a s) -> hoare I (eq s) (lift r) R.
Proof. intros HI Hf s' <-. unfold lift. destruct r as [a|e|e]; auto. Qed.

Lemma hoare_modify (P : S -> Prop) f (R : unit -> S -> Prop) : (forall s, P s -> R tt (f s)) -> hoare I P (modifyS f) R.
Proof. intros HR s HP. by apply HR. Qed.

Lemma hoare_modify_bind {A} s g (f : unit -> stM S A) R :
  hoare I (eq (g s)) (f tt) R -> hoare I (eq s) (modifyS g ≫= f) R.
Proof. intros Hf s' <-. by apply Hf. Qed.

Lemma hoare_ret {A} (P : S -> Prop) (a : A) (R : A -> S -> Prop) : (forall s, P s -> R a s) -> hoare I P (mret a) R.
Proof. intros HR s HP. by apply HR. Qed.

Lemma hoare_eq {A} (P : S -> Prop) (m : stM S A) R : (forall s, P s -> hoare I (eq s) m R) -> hoare I P m R.
Proof. intros Hm s HP. by apply (Hm s HP). Qed.

Lemma hoare_pre {A} (P P' : S -> Prop) (m : stM S A) Q : (forall s, P s -> P' s) -> hoare I P' m Q -> hoare I P m Q.
Proof. intros HP Hm s Hs. by apply Hm, HP. Qed.

Lemma hoare_post {A} P (m : stM S A) (Q Q' : A -> S -> Prop) : (forall a s, Q a s -> Q' a s) -> hoare I P m Q -> hoare I P m Q'.
Proof. intros HQ Hm s Hs. specialize (Hm s Hs). destruct (m s) as [[a|e|e] s']; auto. Qed.
End hoare.

(** A stateful sequence that returns. *)
Lemma stM_bind_Ok {S T U} (m : stM S T) (f : T -> stM S U) s u s' : (m ≫= f) s = (Ok u, s') ->
  exists a s1, m s = (Ok a, s1) /\ f a s1 = (Ok u, s').
Proof. unfold mbind, stM_bind. destruct (m s) as [[a|e|e] s1]; naive_solver. Qed.
Lemma stM_lift_Ok {S T U} (r : res T) (f : T -> stM S U) s u s' : (lift r ≫= f) s = (Ok u, s') ->
  exists a, r = Ok a /\ f a s = (Ok u, s').
Proof. intros (a & s1 & [= -> <-] & H)%stM_bind_Ok. eauto. Qed.

(** ** Machine integers *)

Definition u8_max : Z := 2 ^ 8 - 1.
Definition u32_max : Z := 2 ^ 32 - 1.
Definition u64_max : Z := 2 ^ 64 - 1.
Definition i32_min : Z := - 2 ^ 31.
Definition i32_max : Z := 2 ^ 31 - 1.

Definition in_u8 (z : Z) : Prop := (0 <= z <= u8_max)%Z.
Definition in_u32 (z : Z) : Prop := (0 <= z <= u32_max)%Z.
Definition in_u64 (z : Z) : Prop := (0 <= z <= u64_max)%Z.
Definition in_i32 (z : Z) : Prop := (i32_min <= z <= i32_max)%Z.

(** [a + b] and [a - b] on [u32] and [u64]: overflow panics. *)
Definition add_u32 (a b : Z) : res Z :=
  if bool_decide (a + b <= u32_max)%Z then Ok (a + b)%Z else Panic "attempt to add with overflow".
Definition sub_u32 (a b : Z) : res Z :=
  if bool_decide (b <= a)%Z then Ok (a - b)%Z else Panic "attempt to subtract with overflow".
Definition add_u64 (a b : Z) : res Z :=
  if bool_decide (a + b <= u64_max)%Z then Ok (a + b)%Z else Panic "attempt to add with overflow".
Definition sub_u64 (a b : Z) : res Z :=
  if bool_decide (b <= a)%Z then Ok (a - b)%Z else Panic "attempt to subtract with overflow".

(** [i32::saturating_add], [i32::saturating_sub] *)
Definition sat_i32 (z : Z) : Z := Z.max i32_min (Z.min i32_max z).
Definition saturating_add_i32 (a b : Z) : Z := sat_i32 (a + b).
Definition saturating_sub_i32 (a b : Z) : Z := sat_i32 (a - b).

(** Time: [Duration]s and [Instant]s are nanoseconds; [Duration::as_secs] rounds down. *)
Definition NANOS_PER_SEC : Z := 10 ^ 9.
Definition as_secs (d : Z) : Z := d / NANOS_PER_SEC.
Definition from_secs (s : Z) : Z := s * NANOS_PER_SEC.

(** ** Iteration order of [HashMap] and [HashSet]

    The order in which Rust's hash containers iterate is unspecified.  Code that depends on it is
    modelled over an arbitrary [HashOrder]: any listing of the entries, each exactly once. *)
Class HashOrder := {
  hm_iter : forall {K V} `{Countable K}, gmap K V -> list (K * V);
  hs_iter : forall {K} `{Countable K}, gset K -> list K;
  hm_iter_perm : forall {K V} `{Countable K} (m : gmap K V), hm_iter m ≡ₚ map_to_list m;
  hs_iter_perm : forall {K} `{Countable K} (X : gset K), hs_iter X ≡ₚ elements X
}.

(** One such order, used to run the definitions. *)
#[refine] Definition canonical_order : HashOrder := {|
  hm_iter := fun K V _ _ m => map_to_list m;
  hs_iter := fun K _ _ X => elements X
|}.
Proof. all: done. Defined.

(** The reverse order: a second instance, so that a statement over every order is about more than
    one. *)
#[refine] Definition reversed_order : HashOrder := {|
  hm_iter := fun K V _ _ m => reverse (map_to_list m);
  hs_iter := fun K _ _ X => reverse (elements X)
|}.
Proof. all: intros; apply reverse_Permutation. Defined.

(** ** Counting entries of a map *)

Section count.
Context `{Countable K}.

Definition map_count {V} (f : K -> V -> bool) (m : gmap K V) : Z := Z.of_nat (size (filter (fun kv => f kv.1 kv.2 = true) m)).

Definition b2z (b : bool) : Z := if b then 1%Z else 0%Z.

Context {V : Type}.
Implicit Types (f : K -> V -> bool) (m : gmap K V).

Lemma map_count_nonneg f m : (0 <= map_count f m)%Z.
Proof. unfold map_count. lia. Qed.

Lemma map_count_empty f : map_count f ∅ = 0%Z.
Proof. unfold map_count. by rewrite map_filter_empty, map_size_empty. Qed.

Lemma map_count_le_size f m : (map_count f m <= Z.of_nat (size m))%Z.
Proof.
  unfold map_count. apply inj_le, map_subseteq_size, map_filter_subseteq.
Qed.

Lemma map_count_insert_None f m k v :
  m !! k = None -> map_count f (<[k:=v]> m) = (map_count f m + b2z (f k v))%Z.
Proof.
  intros Hk. unfold map_count. destruct (f k v) eqn:Hf; simpl.
  - rewrite map_filter_insert_True by done.
    rewrite map_size_insert_None; [lia|]. by apply map_lookup_filter_None_2; left.
  - rewrite map_filter_insert_not'; [lia | simpl; congruence | intros; simplify_eq].
Qed.

Lemma map_count_delete f m k v :
  m !! k = Some v -> map_count f (delete k m) = (map_count f m - b2z (f k v))%Z.
Proof.
  intros Hk.
  assert (map_count f m = map_count f (delete k m) + b2z (f k v))%Z as ->; [|lia].
  rewrite <-map_count_insert_None by apply lookup_delete_eq.
  by rewrite insert_delete_id.
Qed.

Lemma map_count_insert_Some f m k v w :
  m !! k = Some v -> map_count f (<[k:=w]> m) = (map_count f m - b2z (f k v) + b2z (f k w))%Z.
Proof.
  intros Hk. rewrite <-insert_delete_eq, map_count_insert_None by apply lookup_delete_eq.
  by rewrite (map_count_delete _ _ _ v).
Qed.

Lemma map_count_ext f g m :
  (forall k v, m !! k = Some v -> f k v = g k v) -> map_count f m = map_count g m.
Proof.
  intros Hext. unfold map_count. do 2 f_equal.
  apply map_filter_strong_ext_1. intros k v; simpl. split; intros [Hf Hk]; split; try done;
    by rewrite ?(Hext _ _ Hk) in *; rewrite <-?(Hext _ _ Hk) in *.
Qed.

Lemma map_count_pos f m k v :
  m !! k = Some v -> f k v = true -> (1 <= map_count f m)%Z.
Proof.
  intros Hk Hf. rewrite <-(insert_delete_id m k v Hk).
  rewrite map_count_insert_None by apply lookup_delete_eq. rewrite Hf. simpl.
  pose proof (map_count_nonneg f (delete k m)). lia.
Qed.

Lemma map_count_mono f g m :
  (forall k v, m !! k = Some v -> f k v = true -> g k v = true) ->
  (map_count f m <= map_count g m)%Z.
Proof.
  revert f g. induction m as [|k v m Hk IH] using map_ind; intros f g Hfg.
  { by rewrite !map_count_empty. }
  rewrite !map_count_insert_None by done.
  assert (map_count f m <= map_count g m)%Z.
  { apply IH. intros k' v' Hk'. apply Hfg. rewrite lookup_insert_ne; [done|congruence]. }
  specialize (Hfg k v (lookup_insert_eq _ _ _)).
  destruct (f k v), (g k v); simpl; try lia.
Qed.
End count.

Lemma map_count_fmap `{Countable K} {V W} (g : V -> W) (f : K -> W -> bool) (m : gmap K V) :
  map_count f (g <$> m) = map_count (fun k v => f k (g v)) m.
Proof.
  induction m as [|k v m Hk IH] using map_ind.
  { by rewrite fmap_empty, !map_count_empty. }
  rewrite fmap_insert, !map_count_insert_None, IH; [done|done|]. by rewrite lookup_fmap, Hk.
Qed.
#[global] Opaque map_count.

(** ** Iteration lemmas *)

Lemma elem_of_hm_iter `{HashOrder} `{Countable K} {V} (m : gmap K V) k v :
  (k, v) ∈ hm_iter m <-> m !! k = Some v.
Proof. by rewrite hm_iter_perm, elem_of_map_to_list. Qed.

Lemma elem_of_hs_iter `{HashOrder} `{Countable K} (X : gset K) k :
  k ∈ hs_iter X <-> k ∈ X.
Proof. by rewrite hs_iter_perm, elem_of_elements. Qed.

Lemma NoDup_hs_iter `{HashOrder} `{Countable K} (X : gset K) : NoDup (hs_iter X).
Proof. rewrite hs_iter_perm. apply NoDup_elements. Qed.

Lemma NoDup_hm_iter_fst `{HashOrder} `{Countable K} {V} (m : gmap K V) : NoDup (hm_iter m).*1.
Proof. rewrite hm_iter_perm. apply NoDup_fst_map_to_list. Qed.

Lemma foldM_app {A S} (f : S -> A -> res S) s l1 l2 :
  foldM f s (l1 ++ l2) = s' ← foldM f s l1; foldM f s' l2.
Proof. revert s. induction l1 as [|x l1 IH]; intros s; simpl; [done|]. by destruct (f s x); simpl. Qed.

(** ** Automation *)

Create HintDb sg discriminated.
#[export] Hint Resolve map_count_nonneg : sg.
#[export] Hint Unfold in_u8 in_u32 in_u64 in_i32 u8_max u32_max u64_max i32_min i32_max : sg.

Lemma Ok_inj {A} (a b : A) : Ok a = Ok b -> a = b.
Proof. by inversion 1. Qed.

Lemma bind_Ok {A B} (f : A -> res B) (m : res A) b :
  m ≫= f = Ok b -> exists a, m = Ok a /\ f a = Ok b.
Proof. destruct m; simpl; [eauto|discriminate..]. Qed.

(** A bind that succeeds. *)
Lemma bind_Ok_iff {A B} (m : res A) (f : A -> res B) b : m ≫= f = Ok b <-> exists a, m = Ok a /\ f a = Ok b.
Proof. destruct m; simpl; split; naive_solver. Qed.

Lemma no_panic_bind {A B} (m : res A) (f : A -> res B) : no_panic m -> (forall a, no_panic (f a)) -> no_panic (m ≫= f).
Proof. destruct m; simpl; auto. Qed.

Lemma ensure_Ok b e u : ensure b e = Ok u <-> b = true.
Proof. destruct u, b; simpl; split; done. Qed.

Lemma add_u32_Ok a b : (a + b <= u32_max)%Z -> add_u32 a b = Ok (a + b)%Z.
Proof. intros. unfold add_u32. by rewrite bool_decide_eq_true_2. Qed.
Lemma sub_u32_Ok a b : (b <= a)%Z -> sub_u32 a b = Ok (a - b)%Z.
Proof. intros. unfold sub_u32. by rewrite bool_decide_eq_true_2. Qed.
Lemma add_u64_Ok a b : (a + b <= u64_max)%Z -> add_u64 a b = Ok (a + b)%Z.
Proof. intros. unfold add_u64. by rewrite bool_decide_eq_true_2. Qed.
Lemma sub_u64_Ok a b : (b <= a)%Z -> sub_u64 a b = Ok (a - b)%Z.
Proof. intros. unfold sub_u64. by rewrite bool_decide_eq_true_2. Qed.

(** Split the hypotheses of the form [m ≫= k = Ok _] of the context into their steps. *)
Ltac inv_ok :=
  repeat match goal with
  | H : Ok _ = Ok _ |- _ => apply Ok_inj in H; subst
  | H : Err _ = Ok _ |- _ => discriminate H
  | H : Panic _ = Ok _ |- _ => discriminate H
  | H : mret _ = Ok _ |- _ => apply Ok_inj in H; subst
  | H : (_ ≫= _) = Ok _ |- _ =>
      let a := fresh "a" in let E := fresh "E" in
      apply bind_Ok in H as (a & E & H); simpl in H
  end.

(** Reduce [Ok a ≫= k] to [k a] and nothing else. *)
Ltac rstep := cbn [mbind res_bind].
