(* ===== verification/PeersState.v ===== *)
(** * The state behind the peer set manager

    Models [network-libp2p/peerset/src/peersstate.rs]: the nodes a peer knows, the slot counters and
    the priority groups, with the bookkeeping invariant of the slot counters. *)

From S2P Require Import Prelude.

(** Whether we are connected to a node. *)
Module ConnectionState.
Inductive t := In | Out | NotConnected.
End ConnectionState.
#[global] Instance ConnectionState_eq_dec : EqDecision ConnectionState.t.
Proof. solve_decision. Defined.

Definition is_connected (c : ConnectionState.t) : bool :=
  match c with
  | ConnectionState.In => true
  | ConnectionState.Out => true
  | ConnectionState.NotConnected => false
  end.

(** State of a single node that we know about; [reputation] is an [i32]. *)
Record Node := mkNode { connection_state : ConnectionState.t; reputation_of : Z }.
#[global] Instance Node_eq_dec : EqDecision Node.
Proof. solve_decision. Defined.

Definition Node_default : Node :=
  {| connection_state := ConnectionState.NotConnected; reputation_of := 0 |}.

Definition set_connection (c : ConnectionState.t) (n : Node) : Node :=
  {| connection_state := c; reputation_of := reputation_of n |}.
Definition with_reputation (r : Z) (n : Node) : Node :=
  {| connection_state := connection_state n; reputation_of := r |}.

(** Two default maps merge into the default map of the union. *)
Lemma gset_to_gmap_union_default `{Countable K} {V} (v : V) (X Y : gset K) :
  gset_to_gmap v X ∪ gset_to_gmap v Y = gset_to_gmap v (X ∪ Y).
Proof.
  apply map_eq. intros k. apply option_eq. intros w.
  rewrite lookup_union_Some_raw, !lookup_gset_to_gmap_Some, lookup_gset_to_gmap_None.
  destruct (decide (k ∈ X)); set_solver.
Qed.

Section peers_state.
Context {PeerId : Type} `{Countable PeerId} `{HashOrder}.

Record PeersState := mkPeersState {
  nodes : gmap PeerId Node;
  num_in : Z;
  num_out : Z;
  max_in : Z;
  max_out : Z;
  priority_nodes : gmap string (gset PeerId);
  priority_only : bool
}.

Implicit Types (s : PeersState) (id : PeerId).

Definition set_nodes (ns : gmap PeerId Node) s : PeersState :=
  mkPeersState ns (num_in s) (num_out s) (max_in s) (max_out s) (priority_nodes s) (priority_only s).
Definition set_num_in (n : Z) s : PeersState :=
  mkPeersState (nodes s) n (num_out s) (max_in s) (max_out s) (priority_nodes s) (priority_only s).
Definition set_num_out (n : Z) s : PeersState :=
  mkPeersState (nodes s) (num_in s) n (max_in s) (max_out s) (priority_nodes s) (priority_only s).
Definition set_groups (g : gmap string (gset PeerId)) s : PeersState :=
  mkPeersState (nodes s) (num_in s) (num_out s) (max_in s) (max_out s) g (priority_only s).

(** [PeersState::new] *)
Definition new (in_peers out_peers : Z) (only : bool) : PeersState :=
  mkPeersState ∅ 0 0 in_peers out_peers ∅ only.

(** The three variants of the handle that [PeersState::peer] returns.  A handle borrows the state,
    so its methods are the functions below applied to the state and the peer. *)
Inductive Peer := Connected | NotConnectedPeer | Unknown.

Definition peer s id : Peer :=
  match nodes s !! id with
  | None => Unknown
  | Some n => if is_connected (connection_state n) then Connected else NotConnectedPeer
  end.

(** [PeersState::peers] *)
Definition peers s : list PeerId := (hm_iter (nodes s)).*1.

(** [PeersState::connected_peers] *)
Definition connected_peers s : list PeerId :=
  (List.filter (fun p : PeerId * Node => is_connected (connection_state p.2)) (hm_iter (nodes s))).*1.

(** The test both priority searches apply: a known node we are not connected to. *)
Definition known_not_connected s id : bool :=
  match nodes s !! id with
  | None => false
  | Some n => negb (is_connected (connection_state n))
  end.

(** [PeersState::priority_not_connected_peer] *)
Definition priority_not_connected_peer s : option PeerId :=
  List.find (known_not_connected s)
    (flat_map (fun g : string * gset PeerId => hs_iter g.2) (hm_iter (priority_nodes s))).

(** [PeersState::priority_not_connected_peer_from_group] *)
Definition priority_not_connected_peer_from_group s (group_id : string) : option PeerId :=
  match priority_nodes s !! group_id with
  | None => None
  | Some group => List.find (known_not_connected s) (hs_iter group)
  end.

(** The fold of [PeersState::highest_not_connected_peer]: the first of the best so far is kept. *)
Definition highest_step (cur : option (PeerId * Node)) (to_try : PeerId * Node)
    : option (PeerId * Node) :=
  match cur with
  | Some c => if bool_decide (reputation_of c.2 >= reputation_of to_try.2)%Z then Some c else Some to_try
  | None => Some to_try
  end.

(** [PeersState::highest_not_connected_peer] *)
Definition highest_not_connected_peer s : option PeerId :=
  fst <$> fold_left highest_step
    (List.filter (fun p : PeerId * Node => negb (is_connected (connection_state p.2)))
       (hm_iter (nodes s))) None.

(** [PeersState::is_priority] *)
Definition is_priority s id : bool :=
  existsb (fun g : string * gset PeerId => bool_decide (id ∈ g.2)) (hm_iter (priority_nodes s)).

(** [PeersState::disconnect] *)
Definition disconnect s id : res PeersState :=
  let prio := is_priority s id in
  match nodes s !! id with
  | Some node =>
      s1 ← (if prio then Ok s else
              match connection_state node with
              | ConnectionState.In => n ← sub_u32 (num_in s) 1; Ok (set_num_in n s)
              | ConnectionState.Out => n ← sub_u32 (num_out s) 1; Ok (set_num_out n s)
              | ConnectionState.NotConnected =>
                  Panic "State inconsistency: disconnecting a disconnected node"
              end);
      Ok (set_nodes (<[id := set_connection ConnectionState.NotConnected node]> (nodes s1)) s1)
  | None => Ok s
  end.

(** [PeersState::try_outgoing] *)
Definition try_outgoing s id : res (bool * PeersState) :=
  let prio := is_priority s id in
  if negb prio && priority_only s then Ok (false, s)
  else if bool_decide (num_out s >= max_out s)%Z && negb prio then Ok (false, s)
  else match nodes s !! id with
       | Some p =>
           let s1 := set_nodes (<[id := set_connection ConnectionState.Out p]> (nodes s)) s in
           s2 ← (if prio then Ok s1 else n ← add_u32 (num_out s1) 1; Ok (set_num_out n s1));
           Ok (true, s2)
       | None => Ok (false, s)
       end.

(** [PeersState::try_accept_incoming] *)
Definition try_accept_incoming s id : res (bool * PeersState) :=
  let prio := is_priority s id in
  if negb prio && priority_only s then Ok (false, s)
  else if bool_decide (num_in s >= max_in s)%Z && negb prio then Ok (false, s)
  else match nodes s !! id with
       | Some p =>
           let s1 := set_nodes (<[id := set_connection ConnectionState.In p]> (nodes s)) s in
           s2 ← (if prio then Ok s1 else n ← add_u32 (num_in s1) 1; Ok (set_num_in n s1));
           Ok (true, s2)
       | None => Ok (false, s)
       end.

(** The union of the groups other than [group_id]. *)
Definition all_other_groups s (group_id : string) : gset PeerId :=
  ⋃ (hm_iter (delete group_id (priority_nodes s))).*2.

(** First loop of [set_priority_group]: a node that leaves the group takes a slot again. *)
Definition demote (others : gset PeerId) s id : res PeersState :=
  if bool_decide (id ∈ others) then Ok s else
  match nodes s !! id with
  | Some p =>
      match connection_state p with
      | ConnectionState.In => n ← add_u32 (num_in s) 1; Ok (set_num_in n s)
      | ConnectionState.Out => n ← add_u32 (num_out s) 1; Ok (set_num_out n s)
      | ConnectionState.NotConnected => Ok s
      end
  | None => Ok s
  end.

(** Second loop of [set_priority_group]: a node that joins the group gives its slot back; an unknown
    node is inserted. *)
Definition promote (others : gset PeerId) s id : res PeersState :=
  if bool_decide (id ∈ others) then Ok s else
  let p := default Node_default (nodes s !! id) in
  let s1 := set_nodes (<[id := p]> (nodes s)) s in
  match connection_state p with
  | ConnectionState.In => n ← sub_u32 (num_in s1) 1; Ok (set_num_in n s1)
  | ConnectionState.Out => n ← sub_u32 (num_out s1) 1; Ok (set_num_out n s1)
  | ConnectionState.NotConnected => Ok s1
  end.

(** [PeersState::set_priority_group] *)
Definition set_priority_group s (group_id : string) (ids : gset PeerId) : res PeersState :=
  let others := all_other_groups s group_id in
  let existing := default ∅ (priority_nodes s !! group_id) in
  let s0 := set_groups (delete group_id (priority_nodes s)) s in
  s1 ← foldM (demote others) s0 (hs_iter existing);
  s2 ← foldM (promote others) s1 (hs_iter ids);
  Ok (set_groups (<[group_id := ids]> (priority_nodes s2)) s2).

(** [PeersState::get_priority_group] *)
Definition get_priority_group s (group_id : string) : option (gset PeerId) :=
  priority_nodes s !! group_id.

(** [PeersState::add_to_priority_group] *)
Definition add_to_priority_group s (group_id : string) id : res PeersState :=
  set_priority_group s group_id ({[id]} ∪ default ∅ (priority_nodes s !! group_id)).

(** [PeersState::remove_from_priority_group] *)
Definition remove_from_priority_group s (group_id : string) id : res PeersState :=
  set_priority_group s group_id (default ∅ (priority_nodes s !! group_id) ∖ {[id]}).

(** [PeersState::set_priority_only] *)
Definition set_priority_only s (b : bool) : PeersState :=
  mkPeersState (nodes s) (num_in s) (num_out s) (max_in s) (max_out s) (priority_nodes s) b.

(** [PeersState::reputation] *)
Definition reputation s id : Z :=
  match nodes s !! id with Some p => reputation_of p | None => 0%Z end.

(** [PeersState::set_reputation] *)
Definition set_reputation s id (value : Z) : PeersState :=
  set_nodes (<[id := with_reputation value (default Node_default (nodes s !! id))]> (nodes s)) s.

(** [PeersState::add_reputation] *)
Definition add_reputation s id (modifier : Z) : PeersState :=
  let node := default Node_default (nodes s !! id) in
  set_nodes (<[id := with_reputation (saturating_add_i32 (reputation_of node) modifier) node]> (nodes s)) s.

(** [UnknownPeer::discover] *)
Definition discover s id : PeersState :=
  set_nodes (<[id := {| connection_state := ConnectionState.NotConnected; reputation_of := 0 |}]> (nodes s)) s.

(** ** Invariant *)

(** The peers of some priority group. *)
Definition prio_set s : gset PeerId := ⋃ (hm_iter (priority_nodes s)).*2.

(** The number of nodes outside [X] in connection state [c]. *)
Definition taken (X : gset PeerId) (c : ConnectionState.t) (m : gmap PeerId Node) : Z :=
  map_count (fun id n => bool_decide (id ∉ X) && bool_decide (connection_state n = c)) m.

(** The counters count the nodes outside [X] that hold a slot. *)
Definition slots_ok (X : gset PeerId) s : Prop :=
  num_in s = taken X ConnectionState.In (nodes s) /\
  num_out s = taken X ConnectionState.Out (nodes s).

Record wf s : Prop := {
  wf_slots : slots_ok (prio_set s) s;
  wf_known : prio_set s ⊆ dom (nodes s);
  wf_rep : map_Forall (fun _ n => in_i32 (reputation_of n)) (nodes s);
  wf_max_in : in_u32 (max_in s);
  wf_max_out : in_u32 (max_out s)
}.

(** Fewer nodes than a [u32] counts: the counters cannot overflow. *)
Definition bounded s : Prop := (Z.of_nat (size (nodes s)) <= u32_max)%Z.

(** ** Lemmas *)

Lemma elem_of_prio_set s id :
  id ∈ prio_set s <-> exists g X, priority_nodes s !! g = Some X /\ id ∈ X.
Proof.
  unfold prio_set. rewrite elem_of_union_list. split.
  - intros (X & HX & Hid). apply list_elem_of_fmap in HX as ([g X'] & -> & Hg).
    apply elem_of_hm_iter in Hg. eauto.
  - intros (g & X & Hg & Hid). exists X. split; [|done].
    apply list_elem_of_fmap. exists (g, X). by rewrite elem_of_hm_iter.
Qed.

Lemma elem_of_all_other_groups s g id :
  id ∈ all_other_groups s g <->
  exists g' X, g' <> g /\ priority_nodes s !! g' = Some X /\ id ∈ X.
Proof.
  change (all_other_groups s g) with (prio_set (set_groups (delete g (priority_nodes s)) s)).
  rewrite elem_of_prio_set; simpl. split.
  - intros (g' & X & Hg & ?). apply lookup_delete_Some in Hg as [??]. exists g', X. naive_solver.
  - intros (g' & X & ? & Hg & ?). exists g', X. by rewrite lookup_delete_ne.
Qed.

Lemma is_priority_spec s id : is_priority s id = bool_decide (id ∈ prio_set s).
Proof.
  unfold is_priority. apply eq_bool_prop_intro. rewrite existb_True, bool_decide_spec, elem_of_prio_set.
  rewrite Exists_exists. split.
  - intros ([g X] & Hg & Hid%bool_decide_unpack). apply elem_of_hm_iter in Hg. eauto.
  - intros (g & X & Hg & Hid). exists (g, X). rewrite elem_of_hm_iter. split; [done|].
    by apply bool_decide_pack.
Qed.

Lemma prio_set_split s g :
  prio_set s = all_other_groups s g ∪ default ∅ (priority_nodes s !! g).
Proof.
  apply set_eq. intros id. rewrite elem_of_union, elem_of_prio_set, elem_of_all_other_groups. split.
  - intros (g' & X & Hg & Hid). destruct (decide (g' = g)) as [->|]; [|eauto 10].
    right. by rewrite Hg.
  - intros [(g' & X & _ & ? & ?)|Hid]; [eauto|].
    destruct (priority_nodes s !! g) as [X|] eqn:?; simpl in *; [eauto|set_solver].
Qed.

Lemma prio_set_insert s g ids :
  prio_set (set_groups (<[g := ids]> (delete g (priority_nodes s))) s) = all_other_groups s g ∪ ids.
Proof.
  rewrite (prio_set_split _ g). simpl. rewrite lookup_insert_eq. simpl. f_equal.
  apply set_eq. intros id. rewrite !elem_of_all_other_groups. simpl.
  split; intros (g' & X & ? & Hg & ?); exists g', X; split_and!; try done;
    [rewrite lookup_insert_ne, lookup_delete_ne in Hg by done
    |rewrite lookup_insert_ne, lookup_delete_ne by done]; done.
Qed.

(** [prio_set] only depends on the groups. *)
Lemma prio_set_groups s s' : priority_nodes s = priority_nodes s' -> prio_set s = prio_set s'.
Proof. unfold prio_set. by intros ->. Qed.

Definition at_conn (m : gmap PeerId Node) id (c : ConnectionState.t) : Z :=
  match m !! id with Some n => b2z (bool_decide (connection_state n = c)) | None => 0%Z end.

Lemma taken_nonneg X c m : (0 <= taken X c m)%Z.
Proof. apply map_count_nonneg. Qed.

Lemma taken_le_size X c m : (taken X c m <= Z.of_nat (size m))%Z.
Proof. apply map_count_le_size. Qed.

Lemma taken_add X c m id : id ∉ X -> (taken ({[id]} ∪ X) c m + at_conn m id c = taken X c m)%Z.
Proof.
  intros Hid. unfold taken, at_conn. destruct (m !! id) as [n|] eqn:Hm.
  - rewrite <-(insert_delete_id m id n Hm), !map_count_insert_None by apply lookup_delete_eq.
    rewrite (bool_decide_eq_false_2 (id ∉ {[id]} ∪ X)) by set_solver.
    rewrite (bool_decide_eq_true_2 (id ∉ X)) by done. simpl.
    match goal with |- (map_count ?f ?m + _ + _ = map_count ?g ?m + _)%Z =>
      rewrite (map_count_ext f g m); [lia|] end.
    intros id' n' [? _]%lookup_delete_Some. simpl. f_equal. apply bool_decide_ext. set_solver.
  - rewrite Z.add_0_r. apply map_count_ext. intros id' n' ?. simpl. f_equal. apply bool_decide_ext.
    assert (id <> id') by congruence. set_solver.
Qed.

(** Changing the node of a peer that holds no slot leaves the counts alone. *)
Lemma taken_insert_exempt X c m id n : id ∈ X -> taken X c (<[id := n]> m) = taken X c m.
Proof.
  intros Hid. unfold taken.
  assert (bool_decide (id ∉ X) = false) as Hb by (apply bool_decide_eq_false; naive_solver).
  destruct (m !! id) as [n'|] eqn:Hm.
  - rewrite (map_count_insert_Some _ _ _ n'), Hb by done. simpl. lia.
  - rewrite map_count_insert_None, Hb by done. simpl. lia.
Qed.

Lemma taken_insert X c m id n : id ∉ X ->
  taken X c (<[id := n]> m) = (taken X c m - at_conn m id c + b2z (bool_decide (connection_state n = c)))%Z.
Proof.
  intros Hid. unfold taken, at_conn.
  assert (bool_decide (id ∉ X) = true) as Hb by by apply bool_decide_eq_true.
  destruct (m !! id) as [n'|] eqn:Hm.
  - rewrite (map_count_insert_Some _ _ _ n'), Hb by done. simpl. lia.
  - rewrite map_count_insert_None, Hb by done. simpl. lia.
Qed.

(** A node update that keeps the connection state keeps the counts. *)
Lemma taken_insert_same X c m id n n' :
  m !! id = Some n -> connection_state n = connection_state n' ->
  taken X c (<[id := n']> m) = taken X c m.
Proof.
  intros Hm Hc. destruct (decide (id ∈ X)); [by apply taken_insert_exempt|].
  rewrite taken_insert by done. unfold at_conn. rewrite Hm, Hc. lia.
Qed.

(** Inserting an unconnected node keeps the counts of [In] and [Out]. *)
Lemma taken_insert_new X c m id n :
  m !! id = None -> connection_state n = ConnectionState.NotConnected ->
  c <> ConnectionState.NotConnected -> taken X c (<[id := n]> m) = taken X c m.
Proof.
  intros Hm Hn Hc. destruct (decide (id ∈ X)); [by apply taken_insert_exempt|].
  rewrite taken_insert by done. unfold at_conn. rewrite Hm, Hn, bool_decide_eq_false_2 by done. simpl. lia.
Qed.

Lemma taken_pos X c m id n :
  m !! id = Some n -> connection_state n = c -> id ∉ X -> (1 <= taken X c m)%Z.
Proof. intros Hm Hc HX. eapply map_count_pos; [done|]. by rewrite !bool_decide_eq_true_2. Qed.

(** *** The two loops of [set_priority_group] *)

(** The fields no slot operation writes. *)
Definition ps_frame s t : Prop :=
  priority_nodes t = priority_nodes s /\ max_in t = max_in s /\ max_out t = max_out s /\
  priority_only t = priority_only s.

#[global] Instance ps_frame_preorder : PreOrder ps_frame.
Proof.
  split; [by intros s|]. intros s t u (?&?&?&?) (?&?&?&?). unfold ps_frame. split_and!; congruence.
Qed.

Lemma demote_step others Z s id :
  bounded s -> others ⊆ Z -> (id ∈ others \/ id ∉ Z) -> slots_ok ({[id]} ∪ Z) s ->
  exists t, demote others s id = Ok t /\ slots_ok Z t /\ nodes t = nodes s /\ ps_frame s t.
Proof.
  intros Hb HoZ Hid [Hin Hout]. unfold demote. case_bool_decide as Ho.
  { exists s. replace ({[id]} ∪ Z) with Z in Hin, Hout by set_solver. split_and!; done. }
  assert (id ∉ Z) as HZ by naive_solver.
  pose proof (taken_add Z ConnectionState.In (nodes s) id HZ) as Ain.
  pose proof (taken_add Z ConnectionState.Out (nodes s) id HZ) as Aout.
  pose proof (taken_le_size Z ConnectionState.In (nodes s)).
  pose proof (taken_le_size Z ConnectionState.Out (nodes s)).
  unfold bounded, at_conn in *. destruct (nodes s !! id) as [p|] eqn:Hp.
  - destruct (connection_state p) eqn:Hc; simpl in *; try rewrite add_u32_Ok by lia; simpl;
      eexists; (split_and!; [done|split; simpl; lia|done..]).
  - exists s. split_and!; [done|split; lia|done..].
Qed.

Lemma demote_loop others l s :
  bounded s -> NoDup l -> slots_ok (others ∪ list_to_set l) s ->
  exists t, foldM (demote others) s l = Ok t /\ slots_ok others t /\ nodes t = nodes s /\ ps_frame s t.
Proof.
  intros Hb Hnd. revert s Hb. induction Hnd as [|id l Hid Hnd IH]; intros s Hb Hok; simpl in *.
  { exists s. rewrite (right_id_L ∅ (∪)) in Hok. done. }
  destruct (demote_step others (others ∪ list_to_set l) s id) as (t & -> & Ht & Hn & Hf);
    [done|set_solver|destruct (decide (id ∈ others)); set_solver| |].
  { by replace ({[id]} ∪ (others ∪ list_to_set l)) with (others ∪ ({[id]} ∪ list_to_set l)) by set_solver. }
  destruct (IH t) as (u & Hu & ? & ? & ?); [unfold bounded; by rewrite Hn|done|].
  exists u. split_and!; [done..|congruence|by etrans].
Qed.

(** The map [promote] leaves: the known nodes, plus a default node for each new peer. *)
Definition with_defaults (m : gmap PeerId Node) (X : gset PeerId) : gmap PeerId Node :=
  m ∪ gset_to_gmap Node_default X.

Lemma with_defaults_empty m : with_defaults m ∅ = m.
Proof. unfold with_defaults. by rewrite gset_to_gmap_empty, (right_id_L ∅ (∪)). Qed.

Lemma with_defaults_insert m id X :
  with_defaults (<[id := default Node_default (m !! id)]> m) X = with_defaults m ({[id]} ∪ X).
Proof.
  unfold with_defaults. apply map_eq. intros k. rewrite gset_to_gmap_union_singleton, !lookup_union.
  destruct (decide (k = id)) as [->|Hk].
  - rewrite !lookup_insert_eq. destruct (m !! id); simpl; by destruct (gset_to_gmap _ _ !! _).
  - by rewrite !lookup_insert_ne by done.
Qed.

Lemma promote_step others Z s id :
  others ⊆ Z -> (id ∈ others \/ id ∉ Z) -> slots_ok Z s ->
  exists t, promote others s id = Ok t /\ slots_ok ({[id]} ∪ Z) t /\
    nodes t = with_defaults (nodes s) ({[id]} ∖ others) /\ ps_frame s t.
Proof.
  intros HoZ Hid Hok. unfold promote. case_bool_decide as Ho.
  { exists s. replace ({[id]} ∪ Z) with Z by set_solver.
    replace ({[id]} ∖ others) with (∅ : gset PeerId) by set_solver. by rewrite with_defaults_empty. }
  assert (id ∉ Z) as HZ by naive_solver.
  replace ({[id]} ∖ others) with ({[id]} ∪ ∅ : gset PeerId) by set_solver.
  rewrite <-with_defaults_insert, with_defaults_empty.
  set (p := default Node_default (nodes s !! id)). set (m := <[id := p]> (nodes s)).
  assert (forall c, c <> ConnectionState.NotConnected -> taken Z c m = taken Z c (nodes s)) as Hm.
  { intros c Hc. unfold m, p. destruct (nodes s !! id) as [n|] eqn:Hn; simpl.
    - by eapply taken_insert_same.
    - by apply taken_insert_new. }
  destruct Hok as [Hin Hout]. rewrite <-Hm in Hin, Hout by done.
  pose proof (taken_add Z ConnectionState.In m id HZ) as Ain.
  pose proof (taken_add Z ConnectionState.Out m id HZ) as Aout.
  pose proof (taken_nonneg ({[id]} ∪ Z) ConnectionState.In m).
  pose proof (taken_nonneg ({[id]} ∪ Z) ConnectionState.Out m).
  assert (forall c, at_conn m id c = b2z (bool_decide (connection_state p = c))) as Hat.
  { intros c. unfold at_conn, m. by rewrite lookup_insert_eq. }
  rewrite Hat in Ain, Aout.
  destruct (connection_state p) eqn:Hc; simpl in *; try rewrite sub_u32_Ok by lia; simpl;
    eexists; (split_and!; [done|split; simpl; lia|done..]).
Qed.

Lemma promote_loop others Z l s :
  others ⊆ Z -> NoDup l -> (forall id, id ∈ l -> id ∈ others \/ id ∉ Z) -> slots_ok Z s ->
  exists t, foldM (promote others) s l = Ok t /\ slots_ok (Z ∪ list_to_set l) t /\
    nodes t = with_defaults (nodes s) (list_to_set l ∖ others) /\ ps_frame s t.
Proof.
  intros HoZ Hnd. revert s Z HoZ. induction Hnd as [|id l Hid Hnd IH]; intros s Z HoZ Hl Hok; simpl.
  { exists s. rewrite (right_id_L ∅ (∪)).
    replace (∅ ∖ others) with (∅ : gset PeerId) by set_solver. by rewrite with_defaults_empty. }
  destruct (promote_step others Z s id) as (t & -> & Ht & Hn & Hf); [done|set_solver|done|].
  destruct (IH t ({[id]} ∪ Z)) as (u & Hu & Hs & Hn' & Hf'); [set_solver| |done|].
  { intros id' ?. destruct (Hl id'); [set_solver|by left|]. right. set_solver. }
  exists u. split; [done|]. split.
  { by replace (Z ∪ ({[id]} ∪ list_to_set l)) with ({[id]} ∪ Z ∪ list_to_set l) by set_solver. }
  split; [|by etrans]. rewrite Hn', Hn. unfold with_defaults.
  rewrite <-(assoc_L (∪)), gset_to_gmap_union_default. f_equal. f_equal. set_solver.
Qed.

(** *** The operations preserve the invariant and do not panic *)

Lemma slots_ok_frame X s t :
  nodes t = nodes s -> num_in t = num_in s -> num_out t = num_out s -> slots_ok X s -> slots_ok X t.
Proof. unfold slots_ok. by intros -> -> ->. Qed.

Lemma set_priority_group_ok s g ids :
  wf s -> bounded s ->
  exists t, set_priority_group s g ids = Ok t /\ wf t /\
    nodes t = with_defaults (nodes s) (ids ∖ all_other_groups s g) /\
    priority_nodes t = <[g := ids]> (priority_nodes s) /\
    max_in t = max_in s /\ max_out t = max_out s /\ priority_only t = priority_only s.
Proof.
  intros Hwf Hb. unfold set_priority_group.
  set (others := all_other_groups s g). set (existing := default ∅ (priority_nodes s !! g)).
  set (s0 := set_groups (delete g (priority_nodes s)) s).
  destruct (demote_loop others (hs_iter existing) s0) as (s1 & -> & Hs1 & Hn1 & (Hg1&Hi1&Ho1&Hpo1)).
  { done. } { apply NoDup_hs_iter. }
  { apply slots_ok_frame with s; [done..|].
    replace (others ∪ list_to_set (hs_iter existing)) with (prio_set s); [apply Hwf|].
    rewrite (prio_set_split s g). fold others existing.
    apply set_eq. intros x. rewrite !elem_of_union, elem_of_list_to_set, elem_of_hs_iter. done. }
  simpl. destruct (promote_loop others others (hs_iter ids) s1) as (s2 & -> & Hs2 & Hn2 & (Hg2&Hi2&Ho2&?)).
  { done. } { apply NoDup_hs_iter. }
  { intros id _. destruct (decide (id ∈ others)); auto. } { done. }
  simpl. eexists. split; [done|].
  assert (list_to_set (hs_iter ids) = ids) as Hids.
  { apply set_eq. intros x. by rewrite elem_of_list_to_set, elem_of_hs_iter. }
  rewrite Hids in Hs2, Hn2. rewrite Hn1 in Hn2. simpl in Hn2, Hg1, Hi1, Ho1, Hpo1.
  assert (prio_set (set_groups (<[g := ids]> (priority_nodes s2)) s2) = others ∪ ids) as Hprio.
  { unfold others. rewrite <-prio_set_insert. apply prio_set_groups. simpl. by rewrite Hg2, Hg1. }
  split; [|simpl; split_and!; try congruence].
  - destruct Hwf as [_ Hknown Hrep ??]. split; rewrite ?Hprio; simpl; rewrite ?Hi2, ?Ho2, ?Hi1, ?Ho1; try done.
    + rewrite (prio_set_split s g) in Hknown. fold others existing in Hknown. rewrite Hn2.
      unfold with_defaults. rewrite dom_union_L, dom_gset_to_gmap.
      intros id Hid. destruct (decide (id ∈ others)); set_solver.
    + rewrite Hn2. intros id n. unfold with_defaults.
      rewrite lookup_union_Some_raw, lookup_gset_to_gmap_Some.
      intros [?|[_ [_ <-]]]; [by eapply Hrep|]. done.
  - rewrite Hg2, Hg1. apply insert_delete_eq.
Qed.

Lemma wf_update s t id n :
  wf s -> ps_frame s t -> nodes t = <[id := n]> (nodes s) -> in_i32 (reputation_of n) ->
  slots_ok (prio_set s) t -> wf t.
Proof.
  intros [Hs Hk Hr ??] (Hg&Hi&Ho&_) Hn Hrep Hslots.
  assert (prio_set t = prio_set s) as Hp by by apply prio_set_groups.
  split; rewrite ?Hp, ?Hi, ?Ho; try done.
  - rewrite Hn, dom_insert_L. set_solver.
  - rewrite Hn. by apply map_Forall_insert_2.
Qed.

(** Close a slot-counter goal after [id] changed from connection state [n] to another. *)
Ltac solve_slots :=
  split; simpl;
  first [ by rewrite taken_insert_exempt by done
        | rewrite taken_insert by done; unfold at_conn;
          repeat match goal with H : nodes _ !! _ = Some _ |- _ => rewrite H end;
          simpl; repeat match goal with H : connection_state _ = _ |- _ => rewrite H end;
          simpl; lia ].

Lemma disconnect_ok s id n :
  wf s -> nodes s !! id = Some n -> is_connected (connection_state n) = true ->
  exists t, disconnect s id = Ok t /\ wf t /\ ps_frame s t /\
    nodes t = <[id := set_connection ConnectionState.NotConnected n]> (nodes s).
Proof.
  intros Hwf Hn Hc. pose proof (wf_slots s Hwf) as [Hin Hout].
  pose proof (wf_rep s Hwf _ _ Hn) as Hrep. unfold disconnect. rewrite is_priority_spec, Hn.
  case_bool_decide as Hp; simpl.
  { eexists. split_and!; [done| |done..]. eapply wf_update; [done..|]. solve_slots. }
  destruct (connection_state n) eqn:Hcs; simpl; [| |discriminate].
  - pose proof (taken_pos _ _ _ _ _ Hn Hcs Hp). rewrite sub_u32_Ok by lia. simpl.
    eexists. split_and!; [done| |done..]. eapply wf_update; [done..|]. solve_slots.
  - pose proof (taken_pos _ _ _ _ _ Hn Hcs Hp). rewrite sub_u32_Ok by lia. simpl.
    eexists. split_and!; [done| |done..]. eapply wf_update; [done..|]. solve_slots.
Qed.

(** When a new connection in a direction with [num] of [max] slots taken is allowed. *)
Definition slot_free s id (num max : Z) : bool :=
  is_priority s id || (negb (priority_only s) && bool_decide (num < max)%Z).

Lemma try_outgoing_ok s id n :
  wf s -> nodes s !! id = Some n -> is_connected (connection_state n) = false ->
  exists t, try_outgoing s id = Ok (slot_free s id (num_out s) (max_out s), t) /\ wf t /\ ps_frame s t /\
    (if slot_free s id (num_out s) (max_out s)
     then nodes t = <[id := set_connection ConnectionState.Out n]> (nodes s) else t = s) /\
    num_in t = num_in s /\ (num_out t <= Z.max (num_out s) (max_out s))%Z.
Proof.
  intros Hwf Hn Hc. pose proof (wf_slots s Hwf) as [Hin Hout].
  pose proof (wf_rep s Hwf _ _ Hn) as Hrep. pose proof (wf_max_out s Hwf) as [_ ?].
  assert (connection_state n = ConnectionState.NotConnected) as Hcs by by destruct (connection_state n).
  unfold try_outgoing, slot_free. rewrite is_priority_spec, Hn. case_bool_decide as Hp; simpl.
  - rewrite andb_false_r. simpl. eexists. split_and!; [done| |done..| |done|simpl; lia]; [|done].
    eapply wf_update; [done..|]. solve_slots.
  - destruct (priority_only s) eqn:Hpo; simpl.
    { exists s. split_and!; try done; lia. }
    rewrite andb_true_r. repeat case_bool_decide; simpl; try lia.
    { exists s. split_and!; try done; lia. }
    rewrite add_u32_Ok by lia. simpl. eexists. split_and!; [done| |done..|simpl; lia].
    eapply wf_update; [done..|]. solve_slots.
Qed.

Lemma try_accept_incoming_ok s id n :
  wf s -> nodes s !! id = Some n -> is_connected (connection_state n) = false ->
  exists t, try_accept_incoming s id = Ok (slot_free s id (num_in s) (max_in s), t) /\ wf t /\ ps_frame s t /\
    (if slot_free s id (num_in s) (max_in s)
     then nodes t = <[id := set_connection ConnectionState.In n]> (nodes s) else t = s) /\
    num_out t = num_out s /\ (num_in t <= Z.max (num_in s) (max_in s))%Z.
Proof.
  intros Hwf Hn Hc. pose proof (wf_slots s Hwf) as [Hin Hout].
  pose proof (wf_rep s Hwf _ _ Hn) as Hrep. pose proof (wf_max_in s Hwf) as [_ ?].
  assert (connection_state n = ConnectionState.NotConnected) as Hcs by by destruct (connection_state n).
  unfold try_accept_incoming, slot_free. rewrite is_priority_spec, Hn. case_bool_decide as Hp; simpl.
  - rewrite andb_false_r. simpl. eexists. split_and!; [done| |done..| |done|simpl; lia]; [|done].
    eapply wf_update; [done..|]. solve_slots.
  - destruct (priority_only s) eqn:Hpo; simpl.
    { exists s. split_and!; try done; lia. }
    rewrite andb_true_r. repeat case_bool_decide; simpl; try lia.
    { exists s. split_and!; try done; lia. }
    rewrite add_u32_Ok by lia. simpl. eexists. split_and!; [done| |done..|simpl; lia].
    eapply wf_update; [done..|]. solve_slots.
Qed.

Lemma sat_i32_range z : in_i32 (sat_i32 z).
Proof. unfold in_i32, sat_i32, i32_min, i32_max. lia. Qed.

Lemma set_reputation_ok s id v :
  wf s -> in_i32 v -> is_Some (nodes s !! id) ->
  wf (set_reputation s id v) /\ ps_frame s (set_reputation s id v).
Proof.
  intros Hwf Hv [n Hn]. split; [|done]. pose proof (wf_slots s Hwf) as [Hin Hout].
  unfold set_reputation. rewrite Hn. simpl. eapply wf_update; [done..|].
  split; simpl; erewrite taken_insert_same; done.
Qed.

Lemma add_reputation_ok s id v :
  wf s -> wf (add_reputation s id v) /\ ps_frame s (add_reputation s id v).
Proof.
  intros Hwf. split; [|done]. pose proof (wf_slots s Hwf) as [Hin Hout].
  unfold add_reputation. destruct (nodes s !! id) as [n|] eqn:Hn; simpl.
  - eapply wf_update; [done..|apply sat_i32_range|]. split; simpl; erewrite taken_insert_same; done.
  - eapply wf_update; [done..|apply sat_i32_range|]. split; simpl; rewrite taken_insert_new; done.
Qed.

Lemma discover_ok s id :
  wf s -> nodes s !! id = None -> wf (discover s id) /\ ps_frame s (discover s id).
Proof.
  intros Hwf Hn. split; [|done]. pose proof (wf_slots s Hwf) as [Hin Hout].
  eapply wf_update; [done..|]. split; simpl; rewrite taken_insert_new; done.
Qed.

Lemma wf_new a b o : in_u32 a -> in_u32 b -> wf (new a b o).
Proof.
  intros. split; [| |apply map_Forall_empty|done..].
  - split; simpl; unfold taken; by rewrite map_count_empty.
  - intros id. rewrite elem_of_prio_set. simpl. intros (g & X & Hg & _). by rewrite lookup_empty in Hg.
Qed.

(** *** What the searches find *)

Lemma known_not_connected_spec s id :
  known_not_connected s id = true <->
  exists n, nodes s !! id = Some n /\ is_connected (connection_state n) = false.
Proof.
  unfold known_not_connected. destruct (nodes s !! id) as [n|].
  - rewrite negb_true_iff. naive_solver.
  - naive_solver.
Qed.

Lemma elem_of_prio_list s id :
  id ∈ flat_map (fun g : string * gset PeerId => hs_iter g.2) (hm_iter (priority_nodes s)) <->
  id ∈ prio_set s.
Proof.
  rewrite elem_of_prio_set, list_elem_of_In, in_flat_map. split.
  - intros ([g X] & Hg & Hid). apply list_elem_of_In in Hg, Hid.
    apply elem_of_hm_iter in Hg. apply elem_of_hs_iter in Hid. eauto.
  - intros (g & X & Hg & Hid). exists (g, X). rewrite <-!list_elem_of_In.
    by rewrite elem_of_hm_iter, elem_of_hs_iter.
Qed.

Lemma priority_search_Some s id :
  priority_not_connected_peer s = Some id -> id ∈ prio_set s /\ known_not_connected s id = true.
Proof. intros [Hin ?]%List.find_some. by rewrite <-elem_of_prio_list, list_elem_of_In. Qed.

Lemma priority_search_None s :
  priority_not_connected_peer s = None -> forall id, id ∈ prio_set s -> known_not_connected s id = false.
Proof.
  intros Hf id Hid. eapply List.find_none; [done|]. by rewrite <-list_elem_of_In, elem_of_prio_list.
Qed.

Lemma group_search_Some s g id :
  priority_not_connected_peer_from_group s g = Some id ->
  (exists X, priority_nodes s !! g = Some X /\ id ∈ X) /\ known_not_connected s id = true.
Proof.
  unfold priority_not_connected_peer_from_group. destruct (priority_nodes s !! g) as [X|]; [|done].
  intros [Hin ?]%List.find_some. rewrite <-list_elem_of_In, elem_of_hs_iter in Hin. eauto.
Qed.

Lemma group_search_None s g X id :
  priority_not_connected_peer_from_group s g = None ->
  priority_nodes s !! g = Some X -> id ∈ X -> known_not_connected s id = false.
Proof.
  unfold priority_not_connected_peer_from_group. intros Hf Hg Hid. rewrite Hg in Hf.
  eapply List.find_none; [done|]. by rewrite <-list_elem_of_In, elem_of_hs_iter.
Qed.

Lemma highest_fold l cur :
  match fold_left highest_step l cur with
  | Some c => (cur = Some c \/ c ∈ l) /\ forall d, (cur = Some d \/ d ∈ l) -> (reputation_of d.2 <= reputation_of c.2)%Z
  | None => cur = None /\ l = []
  end.
Proof.
  revert cur. induction l as [|x l IH]; intros cur; simpl.
  { destruct cur; [|done]. split; [by left|]. set_solver. }
  specialize (IH (highest_step cur x)).
  destruct (fold_left highest_step l (highest_step cur x)) as [c|].
  - destruct IH as [Hc Hmax]. unfold highest_step in *.
    destruct cur as [c0|]; [case_bool_decide|].
    + split; [set_solver|]. intros d [[= <-]|[->|Hd]%elem_of_cons]; [auto| |auto].
      specialize (Hmax c0 (or_introl eq_refl)). lia.
    + split; [set_solver|]. intros d [[= <-]|[->|Hd]%elem_of_cons]; [|auto..].
      specialize (Hmax x (or_introl eq_refl)). lia.
    + split; [set_solver|]. intros d [?|[->|Hd]%elem_of_cons]; [done|auto..].
  - destruct IH as [Hh _]. unfold highest_step in Hh. destruct cur; [case_bool_decide|]; done.
Qed.

Lemma elem_of_not_connected s id n :
  (id, n) ∈ List.filter (fun p : PeerId * Node => negb (is_connected (connection_state p.2)))
              (hm_iter (nodes s)) <->
  nodes s !! id = Some n /\ is_connected (connection_state n) = false.
Proof.
  by rewrite list_elem_of_In, List.filter_In, <-list_elem_of_In, elem_of_hm_iter, negb_true_iff.
Qed.

Lemma highest_spec s :
  match highest_not_connected_peer s with
  | Some id => exists n, nodes s !! id = Some n /\ is_connected (connection_state n) = false /\
      forall id' n', nodes s !! id' = Some n' -> is_connected (connection_state n') = false ->
        (reputation_of n' <= reputation_of n)%Z
  | None => forall id n, nodes s !! id = Some n -> is_connected (connection_state n) = true
  end.
Proof.
  unfold highest_not_connected_peer. pose proof (highest_fold
    (List.filter (fun p : PeerId * Node => negb (is_connected (connection_state p.2))) (hm_iter (nodes s)))
    None) as Hf.
  destruct (fold_left _ _ _) as [[id n]|]; simpl.
  - destruct Hf as [[?|Hin] Hmax]; [done|]. apply elem_of_not_connected in Hin as [??].
    exists n. split_and!; [done..|]. intros id' n' ??. apply (Hmax (id', n')). right.
    by apply elem_of_not_connected.
  - destruct Hf as [_ Hnil]. intros id n Hn. destruct (is_connected (connection_state n)) eqn:Hc; [done|].
    assert ((id, n) ∈ ([] : list (PeerId * Node))) as Hin; [|by apply elem_of_nil in Hin].
    rewrite <-Hnil. by apply elem_of_not_connected.
Qed.

Lemma elem_of_connected_peers s id :
  id ∈ connected_peers s <->
  exists n, nodes s !! id = Some n /\ is_connected (connection_state n) = true.
Proof.
  unfold connected_peers. rewrite list_elem_of_fmap. split.
  - intros ([id' n] & -> & Hin). rewrite list_elem_of_In, List.filter_In, <-list_elem_of_In in Hin.
    rewrite elem_of_hm_iter in Hin. eauto.
  - intros (n & Hn & Hc). exists (id, n). split; [done|].
    by rewrite list_elem_of_In, List.filter_In, <-list_elem_of_In, elem_of_hm_iter.
Qed.

Lemma elem_of_peers s id : id ∈ peers s <-> is_Some (nodes s !! id).
Proof.
  unfold peers. rewrite list_elem_of_fmap. split.
  - intros ([id' n] & -> & Hin). rewrite elem_of_hm_iter in Hin. eauto.
  - intros [n Hn]. exists (id, n). by rewrite elem_of_hm_iter.
Qed.
(** A well-formed table is determined by its nodes, its groups and its limits. *)
Lemma wf_determined s t : wf s -> wf t -> ps_frame s t -> nodes t = nodes s -> t = s.
Proof.
  intros [[A B] _ _ _ _] [[A' B'] _ _ _ _] (G & ? & ? & ?) N.
  rewrite (prio_set_groups t s G), N in A', B'. destruct s, t; simpl in *. congruence.
Qed.

Lemma undo_connection s t id n c :
  wf s -> nodes s !! id = Some n -> is_connected (connection_state n) = false ->
  is_connected c = true -> wf t -> ps_frame s t -> nodes t = <[id := set_connection c n]> (nodes s) ->
  peer t id = Connected /\ disconnect t id = Ok s.
Proof.
  intros Hs Hn Hn0 Hc Ht F N.
  assert (nodes t !! id = Some (set_connection c n)) as Hid by by rewrite N, lookup_insert_eq.
  split; [unfold peer; by rewrite Hid; simpl; rewrite Hc|].
  destruct (disconnect_ok t id _ Ht Hid Hc) as (t' & -> & W' & F' & N').
  f_equal. apply wf_determined; [done..|by etrans|].
  rewrite N', N, insert_insert_eq. apply insert_id. rewrite Hn. by destruct n as [[] r].
Qed.

(** ** Properties *)

(** [set_priority_group] never overflows a slot counter, whatever the order in which the sets are
    iterated.  It replaces exactly the given group, leaves what is known of every node alone (peers new
    to the table get the default node), and the slot counters again count the connected nodes outside
    every priority group. *)
Theorem set_priority_group_correct s g ids (Hwf : wf s) (Hb : bounded s) :
  exists t, set_priority_group s g ids = Ok t /\
    (forall g', get_priority_group t g' = if decide (g' = g) then Some ids else get_priority_group s g') /\
    (forall id n, nodes s !! id = Some n -> nodes t !! id = Some n) /\
    (forall id, nodes s !! id = None ->
       nodes t !! id = if decide (id ∈ ids ∖ all_other_groups s g) then Some Node_default else None) /\
    num_in t = taken (prio_set t) ConnectionState.In (nodes t) /\
    num_out t = taken (prio_set t) ConnectionState.Out (nodes t) /\ wf t.
Proof.
  destruct (set_priority_group_ok s g ids Hwf Hb) as (t & Ht & Hw & Hn & Hg & _).
  exists t. destruct (wf_slots _ Hw) as [Hi Ho]. split_and!; try done.
  - intros g'. unfold get_priority_group. rewrite Hg. case_decide as Hd.
    + subst. by rewrite lookup_insert_eq.
    + by rewrite lookup_insert_ne.
  - intros id n Hid. rewrite Hn. unfold with_defaults. by apply lookup_union_Some_l.
  - intros id Hid. rewrite Hn. unfold with_defaults. rewrite lookup_union_r by done.
    case_decide; [by apply lookup_gset_to_gmap_Some|by apply lookup_gset_to_gmap_None].
Qed.

(** whatever the iteration order of the table, [highest_not_connected_peer] returns a known peer
    that is not connected and has the highest reputation of all of these, and nothing exactly when
    every known peer is connected. *)
Theorem highest_not_connected_peer_maximal s :
  match highest_not_connected_peer s with
  | Some id => peer s id = NotConnectedPeer /\
      forall id', peer s id' = NotConnectedPeer -> (reputation s id' <= reputation s id)%Z
  | None => forall id, peer s id <> NotConnectedPeer
  end.
Proof.
  pose proof (highest_spec s) as Hs. destruct (highest_not_connected_peer s) as [id|].
  - destruct Hs as (n & Hn & Hc & Hmax). unfold peer, reputation. rewrite Hn, Hc. split; [done|].
    intros id'. destruct (nodes s !! id') as [n'|] eqn:Hn'; [|done].
    destruct (is_connected (connection_state n')) eqn:Hc'; [done|]. intros _. simpl. by eapply Hmax.
  - intros id. unfold peer. destruct (nodes s !! id) as [n|] eqn:Hn; [|done]. by rewrite (Hs id n Hn).
Qed.

(** an outgoing or incoming connection that is granted a slot and then disconnected gives the slot
    back: the table is again exactly what it was, priority peer or not. *)
Theorem connect_disconnect_roundtrip s id t
  (Hwf : wf s) (Hp : peer s id = NotConnectedPeer)
  (Ht : try_outgoing s id = Ok (true, t) \/ try_accept_incoming s id = Ok (true, t)) :
  peer t id = Connected /\ disconnect t id = Ok s.
Proof.
  unfold peer in Hp. destruct (nodes s !! id) as [n|] eqn:Hn; [|done].
  destruct (is_connected (connection_state n)) eqn:Hc; [done|].
  destruct Ht as [Ht|Ht].
  - destruct (try_outgoing_ok s id n Hwf Hn Hc) as (t0 & E & W & F & Hs & _).
    rewrite E in Ht. injection Ht as Hf ->. rewrite Hf in Hs. by apply (undo_connection s t id n ConnectionState.Out).
  - destruct (try_accept_incoming_ok s id n Hwf Hn Hc) as (t0 & E & W & F & Hs & _).
    rewrite E in Ht. injection Ht as Hf ->. rewrite Hf in Hs. by apply (undo_connection s t id n ConnectionState.In).
Qed.
End peers_state.
Arguments PeersState PeerId {_ _}.

(** ** Witnesses *)

Section witnesses.
#[local] Existing Instance canonical_order.

(** One slot each way; peer 1 is connected and holds the incoming slot. *)
Definition one_connected : PeersState nat :=
  mkPeersState {[1%nat := mkNode ConnectionState.In 0; 2%nat := mkNode ConnectionState.NotConnected 7]}
    1 0 1 1 ∅ false.

Lemma one_connected_wf : wf one_connected.
Proof.
  split; [split; reflexivity|vm_compute; set_solver| |done..].
  apply map_Forall_insert; [done|]. split; [done|]. by apply map_Forall_singleton.
Qed.

Lemma set_priority_group_correct_witness :
  wf one_connected /\ bounded one_connected /\
  exists t, set_priority_group one_connected "reserved" {[1%nat; 3%nat]} = Ok t /\
    get_priority_group t "reserved" = Some {[1%nat; 3%nat]} /\ nodes t !! 3%nat = Some Node_default /\
    num_in t = 0%Z /\ wf t.
Proof.
  split; [apply one_connected_wf|]. split; [by vm_compute|].
  destruct (set_priority_group_correct one_connected "reserved" {[1%nat; 3%nat]} one_connected_wf)
    as (t & Ht & Hg & _ & Hn & _ & _ & Hw); [by vm_compute|].
  exists t. split; [exact Ht|]. split; [exact (Hg "reserved")|].
  split; [rewrite (Hn 3%nat eq_refl); by vm_compute|].
  split; [|exact Hw]. vm_compute in Ht. by injection Ht as <-.
Defined.

Lemma connect_disconnect_roundtrip_witness :
  exists t, try_outgoing one_connected 2%nat = Ok (true, t) /\
    peer t 2%nat = Connected /\ disconnect t 2%nat = Ok one_connected.
Proof.
  eexists. split; [by vm_compute|].
  apply (connect_disconnect_roundtrip one_connected 2%nat); [apply one_connected_wf|done|by left].
Defined.
End witnesses.
