(* ===== verification/Peerset.v ===== *)
(** * The peer set manager

    Models [network-libp2p/peerset/src/lib.rs]: the strategy that decides which peers to connect to.
    The manager owns a [PeersState], reads [Action]s from the channel of its handles and queues
    [Message]s for the network behaviour that polls it. *)

From S2P Require Import Prelude PeersState.

(** We don't accept nodes whose reputation is under this value: [82 * (i32::min_value() / 100)],
    with Rust's division, which truncates. *)
Definition BANNED_THRESHOLD : Z := 82 * Z.quot i32_min 100.
Definition DISCONNECT_REPUTATION_CHANGE : Z := -10.
Definition RESERVED_NODES : string := "reserved".

(** [IncomingIndex(u64)] *)
Definition IncomingIndex := Z.

Record ReputationChange := mkReputationChange { rc_value : Z; rc_reason : string }.

(** [ReputationChange::new_fatal] *)
Definition new_fatal (reason : string) : ReputationChange :=
  {| rc_value := i32_min; rc_reason := reason |}.

(** The local function [reput_tick] of [Peerset::update_time]. *)
Definition reput_tick (reput : Z) : Z :=
  let diff := Z.quot reput 50 in
  let diff := if bool_decide (diff = 0 /\ reput < 0)%Z then (-1)%Z
              else if bool_decide (diff = 0 /\ reput > 0)%Z then 1%Z
              else diff in
  saturating_sub_i32 reput diff.

(** [Instant - Instant] panics when the right one is later. *)
Definition instant_sub (a b : Z) : res Z :=
  if bool_decide (b <= a)%Z then Ok (a - b)%Z
  else Panic "supplied instant is later than self".

(** [for _ in 0..n { body }] *)
Fixpoint iterM {S} (n : nat) (body : S -> res S) (s : S) : res S :=
  match n with
  | 0 => Ok s
  | S n' => s' ← body s; iterM n' body s'
  end.

Lemma reput_tick_range r : in_i32 r -> in_i32 (reput_tick r).
Proof. intros _. apply sat_i32_range. Qed.

Lemma reput_tick_eq r : in_i32 r ->
  reput_tick r = (r - (if decide (Z.abs r < 50) then Z.sgn r else Z.quot r 50))%Z.
Proof.
  unfold in_i32, i32_min, i32_max. intros Hr. unfold reput_tick, saturating_sub_i32, sat_i32, i32_min, i32_max.
  destruct (Z.le_gt_cases 0 r) as [Hp|Hp].
  - pose proof (Z.quot_pos r 50 Hp ltac:(lia)).
    assert (Z.quot r 50 <= r)%Z by (apply Z.quot_le_upper_bound; lia).
    case_decide as Hd.
    + rewrite (Z.quot_small r 50) by lia. repeat case_bool_decide; lia.
    + assert (1 <= Z.quot r 50)%Z by (apply Z.quot_le_lower_bound; lia).
      repeat case_bool_decide; lia.
  - assert (Z.quot r 50 = - Z.quot (- r) 50)%Z as Hq by (rewrite Z.quot_opp_l; lia).
    pose proof (Z.quot_pos (- r) 50 ltac:(lia) ltac:(lia)).
    assert (Z.quot (- r) 50 <= - r)%Z by (apply Z.quot_le_upper_bound; lia).
    case_decide as Hd.
    + rewrite (Z.quot_small (- r) 50) in Hq by lia. repeat case_bool_decide; lia.
    + assert (1 <= Z.quot (- r) 50)%Z by (apply Z.quot_le_lower_bound; lia).
      repeat case_bool_decide; lia.
Qed.

Lemma reput_tick_mono r r' : in_i32 r -> in_i32 r' -> (r <= r')%Z -> (reput_tick r <= reput_tick r')%Z.
Proof.
  intros Hr Hr' Hle. rewrite !reput_tick_eq by done.
  pose proof (Z.quot_rem' r 50). pose proof (Z.quot_rem' r' 50).
  pose proof (Z.rem_bound_abs r 50 ltac:(lia)). pose proof (Z.rem_bound_abs r' 50 ltac:(lia)).
  assert (Z.quot r 50 <= Z.quot r' 50)%Z by (apply Z.quot_le_mono; lia).
  assert (0 <= r -> 0 <= Z.rem r 50)%Z by (intros; apply Z.rem_nonneg; lia).
  assert (r <= 0 -> Z.rem r 50 <= 0)%Z by (intros; apply Z.rem_nonpos; lia).
  assert (0 <= r' -> 0 <= Z.rem r' 50)%Z by (intros; apply Z.rem_nonneg; lia).
  assert (r' <= 0 -> Z.rem r' 50 <= 0)%Z by (intros; apply Z.rem_nonpos; lia).
  destruct (decide (Z.quot r 50 = Z.quot r' 50)) as [E|]; [rewrite E in *|]; repeat case_decide; lia.
Qed.

Lemma iter_tick_in_i32 k r : in_i32 r -> in_i32 (Nat.iter k reput_tick r).
Proof. intros Hr. induction k; simpl; [done|]. by apply reput_tick_range. Qed.

Lemma iter_tick_mono k r r' : in_i32 r -> in_i32 r' -> (r <= r')%Z ->
  (Nat.iter k reput_tick r <= Nat.iter k reput_tick r')%Z.
Proof.
  intros Hr Hr' Hle. induction k; simpl; [done|].
  apply reput_tick_mono; [by apply iter_tick_in_i32..|done].
Qed.

Lemma iter_tick_zero k : Nat.iter k reput_tick 0%Z = 0%Z.
Proof. induction k as [|k IH]; simpl; [done|]. by rewrite IH. Qed.

Lemma iter_tick_forget n r : in_i32 r ->
  Nat.iter n reput_tick i32_min = 0%Z -> Nat.iter n reput_tick i32_max = 0%Z ->
  forall k, n <= k -> Nat.iter k reput_tick r = 0%Z.
Proof.
  intros Hr Hmin Hmax k Hk. replace k with ((k - n) + n) by lia. rewrite Nat.iter_add.
  assert (Nat.iter n reput_tick r = 0%Z) as ->; [|apply iter_tick_zero].
  pose proof (iter_tick_mono n i32_min r ltac:(done) Hr (proj1 Hr)).
  pose proof (iter_tick_mono n r i32_max Hr ltac:(done) (proj2 Hr)). lia.
Qed.

(** The minimal reputation is below the threshold for exactly ten ticks. *)
Lemma banned_ticks k : (Nat.iter k reput_tick i32_min < BANNED_THRESHOLD)%Z <-> k <= 9.
Proof.
  split; intros Hk.
  - destruct (decide (k <= 9)) as [|Hgt]; [done|]. exfalso.
    replace k with ((k - 10) + 10) in Hk by lia. rewrite Nat.iter_add in Hk.
    assert (in_i32 (Nat.iter 10 reput_tick i32_min)) as Hr by by apply iter_tick_in_i32.
    assert (BANNED_THRESHOLD <= Nat.iter 10 reput_tick i32_min)%Z as Hb by by vm_compute.
    revert Hr Hb Hk. generalize (Nat.iter 10 reput_tick i32_min). intros r Hr Hb. apply Z.le_ngt.
    induction (k - 10) as [|j IH]; [done|].
    transitivity (reput_tick BANNED_THRESHOLD); [by vm_compute|].
    apply reput_tick_mono; [done|by apply iter_tick_in_i32|exact IH].
  - transitivity (Nat.iter 9 reput_tick i32_min + 1)%Z; [|by vm_compute].
    do 9 (destruct k as [|k]; [by vm_compute|]). replace k with 0 by lia. by vm_compute.
Qed.

Section peerset.
Context {PeerId : Type} `{Countable PeerId} `{HashOrder}.

(** [clock k] is what the [k]-th call of [Instant::now()] returns. *)
Context (clock : nat -> Z).

Inductive Action :=
| AddReservedPeer (peer_id : PeerId)
| RemoveReservedPeer (peer_id : PeerId)
| SetReservedOnly (reserved : bool)
| ReportPeer (peer_id : PeerId) (change : ReputationChange)
| SetPriorityGroup (group_id : string) (ids : gset PeerId)
| AddToPriorityGroup (group_id : string) (peer_id : PeerId)
| RemoveFromPriorityGroup (group_id : string) (peer_id : PeerId).

Inductive Message :=
| Connect (peer_id : PeerId)
| Drop (peer_id : PeerId)
| Accept (index : IncomingIndex)
| Reject (index : IncomingIndex).

Record PeersetConfig := mkPeersetConfig {
  in_peers : Z;
  out_peers : Z;
  bootnodes : list PeerId;
  cfg_reserved_only : bool;
  reserved_nodes : list PeerId
}.

(** [rx] is the content of the channel whose sending half the handles (and [tx]) hold; [ticks] is the
    number of clock readings so far. *)
Record Peerset := mkPeerset {
  data : PeersState PeerId;
  reserved_only : bool;
  rx : list Action;
  message_queue : list Message;
  created : Z;
  latest_time_update : Z;
  ticks : nat
}.

Implicit Types (ps : Peerset) (id : PeerId).

Definition set_data (d : PeersState PeerId) ps : Peerset :=
  mkPeerset d (reserved_only ps) (rx ps) (message_queue ps) (created ps) (latest_time_update ps) (ticks ps).
Definition set_rx (a : list Action) ps : Peerset :=
  mkPeerset (data ps) (reserved_only ps) a (message_queue ps) (created ps) (latest_time_update ps) (ticks ps).
Definition set_queue (q : list Message) ps : Peerset :=
  mkPeerset (data ps) (reserved_only ps) (rx ps) q (created ps) (latest_time_update ps) (ticks ps).

(** [self.message_queue.push_back(m)] *)
Definition push_message (m : Message) ps : Peerset := set_queue (message_queue ps ++ [m]) ps.

(** One second of reputation decay over the known peers. *)
Definition tick_peer (d : PeersState PeerId) id : res (PeersState PeerId) :=
  match peer d id with
  | Connected => Ok (set_reputation d id (reput_tick (reputation d id)))
  | NotConnectedPeer => Ok (set_reputation d id (reput_tick (reputation d id)))
  | Unknown => Panic "We iterate over known peers; qed"
  end.
Definition tick_all (d : PeersState PeerId) : res (PeersState PeerId) := foldM tick_peer d (peers d).

(** [Peerset::update_time] *)
Definition update_time ps : res Peerset :=
  let now := clock (ticks ps) in
  elapsed_latest ← instant_sub (latest_time_update ps) (created ps);
  elapsed_now ← instant_sub now (created ps);
  let ps1 := mkPeerset (data ps) (reserved_only ps) (rx ps) (message_queue ps) (created ps) now (S (ticks ps)) in
  secs_diff ← sub_u64 (as_secs elapsed_now) (as_secs elapsed_latest);
  d ← iterM (Z.to_nat secs_diff) tick_all (data ps1);
  Ok (set_data d ps1).

(** The candidate of the first loop of [alloc_slots]. *)
Definition next_priority ps : option PeerId :=
  if reserved_only ps
  then priority_not_connected_peer_from_group (data ps) RESERVED_NODES
  else priority_not_connected_peer (data ps).

(** First loop of [alloc_slots].  Each round connects a peer, so [S (size nodes)] rounds are enough
    (lemma [alloc_priority_ok]); running out of fuel is a [Panic] of its own. *)
Fixpoint alloc_priority (fuel : nat) ps : res Peerset :=
  match fuel with
  | 0 => Panic "out of fuel"
  | S fuel' =>
      match next_priority ps with
      | None => Ok ps
      | Some next =>
          '(ok, d) ← try_outgoing (data ps) next;
          if (ok : bool) then alloc_priority fuel' (push_message (Connect next) (set_data d ps))
          else Ok (set_data d ps)
      end
  end.

(** Second loop of [alloc_slots]. *)
Fixpoint alloc_highest (fuel : nat) ps : res Peerset :=
  match fuel with
  | 0 => Panic "out of fuel"
  | S fuel' =>
      if reserved_only ps then Ok ps else
      match highest_not_connected_peer (data ps) with
      | None => Ok ps
      | Some next =>
          if bool_decide (reputation (data ps) next < BANNED_THRESHOLD)%Z then Ok ps else
          '(ok, d) ← try_outgoing (data ps) next;
          if (ok : bool) then alloc_highest fuel' (push_message (Connect next) (set_data d ps))
          else Ok (set_data d ps)
      end
  end.

Definition alloc_fuel ps : nat := S (size (nodes (data ps))).

(** [Peerset::alloc_slots] *)
Definition alloc_slots ps : res Peerset :=
  ps1 ← update_time ps;
  ps2 ← alloc_priority (alloc_fuel ps1) ps1;
  alloc_highest (alloc_fuel ps2) ps2.

(** The loop body of [from_config] over the boot nodes, and of [discovered]. *)
Definition discover_unknown (d : PeersState PeerId) id : PeersState PeerId :=
  match peer d id with Unknown => discover d id | _ => d end.

(** [Peerset::from_config] *)
Definition from_config (config : PeersetConfig) : res Peerset :=
  let d0 := PeersState.new (in_peers config) (out_peers config) (cfg_reserved_only config) in
  let ps0 := mkPeerset d0 (cfg_reserved_only config) [] [] (clock 0) (clock 1) 2 in
  d1 ← set_priority_group (data ps0) RESERVED_NODES (list_to_set (reserved_nodes config));
  let d2 := fold_left discover_unknown (bootnodes config) d1 in
  alloc_slots (set_data d2 ps0).

Definition on_add_reserved_peer ps id : res Peerset :=
  let reserved := default ∅ (get_priority_group (data ps) RESERVED_NODES) in
  d ← set_priority_group (data ps) RESERVED_NODES ({[id]} ∪ reserved);
  alloc_slots (set_data d ps).

Definition on_remove_reserved_peer ps id : res Peerset :=
  let reserved := default ∅ (get_priority_group (data ps) RESERVED_NODES) in
  d ← set_priority_group (data ps) RESERVED_NODES (reserved ∖ {[id]});
  let ps1 := set_data d ps in
  match peer (data ps1) id with
  | Connected =>
      if reserved_only ps1 then
        d' ← disconnect (data ps1) id;
        Ok (push_message (Drop id) (set_data d' ps1))
      else Ok ps1
  | NotConnectedPeer => Ok ps1
  | Unknown => Ok ps1
  end.

(** Loop body of [on_set_reserved_only]. *)
Definition drop_unreserved (reserved : gset PeerId) ps id : res Peerset :=
  match peer (data ps) id with
  | Connected =>
      if bool_decide (id ∈ reserved) then Ok ps else
        d ← disconnect (data ps) id;
        Ok (push_message (Drop id) (set_data d ps))
  | _ => Panic "We are enumerating connected peers, therefore the peer is connected; qed"
  end.

Definition on_set_reserved_only ps (b : bool) : res Peerset :=
  let ps1 := mkPeerset (set_priority_only (data ps) b) b (rx ps) (message_queue ps) (created ps)
               (latest_time_update ps) (ticks ps) in
  if b then
    let reserved := default ∅ (get_priority_group (data ps1) RESERVED_NODES) in
    foldM (drop_unreserved reserved) ps1 (connected_peers (data ps1))
  else alloc_slots ps1.

Definition on_set_priority_group ps (group_id : string) (ids : gset PeerId) : res Peerset :=
  d ← set_priority_group (data ps) group_id ids;
  alloc_slots (set_data d ps).

Definition on_add_to_priority_group ps (group_id : string) id : res Peerset :=
  d ← add_to_priority_group (data ps) group_id id;
  alloc_slots (set_data d ps).

Definition on_remove_from_priority_group ps (group_id : string) id : res Peerset :=
  d ← remove_from_priority_group (data ps) group_id id;
  alloc_slots (set_data d ps).

Definition on_report_peer ps id (change : ReputationChange) : res Peerset :=
  ps1 ← update_time ps;
  match peer (data ps1) id with
  | Connected =>
      let d := add_reputation (data ps1) id (rc_value change) in
      if bool_decide (reputation d id < BANNED_THRESHOLD)%Z then
        d' ← disconnect d id;
        Ok (push_message (Drop id) (set_data d' ps1))
      else Ok (set_data d ps1)
  | NotConnectedPeer => Ok (set_data (add_reputation (data ps1) id (rc_value change)) ps1)
  | Unknown => Ok (set_data (add_reputation (discover (data ps1) id) id (rc_value change)) ps1)
  end.

(** The second half of [Peerset::incoming], on the [NotConnectedPeer] entry of [id] in [d]. *)
Definition answer_incoming ps (d : PeersState PeerId) id (index : IncomingIndex) : res Peerset :=
  if bool_decide (reputation d id < BANNED_THRESHOLD)%Z
  then Ok (push_message (Reject index) (set_data d ps))
  else
    '(ok, d') ← try_accept_incoming d id;
    Ok (push_message (if (ok : bool) then Accept index else Reject index) (set_data d' ps)).

(** [Peerset::incoming] *)
Definition incoming ps id (index : IncomingIndex) : res Peerset :=
  ps1 ← update_time ps;
  match peer (data ps1) id with
  | Connected => Ok ps1
  | NotConnectedPeer => answer_incoming ps1 (data ps1) id index
  | Unknown => answer_incoming ps1 (discover (data ps1) id) id index
  end.

(** [Peerset::dropped] *)
Definition dropped ps id : res Peerset :=
  ps1 ← update_time ps;
  ps2 ← match peer (data ps1) id with
        | Connected =>
            d ← disconnect (add_reputation (data ps1) id DISCONNECT_REPUTATION_CHANGE) id;
            Ok (set_data d ps1)
        | NotConnectedPeer => Ok ps1
        | Unknown => Ok ps1
        end;
  alloc_slots ps2.

(** [Peerset::discovered]: [discovered_any] is the flag the loop accumulates. *)
Definition discovered ps (ids : list PeerId) : res Peerset :=
  let '(d, discovered_any) :=
    fold_left (fun acc id =>
      match peer acc.1 id with
      | Unknown => (discover acc.1 id, true)
      | _ => acc
      end) ids (data ps, false) in
  let ps1 := set_data d ps in
  if discovered_any then alloc_slots ps1 else Ok ps1.

(** The methods of [PeersetHandle], and [Peerset::report_peer], send an action on the channel. *)
Definition send_action ps (a : Action) : Peerset := set_rx (rx ps ++ [a]) ps.

(** The dispatch of [Stream::poll_next]. *)
Definition handle_action ps (a : Action) : res Peerset :=
  match a with
  | AddReservedPeer id => on_add_reserved_peer ps id
  | RemoveReservedPeer id => on_remove_reserved_peer ps id
  | SetReservedOnly b => on_set_reserved_only ps b
  | ReportPeer id change => on_report_peer ps id change
  | SetPriorityGroup g ids => on_set_priority_group ps g ids
  | AddToPriorityGroup g id => on_add_to_priority_group ps g id
  | RemoveFromPriorityGroup g id => on_remove_from_priority_group ps g id
  end.

(** The loop of [Stream::poll_next]: [None] is [Poll::Pending].  The handlers never send actions, so
    the channel's content is consumed in order. *)
Fixpoint poll_loop (acts : list Action) ps : res (option Message * Peerset) :=
  match message_queue ps with
  | m :: q => Ok (Some m, set_queue q (set_rx acts ps))
  | [] =>
      match acts with
      | [] => Ok (None, set_rx [] ps)
      | a :: acts' => ps' ← handle_action ps a; poll_loop acts' ps'
      end
  end.
Definition poll_next ps : res (option Message * Peerset) := poll_loop (rx ps) ps.

(** ** Invariant *)

(** The peers the manager considers connected. *)
Definition links (d : PeersState PeerId) : gset PeerId :=
  dom (filter (fun kv => is_connected (connection_state kv.2) = true) (nodes d)).

(** A legal transcript: the messages [ms] turn the set of links [L] into [L'].  A peer is connected
    or accepted only when it is not linked, and dropped only when it is.  [inc] names the peer of an
    incoming index. *)
Inductive legal (inc : IncomingIndex -> option PeerId)
  : gset PeerId -> list Message -> gset PeerId -> Prop :=
| legal_nil L : legal inc L [] L
| legal_connect L id ms L' :
    id ∉ L -> legal inc ({[id]} ∪ L) ms L' -> legal inc L (Connect id :: ms) L'
| legal_drop L id ms L' :
    id ∈ L -> legal inc (L ∖ {[id]}) ms L' -> legal inc L (Drop id :: ms) L'
| legal_accept L i id ms L' :
    inc i = Some id -> id ∉ L -> legal inc ({[id]} ∪ L) ms L' -> legal inc L (Accept i :: ms) L'
| legal_reject L i ms L' :
    legal inc L ms L' -> legal inc L (Reject i :: ms) L'.

(** [U] is the universe of peer identities in play. *)
Record pwf (U : gset PeerId) ps : Prop := {
  pwf_data : PeersState.wf (data ps);
  pwf_sync : priority_only (data ps) = reserved_only ps;
  pwf_known : dom (nodes (data ps)) ⊆ U;
  pwf_created : (created ps <= latest_time_update ps)%Z;
  pwf_latest : (latest_time_update ps <= clock (ticks ps))%Z
}.

(** From [ps] to [ps'] some messages were queued, and they account for the change of links. *)
Definition evolves (inc : IncomingIndex -> option PeerId) ps ps' : Prop :=
  exists ms, message_queue ps' = message_queue ps ++ ms /\
    legal inc (links (data ps)) ms (links (data ps')).

(** ** Lemmas *)

Lemma elem_of_links d id :
  id ∈ links d <-> exists n, nodes d !! id = Some n /\ is_connected (connection_state n) = true.
Proof.
  unfold links. rewrite elem_of_dom. split.
  - intros [n Hn]. apply map_lookup_filter_Some in Hn as [??]. eauto.
  - intros (n & Hn & Hc). exists n. by apply map_lookup_filter_Some.
Qed.

Lemma peer_spec d id :
  match peer d id with
  | Connected => exists n, nodes d !! id = Some n /\ is_connected (connection_state n) = true
  | NotConnectedPeer => exists n, nodes d !! id = Some n /\ is_connected (connection_state n) = false
  | Unknown => nodes d !! id = None
  end.
Proof.
  unfold peer. destruct (nodes d !! id) as [n|]; [|done].
  destruct (is_connected (connection_state n)) eqn:?; eauto.
Qed.

Lemma links_insert d d' id n :
  nodes d' = <[id := n]> (nodes d) ->
  links d' = if is_connected (connection_state n) then {[id]} ∪ links d else links d ∖ {[id]}.
Proof.
  intros Hn. apply set_eq. intros x. rewrite elem_of_links, Hn.
  destruct (decide (x = id)) as [->|Hx].
  - setoid_rewrite lookup_insert_eq. destruct (is_connected (connection_state n)) eqn:Hc; [set_solver|].
    split; [|set_solver]. intros (n' & [= <-] & ?). congruence.
  - setoid_rewrite lookup_insert_ne; [|done..]. rewrite <-elem_of_links.
    destruct (is_connected (connection_state n)); set_solver.
Qed.

Lemma links_ext d d' :
  (forall id, (connection_state <$> nodes d !! id) = (connection_state <$> nodes d' !! id)) ->
  links d = links d'.
Proof.
  intros Hext. apply set_eq. intros x. rewrite !elem_of_links. specialize (Hext x).
  destruct (nodes d !! x) as [n|], (nodes d' !! x) as [n'|]; simpl in Hext; simplify_eq.
  - split; intros (? & [= <-] & ?); eexists; split; eauto; congruence.
  - naive_solver.
Qed.

Lemma legal_app inc L1 L2 L3 ms1 ms2 :
  legal inc L1 ms1 L2 -> legal inc L2 ms2 L3 -> legal inc L1 (ms1 ++ ms2) L3.
Proof. induction 1; intros; simpl; eauto using legal. Qed.

Lemma evolves_refl inc ps ps' :
  message_queue ps' = message_queue ps -> links (data ps') = links (data ps) -> evolves inc ps ps'.
Proof. intros Hq Hl. exists []. rewrite Hq, Hl, app_nil_r. split; [done|constructor]. Qed.

Lemma evolves_trans inc ps1 ps2 ps3 :
  evolves inc ps1 ps2 -> evolves inc ps2 ps3 -> evolves inc ps1 ps3.
Proof.
  intros (ms1 & Hq1 & Hl1) (ms2 & Hq2 & Hl2). exists (ms1 ++ ms2).
  rewrite Hq2, Hq1, (assoc_L (++)). split; [done|]. by eapply legal_app.
Qed.

Lemma pwf_bounded U ps : (Z.of_nat (size U) <= u32_max)%Z -> pwf U ps -> bounded (data ps).
Proof.
  intros HU [_ _ Hk _ _]. unfold bounded. rewrite <-(size_dom (D:=gset PeerId)).
  apply subseteq_size in Hk. lia.
Qed.

(** *** Reputation decay *)

Definition tick_node (n : Node) : Node := with_reputation (reput_tick (reputation_of n)) n.

(** [k] seconds of decay. *)
Definition decay (k : nat) (d : PeersState PeerId) : PeersState PeerId :=
  set_nodes (Nat.iter k tick_node <$> nodes d) d.

Lemma tick_peer_known d id n :
  nodes d !! id = Some n -> tick_peer d id = Ok (set_nodes (<[id := tick_node n]> (nodes d)) d).
Proof.
  intros Hn. unfold tick_peer. unfold peer. rewrite Hn.
  unfold set_reputation, reputation. rewrite Hn. by destruct (is_connected _).
Qed.

Lemma tick_loop d l :
  NoDup l -> (forall id, id ∈ l -> is_Some (nodes d !! id)) ->
  exists m, foldM tick_peer d l = Ok (set_nodes m d) /\
    forall id, m !! id = if decide (id ∈ l) then tick_node <$> nodes d !! id else nodes d !! id.
Proof.
  intros Hnd. revert d. induction Hnd as [|id l Hid Hnd IH]; intros d Hl; simpl.
  { exists (nodes d). split; [by destruct d|]. intros id. by destruct (decide (id ∈ [])) as [?%elem_of_nil|]. }
  destruct (Hl id) as [n Hn]; [set_solver|]. rewrite (tick_peer_known d id n Hn). simpl.
  destruct (IH (set_nodes (<[id := tick_node n]> (nodes d)) d)) as (m & -> & Hm).
  { intros id' ?. simpl. rewrite lookup_insert_ne by set_solver. apply Hl. set_solver. }
  exists m. split; [done|]. intros k. rewrite Hm. simpl. destruct (decide (k = id)) as [->|Hk].
  - rewrite decide_False, decide_True by set_solver. by rewrite lookup_insert_eq, Hn.
  - rewrite lookup_insert_ne by done.
    repeat case_decide; set_solver.
Qed.

Lemma tick_all_eq d : tick_all d = Ok (set_nodes (tick_node <$> nodes d) d).
Proof.
  unfold tick_all. destruct (tick_loop d (peers d)) as (m & -> & Hm).
  { apply NoDup_hm_iter_fst. } { intros id. apply elem_of_peers. }
  do 2 f_equal. apply map_eq. intros id. rewrite Hm, lookup_fmap. case_decide as Hd; [done|].
  rewrite elem_of_peers in Hd. by destruct (nodes d !! id) eqn:E; [destruct Hd|].
Qed.

Lemma iterM_tick_all k d : iterM k tick_all d = Ok (decay k d).
Proof.
  revert d. induction k as [|k IH]; intros d; simpl.
  { unfold decay. simpl. rewrite map_fmap_id. by destruct d. }
  rewrite tick_all_eq. simpl. rewrite IH. unfold decay, set_nodes. simpl. do 2 f_equal.
  rewrite <-map_fmap_compose. apply map_fmap_ext. intros id n _. simpl. by rewrite <-Nat.iter_succ_r.
Qed.

Lemma iter_tick_conn k n : connection_state (Nat.iter k tick_node n) = connection_state n.
Proof. by induction k. Qed.

Lemma iter_tick_range k n :
  in_i32 (reputation_of n) -> in_i32 (reputation_of (Nat.iter k tick_node n)).
Proof. induction k; simpl; auto using reput_tick_range. Qed.

Lemma decay_wf k d : PeersState.wf d -> PeersState.wf (decay k d).
Proof.
  intros [[Hin Hout] Hk Hr ??].
  assert (forall X c, taken X c (Nat.iter k tick_node <$> nodes d) = taken X c (nodes d)) as Ht.
  { intros X c. unfold taken. rewrite map_count_fmap. apply map_count_ext. intros id n _.
    by rewrite iter_tick_conn. }
  split; simpl; try done.
  - split; simpl; by rewrite Ht.
  - change (prio_set d ⊆ dom (Nat.iter k tick_node <$> nodes d)). by rewrite dom_fmap_L.
  - intros id n. rewrite lookup_fmap. intros (n' & Hn' & ->)%fmap_Some.
    by apply iter_tick_range, (Hr id).
Qed.

Lemma decay_links k d : links (decay k d) = links d.
Proof.
  apply links_ext. intros id. simpl. rewrite lookup_fmap. destruct (nodes d !! id); simpl; [|done].
  by rewrite iter_tick_conn.
Qed.

Lemma decay_dom k d : dom (nodes (decay k d)) = dom (nodes d).
Proof. simpl. apply dom_fmap_L. Qed.

(** What [update_time] does: [k] seconds pass. *)
Definition elapsed_ticks ps : nat :=
  Z.to_nat (as_secs (clock (ticks ps) - created ps) - as_secs (latest_time_update ps - created ps)).
Definition advance ps : Peerset :=
  mkPeerset (decay (elapsed_ticks ps) (data ps)) (reserved_only ps) (rx ps) (message_queue ps) (created ps)
    (clock (ticks ps)) (S (ticks ps)).

Context (clock_mono : forall i j, i <= j -> (clock i <= clock j)%Z).

Lemma update_time_eq U ps : pwf U ps -> update_time ps = Ok (advance ps).
Proof.
  intros [_ _ _ Hc Hl]. unfold update_time, instant_sub.
  rewrite !bool_decide_eq_true_2 by lia. simpl.
  rewrite sub_u64_Ok; simpl; [by rewrite iterM_tick_all|].
  unfold as_secs, NANOS_PER_SEC. apply Z.div_le_mono; lia.
Qed.

Lemma advance_pwf U ps : pwf U ps -> pwf U (advance ps).
Proof.
  intros [Hd Hs Hk Hc Hl]. split; simpl; [by apply decay_wf|done| |lia|apply clock_mono; lia].
  by rewrite dom_fmap_L.
Qed.

Lemma advance_evolves inc ps : evolves inc ps (advance ps).
Proof. apply evolves_refl; [done|]. apply decay_links. Qed.

Lemma update_time_ok U ps inc : pwf U ps ->
  exists ps', update_time ps = Ok ps' /\ pwf U ps' /\ evolves inc ps ps' /\ rx ps' = rx ps.
Proof.
  intros Hp. exists (advance ps).
  split_and!; [by eapply update_time_eq|by apply advance_pwf|apply advance_evolves|done].
Qed.

(** *** [alloc_slots] *)

(** The known nodes that are not connected: the measure of both loops. *)
Definition unconnected (d : PeersState PeerId) : Z :=
  map_count (fun _ n => negb (is_connected (connection_state n))) (nodes d).

Lemma unconnected_fuel ps : (unconnected (data ps) < Z.of_nat (alloc_fuel ps))%Z.
Proof. unfold unconnected, alloc_fuel. pose proof (map_count_le_size (fun _ n => negb (is_connected (connection_state n))) (nodes (data ps))). lia. Qed.

(** Connecting [id] out, the effect of a successful round of either loop. *)
Record connected_out U inc ps id ps' : Prop := {
  co_pwf : pwf U ps';
  co_evolves : evolves inc ps ps';
  co_measure : (unconnected (data ps') < unconnected (data ps))%Z;
  co_links : links (data ps') = {[id]} ∪ links (data ps);
  co_frame : ps_frame (data ps) (data ps');
  co_rep : forall x, reputation (data ps') x = reputation (data ps) x;
  co_dom : dom (nodes (data ps')) = dom (nodes (data ps));
  co_out : (num_out (data ps') <= Z.max (num_out (data ps)) (max_out (data ps)))%Z;
  co_reserved : reserved_only ps' = reserved_only ps;
  co_rx : rx ps' = rx ps
}.

Lemma connect_round U inc ps id :
  pwf U ps -> known_not_connected (data ps) id = true ->
  exists d, try_outgoing (data ps) id =
      Ok (slot_free (data ps) id (num_out (data ps)) (max_out (data ps)), d) /\
    (if slot_free (data ps) id (num_out (data ps)) (max_out (data ps))
     then connected_out U inc ps id (push_message (Connect id) (set_data d ps))
     else d = data ps).
Proof.
  intros [Hd Hs Hk Hc Hl] (n & Hn & Hnc)%known_not_connected_spec.
  destruct (try_outgoing_ok _ id n Hd Hn Hnc) as (d & -> & Hwf & Hf & Hb & Hi & Ho).
  exists d. split; [done|]. destruct (slot_free _ _ _ _); [|done].
  assert (id ∉ links (data ps)) as Hlk.
  { rewrite elem_of_links. intros (n' & ? & ?). congruence. }
  pose proof (links_insert _ _ _ _ Hb) as Hli. simpl in Hli.
  assert (is_Some (nodes (data ps) !! id)) as Hid by eauto.
  assert (dom (nodes d) = dom (nodes (data ps))) as Hdom.
  { rewrite Hb, dom_insert_L. apply elem_of_dom in Hid. set_solver. }
  split; simpl; try done.
  - split; simpl; try done; [|by rewrite Hdom]. destruct Hf as (_&_&_&->). done.
  - exists [Connect id]. split; [done|]. simpl. rewrite Hli. constructor; [done|]. constructor.
  - unfold unconnected. rewrite Hb, (map_count_insert_Some _ _ _ n) by done. simpl. rewrite Hnc. simpl. lia.
  - intros x. unfold reputation. rewrite Hb. destruct (decide (x = id)) as [->|].
    + by rewrite lookup_insert_eq, Hn.
    + by rewrite lookup_insert_ne.
Qed.

Lemma known_not_connected_links d id :
  known_not_connected d id = true <-> id ∈ dom (nodes d) /\ id ∉ links d.
Proof.
  rewrite known_not_connected_spec, elem_of_dom, elem_of_links. split.
  - intros (n & Hn & Hc). split; [eauto|]. intros (n' & ? & ?). congruence.
  - intros [[n Hn] Hl]. exists n. split; [done|]. destruct (is_connected _) eqn:?; [|done]. destruct Hl; eauto.
Qed.

(** The peers the first loop of [alloc_slots] serves. *)
Definition prio_targets ps : gset PeerId :=
  if reserved_only ps then default ∅ (priority_nodes (data ps) !! RESERVED_NODES) else prio_set (data ps).

Lemma prio_targets_priority ps : prio_targets ps ⊆ prio_set (data ps).
Proof.
  unfold prio_targets. destruct (reserved_only ps); [|done]. intros id.
  destruct (priority_nodes _ !! _) eqn:?; simpl; [|set_solver]. rewrite elem_of_prio_set. eauto.
Qed.

Lemma next_priority_Some ps id :
  next_priority ps = Some id -> id ∈ prio_targets ps /\ known_not_connected (data ps) id = true.
Proof.
  unfold next_priority, prio_targets. destruct (reserved_only ps).
  - intros [(X & -> & ?) ?]%group_search_Some. done.
  - apply priority_search_Some.
Qed.

Lemma next_priority_None ps :
  next_priority ps = None <->
  forall id, id ∈ prio_targets ps -> known_not_connected (data ps) id = false.
Proof.
  split.
  - unfold next_priority, prio_targets. destruct (reserved_only ps).
    + intros Hn id. destruct (priority_nodes _ !! _) as [X|] eqn:HX; simpl; [|set_solver].
      intros. by eapply group_search_None.
    + intros Hn id. by apply priority_search_None.
  - intros Hall. destruct (next_priority ps) as [id|] eqn:Hn; [|done].
    apply next_priority_Some in Hn as [??]. rewrite Hall in *; done.
Qed.

(** The effect shared by the loops of [alloc_slots]: links are only added. *)
Record grows U inc ps ps' : Prop := {
  gr_pwf : pwf U ps';
  gr_evolves : evolves inc ps ps';
  gr_links : links (data ps) ⊆ links (data ps');
  gr_frame : ps_frame (data ps) (data ps');
  gr_rep : forall x, reputation (data ps') x = reputation (data ps) x;
  gr_dom : dom (nodes (data ps')) = dom (nodes (data ps));
  gr_out : (num_out (data ps') <= Z.max (num_out (data ps)) (max_out (data ps)))%Z;
  gr_reserved : reserved_only ps' = reserved_only ps;
  gr_rx : rx ps' = rx ps
}.

Lemma grows_refl U inc ps : pwf U ps -> grows U inc ps ps.
Proof. intros. split; try done; [by apply evolves_refl|lia]. Qed.

Lemma grows_trans U inc ps1 ps2 ps3 : grows U inc ps1 ps2 -> grows U inc ps2 ps3 -> grows U inc ps1 ps3.
Proof.
  intros [? He1 Hl1 Hf1 Hr1 Hd1 Ho1 Hs1 Hx1] [? He2 Hl2 Hf2 Hr2 Hd2 Ho2 Hs2 Hx2].
  split; try congruence; try done.
  - by eapply evolves_trans.
  - set_solver.
  - by etrans.
  - destruct Hf1 as (_&_&Hm&_). rewrite Hm in Ho2. lia.
Qed.

Lemma connected_out_grows U inc ps id ps' : connected_out U inc ps id ps' -> grows U inc ps ps'.
Proof. intros []. split; try done. set_solver. Qed.

Lemma alloc_priority_ok U inc fuel ps :
  pwf U ps -> (unconnected (data ps) < Z.of_nat fuel)%Z ->
  exists ps', alloc_priority fuel ps = Ok ps' /\ grows U inc ps ps' /\ next_priority ps' = None.
Proof.
  revert ps. induction fuel as [|fuel IH]; intros ps Hp Hf; simpl.
  { pose proof (map_count_nonneg (fun _ n => negb (is_connected (connection_state n))) (nodes (data ps))).
    unfold unconnected in Hf. lia. }
  destruct (next_priority ps) as [id|] eqn:Hn.
  2:{ exists ps. auto using grows_refl. }
  pose proof Hn as [Hid Hk]%next_priority_Some. apply prio_targets_priority in Hid.
  destruct (connect_round U inc ps id Hp Hk) as (d & -> & Hd). simpl.
  unfold slot_free in *. rewrite is_priority_spec, bool_decide_eq_true_2 in * by done. simpl in *.
  destruct (IH (push_message (Connect id) (set_data d ps))) as (ps' & -> & Hg & Hnone).
  { apply Hd. } { pose proof (co_measure _ _ _ _ _ Hd). lia. }
  exists ps'. split; [done|]. split; [|done]. eapply grows_trans; [|done]. by eapply connected_out_grows.
Qed.

(** No known, acceptable peer is left while there is a free outgoing slot. *)
Definition slots_used ps : Prop :=
  reserved_only ps = false -> forall id, known_not_connected (data ps) id = true ->
    (reputation (data ps) id < BANNED_THRESHOLD)%Z \/ (max_out (data ps) <= num_out (data ps))%Z.

Lemma grows_next_priority U inc ps ps' :
  grows U inc ps ps' -> next_priority ps = None -> next_priority ps' = None.
Proof.
  intros Hg. rewrite !next_priority_None. intros Hall id Hid.
  apply not_true_iff_false. intros Hk%known_not_connected_links.
  rewrite (gr_dom _ _ _ _ Hg) in Hk. pose proof (gr_links _ _ _ _ Hg).
  assert (known_not_connected (data ps) id = true) as Hk' by (apply known_not_connected_links; set_solver).
  rewrite Hall in Hk'; [done|]. revert Hid. unfold prio_targets.
  rewrite (gr_reserved _ _ _ _ Hg). destruct (gr_frame _ _ _ _ Hg) as (Hgr&_).
  by rewrite Hgr, (prio_set_groups _ _ Hgr).
Qed.

Lemma alloc_highest_ok U inc fuel ps :
  pwf U ps -> (unconnected (data ps) < Z.of_nat fuel)%Z -> next_priority ps = None ->
  exists ps', alloc_highest fuel ps = Ok ps' /\ grows U inc ps ps' /\ next_priority ps' = None /\
    slots_used ps'.
Proof.
  revert ps. induction fuel as [|fuel IH]; intros ps Hp Hf Hprio; simpl.
  { pose proof (map_count_nonneg (fun _ n => negb (is_connected (connection_state n))) (nodes (data ps))).
    unfold unconnected in Hf. lia. }
  assert (slots_used ps -> exists ps', Ok ps = Ok ps' /\ grows U inc ps ps' /\ next_priority ps' = None /\
    slots_used ps') as Hstop by (intros; exists ps; auto using grows_refl).
  destruct (reserved_only ps) eqn:Hr. { apply Hstop. by intros ?; congruence. }
  pose proof (highest_spec (data ps)) as Hh.
  destruct (highest_not_connected_peer (data ps)) as [id|].
  2:{ apply Hstop. intros _ id (n & Hn & ?)%known_not_connected_spec. rewrite (Hh _ _ Hn) in *. done. }
  destruct Hh as (n & Hn & Hc & Hmax).
  assert (reputation (data ps) id = reputation_of n) as Hrep by (unfold reputation; by rewrite Hn).
  case_bool_decide as Hb.
  { apply Hstop. intros _ id' (n' & Hn' & Hc')%known_not_connected_spec. left.
    specialize (Hmax _ _ Hn' Hc'). unfold reputation at 1. rewrite Hn'. lia. }
  assert (known_not_connected (data ps) id = true) as Hk by (apply known_not_connected_spec; eauto).
  destruct (connect_round U inc ps id Hp Hk) as (d & -> & Hd). simpl.
  destruct (slot_free _ _ _ _) eqn:Hsf.
  - destruct (IH (push_message (Connect id) (set_data d ps))) as (ps' & -> & Hg & ? & ?).
    { apply Hd. } { pose proof (co_measure _ _ _ _ _ Hd). lia. }
    { eapply grows_next_priority; [|done]. by eapply connected_out_grows. }
    exists ps'. split_and!; try done. eapply grows_trans; [|done]. by eapply connected_out_grows.
  - subst d. replace (set_data (data ps) ps) with ps by by destruct ps. apply Hstop. intros _ id' _. right.
    unfold slot_free in Hsf. apply orb_false_iff in Hsf as [_ Hsf].
    rewrite (pwf_sync U ps Hp), Hr in Hsf. simpl in Hsf. apply bool_decide_eq_false in Hsf. lia.
Qed.

(** The effect of [alloc_slots]: time passes, then links are added until no slot is wasted. *)
Record allocated U inc ps ps' : Prop := {
  al_pwf : pwf U ps';
  al_evolves : evolves inc ps ps';
  al_links : links (data ps) ⊆ links (data ps');
  al_frame : ps_frame (data ps) (data ps');
  al_dom : dom (nodes (data ps')) = dom (nodes (data ps));
  al_out : (num_out (data ps') <= Z.max (num_out (data ps)) (max_out (data ps)))%Z;
  al_reserved : reserved_only ps' = reserved_only ps;
  al_rx : rx ps' = rx ps;
  al_priority : next_priority ps' = None;
  al_used : slots_used ps'
}.

Lemma alloc_slots_ok U inc ps :
  pwf U ps -> exists ps', alloc_slots ps = Ok ps' /\ allocated U inc ps ps'.
Proof.
  intros Hp. unfold alloc_slots. rewrite (update_time_eq U) by done. rstep.
  destruct (alloc_priority_ok U inc (alloc_fuel (advance ps)) (advance ps)) as (ps2 & -> & Hg2 & Hn2).
  { by apply advance_pwf. } { apply unconnected_fuel. }
  rstep. destruct (alloc_highest_ok U inc (alloc_fuel ps2) ps2) as (ps3 & -> & Hg3 & Hn3 & Hu).
  { apply Hg2. } { apply unconnected_fuel. } { done. }
  exists ps3. split; [done|]. destruct (grows_trans _ _ _ _ _ Hg2 Hg3) as [? He Hl Hf _ Hd Ho Hs Hx].
  split; try done.
  - eapply evolves_trans; [apply advance_evolves|done].
  - etrans; [|done]. simpl. by rewrite decay_links.
  - rewrite Hd. apply decay_dom.
Qed.

(** *** The handlers *)

Context (U : gset PeerId) (HU : (Z.of_nat (size U) <= u32_max)%Z).

Lemma pwf_set_data ps d :
  pwf U ps -> PeersState.wf d -> priority_only d = priority_only (data ps) -> dom (nodes d) ⊆ U ->
  pwf U (set_data d ps).
Proof. intros [] ? Hpo ?. split; simpl; try done. congruence. Qed.

Lemma links_with_defaults d d' X : nodes d' = with_defaults (nodes d) X -> links d' = links d.
Proof.
  intros Hn. apply set_eq. intros id. rewrite !elem_of_links, Hn. unfold with_defaults.
  setoid_rewrite lookup_union_Some_raw. setoid_rewrite lookup_gset_to_gmap_Some. split.
  - intros (n & [?|[_ [_ <-]]] & ?); [eauto|done].
  - intros (n & ? & ?). eauto.
Qed.

Lemma regroup_ok inc ps g ids :
  pwf U ps -> ids ⊆ U ->
  exists d, set_priority_group (data ps) g ids = Ok d /\ pwf U (set_data d ps) /\
    evolves inc ps (set_data d ps) /\ links d = links (data ps) /\
    priority_nodes d = <[g := ids]> (priority_nodes (data ps)) /\
    nodes d = with_defaults (nodes (data ps)) (ids ∖ all_other_groups (data ps) g).
Proof.
  intros Hp Hids. pose proof (pwf_bounded U ps HU Hp) as Hb.
  destruct (set_priority_group_ok (data ps) g ids (pwf_data U ps Hp) Hb)
    as (d & -> & Hwf & Hn & Hg & _ & _ & Hpo).
  pose proof (links_with_defaults _ _ _ Hn) as Hl.
  exists d. split_and!; try done; [|by apply evolves_refl].
  apply pwf_set_data; try done. rewrite Hn. unfold with_defaults.
  rewrite dom_union_L, dom_gset_to_gmap. pose proof (pwf_known U ps Hp). set_solver.
Qed.

Lemma regroup_alloc_ok inc ps g ids :
  pwf U ps -> ids ⊆ U ->
  exists d ps', set_priority_group (data ps) g ids = Ok d /\ alloc_slots (set_data d ps) = Ok ps' /\
    pwf U ps' /\ evolves inc ps ps' /\ rx ps' = rx ps.
Proof.
  intros Hp Hids. destruct (regroup_ok inc ps g ids Hp Hids) as (d & Hd & Hp' & He & _).
  destruct (alloc_slots_ok U inc _ Hp') as (ps' & Ha & []).
  exists d, ps'. split_and!; try done. by eapply evolves_trans.
Qed.

Lemma group_known ps g : pwf U ps -> default ∅ (priority_nodes (data ps) !! g) ⊆ U.
Proof.
  intros Hp id. destruct (priority_nodes (data ps) !! g) as [X|] eqn:Hg; simpl; [|set_solver].
  intros. apply (pwf_known U ps Hp), (wf_known _ (pwf_data U ps Hp)), elem_of_prio_set. eauto.
Qed.

Lemma disconnect_link ps id :
  pwf U ps -> id ∈ links (data ps) ->
  exists d, disconnect (data ps) id = Ok d /\ pwf U (set_data d ps) /\ links d = links (data ps) ∖ {[id]} /\
    ps_frame (data ps) d /\ dom (nodes d) = dom (nodes (data ps)).
Proof.
  intros Hp (n & Hn & Hc)%elem_of_links.
  destruct (disconnect_ok (data ps) id n (pwf_data U ps Hp) Hn Hc) as (d & -> & Hwf & Hf & Hd).
  assert (dom (nodes d) = dom (nodes (data ps))) as Hdom.
  { rewrite Hd, dom_insert_L. apply elem_of_dom_2 in Hn. set_solver. }
  exists d. split_and!; try done.
  - apply pwf_set_data; try done; [apply Hf|]. rewrite Hdom. apply Hp.
  - rewrite (links_insert _ _ _ _ Hd). done.
Qed.

Lemma drop_message_ok inc ps id :
  pwf U ps -> id ∈ links (data ps) ->
  exists d, disconnect (data ps) id = Ok d /\
    pwf U (push_message (Drop id) (set_data d ps)) /\
    evolves inc ps (push_message (Drop id) (set_data d ps)) /\ links d = links (data ps) ∖ {[id]} /\
    ps_frame (data ps) d.
Proof.
  intros Hp Hid. destruct (disconnect_link ps id Hp Hid) as (d & -> & [] & Hl & Hf & _).
  exists d. split_and!; try done. exists [Drop id]. split; [done|]. simpl. rewrite Hl.
  constructor; [done|constructor].
Qed.

Lemma peer_links d id :
  match peer d id with Connected => id ∈ links d | _ => id ∉ links d end.
Proof.
  pose proof (peer_spec d id) as Hp. destruct (peer d id); rewrite elem_of_links; [done| |].
  - destruct Hp as (n & ? & ?). intros (n' & ? & ?). congruence.
  - intros (n' & ? & ?). congruence.
Qed.

Lemma on_add_reserved_peer_ok inc ps id :
  pwf U ps -> id ∈ U ->
  exists ps', on_add_reserved_peer ps id = Ok ps' /\ pwf U ps' /\ evolves inc ps ps' /\ rx ps' = rx ps.
Proof.
  intros Hp Hid. unfold on_add_reserved_peer, get_priority_group.
  pose proof (group_known ps RESERVED_NODES Hp).
  destruct (regroup_alloc_ok inc ps RESERVED_NODES
    ({[id]} ∪ default ∅ (priority_nodes (data ps) !! RESERVED_NODES))) as (d & ps' & -> & ? & ?); [done|set_solver|].
  rstep. eauto.
Qed.

Lemma on_remove_reserved_peer_ok inc ps id :
  pwf U ps ->
  exists ps', on_remove_reserved_peer ps id = Ok ps' /\ pwf U ps' /\ evolves inc ps ps' /\ rx ps' = rx ps.
Proof.
  intros Hp. unfold on_remove_reserved_peer, get_priority_group.
  pose proof (group_known ps RESERVED_NODES Hp).
  destruct (regroup_ok inc ps RESERVED_NODES
    (default ∅ (priority_nodes (data ps) !! RESERVED_NODES) ∖ {[id]})) as (d & -> & Hp' & He & Hl & _);
    [done|set_solver|].
  rstep. simpl data. pose proof (peer_links d id) as Hpl. destruct (peer d id); [|by eexists..].
  simpl reserved_only. destruct (reserved_only ps); [|by eexists].
  destruct (drop_message_ok inc (set_data d ps) id Hp' Hpl) as (d' & Hd' & ? & ? & _).
  simpl in Hd'. rewrite Hd'. rstep. eexists. split_and!; [done..| |done]. by eapply evolves_trans.
Qed.

Lemma drop_unreserved_linked R ps id :
  id ∈ links (data ps) ->
  drop_unreserved R ps id =
    if bool_decide (id ∈ R) then Ok ps else
      d ← disconnect (data ps) id; Ok (push_message (Drop id) (set_data d ps)).
Proof.
  intros Hid. unfold drop_unreserved. pose proof (peer_links (data ps) id) as Hpl.
  by destruct (peer (data ps) id).
Qed.

Lemma drop_unreserved_loop inc R l ps :
  NoDup l -> pwf U ps -> (forall id, id ∈ l -> id ∈ links (data ps)) ->
  exists ps', foldM (drop_unreserved R) ps l = Ok ps' /\ pwf U ps' /\ evolves inc ps ps' /\
    rx ps' = rx ps /\ links (data ps') = links (data ps) ∖ (list_to_set l ∖ R) /\
    reserved_only ps' = reserved_only ps /\ ps_frame (data ps) (data ps').
Proof.
  intros Hnd. revert ps. induction Hnd as [|id l Hid Hnd IH]; intros ps Hp Hl; simpl.
  { exists ps. split_and!; try done; [by apply evolves_refl|set_solver]. }
  assert (id ∈ links (data ps)) as Hlk by set_solver.
  rewrite drop_unreserved_linked by done.
  case_bool_decide as HR; rstep.
  { destruct (IH ps Hp) as (ps' & -> & ? & ? & ? & Hlinks & ?); [set_solver|].
    exists ps'. split_and!; try done; [|naive_solver..]. rewrite Hlinks. set_solver. }
  destruct (drop_message_ok inc ps id Hp Hlk) as (d & -> & Hp' & He & Hld & Hf). rstep.
  destruct (IH _ Hp') as (ps' & -> & ? & ? & ? & Hlinks & ? & ?).
  { intros id' ?. simpl. rewrite Hld. set_solver. }
  exists ps'. split_and!; try done; [by eapply evolves_trans| |by etrans].
  rewrite Hlinks. simpl. rewrite Hld. set_solver.
Qed.

Lemma set_priority_only_pwf ps b :
  pwf U ps ->
  pwf U (mkPeerset (set_priority_only (data ps) b) b (rx ps) (message_queue ps) (created ps)
           (latest_time_update ps) (ticks ps)).
Proof. intros [[] ? ? ? ?]. by split; [split|..]. Qed.

Lemma NoDup_connected_peers (d : PeersState PeerId) : NoDup (connected_peers d).
Proof.
  unfold connected_peers. eapply sublist_NoDup; [apply (NoDup_hm_iter_fst (nodes d))|].
  apply fmap_sublist. generalize (hm_iter (nodes d)). intros l.
  induction l as [|x l IH]; simpl; [done|]. destruct (is_connected _); by constructor.
Qed.

Lemma on_set_reserved_only_ok inc ps b :
  pwf U ps ->
  exists ps', on_set_reserved_only ps b = Ok ps' /\ pwf U ps' /\ evolves inc ps ps' /\ rx ps' = rx ps /\
    reserved_only ps' = b /\ priority_nodes (data ps') = priority_nodes (data ps) /\
    (b = true -> links (data ps') =
       links (data ps) ∩ default ∅ (priority_nodes (data ps) !! RESERVED_NODES)).
Proof.
  intros Hp. pose proof (set_priority_only_pwf ps b Hp) as Hp1. unfold on_set_reserved_only.
  set (ps1 := mkPeerset _ b _ _ _ _ _) in *.
  assert (evolves inc ps ps1) as He1 by by apply evolves_refl. destruct b.
  - unfold get_priority_group. destruct (drop_unreserved_loop inc
      (default ∅ (priority_nodes (data ps1) !! RESERVED_NODES)) (connected_peers (data ps1)) ps1)
      as (ps' & -> & ? & ? & ? & Hl & ? & (Hg&_)).
    { apply NoDup_connected_peers. } { done. }
    { intros id. rewrite elem_of_connected_peers, elem_of_links. done. }
    exists ps'. split_and!; [done..|]. intros _. rewrite Hl.
    apply set_eq. intros id. rewrite elem_of_difference, elem_of_intersection, elem_of_difference,
      elem_of_list_to_set, elem_of_connected_peers, <-elem_of_links.
    change (links (data ps1)) with (links (data ps)).
    destruct (decide (id ∈ default ∅ (priority_nodes (data ps1) !! RESERVED_NODES))); naive_solver.
  - destruct (alloc_slots_ok U inc ps1 Hp1) as (ps' & -> & [? ? ? (Hg&_) ? ? ? ? ? ?]).
    exists ps'. split_and!; done.
Qed.

(** A node update that keeps whether the peer is connected keeps the links. *)
Lemma links_same_conn d d' id n :
  nodes d' = <[id := n]> (nodes d) ->
  (is_connected (connection_state n) = true <-> id ∈ links d) -> links d' = links d.
Proof.
  intros Hn Hiff. rewrite (links_insert d d' id n Hn).
  destruct (is_connected (connection_state n)) eqn:Hc.
  - assert (id ∈ links d) by by apply Hiff. set_solver.
  - assert (id ∉ links d) by (intros ?%Hiff; congruence). set_solver.
Qed.

Lemma default_node_links d id :
  is_connected (connection_state (default Node_default (nodes d !! id))) = true <-> id ∈ links d.
Proof.
  rewrite elem_of_links. destruct (nodes d !! id) as [n|]; simpl; [|naive_solver].
  split; [eauto|]. by intros (n' & [= ->] & ?).
Qed.

Lemma links_add_reputation d id v : links (add_reputation d id v) = links d.
Proof. eapply links_same_conn; [done|]. simpl. apply default_node_links. Qed.

Lemma add_reputation_pwf ps id v :
  pwf U ps -> id ∈ U -> pwf U (set_data (add_reputation (data ps) id v) ps).
Proof.
  intros Hp Hid. destruct (add_reputation_ok (data ps) id v (pwf_data U ps Hp)) as [? _].
  apply pwf_set_data; try done. simpl. rewrite dom_insert_L. pose proof (pwf_known U ps Hp). set_solver.
Qed.

(** [discover] or nothing, as [discovered] and [incoming] do. *)
Lemma discover_unknown_ok ps id :
  pwf U ps -> id ∈ U ->
  pwf U (set_data (discover_unknown (data ps) id) ps) /\
  links (discover_unknown (data ps) id) = links (data ps) /\
  ps_frame (data ps) (discover_unknown (data ps) id) /\
  is_Some (nodes (discover_unknown (data ps) id) !! id).
Proof.
  intros Hp Hid. unfold discover_unknown. pose proof (peer_spec (data ps) id) as Hs.
  pose proof (peer_links (data ps) id) as Hl. destruct (peer (data ps) id).
  - destruct Hs as (n & ? & ?). replace (set_data (data ps) ps) with ps by by destruct ps. by split_and!; eauto.
  - destruct Hs as (n & ? & ?). replace (set_data (data ps) ps) with ps by by destruct ps. by split_and!; eauto.
  - destruct (discover_ok (data ps) id (pwf_data U ps Hp) Hs) as [Hwf Hf]. split_and!; try done.
    + apply pwf_set_data; try done. simpl. rewrite dom_insert_L. pose proof (pwf_known U ps Hp). set_solver.
    + eapply links_same_conn; [done|]. simpl. split; [done|]. by intros.
    + simpl. rewrite lookup_insert_eq. eauto.
Qed.

Lemma on_report_peer_ok inc ps id change :
  pwf U ps -> id ∈ U ->
  exists ps', on_report_peer ps id change = Ok ps' /\ pwf U ps' /\ evolves inc ps ps' /\ rx ps' = rx ps.
Proof.
  intros Hp Hid. unfold on_report_peer. rewrite (update_time_eq U) by done. rstep.
  pose proof (advance_pwf U ps Hp) as Hp1. pose proof (advance_evolves inc ps) as He1.
  pose proof (eq_refl : rx (advance ps) = rx ps) as Hrx. set (ps1 := advance ps) in *. clearbody ps1.
  pose proof (add_reputation_pwf ps1 id (rc_value change) Hp1 Hid) as Hp2.
  pose proof (links_add_reputation (data ps1) id (rc_value change)) as Hl2.
  set (d := add_reputation (data ps1) id (rc_value change)) in *.
  assert (evolves inc ps (set_data d ps1)) as He2.
  { eapply evolves_trans; [done|]. by apply evolves_refl. }
  pose proof (peer_links (data ps1) id) as Hlk. destruct (discover_unknown_ok ps1 id Hp1 Hid) as (Hp3 & Hl3 & _).
  unfold discover_unknown in Hp3, Hl3. destruct (peer (data ps1) id).
  - case_bool_decide; [|by eexists].
    destruct (drop_message_ok inc (set_data d ps1) id Hp2) as (d' & Hd' & ? & ? & _); [simpl; by rewrite Hl2|].
    simpl in Hd'. rewrite Hd'. rstep. eexists. split_and!; [done..| |done].
    eapply evolves_trans; [exact He2|done].
  - by eexists.
  - eexists. split_and!; [done| | |done].
    + apply (add_reputation_pwf _ id (rc_value change)) in Hp3; done.
    + eapply evolves_trans; [exact He1|]. apply evolves_refl; [done|]. simpl. by rewrite links_add_reputation.
Qed.

Lemma discover_loop_ok ps ids :
  pwf U ps -> (forall id, id ∈ ids -> id ∈ U) ->
  pwf U (set_data (fold_left discover_unknown ids (data ps)) ps) /\
  links (fold_left discover_unknown ids (data ps)) = links (data ps) /\
  ps_frame (data ps) (fold_left discover_unknown ids (data ps)).
Proof.
  revert ps. induction ids as [|id ids IH]; intros ps Hp Hids; simpl.
  { replace (set_data (data ps) ps) with ps by by destruct ps. done. }
  destruct (discover_unknown_ok ps id Hp) as (Hp' & Hl & Hf & _); [set_solver|].
  destruct (IH _ Hp') as (? & Hl' & Hf'); [set_solver|]. simpl in *.
  split_and!; [done|congruence|by etrans].
Qed.

Lemma discovered_fold d ids b :
  fold_left (fun acc id =>
      match peer acc.1 id with
      | Unknown => (discover acc.1 id, true)
      | _ => acc
      end) ids (d, b) =
  (fold_left discover_unknown ids d, b || existsb (fun id => bool_decide (nodes d !! id = None)) ids).
Proof.
  revert d b. induction ids as [|id ids IH]; intros d b; simpl; [by rewrite orb_false_r|].
  unfold discover_unknown at 2. pose proof (peer_spec d id) as Hs. destruct (peer d id).
  - rewrite IH. destruct Hs as (n & -> & _). by rewrite bool_decide_eq_false_2.
  - rewrite IH. destruct Hs as (n & -> & _). by rewrite bool_decide_eq_false_2.
  - rewrite IH, bool_decide_eq_true_2 by done. by rewrite orb_true_r.
Qed.

Lemma discovered_ok inc ps ids :
  pwf U ps -> (forall id, id ∈ ids -> id ∈ U) ->
  exists ps', discovered ps ids = Ok ps' /\ pwf U ps' /\ evolves inc ps ps' /\ rx ps' = rx ps.
Proof.
  intros Hp Hids. unfold discovered. rewrite discovered_fold.
  destruct (discover_loop_ok ps ids Hp Hids) as (Hp1 & Hl1 & _).
  assert (evolves inc ps (set_data (fold_left discover_unknown ids (data ps)) ps)) by by apply evolves_refl.
  destruct (false || _); [|by eexists].
  destruct (alloc_slots_ok U inc _ Hp1) as (ps' & -> & []). exists ps'.
  split_and!; try done. by eapply evolves_trans.
Qed.

(** The answer of [incoming] to a peer that is not linked, at the advanced time. *)
Definition accepts (d : PeersState PeerId) id : bool :=
  negb (bool_decide (reputation d id < BANNED_THRESHOLD)%Z) && slot_free d id (num_in d) (max_in d).

Lemma incoming_spec inc ps id index :
  pwf U ps -> id ∈ U -> inc index = Some id ->
  exists ps', incoming ps id index = Ok ps' /\ pwf U ps' /\ evolves inc ps ps' /\ rx ps' = rx ps /\
    message_queue ps' = message_queue ps ++
      (if bool_decide (id ∈ links (data ps)) then []
       else if accepts (discover_unknown (data (advance ps)) id) id then [Accept index] else [Reject index]).
Proof.
  intros Hp Hid Hinc. unfold incoming. rewrite (update_time_eq U) by done. rstep.
  pose proof (advance_pwf U ps Hp) as Hp1. pose proof (advance_evolves inc ps) as He1.
  pose proof (decay_links (elapsed_ticks ps) (data ps)) as Hld.
  change (decay (elapsed_ticks ps) (data ps)) with (data (advance ps)) in Hld. rewrite <-Hld.
  pose proof (eq_refl : rx (advance ps) = rx ps) as Hrx.
  pose proof (eq_refl : message_queue (advance ps) = message_queue ps) as Hq.
  set (ps1 := advance ps) in *. clearbody ps1.
  destruct (discover_unknown_ok ps1 id Hp1 Hid) as (Hp2 & Hl2 & _ & [n Hn]).
  pose proof (peer_links (data ps1) id) as Hlk.
  destruct (decide (id ∈ links (data ps1))) as [Hin|Hout].
  { rewrite (bool_decide_eq_true_2 (id ∈ links (data ps1))) by done. destruct (peer (data ps1) id); [|done..].
    exists ps1. by rewrite app_nil_r. }
  rewrite (bool_decide_eq_false_2 (id ∈ links (data ps1))) by done.
  set (d := discover_unknown (data ps1) id) in *.
  assert (match peer (data ps1) id with Connected => Ok ps1
    | NotConnectedPeer => answer_incoming ps1 (data ps1) id index
    | Unknown => answer_incoming ps1 (discover (data ps1) id) id index end = answer_incoming ps1 d id index) as ->.
  { unfold d, discover_unknown. by destruct (peer (data ps1) id). }
  unfold answer_incoming, accepts. case_bool_decide as Hban; simpl.
  { eexists. split_and!; [done|by destruct Hp2|..|simpl; by rewrite Hq]; [|done].
    eapply evolves_trans; [exact He1|]. exists [Reject index]. split; [done|]. simpl. rewrite Hl2.
    do 2 constructor. }
  assert (is_connected (connection_state n) = false) as Hc.
  { destruct (is_connected _) eqn:?; [|done]. destruct Hout. rewrite <-Hl2. apply elem_of_links. eauto. }
  destruct (try_accept_incoming_ok d id n (pwf_data U _ Hp2) Hn Hc) as (d' & -> & Hwf & Hf & Hb & _).
  rstep. destruct (slot_free d id (num_in d) (max_in d)).
  - assert (dom (nodes d') = dom (nodes d)) as Hdom.
    { rewrite Hb, dom_insert_L. apply elem_of_dom_2 in Hn. set_solver. }
    eexists. split_and!; [done|..|simpl; by rewrite Hq]; [| |done].
    + apply (pwf_set_data _ d') in Hp2; try done; [|apply Hf|simpl in *; rewrite Hdom; apply Hp2].
      by destruct Hp2.
    + eapply evolves_trans; [exact He1|]. exists [Accept index]. split; [done|]. simpl.
      rewrite (links_insert _ _ _ _ Hb), Hl2. simpl. by econstructor; [done..|constructor].
  - subst d'. eexists. split_and!; [done|by destruct Hp2|..|simpl; by rewrite Hq]; [|done].
    eapply evolves_trans; [exact He1|]. exists [Reject index]. split; [done|]. simpl. rewrite Hl2.
    do 2 constructor.
Qed.

Lemma dropped_ok inc ps id :
  pwf U ps ->
  exists ps' ms, dropped ps id = Ok ps' /\ pwf U ps' /\ rx ps' = rx ps /\
    message_queue ps' = message_queue ps ++ ms /\
    legal inc (links (data ps) ∖ {[id]}) ms (links (data ps')) /\
    next_priority ps' = None /\ slots_used ps'.
Proof.
  intros Hp. unfold dropped. rewrite (update_time_eq U) by done. rstep.
  pose proof (advance_pwf U ps Hp) as Hp1.
  pose proof (decay_links (elapsed_ticks ps) (data ps)) as Hld.
  change (decay (elapsed_ticks ps) (data ps)) with (data (advance ps)) in Hld. rewrite <-Hld.
  pose proof (eq_refl : rx (advance ps) = rx ps) as Hrx.
  pose proof (eq_refl : message_queue (advance ps) = message_queue ps) as Hq.
  set (ps1 := advance ps) in *. clearbody ps1. rewrite <-Hq, <-Hrx. clear Hp Hld Hq Hrx ps.
  pose proof (peer_links (data ps1) id) as Hlk.
  assert (id ∉ links (data ps1) -> exists ps' ms, (ps2 ← Ok ps1; alloc_slots ps2) = Ok ps' /\ pwf U ps' /\
    rx ps' = rx ps1 /\ message_queue ps' = message_queue ps1 ++ ms /\
    legal inc (links (data ps1) ∖ {[id]}) ms (links (data ps')) /\
    next_priority ps' = None /\ slots_used ps') as Hno.
  { intros Hout. rstep. destruct (alloc_slots_ok U inc ps1 Hp1) as (ps' & -> & [? (ms & ? & ?)]).
    exists ps', ms. split_and!; try done.
    replace (links (data ps1) ∖ {[id]}) with (links (data ps1)) by set_solver. done. }
  destruct (peer (data ps1) id); [|by apply Hno..]. clear Hno.
  assert (id ∈ U) as Hid.
  { apply (pwf_known U _ Hp1), elem_of_dom. apply elem_of_links in Hlk as (n & ? & _). eauto. }
  pose proof (add_reputation_pwf ps1 id DISCONNECT_REPUTATION_CHANGE Hp1 Hid) as Hp2.
  pose proof (links_add_reputation (data ps1) id DISCONNECT_REPUTATION_CHANGE) as Hl2.
  destruct (disconnect_link _ id Hp2) as (d & Hd & Hp3 & Hl3 & _); [simpl; by rewrite Hl2|].
  simpl in Hd, Hl3. rewrite Hd. rstep. change (pwf U (set_data d ps1)) in Hp3.
  destruct (alloc_slots_ok U inc _ Hp3) as (ps' & -> & [? (ms & Hms & Hleg)]).
  exists ps', ms. split_and!; try done. simpl in Hleg. by rewrite Hl3, Hl2 in Hleg.
Qed.

(** The identities an action mentions. *)
Definition action_ids (a : Action) : gset PeerId :=
  match a with
  | AddReservedPeer id | ReportPeer id _ | AddToPriorityGroup _ id => {[id]}
  | SetPriorityGroup _ ids => ids
  | RemoveReservedPeer _ | SetReservedOnly _ | RemoveFromPriorityGroup _ _ => ∅
  end.

Lemma handle_action_ok inc ps a :
  pwf U ps -> action_ids a ⊆ U ->
  exists ps', handle_action ps a = Ok ps' /\ pwf U ps' /\ evolves inc ps ps' /\ rx ps' = rx ps.
Proof.
  intros Hp Ha. destruct a as [id|id|b|id ch|g ids|g id|g id]; simpl in *.
  - apply on_add_reserved_peer_ok; set_solver.
  - by apply on_remove_reserved_peer_ok.
  - destruct (on_set_reserved_only_ok inc ps b Hp) as (ps' & ? & ? & ? & ? & _). eauto.
  - apply on_report_peer_ok; set_solver.
  - destruct (regroup_alloc_ok inc ps g ids Hp Ha) as (d & ps' & Hd & ? & ?).
    exists ps'. unfold on_set_priority_group. by rewrite Hd.
  - pose proof (group_known ps g Hp).
    destruct (regroup_alloc_ok inc ps g ({[id]} ∪ default ∅ (priority_nodes (data ps) !! g)))
      as (d & ps' & Hd & ? & ?); [done|set_solver|].
    exists ps'. unfold on_add_to_priority_group, add_to_priority_group. by rewrite Hd.
  - pose proof (group_known ps g Hp).
    destruct (regroup_alloc_ok inc ps g (default ∅ (priority_nodes (data ps) !! g) ∖ {[id]}))
      as (d & ps' & Hd & ? & ?); [done|set_solver|].
    exists ps'. unfold on_remove_from_priority_group, remove_from_priority_group. by rewrite Hd.
Qed.

Lemma pwf_frame ps ps' :
  data ps' = data ps -> reserved_only ps' = reserved_only ps -> created ps' = created ps ->
  latest_time_update ps' = latest_time_update ps -> ticks ps' = ticks ps -> pwf U ps -> pwf U ps'.
Proof. intros E1 E2 E3 E4 E5 []. split; rewrite ?E1, ?E2, ?E3, ?E4, ?E5; done. Qed.

Lemma poll_loop_ok inc acts ps :
  pwf U ps -> Forall (fun a => action_ids a ⊆ U) acts ->
  exists o ps' ms, poll_loop acts ps = Ok (o, ps') /\ pwf U ps' /\
    (o = None -> message_queue ps' = [] /\ rx ps' = []) /\
    Forall (fun a => action_ids a ⊆ U) (rx ps') /\
    option_list o ++ message_queue ps' = message_queue ps ++ ms /\
    legal inc (links (data ps)) ms (links (data ps')).
Proof.
  revert ps. induction acts as [|a acts IH]; intros ps Hp Hacts; simpl.
  - destruct (message_queue ps) as [|m q] eqn:Hq.
    + exists None, (set_rx [] ps), []. split_and!; try done.
      * by apply pwf_frame with ps.
      * constructor.
    + exists (Some m), (set_queue q (set_rx [] ps)), []. rewrite app_nil_r. split_and!; try done.
      * by apply pwf_frame with ps.
      * constructor.
  - destruct (message_queue ps) as [|m q] eqn:Hq.
    + apply Forall_cons in Hacts as [Ha Hacts].
      destruct (handle_action_ok inc ps a Hp Ha) as (ps1 & -> & Hp1 & (ms1 & Hq1 & Hl1) & _). rstep.
      destruct (IH ps1 Hp1 Hacts) as (o & ps' & ms2 & -> & ? & ? & ? & Hq2 & Hl2).
      exists o, ps', (ms1 ++ ms2). split_and!; try done.
      * rewrite Hq2, Hq1, Hq. by rewrite (assoc_L (++)).
      * by eapply legal_app.
    + exists (Some m), (set_queue q (set_rx (a :: acts) ps)), []. rewrite app_nil_r. split_and!; try done.
      * by apply pwf_frame with ps.
      * constructor.
Qed.

(** *** Which messages an operation queues *)

Definition is_connect (m : Message) : bool := match m with Connect _ => true | _ => false end.
Definition is_drop (m : Message) : bool := match m with Drop _ => true | _ => false end.

(** The incoming indices that a list of messages answers. *)
Definition answers (ms : list Message) : list IncomingIndex :=
  ms ≫= fun m => match m with Accept i | Reject i => [i] | Connect _ | Drop _ => [] end.

Lemma answers_app ms1 ms2 : answers (ms1 ++ ms2) = answers ms1 ++ answers ms2.
Proof. apply bind_app. Qed.

Lemma connects_answers ms : Forall (fun m => is_connect m = true) ms -> answers ms = [].
Proof. induction 1 as [|[] ms Hm _ IH]; by simpl in *. Qed.

(** From [ps] to [ps'] the messages [ms] were queued. *)
Definition queues (P : list Message -> Prop) ps ps' : Prop := exists ms, message_queue ps' = message_queue ps ++ ms /\ P ms.
Definition connects : list Message -> Prop := Forall (fun m => is_connect m = true).
Definition unanswering (ms : list Message) : Prop := answers ms = [].

Lemma queues_connects_refl ps ps' : message_queue ps' = message_queue ps -> queues connects ps ps'.
Proof. intros E. exists []. rewrite E, app_nil_r. split; [done|constructor]. Qed.

Lemma queues_connects_trans ps1 ps2 ps3 : queues connects ps1 ps2 -> queues connects ps2 ps3 -> queues connects ps1 ps3.
Proof.
  intros (ms1 & Hq1 & H1) (ms2 & Hq2 & H2). exists (ms1 ++ ms2). rewrite Hq2, Hq1, (assoc_L (++)).
  split; [done|]. by apply Forall_app.
Qed.

Lemma queues_connect ps id d : queues connects ps (push_message (Connect id) (set_data d ps)).
Proof. exists [Connect id]. split; [done|]. by apply Forall_singleton. Qed.

Lemma connects_unanswering ps ps' : queues connects ps ps' -> queues unanswering ps ps'.
Proof. intros (ms & ? & ?). exists ms. split; [done|]. by apply connects_answers. Qed.

Lemma queues_unanswering_trans ps1 ps2 ps3 :
  queues unanswering ps1 ps2 -> queues unanswering ps2 ps3 -> queues unanswering ps1 ps3.
Proof.
  intros (ms1 & Hq1 & H1) (ms2 & Hq2 & H2). exists (ms1 ++ ms2). rewrite Hq2, Hq1, (assoc_L (++)).
  split; [done|]. unfold unanswering in *. by rewrite answers_app, H1, H2.
Qed.

Lemma update_time_queue ps ps' : update_time ps = Ok ps' -> message_queue ps' = message_queue ps.
Proof. unfold update_time. intros. inv_ok. done. Qed.

Lemma alloc_priority_connects fuel ps ps' : alloc_priority fuel ps = Ok ps' -> queues connects ps ps'.
Proof.
  revert ps. induction fuel as [|fuel IH]; intros ps; simpl; [done|].
  destruct (next_priority ps); intros; inv_ok; [|by apply queues_connects_refl].
  destruct a as [[] d]; inv_ok; [|by apply queues_connects_refl].
  eapply queues_connects_trans; [apply queues_connect|by apply IH].
Qed.

Lemma alloc_highest_connects fuel ps ps' : alloc_highest fuel ps = Ok ps' -> queues connects ps ps'.
Proof.
  revert ps. induction fuel as [|fuel IH]; intros ps; simpl; [done|].
  destruct (reserved_only ps); [by intros [= <-]; apply queues_connects_refl|].
  destruct (highest_not_connected_peer (data ps)); [|by intros [= <-]; apply queues_connects_refl].
  case_bool_decide; [by intros [= <-]; apply queues_connects_refl|]. intros. inv_ok.
  destruct a as [[] d]; inv_ok; [|by apply queues_connects_refl].
  eapply queues_connects_trans; [apply queues_connect|by apply IH].
Qed.

Lemma alloc_slots_connects ps ps' : alloc_slots ps = Ok ps' -> queues connects ps ps'.
Proof.
  unfold alloc_slots. intros (ps1 & E1%update_time_queue & (ps2 & E2 & E3)%bind_Ok)%bind_Ok.
  eapply queues_connects_trans; [by apply queues_connects_refl|].
  eapply queues_connects_trans; [by eapply alloc_priority_connects|by eapply alloc_highest_connects].
Qed.

Lemma alloc_slots_connects' ps d ps' : alloc_slots (set_data d ps) = Ok ps' -> queues connects ps ps'.
Proof. intros (ms & Hq & ?)%alloc_slots_connects. by exists ms. Qed.

Lemma dropped_connects ps id ps' : dropped ps id = Ok ps' -> queues connects ps ps'.
Proof.
  unfold dropped. intros. inv_ok. apply update_time_queue in E.
  assert (message_queue a0 = message_queue ps) as Hq by (rewrite <-E; destruct (peer (data a) id); by inv_ok).
  eapply queues_connects_trans; [by apply queues_connects_refl|by eapply alloc_slots_connects].
Qed.

Lemma discovered_connects ps ids ps' : discovered ps ids = Ok ps' -> queues connects ps ps'.
Proof.
  unfold discovered. destruct (fold_left _ _ _) as [d []]; [apply alloc_slots_connects'|].
  intros [= <-]. by apply queues_connects_refl.
Qed.

Lemma queues_push_drop ps ps' id d : message_queue ps' = message_queue ps ->
  queues unanswering ps (push_message (Drop id) (set_data d ps')).
Proof. intros E. exists [Drop id]. split; [|done]. simpl. by rewrite E. Qed.

Lemma drop_unreserved_unanswering R l ps ps' : foldM (drop_unreserved R) ps l = Ok ps' -> queues unanswering ps ps'.
Proof.
  revert ps. induction l as [|id l IH]; intros ps; simpl.
  { intros [= <-]. apply connects_unanswering. by apply queues_connects_refl. }
  intros. inv_ok. apply IH in H1. eapply queues_unanswering_trans; [|done]. revert E. unfold drop_unreserved.
  destruct (peer (data ps) id); [|done..]. case_bool_decide.
  - intros [= <-]. apply connects_unanswering. by apply queues_connects_refl.
  - intros. inv_ok. by apply queues_push_drop.
Qed.

Lemma handle_action_unanswering ps a ps' : handle_action ps a = Ok ps' -> queues unanswering ps ps'.
Proof.
  assert (forall ps1 ps2, message_queue ps2 = message_queue ps1 -> queues unanswering ps1 ps2) as Hrefl.
  { intros. apply connects_unanswering. by apply queues_connects_refl. }
  destruct a as [id|id|b|id ch|g ids|g id|g id]; simpl.
  - unfold on_add_reserved_peer. intros. inv_ok. by eapply connects_unanswering, alloc_slots_connects'.
  - unfold on_remove_reserved_peer. intros. inv_ok. destruct (peer _ id); inv_ok; [|by apply Hrefl..].
    destruct (reserved_only _); inv_ok; [by apply queues_push_drop|by apply Hrefl].
  - unfold on_set_reserved_only. destruct b.
    + intros (ms & ? & ?)%drop_unreserved_unanswering. by exists ms.
    + intros (ms & ? & ?)%alloc_slots_connects%connects_unanswering. by exists ms.
  - unfold on_report_peer. intros. inv_ok. apply update_time_queue in E.
    destruct (peer _ id); inv_ok; [|by apply Hrefl..]. case_bool_decide; inv_ok; [by apply queues_push_drop|by apply Hrefl].
  - unfold on_set_priority_group. intros. inv_ok. by eapply connects_unanswering, alloc_slots_connects'.
  - unfold on_add_to_priority_group. intros. inv_ok. by eapply connects_unanswering, alloc_slots_connects'.
  - unfold on_remove_from_priority_group. intros. inv_ok. by eapply connects_unanswering, alloc_slots_connects'.
Qed.

(** A poll of an empty queue consumes actions, whose messages answer nothing. *)
Lemma poll_loop_empty acts ps o ps' : message_queue ps = [] -> poll_loop acts ps = Ok (o, ps') ->
  answers (option_list o ++ message_queue ps') = [] /\ (is_Some o -> length (rx ps') < length acts).
Proof.
  assert (forall acts ps o ps', answers (message_queue ps) = [] -> poll_loop acts ps = Ok (o, ps') ->
    answers (option_list o ++ message_queue ps') = [] /\ length (rx ps') <= length acts /\
    (message_queue ps = [] -> is_Some o -> length (rx ps') < length acts)) as Hgen.
  { clear. intros acts. induction acts as [|a acts IH]; intros ps o ps' Hq; simpl; destruct (message_queue ps) as [|m q] eqn:E.
    - intros [= <- <-]. simpl. rewrite E. split_and!; [done..|]. by intros _ [].
    - intros [= <- <-]. by split_and!.
    - intros. inv_ok. destruct (handle_action_unanswering _ _ _ E0) as (ms & Hms & Hu).
      destruct (IH a0 o ps') as (? & ? & _); [by rewrite Hms, E|done|]. split_and!; [done|lia|intros; lia].
    - intros [= <- <-]. split_and!; done. }
  intros Hq Hp. destruct (Hgen acts ps o ps') as (? & _ & ?); [by rewrite Hq|done|]. auto.
Qed.

Lemma from_config_ok inc cfg :
  in_u32 (in_peers cfg) -> in_u32 (out_peers cfg) ->
  list_to_set (reserved_nodes cfg) ⊆ U -> list_to_set (bootnodes cfg) ⊆ U ->
  exists ps, from_config cfg = Ok ps /\ pwf U ps /\ rx ps = [] /\
    legal inc ∅ (message_queue ps) (links (data ps)) /\ next_priority ps = None /\ slots_used ps.
Proof.
  intros Hi Ho Hr Hb. unfold from_config.
  set (ps0 := mkPeerset _ _ _ _ _ _ _).
  assert (pwf U ps0) as Hp0.
  { split; simpl; [by apply wf_new|done| |by apply clock_mono; lia..]. rewrite dom_empty_L. set_solver. }
  assert (links (data ps0) = ∅) as Hl0.
  { apply set_eq. intros id. rewrite elem_of_links. simpl. setoid_rewrite lookup_empty. set_solver. }
  destruct (regroup_ok inc ps0 RESERVED_NODES (list_to_set (reserved_nodes cfg)) Hp0 Hr)
    as (d1 & -> & Hp1 & _ & Hl1 & _). rstep.
  destruct (discover_loop_ok (set_data d1 ps0) (bootnodes cfg) Hp1) as (Hp2 & Hl2 & _).
  { intros id ?. apply Hb. by apply elem_of_list_to_set. }
  simpl data in Hp2, Hl2.
  destruct (alloc_slots_ok U inc _ Hp2) as (ps & Hps & Hal).
  exists ps. split; [exact Hps|]. destruct Hal as [Hp (ms & Hms & Hleg) _ _ _ _ _ Hrx Hn Hs]. split_and!; try done. simpl in Hms, Hleg. rewrite Hms. by rewrite Hl2, Hl1, Hl0 in Hleg.
Qed.

(** ** The manager as a state machine *)

(** What its owner (the network behaviour) and the handles can do. *)
Inductive call :=
| CIncoming (id : PeerId) (index : IncomingIndex)
| CDropped (id : PeerId)
| CDiscovered (ids : list PeerId)
| CSend (a : Action)
| CPoll.

Definition call_step ps (c : call) : res (option Message * Peerset) :=
  match c with
  | CIncoming id index => ps' ← incoming ps id index; Ok (None, ps')
  | CDropped id => ps' ← dropped ps id; Ok (None, ps')
  | CDiscovered ids => ps' ← discovered ps ids; Ok (None, ps')
  | CSend a => Ok (None, send_action ps a)
  | CPoll => poll_next ps
  end.

(** A run returns the messages delivered by its polls. *)
Fixpoint run ps (cs : list call) : res (list Message * Peerset) :=
  match cs with
  | [] => Ok ([], ps)
  | c :: cs' =>
      '(o, ps1) ← call_step ps c;
      '(ms, ps2) ← run ps1 cs';
      Ok (option_list o ++ ms, ps2)
  end.

Definition call_ids (c : call) : gset PeerId :=
  match c with
  | CIncoming id _ => {[id]}
  | CDiscovered ids => list_to_set ids
  | CSend a => action_ids a
  | CDropped _ | CPoll => ∅
  end.

(** The owner itself removes the link of a peer it reports as dropped. *)
Definition link_effect (c : call) (L : gset PeerId) : gset PeerId :=
  match c with CDropped id => L ∖ {[id]} | _ => L end.

(** A history pairs each call with the messages it queued; every one of them is legal at its point. *)
Inductive history inc : gset PeerId -> list (call * list Message) -> gset PeerId -> Prop :=
| history_nil L : history inc L [] L
| history_cons L c ms L1 h L2 :
    legal inc (link_effect c L) ms L1 -> history inc L1 h L2 -> history inc L ((c, ms) :: h) L2.

Lemma call_step_ok inc ps c :
  pwf U ps -> Forall (fun a => action_ids a ⊆ U) (rx ps) -> call_ids c ⊆ U ->
  (forall id i, c = CIncoming id i -> inc i = Some id) ->
  exists o ps' ms, call_step ps c = Ok (o, ps') /\ pwf U ps' /\
    Forall (fun a => action_ids a ⊆ U) (rx ps') /\
    option_list o ++ message_queue ps' = message_queue ps ++ ms /\
    legal inc (link_effect c (links (data ps))) ms (links (data ps')).
Proof.
  intros Hp Hrx Hc Hinc. destruct c as [id i|id|ids|a|]; simpl in *.
  - destruct (incoming_spec inc ps id i) as (ps' & -> & ? & (ms & ? & ?) & Hr & _); [done|set_solver|auto|].
    exists None, ps', ms. by rewrite Hr.
  - destruct (dropped_ok inc ps id Hp) as (ps' & ms & -> & ? & Hr & ? & ? & _).
    exists None, ps', ms. by rewrite Hr.
  - destruct (discovered_ok inc ps ids) as (ps' & -> & ? & (ms & ? & ?) & Hr); [done|set_solver|].
    exists None, ps', ms. by rewrite Hr.
  - exists None, (send_action ps a), []. rewrite app_nil_r. split_and!; try done.
    + by apply pwf_frame with ps.
    + simpl. apply Forall_app. auto.
    + constructor.
  - destruct (poll_loop_ok inc (rx ps) ps Hp Hrx) as (o & ps' & ms & ? & ? & _ & ? & ? & ?).
    exists o, ps', ms. done.
Qed.

Lemma run_ok inc ps cs :
  pwf U ps -> Forall (fun a => action_ids a ⊆ U) (rx ps) -> Forall (fun c => call_ids c ⊆ U) cs ->
  (forall id i, CIncoming id i ∈ cs -> inc i = Some id) ->
  exists ms ps' h, run ps cs = Ok (ms, ps') /\ pwf U ps' /\ h.*1 = cs /\
    history inc (links (data ps)) h (links (data ps')) /\
    ms ++ message_queue ps' = message_queue ps ++ concat h.*2.
Proof.
  revert ps. induction cs as [|c cs IH]; intros ps Hp Hrx Hcs Hinc; simpl.
  { exists [], ps, []. simpl. rewrite app_nil_r. split_and!; try done. constructor. }
  apply Forall_cons in Hcs as [Hc Hcs].
  destruct (call_step_ok inc ps c Hp Hrx Hc) as (o & ps1 & ms1 & -> & Hp1 & Hrx1 & Hq1 & Hl1).
  { intros id i ->. apply Hinc. left. }
  rstep. destruct (IH ps1 Hp1 Hrx1 Hcs) as (ms & ps' & h & -> & Hp' & <- & Hh & Hq).
  { intros id i ?. apply Hinc. by right. }
  rstep. exists (option_list o ++ ms), ps', ((c, ms1) :: h). split_and!; try done.
  - by econstructor.
  - simpl. by rewrite <-(assoc_L (++)), Hq, (assoc_L (++)), Hq1, <-(assoc_L (++)).
Qed.
(** *** Reputation over many seconds *)

Lemma iter_tick_reputation k n :
  reputation_of (Nat.iter k tick_node n) = Nat.iter k reput_tick (reputation_of n).
Proof. induction k as [|k IH]; simpl; [done|]. by rewrite IH. Qed.

(** ** Properties *)

(** C22: no sequence of calls makes the manager panic.  Started from any configuration and driven by any
    interleaving of incoming connections, disconnections, discoveries, handle actions and polls, every
    slot counter addition and subtraction is in range, every time subtraction is non-negative, the
    allocation loops end, and the state stays well-formed. *)
Theorem peerset_never_panics cfg cs
  (Hin : in_u32 (in_peers cfg)) (Hout : in_u32 (out_peers cfg))
  (Hres : list_to_set (reserved_nodes cfg) ⊆ U) (Hboot : list_to_set (bootnodes cfg) ⊆ U)
  (Hcs : Forall (fun c => call_ids c ⊆ U) cs)
  (inc : IncomingIndex -> option PeerId)
  (Hinc : forall id i, CIncoming id i ∈ cs -> inc i = Some id) :
  exists ms ps, (ps0 ← from_config cfg; run ps0 cs) = Ok (ms, ps) /\ pwf U ps.
Proof.
  destruct (from_config_ok inc cfg Hin Hout Hres Hboot) as (ps0 & -> & Hp & Hrx & _). rstep.
  destruct (run_ok inc ps0 cs) as (ms & ps & h & -> & ? & _); [done|by rewrite Hrx|done..|]. eauto.
Qed.

(** C23: the messages tell the owner the truth about the links.  The messages delivered so far followed
    by those still queued are those of the start-up and of each call in turn, and replaying them over
    the calls is legal: a peer is connected or accepted only when it is not linked, dropped only when
    it is, an [Accept] is for the peer that announced its index, and the links so obtained are those of
    the manager's table. *)
Theorem peerset_history_legal cfg cs
  (Hin : in_u32 (in_peers cfg)) (Hout : in_u32 (out_peers cfg))
  (Hres : list_to_set (reserved_nodes cfg) ⊆ U) (Hboot : list_to_set (bootnodes cfg) ⊆ U)
  (Hcs : Forall (fun c => call_ids c ⊆ U) cs)
  (inc : IncomingIndex -> option PeerId)
  (Hinc : forall id i, CIncoming id i ∈ cs -> inc i = Some id) :
  exists ms ps ms0 L0 h, (ps0 ← from_config cfg; run ps0 cs) = Ok (ms, ps) /\
    legal inc ∅ ms0 L0 /\ h.*1 = cs /\ history inc L0 h (links (data ps)) /\
    ms ++ message_queue ps = ms0 ++ concat h.*2.
Proof.
  destruct (from_config_ok inc cfg Hin Hout Hres Hboot) as (ps0 & -> & Hp & Hrx & Hl & _). rstep.
  destruct (run_ok inc ps0 cs) as (ms & ps & h & -> & ? & ? & ? & ?); [done|by rewrite Hrx|done..|].
  by exists ms, ps, (message_queue ps0), (links (data ps0)), h.
Qed.

(** slot allocation terminates and wastes nothing.  Afterwards every priority peer (every reserved
    peer in reserved-only mode) is connected, and outside that mode a known peer is left unconnected
    only if it is banned or the outgoing slots are full; no link is cut and the outgoing slots are not
    exceeded. *)
Theorem alloc_slots_fills ps (Hp : pwf U ps) :
  exists ps', alloc_slots ps = Ok ps' /\
    (forall id, id ∈ prio_targets ps' -> peer (data ps') id = Connected) /\
    (reserved_only ps' = false -> forall id, peer (data ps') id = NotConnectedPeer ->
       (reputation (data ps') id < BANNED_THRESHOLD)%Z \/ (max_out (data ps') <= num_out (data ps'))%Z) /\
    links (data ps) ⊆ links (data ps') /\
    (num_out (data ps') <= Z.max (num_out (data ps)) (max_out (data ps)))%Z.
Proof.
  destruct (alloc_slots_ok U (fun _ => None) ps Hp) as (ps' & -> & [Hp' _ ? _ _ ? _ _ Hn Hu]).
  exists ps'. split_and!; try done.
  - intros id Hid. pose proof (proj1 (next_priority_None ps') Hn id Hid) as Hk.
    apply prio_targets_priority, (wf_known _ (pwf_data _ _ Hp')), elem_of_dom in Hid as [n Hid].
    unfold known_not_connected, peer in *. rewrite Hid in *. by destruct (is_connected (connection_state n)).
  - intros Hro id Hid. apply Hu; [done|].
    unfold known_not_connected, peer in *. by destruct (nodes (data ps') !! id) as [n|]; [destruct (is_connected (connection_state n))|].
Qed.

(** an incoming connection is answered at most once, and exactly once, with its own index, unless
    the peer already has a link.  After the reputations have decayed to the present and the peer has
    been entered in the table, the answer is [Accept] exactly when it is not banned and is a priority
    peer or finds a free incoming slot (never a free slot in reserved-only mode). *)
Theorem incoming_answered ps id index (Hp : pwf U ps) (Hid : id ∈ U) :
  exists ps', incoming ps id index = Ok ps' /\
    let d := discover_unknown (data (advance ps)) id in
    message_queue ps' = message_queue ps ++
      (if bool_decide (id ∈ links (data ps)) then []
       else if bool_decide (reputation d id < BANNED_THRESHOLD)%Z then [Reject index]
       else if is_priority d id || (bool_decide (num_in d < max_in d)%Z && negb (priority_only d))
       then [Accept index] else [Reject index]).
Proof.
  destruct (incoming_spec (fun _ => Some id) ps id index Hp Hid eq_refl) as (ps' & -> & _ & _ & _ & Hq).
  exists ps'. split; [done|]. simpl. rewrite Hq. 
  destruct (bool_decide (id ∈ links (data ps))); [done|]. unfold accepts, slot_free.
  set (d := discover_unknown _ id). destruct (bool_decide (reputation d id < BANNED_THRESHOLD)%Z); [done|].
  destruct (is_priority d id); [done|]. by case_bool_decide; destruct (priority_only d).
Qed.

(** switching to reserved-only mode cuts exactly the links of the peers that are not reserved, and
    says so in its messages. *)
Theorem reserved_only_isolates ps (Hp : pwf U ps) :
  exists ps' ms, on_set_reserved_only ps true = Ok ps' /\ reserved_only ps' = true /\
    links (data ps') = links (data ps) ∩ default ∅ (get_priority_group (data ps) RESERVED_NODES) /\
    message_queue ps' = message_queue ps ++ ms /\
    legal (fun _ => None) (links (data ps)) ms (links (data ps')).
Proof.
  destruct (on_set_reserved_only_ok (fun _ => None) ps true Hp) as (ps' & -> & _ & (ms & ? & ?) & _ & ? & _ & Hl).
  exists ps', ms. split_and!; try done. by apply Hl.
Qed.

(** a ban by a fatal report lasts ten seconds.  A known, unlinked peer whose reputation is the
    minimum gets [Reject] as long as at most nine seconds were accounted for since; from the tenth on
    its reputation is back above the threshold. *)
Theorem fatal_ban_lasts ps id index n (Hp : pwf U ps) (Hid : nodes (data ps) !! id = Some n)
  (Hc : is_connected (connection_state n) = false) 
  (reason : string) (Hr : reputation_of n = rc_value (new_fatal reason)) :
  (elapsed_ticks ps <= 9 -> exists ps', incoming ps id index = Ok ps' /\
     message_queue ps' = message_queue ps ++ [Reject index]) /\
  (10 <= elapsed_ticks ps -> ~ (reputation (data (advance ps)) id < BANNED_THRESHOLD)%Z).
Proof.
  assert (id ∈ U) as HidU by (apply (pwf_known _ _ Hp), elem_of_dom; eauto).
  assert (reputation (data (advance ps)) id = Nat.iter (elapsed_ticks ps) reput_tick i32_min) as Hrep.
  { unfold reputation. simpl. rewrite lookup_fmap, Hid. simpl. rewrite iter_tick_reputation, Hr. done. }
  split; intros Hk.
  - destruct (incoming_spec (fun _ => Some id) ps id index Hp HidU eq_refl) as (ps' & -> & _ & _ & _ & Hq).
    exists ps'. split; [done|]. rewrite Hq. rewrite bool_decide_eq_false_2.
    2: { rewrite elem_of_links. intros (n' & Hn' & ?). simplify_eq. congruence. }
    unfold accepts. replace (discover_unknown _ id) with (data (advance ps)).
    2: { unfold discover_unknown, peer. simpl. rewrite lookup_fmap, Hid. simpl. by rewrite iter_tick_conn, Hc. }
    by rewrite Hrep, bool_decide_eq_true_2 by by apply banned_ticks.
  - rewrite Hrep, banned_ticks. lia.
Qed.

End peerset.
Arguments Action PeerId {_ _}.
Arguments Message PeerId : clear implicits.
Arguments Peerset PeerId {_ _}.
Arguments PeersetConfig PeerId : clear implicits.
Arguments call PeerId {_ _}.

(** every reputation is forgotten: each second moves it strictly towards zero without changing its
    sign or leaving the [i32] range, and after 948 seconds (the worst case is an extreme value) it is
    zero, and stays so. *)
Theorem reputation_forgotten r (Hr : in_i32 r) :
  in_i32 (reput_tick r) /\
  (r <> 0 -> Z.abs (reput_tick r) < Z.abs r /\ 0 <= Z.sgn r * reput_tick r)%Z /\
  forall k, 948 <= k -> Nat.iter k reput_tick r = 0%Z.
Proof.
  split; [by apply reput_tick_range|]. split.
  - intros Hnz. rewrite reput_tick_eq by done. pose proof (Z.quot_rem' r 50).
    pose proof (Z.rem_bound_abs r 50 ltac:(lia)).
    destruct (Z.lt_ge_cases r 0).
    + pose proof (Z.rem_nonpos r 50 ltac:(lia) ltac:(lia)). rewrite (Z.sgn_neg r) by lia. case_decide; lia.
    + pose proof (Z.rem_nonneg r 50 ltac:(lia) ltac:(lia)). rewrite (Z.sgn_pos r) by lia. case_decide; lia.
  - apply iter_tick_forget; [done|vm_compute; reflexivity..].
Qed.

(** ** Witnesses *)

Section witnesses.
#[local] Existing Instance canonical_order.

(** One second between two readings of the clock. *)
Definition demo_clock (k : nat) : Z := Z.of_nat k * NANOS_PER_SEC.

Lemma demo_clock_mono i j : i <= j -> (demo_clock i <= demo_clock j)%Z.
Proof. unfold demo_clock, NANOS_PER_SEC. lia. Qed.

Definition demo_cfg : PeersetConfig nat := mkPeersetConfig 1 2 [1; 2] false [3].
Definition demo_calls : list (call nat) :=
  [CIncoming 4 0%Z; CPoll; CSend (SetReservedOnly true); CDropped 1; CPoll; CDiscovered [5]; CPoll; CPoll].
Definition demo_inc (i : IncomingIndex) : option nat := if bool_decide (i = 0%Z) then Some 4 else None.
Definition demo_universe : gset nat := {[1; 2; 3; 4; 5]}.

(** Peer 1 holds the incoming slot, peer 2 was banned three seconds ago. *)
Definition demo_state : Peerset nat :=
  mkPeerset (mkPeersState
    {[1 := mkNode ConnectionState.In 0; 2 := mkNode ConnectionState.NotConnected i32_min]} 1 0 1 1 ∅ false)
    false [] [] 0%Z 0%Z 3.

Lemma demo_small : (Z.of_nat (size demo_universe) <= u32_max)%Z.
Proof. by vm_compute. Qed.

Lemma demo_pwf : pwf demo_clock demo_universe demo_state.
Proof.
  split; [|done| |by vm_compute..].
  - split; [split; reflexivity|vm_compute; set_solver| |done..].
    apply map_Forall_insert; [done|]. split; [done|]. by apply map_Forall_singleton.
  - simpl. rewrite dom_insert_L, dom_singleton_L. unfold demo_universe. set_solver.
Qed.

Lemma demo_calls_known : Forall (fun c => call_ids c ⊆ demo_universe) demo_calls.
Proof. unfold demo_calls, demo_universe. repeat constructor; simpl; set_solver. Qed.

Lemma demo_calls_inc id i : CIncoming id i ∈ demo_calls -> demo_inc i = Some id.
Proof.
  unfold demo_calls. rewrite !elem_of_cons, elem_of_nil. intros H. repeat destruct H as [H|H]; try done.
  by simplify_eq.
Qed.

Lemma peerset_never_panics_witness :
  exists ms ps, (ps0 ← from_config demo_clock demo_cfg; run demo_clock ps0 demo_calls) = Ok (ms, ps) /\
    pwf demo_clock demo_universe ps.
Proof.
  apply (peerset_never_panics demo_clock demo_clock_mono demo_universe demo_small demo_cfg demo_calls)
    with (inc := demo_inc);
    [done|done|unfold demo_universe; set_solver..|apply demo_calls_known|apply demo_calls_inc].
Defined.

Lemma peerset_history_legal_witness :
  exists ms ps ms0 L0 h,
    (ps0 ← from_config demo_clock demo_cfg; run demo_clock ps0 demo_calls) = Ok (ms, ps) /\
    legal demo_inc ∅ ms0 L0 /\ h.*1 = demo_calls /\ history demo_inc L0 h (links (data ps)) /\
    ms ++ message_queue ps = ms0 ++ concat h.*2.
Proof.
  apply (peerset_history_legal demo_clock demo_clock_mono demo_universe demo_small demo_cfg demo_calls);
    [done|done|unfold demo_universe; set_solver..|apply demo_calls_known|apply demo_calls_inc].
Defined.

Lemma alloc_slots_fills_witness :
  exists ps', alloc_slots demo_clock demo_state = Ok ps' /\ links (data demo_state) ⊆ links (data ps') /\
    (reputation (data ps') 2%nat < BANNED_THRESHOLD)%Z.
Proof.
  destruct (alloc_slots_fills demo_clock demo_clock_mono demo_universe demo_state demo_pwf)
    as (ps' & Heq & _ & _ & Hl & _).
  exists ps'. split; [exact Heq|]. split; [exact Hl|]. vm_compute in Heq. by injection Heq as <-.
Defined.

Lemma incoming_answered_witness :
  exists ps', incoming demo_clock demo_state 3 7%Z = Ok ps' /\ message_queue ps' = [Reject 7%Z].
Proof.
  destruct (incoming_answered demo_clock demo_clock_mono demo_universe demo_small demo_state 3 7%Z demo_pwf)
    as (ps' & Heq & Hq); [unfold demo_universe; set_solver|].
  exists ps'. split; [exact Heq|]. rewrite Hq. by vm_compute.
Defined.

Lemma reserved_only_isolates_witness :
  exists ps', on_set_reserved_only demo_clock demo_state true = Ok ps' /\ links (data ps') = ∅ /\
    message_queue ps' = [Drop 1].
Proof.
  destruct (reserved_only_isolates demo_clock demo_clock_mono demo_universe demo_small demo_state demo_pwf)
    as (ps' & ms & Heq & _ & Hl & _).
  exists ps'. split; [exact Heq|]. split; [rewrite Hl; by vm_compute|].
  vm_compute in Heq. by injection Heq as <-.
Defined.

Lemma fatal_ban_lasts_witness :
  exists ps', incoming demo_clock demo_state 2 7%Z = Ok ps' /\ message_queue ps' = [Reject 7%Z].
Proof.
  destruct (fatal_ban_lasts demo_clock demo_clock_mono demo_universe demo_small demo_state 2 7%Z
              (mkNode ConnectionState.NotConnected i32_min) demo_pwf eq_refl eq_refl "bad" eq_refl)
    as [H _].
  apply H. vm_compute. lia.
Defined.

Lemma reputation_forgotten_witness : Nat.iter 1000 reput_tick i32_min = 0%Z.
Proof. apply (reputation_forgotten i32_min); [by vm_compute|]. apply Nat.leb_le. by vm_compute. Defined.
End witnesses.
