(* ===== verification/Codec.v ===== *)
(** * Byte strings and key codecs of the channel storage

    Models [src/sgstorage/src/utils.rs] ([prefix_next]), [prefix_key] of
    [src/sgstorage/src/channel_db.rs] and the big-endian key codecs of [src/sgstorage/src/schema/].
    A byte string is a list of integers, compared byte by byte as the storage engine's default
    comparator does.  The theorems show that the big-endian encoding is a round trip and preserves the
    order, and that [prefix_next] bounds the keys under a prefix (and where it does not). *)
From S2P Require Import Prelude.

Notation bytes := (list Z).
Definition byte_ok (b : Z) : Prop := (0 <= b <= u8_max)%Z.
Definition bytes_ok (bs : bytes) : Prop := Forall byte_ok bs.

(** Bytewise lexicographic comparison. *)
Fixpoint bytes_le (a b : bytes) : bool :=
  match a, b with
  | [], _ => true
  | _ :: _, [] => false
  | x :: a', y :: b' => (x <? y)%Z || ((x =? y)%Z && bytes_le a' b')
  end.
Definition bytes_lt (a b : bytes) : Prop := bytes_le b a = false.
#[global] Instance bytes_lt_dec : RelDecision bytes_lt.
Proof. intros a b. unfold bytes_lt. apply _. Defined.

(** [u64::to_be_bytes] for [k] bytes, and [ReadBytesExt::read_u64::<BigEndian>]. *)
Fixpoint be_bytes (k : nat) (n : Z) : bytes :=
  match k with
  | 0%nat => []
  | S k' => ((n / 256 ^ Z.of_nat k') mod 256)%Z :: be_bytes k' n
  end.
Definition to_be_bytes (n : Z) : bytes := be_bytes 8 n.
Definition be_read (bs : bytes) : Z := fold_left (fun acc b => acc * 256 + b)%Z bs 0%Z.

(** [schema::ensure_slice_len_eq] *)
Definition ensure_slice_len_eq (data : bytes) (len : nat) : res unit :=
  ensure (bool_decide (length data = len)) "Unexpected data len".

(** [KeyCodec::encode_key] and [decode_key] for [u64] keys. *)
Definition encode_u64_key (version : Z) : bytes := to_be_bytes version.
Definition decode_u64_key (data : bytes) : res Z :=
  _ ← ensure_slice_len_eq data 8;
  Ok (be_read data).

(** The pair keys of the write set tables. *)
Definition encode_pair_key (key : Z * Z) : bytes := to_be_bytes key.1 ++ to_be_bytes key.2.
Definition decode_pair_key (data : bytes) : res (Z * Z) :=
  _ ← ensure_slice_len_eq data 16;
  Ok (be_read (take 8 data), be_read (drop 8 data)).

#[global] Arguments to_be_bytes : simpl never.
#[global] Arguments encode_u64_key : simpl never.
#[global] Arguments decode_u64_key : simpl never.
#[global] Arguments encode_pair_key : simpl never.
#[global] Arguments decode_pair_key : simpl never.

(** The loop of [prefix_next], over the reversed buffer; the flag is [not_full]. *)
Fixpoint bump (buf : bytes) : bytes * bool :=
  match buf with
  | [] => ([], false)
  | d :: r =>
      if bool_decide (d + 1 <= u8_max)%Z then ((d + 1)%Z :: r, true)
      else let '(r', not_full) := bump r in (0%Z :: r', not_full)
  end.
Definition prefix_next (data : bytes) : bytes :=
  let '(buf, not_full) := bump (reverse data) in
  if not_full then reverse buf else data ++ [0%Z].

(** [channel_db::prefix_key] *)
Definition prefix_key (prefix key : bytes) : bytes := prefix ++ key.

(** ** The order *)

Lemma bytes_le_refl a : bytes_le a a = true.
Proof. induction a; simpl; [done|]. rewrite Z.ltb_irrefl, Z.eqb_refl. done. Qed.

Lemma bytes_le_trans a b c : bytes_le a b = true -> bytes_le b c = true -> bytes_le a c = true.
Proof.
  revert b c. induction a as [|x a IH]; intros [|y b] [|z c]; simpl; try done.
  rewrite !orb_true_iff, !andb_true_iff, !Z.ltb_lt, !Z.eqb_eq. intros [?|[-> ?]] [?|[-> ?]]; eauto with lia.
Qed.

Lemma bytes_le_total a b : bytes_le a b = true \/ bytes_le b a = true.
Proof.
  revert b. induction a as [|x a IH]; intros [|y b]; simpl; auto.
  destruct (IH b) as [->| ->]; destruct (Z.lt_trichotomy x y) as [?|[?|?]];
    rewrite ?orb_true_iff, ?andb_true_iff, ?Z.ltb_lt, ?Z.eqb_eq; auto 6 with lia.
Qed.

Lemma bytes_le_antisymm a b : bytes_le a b = true -> bytes_le b a = true -> a = b.
Proof.
  revert b. induction a as [|x a IH]; intros [|y b]; simpl; try done.
  rewrite !orb_true_iff, !andb_true_iff, !Z.ltb_lt, !Z.eqb_eq.
  intros [?|[-> ?]] [?|[? ?]]; try lia. f_equal. auto.
Qed.

Lemma bytes_lt_le a b : bytes_lt a b -> bytes_le a b = true.
Proof. unfold bytes_lt. destruct (bytes_le_total a b) as [?|H]; [done|]. by rewrite H. Qed.

Lemma bytes_lt_irrefl a : ~ bytes_lt a a.
Proof. unfold bytes_lt. by rewrite bytes_le_refl. Qed.

Lemma bytes_le_lt_trans a b c : bytes_le a b = true -> bytes_lt b c -> bytes_lt a c.
Proof.
  unfold bytes_lt. intros Hab Hbc. destruct (bytes_le c a) eqn:Hca; [|done].
  by rewrite (bytes_le_trans c a b) in Hbc.
Qed.

Lemma bytes_lt_le_trans a b c : bytes_lt a b -> bytes_le b c = true -> bytes_lt a c.
Proof.
  unfold bytes_lt. intros Hab Hbc. destruct (bytes_le c a) eqn:Hca; [|done].
  by rewrite (bytes_le_trans b c a) in Hab.
Qed.

Lemma bytes_le_neq_lt a b : bytes_le a b = true -> a <> b -> bytes_lt a b.
Proof. unfold bytes_lt. intros ? Hne. destruct (bytes_le b a) eqn:?; [|done]. by destruct Hne; apply bytes_le_antisymm. Qed.

Lemma bytes_le_app p a b : bytes_le (p ++ a) (p ++ b) = bytes_le a b.
Proof. induction p; simpl; [done|]. by rewrite Z.ltb_irrefl, Z.eqb_refl. Qed.

Lemma bytes_le_prefix p a : bytes_le p (p ++ a) = true.
Proof. induction p; simpl; [done|]. rewrite Z.ltb_irrefl, Z.eqb_refl. done. Qed.

(** Keys of equal length are decided before their suffixes. *)
Lemma bytes_le_app_lt a b s t : length a = length b -> bytes_lt a b -> bytes_lt (a ++ s) (b ++ t).
Proof.
  unfold bytes_lt. revert b. induction a as [|x a IH]; intros [|y b]; simpl; try done.
  intros [= Hl]. rewrite !orb_false_iff, !andb_false_iff. intros [? [?|?]]; split; auto.
Qed.

(** ** Big-endian integers *)

Lemma length_be_bytes k n : length (be_bytes k n) = k.
Proof. induction k; simpl; congruence. Qed.

Lemma be_bytes_ok k n : bytes_ok (be_bytes k n).
Proof.
  induction k; simpl; constructor; [|done].
  pose proof (Z.mod_pos_bound (n / 256 ^ Z.of_nat k) 256). unfold byte_ok, u8_max. lia.
Qed.

Lemma be_split k n :
  (n mod 256 ^ Z.of_nat (S k) =
   (n / 256 ^ Z.of_nat k) mod 256 * 256 ^ Z.of_nat k + n mod 256 ^ Z.of_nat k)%Z.
Proof.
  rewrite Nat2Z.inj_succ, Z.pow_succ_r, Z.mul_comm by lia. rewrite Z.rem_mul_r by lia. lia.
Qed.

Lemma be_read_acc k n acc :
  fold_left (fun acc b => acc * 256 + b)%Z (be_bytes k n) acc
  = (acc * 256 ^ Z.of_nat k + n mod 256 ^ Z.of_nat k)%Z.
Proof.
  revert acc. induction k as [|k IH]; intros acc; simpl; [rewrite Z.mod_1_r; lia|].
  rewrite IH. rewrite (be_split k n), Nat2Z.inj_succ, Z.pow_succ_r by lia. lia.
Qed.

Lemma be_read_bytes k n : (0 <= n < 256 ^ Z.of_nat k)%Z -> be_read (be_bytes k n) = n.
Proof. intros Hn. unfold be_read. rewrite be_read_acc, Z.mod_small; lia. Qed.

Lemma u64_be_range n : in_u64 n -> (0 <= n < 256 ^ Z.of_nat 8)%Z.
Proof. unfold in_u64, u64_max. simpl. lia. Qed.

Lemma to_be_bytes_read n : in_u64 n -> be_read (to_be_bytes n) = n.
Proof. intros ?%u64_be_range. by apply be_read_bytes. Qed.

Lemma be_bytes_le_mod k n m :
  bytes_le (be_bytes k n) (be_bytes k m) = (n mod 256 ^ Z.of_nat k <=? m mod 256 ^ Z.of_nat k)%Z.
Proof.
  induction k as [|k IH]; simpl; [by rewrite !Z.mod_1_r|].
  rewrite IH. pose proof (be_split k n) as En. pose proof (be_split k m) as Em.
  simpl Z.of_nat in En, Em. rewrite En, Em.
  pose proof (Z.mod_pos_bound n (256 ^ Z.of_nat k) ltac:(lia)).
  pose proof (Z.mod_pos_bound m (256 ^ Z.of_nat k) ltac:(lia)).
  set (a := ((n / 256 ^ Z.of_nat k) mod 256)%Z). set (b := ((m / 256 ^ Z.of_nat k) mod 256)%Z).
  destruct (Z.ltb_spec a b); simpl; [symmetry; apply Z.leb_le; nia|].
  destruct (Z.eqb_spec a b) as [->|]; simpl.
  - destruct (Z.leb_spec (n mod 256 ^ Z.of_nat k) (m mod 256 ^ Z.of_nat k)); symmetry;
      [apply Z.leb_le|apply Z.leb_gt]; lia.
  - symmetry. apply Z.leb_gt. nia.
Qed.

Lemma to_be_bytes_le n m : in_u64 n -> in_u64 m -> bytes_le (to_be_bytes n) (to_be_bytes m) = (n <=? m)%Z.
Proof.
  intros Hn%u64_be_range Hm%u64_be_range. unfold to_be_bytes. by rewrite be_bytes_le_mod, !Z.mod_small.
Qed.

Lemma to_be_bytes_inj n m : in_u64 n -> in_u64 m -> to_be_bytes n = to_be_bytes m -> n = m.
Proof. intros Hn Hm E. rewrite <-(to_be_bytes_read n), <-(to_be_bytes_read m) by done. by rewrite E. Qed.

Lemma length_to_be_bytes n : length (to_be_bytes n) = 8.
Proof. apply length_be_bytes. Qed.

Lemma decode_encode_u64 v : in_u64 v -> decode_u64_key (encode_u64_key v) = Ok v.
Proof.
  intros Hv. unfold decode_u64_key, ensure_slice_len_eq, encode_u64_key.
  rewrite length_to_be_bytes, to_be_bytes_read by done. done.
Qed.

Lemma decode_encode_pair v i : in_u64 v -> in_u64 i -> decode_pair_key (encode_pair_key (v, i)) = Ok (v, i).
Proof.
  intros Hv Hi. unfold decode_pair_key, ensure_slice_len_eq, encode_pair_key. cbn [fst snd].
  rewrite length_app, !length_to_be_bytes.
  rewrite take_app_length', drop_app_length' by by rewrite length_to_be_bytes.
  rewrite !to_be_bytes_read by done. done.
Qed.

(** ** Prefixes *)

Lemma bump_full r : Forall (fun b => b = u8_max) r -> (bump r).2 = false.
Proof. induction 1 as [|b r -> Hr IH]; simpl; [done|]. by destruct (bump r). Qed.

(** A prefix that is not all ones has a last byte that can be incremented. *)
Lemma bump_split r : bytes_ok r -> ~ Forall (fun b => b = u8_max) r ->
  exists k d p, r = replicate k u8_max ++ d :: p /\ (d < u8_max)%Z /\
    bump r = (replicate k 0%Z ++ (d + 1)%Z :: p, true).
Proof.
  induction 1 as [|b r Hb Hr IH]; intros Hn; [by destruct Hn|]. simpl.
  unfold byte_ok in Hb. case_bool_decide as Hd.
  - exists 0, b, r. simpl. split_and!; [done|lia|done].
  - assert (b = u8_max) as -> by lia. destruct IH as (k & d & p & -> & ? & Hp).
    { intros ?. apply Hn. by constructor. }
    exists (S k), d, p. simpl. by rewrite Hp.
Qed.

Lemma prefix_next_split data : bytes_ok data -> ~ Forall (fun b => b = u8_max) data ->
  exists p d k, data = p ++ d :: replicate k u8_max /\ (d < u8_max)%Z /\
    prefix_next data = p ++ (d + 1)%Z :: replicate k 0%Z.
Proof.
  intros Hok Hn. destruct (bump_split (reverse data)) as (k & d & p & Hr & Hd & Hb).
  { unfold bytes_ok. by rewrite Forall_reverse. }
  { by rewrite Forall_reverse. }
  exists (reverse p), d, k. split_and!; [|done|].
  - rewrite <-(reverse_involutive data), Hr, reverse_app, reverse_cons, reverse_replicate.
    by rewrite <-(assoc_L (++)).
  - unfold prefix_next. rewrite Hb. rewrite reverse_app, reverse_cons, reverse_replicate.
    by rewrite <-(assoc_L (++)).
Qed.

Lemma prefix_next_full data : Forall (fun b => b = u8_max) data -> prefix_next data = data ++ [0%Z].
Proof.
  intros Hf. unfold prefix_next. pose proof (bump_full (reverse data)) as Hb.
  rewrite Forall_reverse in Hb. destruct (bump (reverse data)) as [? []]; [|done]. by discriminate Hb.
Qed.

Lemma ones_maximal k key : bytes_ok key -> k <= length key ->
  bytes_le (replicate k u8_max) key = true -> replicate k u8_max `prefix_of` key.
Proof.
  intros Hok. revert k. induction Hok as [|b key Hb Hok IH]; intros [|k]; cbn [replicate length bytes_le]; intros Hl; try lia.
  - intros _. by apply prefix_nil.
  - intros _. by apply prefix_nil.
  - unfold byte_ok in Hb. rewrite orb_true_iff, andb_true_iff, Z.ltb_lt, Z.eqb_eq.
    intros [?|[<- ?]]; [lia|]. apply prefix_cons. apply IH; [lia|done].
Qed.

Lemma zeros_minimal k key : bytes_ok key -> k <= length key -> bytes_le (replicate k 0%Z) key = true.
Proof.
  intros Hok. revert k. induction Hok as [|b key Hb Hok IH]; intros [|k]; cbn [replicate length bytes_le]; intros Hl; try done; try lia.
  unfold byte_ok in Hb. rewrite orb_true_iff, andb_true_iff, Z.ltb_lt, Z.eqb_eq.
  destruct (Z.eq_dec 0 b); [right|left; lia]. split; [done|]. apply IH. lia.
Qed.

Lemma between_prefix p d k key : bytes_ok key -> length p + S k <= length key ->
  bytes_le (p ++ d :: replicate k u8_max) key = true -> bytes_lt key (p ++ (d + 1)%Z :: replicate k 0%Z) ->
  p ++ d :: replicate k u8_max `prefix_of` key.
Proof.
  revert key. induction p as [|x p IH]; intros [|y key] Hok Hl; simpl in *; try lia;
    inversion_clear Hok; unfold bytes_lt; simpl;
    rewrite orb_true_iff, orb_false_iff, andb_true_iff, andb_false_iff, Z.ltb_lt, Z.eqb_eq, Z.ltb_ge.
  - intros [?|[-> ?]] [? Hlt].
    + exfalso. assert (y = d + 1)%Z as -> by lia. rewrite Z.eqb_refl in Hlt.
      destruct Hlt as [|Hlt]; [done|]. by rewrite zeros_minimal in Hlt by (done || lia).
    + apply prefix_cons, ones_maximal; [done|lia|done].
  - intros [?|[-> ?]] [? Hlt]; [lia|]. apply prefix_cons, IH; [done|lia|done|].
    rewrite Z.eqb_refl in Hlt. by destruct Hlt.
Qed.

Lemma prefix_next_bound data key : bytes_ok data -> ~ Forall (fun b => b = u8_max) data ->
  data `prefix_of` key -> bytes_lt key (prefix_next data).
Proof.
  intros Hok Hn [s ->]. destruct (prefix_next_split data Hok Hn) as (p & d & k & -> & ? & ->).
  unfold bytes_lt. rewrite <-(assoc_L (++)), bytes_le_app. simpl.
  rewrite orb_false_iff, andb_false_iff, Z.ltb_ge, Z.eqb_neq. lia.
Qed.

Lemma length_prefix_next data : bytes_ok data -> ~ Forall (fun b => b = u8_max) data ->
  length (prefix_next data) = length data.
Proof.
  intros Hok Hn. destruct (prefix_next_split data Hok Hn) as (p & d & k & -> & _ & ->).
  rewrite !length_app. simpl. by rewrite !length_replicate.
Qed.

(** The extensions of a prefix are contiguous. *)
Lemma prefix_convex p e s : bytes_le p e = true -> bytes_le e (p ++ s) = true -> p `prefix_of` e.
Proof.
  revert e. induction p as [|x p IH]; intros e; [intros; by apply prefix_nil|].
  destruct e as [|y e]; simpl; [done|].
  rewrite !orb_true_iff, !andb_true_iff, !Z.ltb_lt, !Z.eqb_eq.
  intros [?|[-> ?]] [?|[? ?]]; try lia. apply prefix_cons. auto.
Qed.

Lemma bytes_max (l : list bytes) : l <> [] -> exists m, m ∈ l /\ forall x, x ∈ l -> bytes_le x m = true.
Proof.
  induction l as [|a l IH]; [done|]. intros _. destruct l as [|b l].
  - exists a. split; [left|]. intros x ->%list_elem_of_singleton. apply bytes_le_refl.
  - destruct IH as (m & Hm & Hmax); [done|]. destruct (bytes_le_total a m) as [Ha|Ha].
    + exists m. split; [by right|]. intros x [->|?]%elem_of_cons; auto.
    + exists a. split; [left|]. intros x [->|?]%elem_of_cons; [apply bytes_le_refl|].
      eapply bytes_le_trans; eauto.
Qed.

(** ** Properties *)

(** the [u64] and pair key codecs are round trips on 64-bit values and preserve the order: the byte
    strings compare exactly as the numbers (pairs: lexicographically), so the storage engine's key order
    is the version order. *)
Theorem key_codec_correct v w i j (Hv : in_u64 v) (Hw : in_u64 w) (Hi : in_u64 i) (Hj : in_u64 j) :
  decode_u64_key (encode_u64_key v) = Ok v /\
  bytes_le (encode_u64_key v) (encode_u64_key w) = (v <=? w)%Z /\
  decode_pair_key (encode_pair_key (v, i)) = Ok (v, i) /\
  bytes_le (encode_pair_key (v, i)) (encode_pair_key (w, j)) = ((v <? w)%Z || ((v =? w)%Z && (i <=? j)%Z)).
Proof.
  split_and!; [by apply decode_encode_u64|by apply to_be_bytes_le|by apply decode_encode_pair|].
  unfold encode_pair_key. cbn [fst snd]. destruct (Z.lt_trichotomy v w) as [Hlt|[->|Hgt]].
  - rewrite (proj2 (Z.ltb_lt v w)) by done. cbn [orb]. apply bytes_lt_le, bytes_le_app_lt; [done|].
    unfold bytes_lt. rewrite to_be_bytes_le by done. lia.
  - rewrite bytes_le_app, Z.ltb_irrefl, Z.eqb_refl. by apply to_be_bytes_le.
  - replace (v <? w)%Z with false by lia. replace (v =? w)%Z with false by lia. cbn [orb andb].
    apply bytes_le_app_lt; [done|]. unfold bytes_lt. rewrite to_be_bytes_le by done. lia.
Qed.

(** for a prefix that is not all ones, a key at least as long as the prefix lies between the prefix
    and [prefix_next] exactly when it starts with the prefix; for a prefix of ones only, [prefix_next] is
    at or below every extension by a [u64] key. *)
Theorem prefix_next_correct data key (Hd : bytes_ok data) (Hk : bytes_ok key) (Hl : length data <= length key) :
  (~ Forall (fun b => b = u8_max) data ->
     (data `prefix_of` key <-> bytes_le data key = true /\ bytes_lt key (prefix_next data))) /\
  (Forall (fun b => b = u8_max) data -> forall v, bytes_le (prefix_next data) (prefix_key data (encode_u64_key v)) = true).
Proof.
  split.
  - intros Hn. split.
    + intros Hp. split; [|by apply prefix_next_bound]. destruct Hp as [s ->]. apply bytes_le_prefix.
    + intros [Hle Hlt]. destruct (prefix_next_split data Hd Hn) as (p & d & k & -> & ? & E).
      rewrite E in Hlt. apply between_prefix; [done| |done..].
      revert Hl. rewrite length_app. simpl. by rewrite length_replicate.
  - intros Hf v. rewrite prefix_next_full by done. unfold prefix_key. rewrite bytes_le_app.
    apply (zeros_minimal 1); [apply be_bytes_ok|]. unfold encode_u64_key, to_be_bytes. rewrite length_be_bytes. lia.
Qed.

Lemma key_codec_correct_witness :
  decode_u64_key (encode_u64_key 258) = Ok 258%Z /\
  bytes_le (encode_pair_key (1, 300)%Z) (encode_pair_key (2, 0)%Z) = true.
Proof.
  destruct (key_codec_correct 258 259 0 0) as [H _]; [done..|].
  destruct (key_codec_correct 1 2 300 0) as (_ & _ & _ & H'); [done..|]. rewrite H'. auto.
Defined.

Lemma prefix_next_correct_witness :
  [7; 255]%Z `prefix_of` [7; 255; 9]%Z /\ bytes_lt [7; 255; 9]%Z (prefix_next [7; 255]%Z).
Proof.
  assert (bytes_ok [7; 255]%Z) as H1 by (repeat constructor; by vm_compute).
  assert (bytes_ok [7; 255; 9]%Z) as H2 by (repeat constructor; by vm_compute).
  assert ([7; 255]%Z `prefix_of` [7; 255; 9]%Z) as H3 by by exists [9%Z].
  split; [exact H3|].
  apply (proj1 (prefix_next_correct [7; 255]%Z [7; 255; 9]%Z H1 H2 ltac:(simpl; lia))); [|exact H3].
  intros H. by inversion H.
Defined.
