(* ===== verification/Substream.v ===== *)
(** * Substreams of the custom protocol

    Models [src/network-libp2p/src/custom_proto/upgrade.rs]: the protocol a node registers and the substream
    that a successful negotiation yields, with its queue of packets.  The framed transport below it (a
    fused stream and sink of packets) is a parameter: [Framed] names what is called of it, [FramedLaws]
    states its documented behaviour.

    The theorem: a substream hands the packets to the transport in the order in which they were given to
    it, none lost and none twice, and reads from the transport in every poll but the one that reports a
    clogged queue. *)
From stdpp Require Import sorting pretty.
From S2P Require Import Prelude Codec.

(** ** Registered protocols *)

(** [libp2p::core::Endpoint] *)
Inductive Endpoint := Dialer | Listener.
#[global] Instance Endpoint_eq_dec : EqDecision Endpoint.
Proof. solve_decision. Defined.

Record RegisteredProtocol := mkRegisteredProtocol {
  protocol_id : bytes;
  base_name : bytes;
  supported_versions : list Z
}.

Definition ascii_bytes (s : string) : bytes := map (fun c => Z.of_N (Ascii.N_of_ascii c)) (String.list_ascii_of_string s).

Definition version_ge (a b : Z) : Prop := (b <= a)%Z.
#[local] Instance version_ge_dec : RelDecision version_ge.
Proof. intros a b. unfold version_ge. apply _. Defined.

(** [RegisteredProtocol::new]: the versions in descending order. *)
Definition RegisteredProtocol_new (protocol : bytes) (versions : list Z) : RegisteredProtocol :=
  {| protocol_id := protocol;
     base_name := ascii_bytes "/stargate/" ++ protocol ++ ascii_bytes "/";
     supported_versions := merge_sort version_ge versions |}.

Record RegisteredProtocolName := mkRegisteredProtocolName { rpn_name : bytes; rpn_version : Z }.

(** [UpgradeInfo::protocol_info] *)
Definition protocol_info (p : RegisteredProtocol) : list RegisteredProtocolName :=
  map (fun version => mkRegisteredProtocolName (base_name p ++ ascii_bytes (pretty (Z.to_N version))) version)
    (supported_versions p).

(** ** Asynchronous results of futures 0.1 *)

Inductive Async (A : Type) := Ready (a : A) | NotReady.
#[global] Arguments Ready {A} a.
#[global] Arguments NotReady {A}.

(** A sink gives the packet back when it does not take it. *)
Inductive AsyncSink := SinkReady | SinkNotReady (packet : bytes).

(** [Fuse<Framed<..>>] *)
Class Framed := {
  Inner : Type;
  inner_start_send : bytes -> stM Inner AsyncSink;
  inner_poll_complete : stM Inner (Async unit);
  inner_close : stM Inner (Async unit);
  inner_poll : stM Inner (Async (option bytes))
}.

(** [accepted] lists the packets the sink took, [finished] says that the stream has ended: the fuse then
    answers [None] for ever. *)
Class FramedLaws `{Framed} := {
  accepted : Inner -> list bytes;
  finished : Inner -> Prop;
  start_send_spec p i :
    match inner_start_send p i with
    | (Ok SinkReady, i') => accepted i' = accepted i ++ [p]
    | (Ok (SinkNotReady q), i') => q = p /\ accepted i' = accepted i
    | (Err _, _) => True
    | (Panic _, _) => False
    end;
  poll_complete_spec i :
    accepted (inner_poll_complete i).2 = accepted i /\ no_panic (inner_poll_complete i).1;
  close_spec i : accepted (inner_close i).2 = accepted i /\ no_panic (inner_close i).1;
  poll_spec i : accepted (inner_poll i).2 = accepted i /\ no_panic (inner_poll i).1 /\
    ((inner_poll i).1 = Ok (Ready None) -> finished (inner_poll i).2);
  finished_poll i : finished i -> (inner_poll i).1 = Ok (Ready None)
}.

(** ** The substream *)

Section substream.
Context `{Framed}.

Record RegisteredProtocolSubstream := mkSubstream {
  is_closing : bool;
  ss_endpoint : Endpoint;
  send_queue : list bytes;
  requires_poll_complete : bool;
  inner : Inner;
  protocol_version : Z;
  clogged_fuse : bool
}.
Notation Substream := RegisteredProtocolSubstream.
Implicit Types (s : Substream).

Definition set_send_queue q s : Substream :=
  mkSubstream (is_closing s) (ss_endpoint s) q (requires_poll_complete s) (inner s) (protocol_version s) (clogged_fuse s).
Definition set_requires b s : Substream :=
  mkSubstream (is_closing s) (ss_endpoint s) (send_queue s) b (inner s) (protocol_version s) (clogged_fuse s).
Definition set_inner i s : Substream :=
  mkSubstream (is_closing s) (ss_endpoint s) (send_queue s) (requires_poll_complete s) i (protocol_version s) (clogged_fuse s).
Definition set_fuse b s : Substream :=
  mkSubstream (is_closing s) (ss_endpoint s) (send_queue s) (requires_poll_complete s) (inner s) (protocol_version s) b.

(** [upgrade_inbound] and [upgrade_outbound]: the codec of the first limits packets to 16 MiB, which is
    a parameter of the transport. *)
Definition upgrade_inbound (socket : Inner) (version : Z) : Substream :=
  mkSubstream false Listener [] false socket version false.
Definition upgrade_outbound (socket : Inner) (version : Z) : Substream :=
  mkSubstream false Dialer [] false socket version false.

(** [RegisteredProtocolSubstream::shutdown] *)
Definition shutdown s : Substream :=
  mkSubstream true (ss_endpoint s) [] (requires_poll_complete s) (inner s) (protocol_version s) (clogged_fuse s).

(** [RegisteredProtocolSubstream::send_message] *)
Definition send_message (data : bytes) s : Substream :=
  if is_closing s then s else set_send_queue (send_queue s ++ [data]) s.

Inductive RegisteredProtocolEvent :=
| Message (data : bytes)
| Clogged (messages : list bytes).

(** An operation of the transport. *)
Definition on_inner {A} (m : stM Inner A) : stM Substream A :=
  fun s => let '(r, i) := m (inner s) in (r, set_inner i s).

(** The loop that flushes the local queue, by recursion on it; a packet that errors is gone. *)
Fixpoint flush_queue (q : list bytes) : stM Substream unit :=
  match q with
  | [] => mret tt
  | packet :: q' =>
      modifyS (set_send_queue q');;
      r ← on_inner (inner_start_send packet);
      match r with
      | SinkNotReady packet' => modifyS (set_send_queue (packet' :: q'))
      | SinkReady => modifyS (set_requires true);; flush_queue q'
      end
  end.

(** The second half of [poll]: flushing the transport, then receiving. *)
Definition poll_incoming : stM Substream (Async (option RegisteredProtocolEvent)) :=
  s ← getS;
  (if requires_poll_complete s then
     r ← on_inner inner_poll_complete;
     match r with Ready _ => modifyS (set_requires false) | NotReady => mret tt end
   else mret tt);;
  r ← on_inner inner_poll;
  s ← getS;
  mret (match r with
        | Ready (Some data) => Ready (Some (Message data))
        | Ready None =>
            if negb (requires_poll_complete s) && bool_decide (send_queue s = []) then Ready None else NotReady
        | NotReady => NotReady
        end).

(** [Stream::poll] *)
Definition substream_poll : stM Substream (Async (option RegisteredProtocolEvent)) :=
  s ← getS;
  flush_queue (send_queue s);;
  s ← getS;
  if is_closing s then
    r ← on_inner inner_close;
    mret (match r with Ready _ => Ready None | NotReady => NotReady end)
  else if bool_decide (2048 <= Z.of_nat (length (send_queue s)))%Z then
    if negb (clogged_fuse s) then
      modifyS (set_fuse true);; mret (Ready (Some (Clogged (send_queue s))))
    else poll_incoming
  else modifyS (set_fuse false);; poll_incoming.

(** ** Lemmas *)

Context `{!FramedLaws}.

(** The packets handed over so far and those still waiting. *)
Definition outbox s : list bytes := accepted (inner s) ++ send_queue s.

Definition io_ok {A} (r : res A) : Prop := match r with Ok _ => True | _ => False end.

(** What flushing changes: nothing but the queue, the transport and the flag that the transport has to
    be flushed. *)
Lemma flush_queue_spec q s : send_queue s = q ->
  let '(r, s') := flush_queue q s in
  no_panic r /\ is_closing s' = is_closing s /\ clogged_fuse s' = clogged_fuse s /\
  ss_endpoint s' = ss_endpoint s /\ protocol_version s' = protocol_version s /\
  (io_ok r -> outbox s' = outbox s /\ (q = [] -> s' = s)).
Proof.
  revert s. induction q as [|p q IH]; intros s Hq; [done|]. cbn [flush_queue].
  unfold mbind, stM_bind, modifyS, on_inner. cbn [inner set_send_queue].
  pose proof (start_send_spec p (inner s)) as Hs.
  destruct (inner_start_send p (inner s)) as [[[|p']|e|e] i'] eqn:E; cbn; try done.
  - specialize (IH (set_requires true (set_inner i' (set_send_queue q s))) eq_refl).
    destruct (flush_queue q _) as [r s']. destruct IH as (? & ? & ? & ? & ? & Ho). cbn in *.
    split_and!; try done. intros [Ho' _]%Ho. split; [|done]. rewrite Ho'. unfold outbox. cbn.
    by rewrite Hs, Hq, <-(assoc_L (++)).
  - destruct Hs as [-> Hs]. split_and!; try done. intros _. split; [|done]. unfold outbox. cbn. by rewrite Hs, Hq.
Qed.

(** A substream with nothing to send that is closing or has ended: polling it yields no event. *)
Definition drained s : Prop :=
  send_queue s = [] /\ (is_closing s = true \/ (requires_poll_complete s = false /\ finished (inner s))).

(** A closing substream has no packets. *)
Definition ss_wf s : Prop := is_closing s = true -> send_queue s = [].

Lemma poll_incoming_spec s :
  let '(r, s') := poll_incoming s in
  no_panic r /\ is_closing s' = is_closing s /\ clogged_fuse s' = clogged_fuse s /\ send_queue s' = send_queue s /\
  outbox s' = outbox s /\ (r = Ok (Ready None) -> drained s') /\
  (forall ms, r <> Ok (Ready (Some (Clogged ms)))) /\ (drained s -> is_closing s = false -> r = Ok (Ready None)).
Proof.
  unfold poll_incoming, mbind, stM_bind, getS, modifyS, on_inner, mret, stM_ret.
  destruct (requires_poll_complete s) eqn:Hr; cbn.
  - destruct (poll_complete_spec (inner s)) as [Hc Hn].
    destruct (inner_poll_complete (inner s)) as [[[[]|]|e|e] i1]; cbn in *; try done.
    + destruct (poll_spec i1) as (Hp & Hn' & Hf). destruct (inner_poll i1) as [[[[d|]|]|e|e] i2]; cbn in *; try done.
      all: unfold outbox, drained; cbn; rewrite ?Hp, ?Hc; split_and!; try done.
      all: try case_bool_decide; naive_solver congruence.
    + destruct (poll_spec i1) as (Hp & Hn' & Hf). destruct (inner_poll i1) as [[[[d|]|]|e|e] i2]; cbn in *; try done.
      all: unfold outbox, drained; cbn; rewrite ?Hp, ?Hc, ?Hr; split_and!; try done; naive_solver congruence.
    + unfold outbox, drained; cbn; rewrite Hc. split_and!; try done; naive_solver congruence.
  - destruct (poll_spec (inner s)) as (Hp & Hn' & Hf). pose proof (finished_poll (inner s)) as Hfin.
    destruct (inner_poll (inner s)) as [[[[d|]|]|e|e] i2]; cbn in *; try done.
    all: unfold outbox, drained; cbn; rewrite ?Hp, ?Hr; cbn; split_and!; try done.
    all: try case_bool_decide; naive_solver congruence.
Qed.

Lemma substream_poll_spec s : ss_wf s ->
  let '(r, s') := substream_poll s in
  no_panic r /\ ss_wf s' /\ is_closing s' = is_closing s /\ (io_ok r -> outbox s' = outbox s) /\
  (r = Ok (Ready None) -> drained s') /\
  (drained s -> io_ok r -> r = Ok (Ready None) \/ (r = Ok NotReady /\ drained s')) /\
  (io_ok r -> is_closing s = false -> clogged_fuse s' = bool_decide (2048 <= Z.of_nat (length (send_queue s')))%Z) /\
  (forall ms, r = Ok (Ready (Some (Clogged ms))) ->
     is_closing s = false /\ clogged_fuse s = false /\ ms = send_queue s' /\ (2048 <= Z.of_nat (length ms))%Z).
Proof.
  intros Hwf. unfold substream_poll. unfold mbind, stM_bind, getS, modifyS.
  pose proof (flush_queue_spec (send_queue s) s eq_refl) as Hfl.
  destruct (flush_queue (send_queue s) s) as [[[]|e|e] s1] eqn:Ef.
  3:{ by destruct Hfl. }
  2:{ destruct Hfl as (_ & Hc & _). split_and!; try done. intros Hcl. rewrite Hc in Hcl. by rewrite (Hwf Hcl) in Ef. }
  destruct Hfl as (_ & Hc & Hf & _ & _ & [Ho Hnil]); [done|].
  assert (ss_wf s1) as Hwf1.
  { intros Hcl. rewrite Hc in Hcl. specialize (Hwf Hcl). rewrite (Hnil Hwf). done. }
  destruct (is_closing s1) eqn:Hcl.
  - specialize (Hwf1 Hcl). unfold on_inner, mret, stM_ret. destruct (close_spec (inner s1)) as [Ha Hn].
    destruct (inner_close (inner s1)) as [[[[]|]|e|e] i]; cbn in *; try done.
    all: unfold ss_wf, drained, outbox in *; cbn; rewrite <-Hc, ?Ha, ?Hcl; split_and!; try done; naive_solver.
  - case_bool_decide as Hlen.
    + destruct (clogged_fuse s1) eqn:Hfu; cbn.
      * pose proof (poll_incoming_spec s1) as Hp. destruct (poll_incoming s1) as [r s2].
        destruct Hp as (? & Hc2 & Hf2 & Hq2 & Ho2 & Hd2 & Hno & _).
        unfold ss_wf. rewrite Hc2, <-Hc, Hcl, Hf2, Hq2, Hfu. split_and!; try done; [congruence|..|naive_solver].
        -- intros [Hq _]. rewrite (Hnil Hq), Hq in Hlen. simpl in Hlen. lia.
        -- by rewrite bool_decide_eq_true_2.
      * unfold ss_wf. cbn. rewrite <-Hc, Hcl. split_and!; try done.
        -- intros [Hq _]. rewrite (Hnil Hq), Hq in Hlen. simpl in Hlen. lia.
        -- by rewrite bool_decide_eq_true_2.
        -- intros ms [= <-]. by rewrite <-Hf.
    + pose proof (poll_incoming_spec (set_fuse false s1)) as Hp. destruct (poll_incoming (set_fuse false s1)) as [r s2].
      destruct Hp as (? & Hc2 & Hf2 & Hq2 & Ho2 & Hd2 & Hno & Hdr). cbn in *.
      unfold ss_wf. rewrite Hc2, <-Hc, Hcl, Hf2, Hq2. split_and!; try done; [intros; rewrite Ho2; exact Ho|..|naive_solver].
      * intros Hd _. left. apply Hdr; [|done]. destruct Hd as [Hq Hd]. by rewrite (Hnil Hq).
      * by rewrite bool_decide_eq_false_2.
Qed.

(** ** Runs of a substream *)

Inductive ss_op := SsSend (data : bytes) | SsPoll.

(** A poll is observed with the number of packets that wait after it.  A run ends at the first error,
    when the owner lets go of the substream. *)
Fixpoint ss_run (ops : list ss_op) : stM Substream (list (Async (option RegisteredProtocolEvent) * nat)) :=
  match ops with
  | [] => mret []
  | SsSend data :: ops' => modifyS (send_message data);; ss_run ops'
  | SsPoll :: ops' =>
      r ← substream_poll;
      s ← getS;
      outs ← ss_run ops';
      mret ((r, length (send_queue s)) :: outs)
  end.

Definition sent (ops : list ss_op) : list bytes :=
  ops ≫= fun op => match op with SsSend data => [data] | SsPoll => [] end.

Definition is_clogged (o : Async (option RegisteredProtocolEvent) * nat) : Prop :=
  exists ms, o.1 = Ready (Some (Clogged ms)).

(** The reports allowed from a state of the fuse: none while it is set. *)
Inductive clog_reports : bool -> list (Async (option RegisteredProtocolEvent) * nat) -> Prop :=
| clog_nil f : clog_reports f []
| clog_cons f o outs : (is_clogged o -> f = false /\ (2048 <= Z.of_nat o.2)%Z) ->
    clog_reports (bool_decide (2048 <= Z.of_nat o.2)%Z) outs -> clog_reports f (o :: outs).

Lemma ss_run_spec ops s : is_closing s = false ->
  let '(r, s') := ss_run ops s in
  no_panic r /\ forall outs, r = Ok outs -> outbox s' = outbox s ++ sent ops /\ clog_reports (clogged_fuse s) outs.
Proof.
  revert s. induction ops as [|[d|] ops IH]; intros s Hc; cbn [ss_run].
  - split; [done|]. intros outs [= <-]. split; [by rewrite app_nil_r|constructor].
  - unfold mbind, stM_bind, modifyS, send_message. rewrite Hc.
    specialize (IH (set_send_queue (send_queue s ++ [d]) s) Hc). destruct (ss_run ops _) as [r s'].
    destruct IH as [? IH]. split; [done|]. intros outs ->. destruct (IH outs eq_refl) as [-> ?]. split; [|done].
    unfold outbox. cbn. by rewrite <-!(assoc_L (++)).
  - unfold mbind, stM_bind, getS. pose proof (substream_poll_spec s) as Hp.
    destruct (substream_poll s) as [[r|e|e] s1]; (destruct Hp as (? & _ & Hc1 & Ho & _ & _ & Hf & Hcl); [by intros ?; congruence|]); try done.
    specialize (IH s1). rewrite Hc1 in IH. specialize (IH Hc). destruct (ss_run ops s1) as [[outs|e|e] s2]; destruct IH as [? IH]; try done.
    split; [done|]. intros ? [= <-]. destruct (IH outs eq_refl) as [-> Hr]. rewrite Ho by done. split; [done|].
    constructor; [|by rewrite Hf in Hr]. intros [ms [= ->]]. destruct (Hcl ms) as (_ & -> & -> & ?); done.
Qed.

Lemma clog_reports_set a o b o' c : clog_reports false (a ++ o :: b ++ o' :: c) ->
  is_clogged o -> is_clogged o' -> exists x, x ∈ b /\ (Z.of_nat x.2 < 2048)%Z.
Proof.
  assert (forall f l1 l2, clog_reports f (l1 ++ l2) -> exists f', clog_reports f' l2) as Happ.
  { intros f l1. revert f. induction l1 as [|x l1 IH]; intros f l2 Hl; [eauto|]. inversion Hl; eauto. }
  intros Hr Ho Ho'. destruct (Happ _ _ _ Hr) as [f Hr1]. inversion Hr1 as [|? ? ? Hx Hr2]; subst.
  destruct (Hx Ho) as [_ Hlen]. rewrite bool_decide_eq_true_2 in Hr2 by done. clear Hr Hr1 Hx Happ Hlen f a Ho.
  induction b as [|x b IH]; simpl in Hr2.
  - inversion Hr2 as [|? ? ? Hx _]; subst. destruct (Hx Ho') as [? _]. done.
  - inversion Hr2 as [|? ? ? _ Hr3]; subst. destruct (decide (2048 <= Z.of_nat x.2)%Z) as [?|Hlt].
    + rewrite bool_decide_eq_true_2 in Hr3 by done. destruct (IH Hr3) as (y & ? & ?). exists y. split; [by right|done].
    + exists x. split; [left|lia].
Qed.

(** C35: a fresh substream hands every packet to the transport in the order in which the packets were given
    to it: at any point of a run without errors the packets the transport took, followed by those that
    wait, are those given.  A run never panics, and the queue is reported as clogged at most once until a
    poll leaves less than 2048 packets waiting. *)
Theorem substream_sends_in_order socket version ops :
  forall s, s = upgrade_inbound socket version \/ s = upgrade_outbound socket version ->
  no_panic (ss_run ops s).1 /\ forall outs s', ss_run ops s = (Ok outs, s') ->
    accepted (inner s') ++ send_queue s' = accepted socket ++ sent ops /\
    (forall a o b o' c, outs = a ++ o :: b ++ o' :: c -> is_clogged o -> is_clogged o' ->
       exists x, x ∈ b /\ (Z.of_nat x.2 < 2048)%Z).
Proof.
  intros s Hs. assert (is_closing s = false /\ outbox s = accepted socket /\ clogged_fuse s = false) as (Hc & Ho & Hf).
  { unfold outbox. destruct Hs as [-> | ->]; cbn; by rewrite app_nil_r. }
  pose proof (ss_run_spec ops s Hc) as Hr. destruct (ss_run ops s) as [r s1]. destruct Hr as [? Hr].
  split; [done|]. intros outs s' [= -> <-]. destruct (Hr outs eq_refl) as [Hob Hcl]. split.
  - unfold outbox in Hob at 1. by rewrite Hob, Ho.
  - intros a o b o' c -> ??. rewrite Hf in Hcl. by eapply clog_reports_set.
Qed.
End substream.
