(* ===== verification/Text.v ===== *)
(** * Text

    The functions of Rust's standard library on strings that the command line and the compiler use: UTF-8, [split],
    [trim], [parse] of integers and booleans, and the names and extensions of paths.  A [String] is its UTF-8 bytes.

    The lemmas give the round trips: what is printed is parsed back, words joined by blanks are split again, and a file
    name is its stem and its extension. *)
From S2P Require Import Prelude Codec Substream.
From stdpp Require Import pretty.
From Stdlib Require Import Ascii.

(** ** UTF-8 *)

Definition byte_ascii (b : Z) : ascii := ascii_of_N (Z.to_N b).
Definition string_of_bytes (bs : bytes) : string := String.string_of_list_ascii (map byte_ascii bs).

Definition cont (b : Z) : bool := bool_decide (128 <= b <= 191)%Z.
Definition within (lo hi b : Z) : bool := bool_decide (lo <= b <= hi)%Z.

(** The well-formed byte sequences (Unicode, table 3-7) *)
Fixpoint utf8_valid (bs : bytes) : bool :=
  match bs with
  | [] => true
  | b :: r =>
      if within 0 127 b then utf8_valid r
      else match r with
      | c :: r =>
          if within 194 223 b then cont c && utf8_valid r
          else match r with
          | d :: r =>
              if within 224 239 b
              then within (if bool_decide (b = 224)%Z then 160 else 128)%Z (if bool_decide (b = 237)%Z then 159 else 191)%Z c && cont d && utf8_valid r
              else match r with
              | e :: r =>
                  within 240 244 b &&
                  within (if bool_decide (b = 240)%Z then 144 else 128)%Z (if bool_decide (b = 244)%Z then 143 else 191)%Z c &&
                  cont d && cont e && utf8_valid r
              | [] => false
              end
          | [] => false
          end
      | [] => false
      end
  end.

(** [String::from_utf8] *)
Definition from_utf8 (bs : bytes) : option string := if utf8_valid bs then Some (string_of_bytes bs) else None.

(** ** [str::split] with a character, and joining *)

Fixpoint split (c : ascii) (s : string) : list string :=
  match s with
  | EmptyString => [EmptyString]
  | String a s =>
      if bool_decide (a = c) then EmptyString :: split c s
      else match split c s with
           | [] => [String a EmptyString]
           | w :: ws => String a w :: ws
           end
  end.

Fixpoint join (c : ascii) (ws : list string) : string :=
  match ws with
  | [] => EmptyString
  | [w] => w
  | w :: ws => w +:+ String c (join c ws)
  end.

(** ** [str::trim]: the characters with the property [White_Space] *)

Definition ascii_space (b : Z) : bool := within 9 13 b || bool_decide (b = 32)%Z.
Definition space2 (b c : Z) : bool := bool_decide (b = 194)%Z && bool_decide (c = 133 \/ c = 160)%Z.
Definition space3 (b c d : Z) : bool :=
  bool_decide (b = 225 /\ c = 154 /\ d = 128)%Z ||
  bool_decide (b = 226 /\ c = 128 /\ ((128 <= d <= 138) \/ d = 168 \/ d = 169 \/ d = 175))%Z ||
  bool_decide (b = 226 /\ c = 129 /\ d = 159)%Z || bool_decide (b = 227 /\ c = 128 /\ d = 128)%Z.

(** [two] and [three] say which bytes, in the order of the list, are one blank. *)
Fixpoint drop_blanks (two : Z -> Z -> bool) (three : Z -> Z -> Z -> bool) (bs : bytes) : bytes :=
  match bs with
  | b :: r =>
      if ascii_space b then drop_blanks two three r
      else match r with
      | c :: r2 =>
          if two b c then drop_blanks two three r2
          else match r2 with
          | d :: r3 => if three b c d then drop_blanks two three r3 else bs
          | [] => bs
          end
      | [] => bs
      end
  | [] => []
  end.
Definition trim_start (bs : bytes) : bytes := drop_blanks space2 space3 bs.
Definition trim_end (bs : bytes) : bytes := reverse (drop_blanks (fun b c => space2 c b) (fun b c d => space3 d c b) (reverse bs)).
Definition trim (s : string) : string := string_of_bytes (trim_end (trim_start (ascii_bytes s))).

(** ** [str::parse] *)

Definition digit (c : ascii) : option Z := Z.of_nat <$> Ascii.is_nat c.

(** The digits of an unsigned integer, each step checked against its largest value *)
Fixpoint parse_digits (max : Z) (s : string) (acc : Z) : res Z :=
  match s with
  | EmptyString => Ok acc
  | String c s =>
      match digit c with
      | None => Err "invalid digit found in string"
      | Some d =>
          if bool_decide (acc * 10 + d <= max)%Z then parse_digits max s (acc * 10 + d)
          else Err "number too large to fit in target type"
      end
  end.
Definition parse_unsigned (max : Z) (s : string) : res Z :=
  match s with
  | EmptyString => Err "cannot parse integer from empty string"
  | String "+"%char EmptyString => Err "invalid digit found in string"
  | String "+"%char s => parse_digits max s 0
  | s => parse_digits max s 0
  end.

(** [parse::<u64>], [parse::<usize>] on a 64-bit machine, and [parse::<bool>] *)
Definition parse_u64 (s : string) : res Z := parse_unsigned u64_max s.
Definition parse_usize (s : string) : res Z := parse_unsigned u64_max s.
Definition parse_bool (s : string) : res bool :=
  if bool_decide (s = "true") then Ok true else if bool_decide (s = "false") then Ok false
  else Err "provided string was not `true` or `false`".

(** [{:?}] of a string: in quotes, with the escapes of [char::escape_debug]; characters outside ASCII are taken to be
    printable. *)
Definition hex_digit (n : nat) : ascii := ascii_of_nat (if bool_decide (n < 10) then 48 + n else 87 + n).
Definition escape_char (c : ascii) : string :=
  let n := nat_of_ascii c in
  if bool_decide (n = 0) then "\0" else if bool_decide (n = 9) then "\t" else if bool_decide (n = 10) then "\n" else if bool_decide (n = 13) then "\r"
  else if bool_decide (n = 34 \/ n = 92) then "\" +:+ String c EmptyString
  else if bool_decide (n < 16) then "\u{" +:+ String (hex_digit n) "}"
  else if bool_decide (n < 32 \/ n = 127) then "\u{" +:+ String (hex_digit (n `div` 16)) (String (hex_digit (n `mod` 16)) "}")
  else String c EmptyString.
Fixpoint escape_debug (s : string) : string := match s with EmptyString => EmptyString | String c s => escape_char c +:+ escape_debug s end.
Definition debug_str (s : string) : string := String "034"%char (escape_debug s +:+ String "034"%char EmptyString).

(** ** Paths *)

(** A [PathBuf] is its components; [Path::new] drops empty components and [.]. *)
Notation PathBuf := (list string).
Definition path_new (s : string) : PathBuf :=
  (if bool_decide (String.get 0 s = Some "/"%char) then ["/"] else []) ++
  List.filter (fun c => negb (bool_decide (c = EmptyString \/ c = "."))) (split "/" s).

Definition file_name (p : PathBuf) : option string :=
  match last p with Some c => if bool_decide (c = "/" \/ c = "..") then None else Some c | None => None end.

(** The name before and after its last dot: [rsplitn(2, '.')] *)
Definition rsplit_dot (name : string) : option string * string :=
  match reverse (split "." name) with
  | after :: ((_ :: _) as before) => (Some (join "." (reverse before)), after)
  | [after] => (None, after)
  | [] => (None, EmptyString)
  end.
Definition file_stem (p : PathBuf) : option string :=
  name ← file_name p;
  match rsplit_dot name with
  | (Some EmptyString, _) => Some name
  | (Some before, _) => Some before
  | (None, after) => Some after
  end.
Definition extension (p : PathBuf) : option string :=
  name ← file_name p;
  match rsplit_dot name with
  | (Some EmptyString, _) | (None, _) => None
  | (Some _, after) => Some after
  end.
(** [with_extension], for an extension that is not empty *)
Definition with_extension (p : PathBuf) (ext : string) : PathBuf :=
  match file_stem p with
  | None => p
  | Some stem => removelast p ++ [stem +:+ "." +:+ ext]
  end.

(** ** Round trips *)

Lemma parse_digits_go max x s : (Z.of_N x <= max)%Z -> parse_digits max (pretty_N_go x s) 0 = parse_digits max s (Z.of_N x).
Proof.
  revert s. induction (N.lt_wf_0 x) as [x _ IH]; intros s Hx. destruct (decide (x = 0)%N) as [->|Hne]; [done|].
  rewrite pretty_N_go_step by lia. rewrite IH; [|by apply N.div_lt; lia|].
  2:{ etrans; [|exact Hx]. apply N2Z.inj_le, N.Div0.div_le_upper_bound. lia. }
  simpl. assert (Hd : digit (pretty_N_char (x `mod` 10)) = Some (Z.of_N (x `mod` 10))).
  { pose proof (N.mod_lt x 10 ltac:(done)) as Hm. remember (x `mod` 10)%N as r.
    assert (r = 0 \/ r = 1 \/ r = 2 \/ r = 3 \/ r = 4 \/ r = 5 \/ r = 6 \/ r = 7 \/ r = 8 \/ r = 9)%N as Hr by lia. clear Heqr Hm.
    by destruct Hr as [->|[->|[->|[->|[->|[->|[->|[->|[->| ->]]]]]]]]]. }
  rewrite Hd. assert (Ex : (Z.of_N (x `div` 10) * 10 + Z.of_N (x `mod` 10))%Z = Z.of_N x).
  { rewrite (N.div_mod x 10) at 3 by done. lia. }
  by rewrite Ex, bool_decide_eq_true_2.
Qed.

Lemma pretty_N_go_head x s : (0 < x)%N -> exists c t, pretty_N_go x s = String c t /\ is_Some (digit c).
Proof.
  revert s. induction (N.lt_wf_0 x) as [x _ IH]; intros s Hx. rewrite pretty_N_go_step by done.
  destruct (decide (x `div` 10 = 0)%N) as [E|E].
  - rewrite E. eexists _, _. split; [done|]. unfold pretty_N_char. repeat case_match; eexists; done.
  - apply IH; [by apply N.div_lt|by apply N.neq_0_lt_0].
Qed.

(** A number that is printed is parsed back. *)
Lemma parse_pretty max n : (0 <= n <= max)%Z -> parse_unsigned max (pretty n) = Ok n.
Proof.
  intros Hn. destruct n as [|p|p]; [|cbv [pretty pretty_Z pretty_positive pretty_N]|lia].
  - unfold parse_unsigned, pretty, pretty_Z. simpl. by rewrite bool_decide_eq_true_2 by lia.
  - rewrite decide_False by done. pose proof (parse_digits_go max (N.pos p) EmptyString ltac:(simpl; lia)) as E.
    destruct (pretty_N_go_head (N.pos p) EmptyString ltac:(done)) as (c & t & Ec & Hd). rewrite Ec in *. simpl parse_digits in E at 2.
    rewrite <-E. unfold parse_unsigned. by destruct c as [[] [] [] [] [] [] [] []].
Qed.

Lemma string_of_ascii_bytes s : string_of_bytes (ascii_bytes s) = s.
Proof.
  unfold string_of_bytes, ascii_bytes. rewrite map_map. induction s as [|c s IH]; simpl; [done|]. rewrite IH. f_equal.
  unfold byte_ascii. by rewrite N2Z.id, ascii_N_embedding.
Qed.
Lemma ascii_bytes_app s t : ascii_bytes (s +:+ t) = ascii_bytes s ++ ascii_bytes t.
Proof. unfold ascii_bytes. induction s as [|c s IH]; [done|]. by f_equal/=. Qed.

(** *** Splitting *)

Fixpoint has_char (c : ascii) (s : string) : bool :=
  match s with EmptyString => false | String a s => bool_decide (a = c) || has_char c s end.

Lemma has_char_app c s t : has_char c (s +:+ t) = has_char c s || has_char c t.
Proof. induction s as [|a s IH]; [done|]. simpl. change (String a s +:+ t) with (String a (s +:+ t)). simpl. by rewrite IH, orb_assoc. Qed.
Lemma split_word c w : has_char c w = false -> split c w = [w].
Proof. induction w as [|a w IH]; simpl; [done|]. intros [H1 H2]%orb_false_iff. by rewrite H1, IH. Qed.
Lemma split_cons c w s : has_char c w = false -> split c (w +:+ String c s) = w :: split c s.
Proof.
  induction w as [|a w IH]; simpl; [by rewrite bool_decide_eq_true_2|]. intros [H1 H2]%orb_false_iff.
  change (String a w +:+ String c s) with (String a (w +:+ String c s)). simpl. by rewrite H1, IH.
Qed.

(** Words that are joined are split again. *)
Lemma split_join c ws : ws <> [] -> Forall (fun w => has_char c w = false) ws -> split c (join c ws) = ws.
Proof.
  induction ws as [|w ws IH]; [done|]. intros _ [Hw Hws]%List.Forall_cons_iff. destruct ws as [|w' ws]; [by apply split_word|].
  change (join c (w :: w' :: ws)) with (w +:+ String c (join c (w' :: ws))). rewrite split_cons by done. f_equal. by apply IH.
Qed.
Lemma split_no_char c s : Forall (fun w => has_char c w = false) (split c s).
Proof.
  induction s as [|a s IH]; simpl; [by constructor|]. case_bool_decide; [by constructor|].
  destruct (split c s) as [|w ws]; simpl in *; [repeat constructor; simpl; by rewrite bool_decide_eq_false_2|].
  apply List.Forall_cons_iff in IH as [Hw Hws]. constructor; [|done]. simpl. by rewrite bool_decide_eq_false_2, Hw.
Qed.
Lemma split_nonempty c s : split c s <> [].
Proof. destruct s; simpl; [done|]. case_bool_decide; [done|]. by case_match. Qed.

(** *** Trimming *)

Definition graphic (b : Z) : Prop := (33 <= b <= 126)%Z.

Lemma drop_blanks_graphic two three b r : graphic b -> (forall c, two b c = false) -> (forall c d, three b c d = false) ->
  drop_blanks two three (b :: r) = b :: r.
Proof.
  intros Hb H2 H3. simpl. assert (ascii_space b = false) as ->.
  { unfold ascii_space, within, graphic in *. rewrite orb_false_iff, !bool_decide_eq_false. lia. }
  destruct r as [|c r]; [done|]. rewrite H2. destruct r as [|d r]; [done|]. by rewrite H3.
Qed.
Lemma graphic_not_blank b : graphic b -> (forall c, space2 b c = false /\ space2 c b = false) /\ (forall c d, space3 b c d = false /\ space3 c d b = false).
Proof.
  unfold graphic, space2, space3. intros Hb. split; intros; rewrite ?orb_false_iff, ?andb_false_iff, ?bool_decide_eq_false;
    repeat split; lia || (try right; rewrite bool_decide_eq_false; lia).
Qed.

(** A word that starts and ends with a visible ASCII character is its own trimming. *)
Lemma trim_graphic s b m e : ascii_bytes s = b :: m -> last (b :: m) = Some e -> graphic b -> graphic e -> trim s = s.
Proof.
  intros Es El Hb He. unfold trim, trim_start, trim_end. rewrite Es.
  destruct (graphic_not_blank _ Hb) as [H2 H3]. rewrite drop_blanks_graphic; [|done|by intros; apply H2|by intros; apply H3].
  apply last_Some in El as [l' El]. rewrite El, reverse_snoc. destruct (graphic_not_blank _ He) as [G2 G3].
  rewrite drop_blanks_graphic; [|done|by intros; apply G2|by intros; apply G3].
  rewrite reverse_cons, reverse_involutive, <-El, <-Es. apply string_of_ascii_bytes.
Qed.

Lemma drop_blanks_suffix two three bs : drop_blanks two three bs `suffix_of` bs.
Proof.
  induction (Nat.lt_wf_0_projected (@length Z) bs) as [bs _ IH]. destruct bs as [|b r]; [done|]. simpl.
  case_match; [apply suffix_cons_r, IH; simpl; lia|]. destruct r as [|c r]; [done|].
  case_match; [do 2 apply suffix_cons_r; apply IH; simpl; lia|]. destruct r as [|d r]; [done|].
  case_match; [|done]. do 3 apply suffix_cons_r. apply IH. simpl. lia.
Qed.

Lemma ascii_bytes_ok s : bytes_ok (ascii_bytes s).
Proof.
  unfold ascii_bytes, bytes_ok. apply Forall_forall. intros b (c & -> & _)%list_elem_of_fmap.
  pose proof (N_ascii_bounded c). unfold byte_ok, u8_max. lia.
Qed.
Lemma ascii_bytes_of_bytes bs : bytes_ok bs -> ascii_bytes (string_of_bytes bs) = bs.
Proof.
  unfold ascii_bytes, string_of_bytes. rewrite String.list_ascii_of_string_of_list_ascii, map_map. intros H.
  induction H as [|b bs Hb _ IH]; [done|]. simpl. rewrite IH. f_equal. unfold byte_ascii, byte_ok, u8_max in *.
  rewrite N_ascii_embedding; lia.
Qed.
Lemma has_char_bytes c s : has_char c s = true <-> Z.of_N (N_of_ascii c) ∈ ascii_bytes s.
Proof.
  unfold ascii_bytes. induction s as [|a s IH]; simpl; [by rewrite elem_of_nil|]. rewrite orb_true_iff, IH, elem_of_cons, bool_decide_eq_true.
  split; [intros [->|?]; auto|]. intros [E|?]; [left|auto]. apply N2Z.inj in E.
  by rewrite <-(ascii_N_embedding a), <-(ascii_N_embedding c), E.
Qed.

(** Trimming adds no characters. *)
Lemma trim_no_char c s : has_char c s = false -> has_char c (trim s) = false.
Proof.
  intros H. apply not_true_is_false. intros Ht. eapply eq_true_false_abs; [|exact H].
  assert (Hsub : trim_end (trim_start (ascii_bytes s)) ⊆ ascii_bytes s).
  { intros b. unfold trim_end, trim_start. rewrite elem_of_reverse. intros Hb.
    eapply elem_of_suffix in Hb; [|apply drop_blanks_suffix]. rewrite elem_of_reverse in Hb.
    eapply elem_of_suffix in Hb; [exact Hb|apply drop_blanks_suffix]. }
  apply has_char_bytes, Hsub. apply has_char_bytes in Ht. unfold trim in Ht. rewrite ascii_bytes_of_bytes in Ht; [done|].
  unfold bytes_ok. apply Forall_forall. intros b Hb. by eapply Forall_forall; [apply ascii_bytes_ok|apply Hsub].
Qed.

(** *** Names of files *)

Lemma split_app c s t : split c (s +:+ String c t) = split c s ++ split c t.
Proof.
  induction s as [|a s IH]; simpl; [by rewrite bool_decide_eq_true_2|].
  change (String a s +:+ String c t) with (String a (s +:+ String c t)). simpl. rewrite IH. case_bool_decide; [done|].
  pose proof (split_nonempty c s). by destruct (split c s).
Qed.
Lemma join_split c s : join c (split c s) = s.
Proof.
  induction s as [|a s IH]; [done|]. simpl. pose proof (split_nonempty c s) as Hne. case_bool_decide as E.
  - subst a. destruct (split c s) as [|w ws]; [done|]. by rewrite <-IH.
  - destruct (split c s) as [|w [|w' ws]]; simpl in *; by rewrite <-IH.
Qed.

(** A name with a stem and an extension is taken apart again. *)
Lemma rsplit_dot_ext stem ext : has_char "."%char ext = false -> rsplit_dot (stem +:+ String "."%char ext) = (Some stem, ext).
Proof.
  intros He. unfold rsplit_dot. rewrite split_app, (split_word _ ext He), reverse_snoc. pose proof (split_nonempty "."%char stem) as Hne.
  destruct (reverse (split "." stem)) as [|w ws] eqn:E.
  - by apply (f_equal reverse) in E; rewrite reverse_involutive in E.
  - by rewrite <-E, reverse_involutive, join_split.
Qed.
Lemma file_name_snoc d name : name <> "/" -> name <> ".." -> file_name (d ++ [name]) = Some name.
Proof. intros. unfold file_name. rewrite last_snoc. by rewrite bool_decide_eq_false_2 by naive_solver. Qed.
Lemma stem_and_extension d stem ext : stem <> EmptyString -> has_char "."%char ext = false -> ext <> EmptyString ->
  file_stem (d ++ [stem +:+ String "."%char ext]) = Some stem /\ extension (d ++ [stem +:+ String "."%char ext]) = Some ext.
Proof.
  intros Hs He Hx. assert (Hn : file_name (d ++ [stem +:+ String "."%char ext]) = Some (stem +:+ String "."%char ext)).
  { destruct ext as [|x ext]; [done|]. apply file_name_snoc; by destruct stem as [|a [|b [|]]]. }
  unfold file_stem, extension. rewrite Hn. simpl. rewrite rsplit_dot_ext by done. by destruct stem.
Qed.

Lemma string_app_assoc (s t u : string) : (s +:+ t) +:+ u = s +:+ t +:+ u.
Proof. induction s as [|a s IH]; [done|]. change (String a ((s +:+ t) +:+ u) = String a (s +:+ t +:+ u)). by rewrite IH. Qed.
Lemma join_snoc c l x : l <> [] -> join c (l ++ [x]) = join c l +:+ String c x.
Proof.
  induction l as [|w l IH]; [done|]. intros _. destruct l as [|w' l]; [done|].
  change (join c ((w :: w' :: l) ++ [x])) with (w +:+ String c (join c ((w' :: l) ++ [x]))). rewrite IH by done.
  change (join c (w :: w' :: l)) with (w +:+ String c (join c (w' :: l))). by rewrite string_app_assoc.
Qed.

(** The stem and the extension of a file determine its name. *)
Lemma name_of_stem_extension d e stem ext : file_stem (d ++ [e]) = Some stem -> extension (d ++ [e]) = Some ext -> e = stem +:+ String "."%char ext.
Proof.
  unfold file_stem, extension, file_name. rewrite last_snoc. case_bool_decide; [done|]. simpl. unfold rsplit_dot.
  pose proof (join_split "."%char e) as Ej. destruct (reverse (split "." e)) as [|after [|w ws]] eqn:E; try done.
  apply (f_equal reverse) in E. rewrite reverse_involutive, reverse_cons in E.
  assert (Ee : e = join "."%char (reverse (w :: ws)) +:+ String "."%char after).
  { rewrite <-Ej, E. apply join_snoc. intros H0%(f_equal length). by rewrite length_reverse in H0. }
  destruct (join "." (reverse (w :: ws))) eqn:Ew; [done|]. by intros [= <-] [= <-].
Qed.

(** *** Words *)

(** A word: visible ASCII characters, at least one *)
Definition word (w : string) : Prop := w <> EmptyString /\ Forall graphic (ascii_bytes w).
#[global] Instance word_dec w : Decision (word w).
Proof. unfold word, graphic. apply _. Defined.

Lemma word_no_blank w : word w -> has_char " "%char w = false.
Proof.
  intros [_ Hw]. apply not_true_is_false. intros H%has_char_bytes. rewrite Forall_forall in Hw. specialize (Hw _ H). unfold graphic in Hw. simpl in Hw. lia.
Qed.
Lemma ascii_bytes_nil s : ascii_bytes s = [] <-> s = EmptyString.
Proof. by destruct s. Qed.
Lemma graphic_ends s : s <> EmptyString -> Forall graphic (ascii_bytes s) -> exists b m e, ascii_bytes s = b :: m /\ last (b :: m) = Some e /\ graphic b /\ graphic e.
Proof.
  intros Hs Hg. destruct (ascii_bytes s) as [|b m] eqn:E; [by apply ascii_bytes_nil in E|]. destruct (last (b :: m)) as [e|] eqn:El; [|by apply last_None in El].
  exists b, m, e. split_and!; [done|done|by apply Forall_cons in Hg as [? _]|]. apply last_Some_elem_of in El. by eapply Forall_forall.
Qed.
Lemma trim_word w : word w -> trim w = w.
Proof. intros [Hne Hg]. destruct (graphic_ends w Hne Hg) as (b & m & e & E & El & Hb & He). by eapply trim_graphic. Qed.
Lemma join_ends ws : ws <> [] -> Forall word ws -> exists b m e, ascii_bytes (join " "%char ws) = b :: m /\ last (b :: m) = Some e /\ graphic b /\ graphic e.
Proof.
  induction ws as [|w ws IH]; [done|]. intros _ [[Hne Hg] Hws]%List.Forall_cons_iff. destruct (graphic_ends w Hne Hg) as (b & m & e & E & El & Hb & He).
  destruct ws as [|w' ws]; [by exists b, m, e|]. destruct (IH ltac:(done) Hws) as (b' & m' & e' & E' & El' & _ & He').
  exists b, (m ++ 32%Z :: b' :: m'), e'. change (join " " (w :: w' :: ws)) with (w +:+ String " "%char (join " " (w' :: ws))).
  rewrite ascii_bytes_app, E. change (ascii_bytes (String " "%char (join " " (w' :: ws)))) with (32%Z :: ascii_bytes (join " " (w' :: ws))). rewrite E'.
  split_and!; try done. change (b :: m ++ 32%Z :: b' :: m') with ((b :: m) ++ [32%Z] ++ b' :: m'). rewrite app_assoc, last_app_cons. done.
Qed.

Lemma pretty_go_graphic x s : Forall graphic (ascii_bytes s) -> Forall graphic (ascii_bytes (pretty_N_go x s)).
Proof.
  revert s. induction (N.lt_wf_0 x) as [x _ IH]; intros s Hs. destruct (decide (x = 0)%N) as [->|Hne]; [done|].
  rewrite pretty_N_go_step by lia. apply IH; [by apply N.div_lt; lia|]. constructor; [|done].
  unfold pretty_N_char, graphic. repeat case_match; simpl; lia.
Qed.
Lemma pretty_word n : (0 <= n)%Z -> word (pretty n).
Proof.
  intros Hn. destruct n as [|p|p]; [by apply (bool_decide_eq_true_1 _); vm_compute| |lia]. unfold word.
  cbv [pretty pretty_Z pretty_positive pretty_N]. rewrite decide_False by done. split; [|by apply pretty_go_graphic].
  destruct (pretty_N_go_head (N.pos p) EmptyString ltac:(done)) as (c & t & -> & _). done.
Qed.
