(* ===== verification/ProtoHandler.v ===== *)
(** * The handler of one connection

    Models [src/network-libp2p/src/custom_proto/handler.rs]: the state machine that opens, uses and closes the
    substreams of one connection, told to enable or disable itself by the network behaviour, and the
    events it reports back.  The substreams are those of [Substream]; the timers are oracles, the
    outcome of polling them is an argument.  The identity of the remote is used for logging only and left
    out.

    The theorems: whatever reaches it, the handler does not panic, and its reports keep the contract on
    which the behaviour relies (opening and closing alternate, nothing is opened before the handler was
    enabled, messages arrive only while it is open).  And a defect: a substream that the remote opens
    while the handler waits to open again makes it forget that it is enabled. *)
From S2P Require Import Prelude Codec Substream.

(** [CustomProtoHandlerIn] *)
Inductive CustomProtoHandlerIn :=
| Enable
| Disable
| SendCustomMessage (message : bytes).

(** [CustomProtoHandlerOut]; the reason and the error are texts. *)
Inductive CustomProtoHandlerOut :=
| CustomProtocolOpen (version : Z)
| CustomProtocolClosed (reason : string)
| CustomMessage (message : bytes)
| HandlerClogged (messages : list bytes)
| ProtocolError (is_severe : bool) (error : string).

(** [ProtocolsHandlerEvent] *)
Inductive HandlerEvent :=
| Custom (event : CustomProtoHandlerOut)
| OutboundSubstreamRequest (protocol : RegisteredProtocol).

(** [ProtocolsHandlerUpgrErr] *)
Inductive UpgrErr := UpgrTimeout | UpgrTimer | UpgrUpgrade.

(** ** Vectors *)

(** [swap_remove]: the element at [n], its place taken by the last one. *)
Definition swap_remove {A} (n : nat) (l : list A) : res (A * list A) :=
  match l !! n, last l with
  | Some x, Some y =>
      Ok (x, if bool_decide (S n = length l) then take n l
             else take n l ++ [y] ++ take (length l - n - 2) (drop (S n) l))
  | _, _ => Panic "swap_remove index (is n) should be < len (is n)"
  end.

Section handler.
Context `{Framed}.
Notation Substream := RegisteredProtocolSubstream.

(** [ProtocolState]; a deadline is the number of seconds its timer was started with. *)
Inductive ProtocolState :=
| Init (substreams : list Substream) (init_deadline : Z)
| Opening (deadline : Z)
| Normal (substreams shutdown : list Substream)
| DisabledState (shutdown : list Substream) (reenable : bool)
| KillAsap
| PoisonedState.

Record CustomProtoHandler := mkHandler {
  h_protocol : RegisteredProtocol;
  h_state : ProtocolState;
  h_endpoint : Endpoint;
  events_queue : list HandlerEvent
}.
Implicit Types (h : CustomProtoHandler).

Definition set_state st h : CustomProtoHandler := mkHandler (h_protocol h) st (h_endpoint h) (events_queue h).
Definition push_event e h : CustomProtoHandler :=
  mkHandler (h_protocol h) (h_state h) (h_endpoint h) (events_queue h ++ [e]).

(** [IntoProtocolsHandler::into_handler] *)
Definition into_handler (protocol : RegisteredProtocol) (endpoint : Endpoint) : CustomProtoHandler :=
  mkHandler protocol (Init [] 5) endpoint [].

(** [CustomProtoHandler::enable] *)
Definition enable h : CustomProtoHandler :=
  match h_state h with
  | PoisonedState => h
  | Init [] _ =>
      let h1 := match h_endpoint h with
                | Dialer => push_event (OutboundSubstreamRequest (h_protocol h)) h
                | Listener => h
                end in
      set_state (Opening 60) h1
  | Init ((s0 :: _) as incoming) _ =>
      set_state (Normal incoming []) (push_event (Custom (CustomProtocolOpen (protocol_version s0))) h)
  | KillAsap | Opening _ | Normal _ _ => h
  | DisabledState shutdown _ => set_state (DisabledState shutdown true) h
  end.

(** [CustomProtoHandler::disable] *)
Definition disable h : CustomProtoHandler :=
  match h_state h with
  | PoisonedState => h
  | Init substreams _ => set_state (DisabledState (map shutdown substreams) false) h
  | Opening _ | Normal _ _ => set_state KillAsap h
  | DisabledState shutdown _ => set_state (DisabledState shutdown false) h
  | KillAsap => h
  end.

(** The loop of [poll_state] over the substreams, [n] down to zero: an event to return with the state it
    leaves, or the lists at its end. *)
Fixpoint poll_substreams (n : nat) (substreams shutdown : list Substream)
  : res ((HandlerEvent * ProtocolState) + (list Substream * list Substream)) :=
  match n with
  | 0 => Ok (inr (substreams, shutdown))
  | S n' =>
      '(substream, substreams) ← swap_remove n' substreams;
      match substream_poll substream with
      | (Ok NotReady, substream') => poll_substreams n' (substreams ++ [substream']) shutdown
      | (Ok (Ready (Some (Message message))), substream') =>
          Ok (inl (Custom (CustomMessage message), Normal (substreams ++ [substream']) shutdown))
      | (Ok (Ready (Some (Clogged messages))), substream') =>
          Ok (inl (Custom (HandlerClogged messages), Normal (substreams ++ [substream']) shutdown))
      | (Ok (Ready None), substream') =>
          if bool_decide (length substreams = 0)
          then Ok (inl (Custom (CustomProtocolClosed "All substreams have been closed by the remote"),
                        DisabledState (shutdown ++ [substream']) true))
          else poll_substreams n' substreams (shutdown ++ [substream'])
      | (Err _, _) =>
          if bool_decide (length substreams = 0)
          then Ok (inl (Custom (CustomProtocolClosed "Error on the last substream"), DisabledState shutdown true))
          else poll_substreams n' substreams shutdown
      | (Panic e, _) => Panic e
      end
  end.

(** The inner loop of [shutdown_list]: [None] when the substream is gone.  The substreams on that list yield
    no events, so one round is enough (lemma [shutdown_one_ok]). *)
Fixpoint shutdown_one (fuel : nat) (s : Substream) : res (option Substream) :=
  match fuel with
  | 0 => Panic "out of fuel"
  | S fuel' =>
      match substream_poll s with
      | (Ok (Ready (Some _)), s') => shutdown_one fuel' s'
      | (Ok NotReady, s') => Ok (Some s')
      | (Ok (Ready None), _) | (Err _, _) => Ok None
      | (Panic e, _) => Panic e
      end
  end.
Definition shutdown_fuel : nat := 1.

(** [shutdown_list] *)
Fixpoint shutdown_loop (n : nat) (l : list Substream) : res (list Substream) :=
  match n with
  | 0 => Ok l
  | S n' =>
      '(substream, l) ← swap_remove n' l;
      o ← shutdown_one shutdown_fuel substream;
      shutdown_loop n' (match o with Some s => l ++ [s] | None => l end)
  end.
Definition shutdown_list (l : list Substream) : res (list Substream) := shutdown_loop (length l) l.

(** [CustomProtoHandler::poll_state]; [timer] is the outcome of polling the deadline. *)
Definition poll_state (timer : res (Async unit)) h : res (option HandlerEvent * CustomProtoHandler) :=
  match h_state h with
  | PoisonedState => Ok (None, h)
  | Init substreams init_deadline =>
      let init_deadline := match timer with Ok (Ready _) => 60%Z | _ => init_deadline end in
      Ok (None, set_state (Init substreams init_deadline) h)
  | Opening deadline =>
      match timer with
      | Ok (Ready _) => Ok (Some (Custom (ProtocolError true "Timeout when opening protocol")), set_state (Opening 60) h)
      | Ok NotReady => Ok (None, h)
      | _ => Ok (None, set_state (Opening 60) h)
      end
  | Normal substreams shutdown =>
      r ← poll_substreams (length substreams) substreams shutdown;
      match r with
      | inl (event, st) => Ok (Some event, set_state st h)
      | inr (substreams, shutdown) => Ok (None, set_state (Normal substreams shutdown) h)
      end
  | DisabledState shutdown reenable =>
      shutdown ← shutdown_list shutdown;
      if reenable && bool_decide (length shutdown = 0)
      then Ok (Some (OutboundSubstreamRequest (h_protocol h)), set_state (Opening 60) h)
      else Ok (None, set_state (DisabledState shutdown reenable) h)
  | KillAsap => Ok (None, set_state PoisonedState h)
  end.

(** [CustomProtoHandler::inject_fully_negotiated] *)
Definition inject_fully_negotiated (substream : Substream) h : CustomProtoHandler :=
  match h_state h with
  | PoisonedState => h
  | Init substreams init_deadline => set_state (Init (substreams ++ [substream]) init_deadline) h
  | Opening _ =>
      set_state (Normal [substream] [])
        (push_event (Custom (CustomProtocolOpen (protocol_version substream))) h)
  | Normal existing shutdown => set_state (Normal (existing ++ [substream]) shutdown) h
  | DisabledState shutdown _ => set_state (DisabledState (shutdown ++ [Substream.shutdown substream]) false) h
  | KillAsap => h
  end.

(** [CustomProtoHandler::send_message]: [substreams[0]] panics on an empty vector. *)
Definition handler_send_message (message : bytes) h : res CustomProtoHandler :=
  match h_state h with
  | Normal [] _ => Panic "index out of bounds: the len is 0 but the index is 0"
  | Normal (s0 :: substreams) shutdown => Ok (set_state (Normal (send_message message s0 :: substreams) shutdown) h)
  | _ => Ok h
  end.

(** [ProtocolsHandler::inject_event] *)
Definition inject_event (message : CustomProtoHandlerIn) h : res CustomProtoHandler :=
  match message with
  | Disable => Ok (disable h)
  | Enable => Ok (enable h)
  | SendCustomMessage message => handler_send_message message h
  end.

(** [ProtocolsHandler::inject_dial_upgrade_error] *)
Definition inject_dial_upgrade_error (err : UpgrErr) h : CustomProtoHandler :=
  let is_severe := match err with UpgrUpgrade => true | _ => false end in
  push_event (Custom (ProtocolError is_severe "upgrade error")) h.

(** [ProtocolsHandler::connection_keep_alive] *)
Definition connection_keep_alive h : bool :=
  match h_state h with
  | Init _ _ | Opening _ | Normal _ _ => true
  | DisabledState _ _ | PoisonedState | KillAsap => false
  end.

(** [ProtocolsHandler::poll]: [Err] is the [ConnectionKillError] on which the connection is closed. *)
Definition handler_poll (timer : res (Async unit)) h : res (Async HandlerEvent * CustomProtoHandler) :=
  match events_queue h with
  | event :: q => Ok (Ready event, mkHandler (h_protocol h) (h_state h) (h_endpoint h) q)
  | [] =>
      match h_state h with
      | KillAsap => Err "Connection kill when switching from normal to disabled"
      | _ =>
          '(o, h') ← poll_state timer h;
          Ok (match o with Some event => Ready event | None => NotReady end, h')
      end
  end.

(** ** The contract with the behaviour *)

(** What the behaviour can see of a handler: whether it was ever told to enable itself, and whether it
    reported itself open. *)
Record phase := mkPhase { was_enabled : bool; is_opened : bool }.

Inductive observation := Told (m : CustomProtoHandlerIn) | Reported (e : CustomProtoHandlerOut).

(** One observation; [None] when it breaks the contract. *)
Definition observe (p : phase) (o : observation) : option phase :=
  match o with
  | Told Enable => Some (mkPhase true (is_opened p))
  | Told _ => Some p
  | Reported (CustomProtocolOpen _) =>
      if was_enabled p && negb (is_opened p) then Some (mkPhase true true) else None
  | Reported (CustomProtocolClosed _) => if is_opened p then Some (mkPhase (was_enabled p) false) else None
  | Reported (CustomMessage _) | Reported (HandlerClogged _) => if is_opened p then Some p else None
  | Reported (ProtocolError _ _) => Some p
  end.

Fixpoint observes (p : phase) (os : list observation) : option phase :=
  match os with [] => Some p | o :: os' => p' ← observe p o; observes p' os' end.

(** Everything that can happen to a handler. *)
Inductive handler_input :=
| HTold (m : CustomProtoHandlerIn)
| HNegotiated (substream : Substream)
| HDialError (err : UpgrErr)
| HPoll (timer : res (Async unit)).

(** One input: what is observed of it, and the handler, [None] after it killed its connection. *)
Definition handler_step (i : handler_input) h : res (list observation * option CustomProtoHandler) :=
  match i with
  | HTold m => h' ← inject_event m h; Ok ([Told m], Some h')
  | HNegotiated substream => Ok ([], Some (inject_fully_negotiated substream h))
  | HDialError err => Ok ([], Some (inject_dial_upgrade_error err h))
  | HPoll timer =>
      match handler_poll timer h with
      | Ok (Ready (Custom e), h') => Ok ([Reported e], Some h')
      | Ok (_, h') => Ok ([], Some h')
      | Err _ => Ok ([], None)
      | Panic e => Panic e
      end
  end.

Fixpoint handler_run (inputs : list handler_input) h : res (list observation * option CustomProtoHandler) :=
  match inputs with
  | [] => Ok ([], Some h)
  | i :: inputs' =>
      '(os, o) ← handler_step i h;
      match o with
      | None => Ok (os, None)
      | Some h' => '(os', o') ← handler_run inputs' h'; Ok (os ++ os', o')
      end
  end.

(** ** Lemmas *)

Lemma swap_remove_ok {A} n (l : list A) : n < length l ->
  exists x l', swap_remove n l = Ok (x, l') /\ x :: l' ≡ₚ l.
Proof.
  intros Hn. unfold swap_remove. destruct (lookup_lt_is_Some_2 l n Hn) as [x Hx]. rewrite Hx.
  destruct (last l) as [y|] eqn:Hy.
  2:{ apply last_None in Hy. by subst. }
  eexists x, _. split; [done|]. pose proof (take_drop_middle l n x Hx) as Hl.
  case_bool_decide as Hlen.
  - transitivity (take n l ++ x :: drop (S n) l); [|by rewrite Hl].
    rewrite drop_ge by lia. by rewrite Permutation_cons_append.
  - apply last_Some in Hy as [l1 Hy].
    assert (drop (S n) l = take (length l - n - 2) (drop (S n) l) ++ [y]) as Hd.
    { rewrite Hy, length_app. simpl. rewrite Hy, length_app in Hlen, Hn. simpl in Hlen, Hn.
      rewrite drop_app_le by lia. rewrite take_app_le by (rewrite length_drop; lia).
      by rewrite take_ge by (rewrite length_drop; lia). }
    transitivity (take n l ++ x :: drop (S n) l); [|by rewrite Hl].
    rewrite Permutation_middle. f_equiv. f_equiv. rewrite Hd at 2. by rewrite (Permutation_app_comm [y]).
Qed.

Context `{!FramedLaws}.

(** A substream on a list of those being shut down. *)
Definition retired (s : Substream) : Prop := ss_wf s /\ drained s.

Lemma shutdown_retired s : retired (Substream.shutdown s).
Proof. split; [done|]. split; [done|]. by left. Qed.

Lemma shutdown_one_ok s : retired s -> exists o, shutdown_one shutdown_fuel s = Ok o /\
  forall s', o = Some s' -> retired s'.
Proof.
  intros [Hwf Hd]. unfold shutdown_fuel. cbn. pose proof (substream_poll_spec s Hwf) as Hp.
  destruct (substream_poll s) as [r s']. destruct Hp as (Hn & Hwf' & _ & _ & _ & Hdr & _).
  specialize (Hdr Hd). destruct r as [[[e|]|]|e|e]; cbn in Hn; try done.
  - destruct Hdr as [?|[? _]]; done.
  - exists None. done.
  - eexists. split; [done|]. intros ? [= <-]. split; [done|]. by destruct Hdr as [?|[_ ?]].
  - exists None. done.
Qed.

Lemma shutdown_list_ok l : Forall retired l -> exists l', shutdown_list l = Ok l' /\ Forall retired l'.
Proof.
  unfold shutdown_list. assert (length l <= length l) as Hn by done. revert Hn. generalize (length l) at 1 3.
  intros n. revert l. induction n as [|n IH]; intros l Hn Hl; cbn [shutdown_loop]; [eauto|].
  destruct (swap_remove_ok n l) as (x & l' & -> & Hp); [lia|]. rstep.
  rewrite <-Hp in Hl. apply Forall_cons in Hl as [Hx Hl'].
  destruct (shutdown_one_ok x Hx) as (o & -> & Ho). rstep. apply Permutation_length in Hp. simpl in Hp.
  apply IH.
  - destruct o; rewrite ?length_app; simpl; lia.
  - destruct o; [|done]. apply Forall_app. split; [done|]. constructor; [by apply Ho|done].
Qed.

(** What the loop over the substreams leaves: a message, a report that all are closed, or nothing. *)
Definition polled (r : (HandlerEvent * ProtocolState) + (list Substream * list Substream)) : Prop :=
  match r with
  | inl (Custom (CustomMessage _), Normal ss sh) | inl (Custom (HandlerClogged _), Normal ss sh) | inr (ss, sh) =>
      ss <> [] /\ Forall ss_wf ss /\ Forall retired sh
  | inl (Custom (CustomProtocolClosed _), DisabledState sh true) => Forall retired sh
  | _ => False
  end.

Lemma poll_substreams_ok n ss sh : n <= length ss -> ss <> [] -> Forall ss_wf ss -> Forall retired sh ->
  exists r, poll_substreams n ss sh = Ok r /\ polled r.
Proof.
  revert ss sh. induction n as [|n IH]; intros ss sh Hn Hne Hss Hsh; cbn [poll_substreams].
  { eexists. split; [done|]. done. }
  destruct (swap_remove_ok n ss) as (x & ss' & -> & Hp); [lia|]. rstep.
  rewrite <-Hp in Hss. apply Forall_cons in Hss as [Hx Hss]. apply Permutation_length in Hp. simpl in Hp.
  pose proof (substream_poll_spec x Hx) as Hpoll. destruct (substream_poll x) as [r x'].
  destruct Hpoll as (Hnp & Hx' & _ & _ & Hdr & _). 
  assert (Forall ss_wf (ss' ++ [x'])) as Hpush by (apply Forall_app; auto).
  assert (ss' ++ [x'] <> []) as Hne' by by destruct ss'.
  destruct r as [[[[m|ms]|]|]|e|e]; try done.
  - eexists. by split; [done|].
  - eexists. by split; [done|].
  - assert (Forall retired (sh ++ [x'])) by (apply Forall_app; split; [done|]; apply Forall_singleton; by split; [|apply Hdr]).
    case_bool_decide; [eexists; by split|]. apply IH; try done; [lia|]. by intros ->.
  - apply IH; try done. rewrite length_app. simpl. lia.
  - case_bool_decide; [eexists; by split|]. apply IH; try done; [lia|]. by intros ->.
Qed.

(** The reports that wait in the queue of events. *)
Definition queued_reports h : list observation :=
  events_queue h ≫= fun e => match e with Custom e => [Reported e] | OutboundSubstreamRequest _ => [] end.

(** The state of a handler against the phase in which its queued reports will leave the behaviour. *)
Definition state_ok (st : ProtocolState) (p : phase) : Prop :=
  match st with
  | Init ss _ => is_opened p = false /\ Forall ss_wf ss
  | Opening _ => p = mkPhase true false
  | Normal ss sh => p = mkPhase true true /\ ss <> [] /\ Forall ss_wf ss /\ Forall retired sh
  | DisabledState sh reenable => is_opened p = false /\ (reenable = true -> was_enabled p = true) /\ Forall retired sh
  | KillAsap => True
  | PoisonedState => False
  end.
Definition handler_inv h (p : phase) : Prop :=
  exists p', observes p (queued_reports h) = Some p' /\ state_ok (h_state h) p'.

Lemma observes_app p os1 os2 : observes p (os1 ++ os2) = p' ← observes p os1; observes p' os2.
Proof. revert p. induction os1 as [|o os1 IH]; intros p; simpl; [done|]. destruct (observe p o); simpl; [apply IH|done]. Qed.

(** Being told to enable only widens what may be reported. *)
Lemma observes_enable p os p' : observes p os = Some p' ->
  observes (mkPhase true (is_opened p)) os = Some (mkPhase true (is_opened p')).
Proof.
  revert p. induction os as [|o os IH]; intros p; simpl; [by intros [= ->]|].
  destruct (observe p o) as [p1|] eqn:Ho; [|done]. simpl. intros Hos%IH.
  assert (observe (mkPhase true (is_opened p)) o = Some (mkPhase true (is_opened p1))) as ->; [|done].
  destruct p as [en op]. destruct o as [[| |m]|[v|r|m|ms|b e]]; simpl in *; simplify_eq; simpl; try done.
  all: destruct en, op; simpl in *; by simplify_eq.
Qed.

Lemma queued_reports_push e h :
  queued_reports (push_event e h) = queued_reports h ++ match e with Custom e => [Reported e] | _ => [] end.
Proof. unfold queued_reports. cbn. rewrite bind_app. simpl. by rewrite app_nil_r. Qed.

(** A freshly negotiated substream. *)
Definition negotiated (s : Substream) : Prop :=
  exists socket version, s = upgrade_inbound socket version \/ s = upgrade_outbound socket version.

Lemma negotiated_wf s : negotiated s -> ss_wf s.
Proof. by intros (socket & v & [-> | ->]). Qed.

Lemma set_state_inv st h p p' :
  observes p (queued_reports h) = Some p' -> state_ok st p' -> handler_inv (set_state st h) p.
Proof. intros. exists p'. done. Qed.

(** Pushing a report and moving to a state that fits the phase after it. *)
Lemma push_report_inv e st h p p' p'' :
  observes p (queued_reports h) = Some p' -> observe p' (Reported e) = Some p'' -> state_ok st p'' ->
  handler_inv (set_state st (push_event (Custom e) h)) p.
Proof.
  intros Hp He Hs. exists p''. split; [|done]. change (queued_reports (set_state st ?x)) with (queued_reports x).
  rewrite queued_reports_push, observes_app, Hp. cbn [observes mbind option_bind]. by rewrite He.
Qed.

Lemma enable_inv h p : handler_inv h p -> handler_inv (enable h) (mkPhase true (is_opened p)).
Proof.
  intros (p' & Hp%observes_enable & Hs). unfold enable. destruct p' as [en op].
  destruct (h_state h) as [[|s0 ss] d|d|ss sh|sh re| |] eqn:Hst; simpl in Hs.
  - destruct Hs as [-> _]. destruct (h_endpoint h).
    + exists (mkPhase true false). split; [|done]. change (queued_reports (set_state ?st ?x)) with (queued_reports x).
      by rewrite queued_reports_push, app_nil_r.
    + by eapply set_state_inv.
  - destruct Hs as [-> Hss]. eapply push_report_inv; [exact Hp|reflexivity|]. split_and!; [done|done|done|apply List.Forall_nil].
  - injection Hs as -> ->. eexists. split; [exact Hp|]. by rewrite Hst.
  - destruct Hs as ([= -> ->] & ?). eexists. split; [exact Hp|]. by rewrite Hst.
  - destruct Hs as (-> & _ & ?). by eapply set_state_inv.
  - eexists. split; [exact Hp|]. by rewrite Hst.
  - done.
Qed.

Lemma disable_inv h p : handler_inv h p -> handler_inv (disable h) p.
Proof.
  intros (p' & Hp & Hs). unfold disable. destruct (h_state h) as [ss d|d|ss sh|sh re| |] eqn:Hst; simpl in Hs.
  - destruct Hs as [? _]. eapply set_state_inv; [done|]. split_and!; [done..|].
    apply Forall_map, Forall_forall. intros s _. apply shutdown_retired.
  - by eapply set_state_inv.
  - by eapply set_state_inv.
  - destruct Hs as (? & _ & ?). by eapply set_state_inv.
  - exists p'. by rewrite Hst.
  - done.
Qed.

Lemma send_message_inv m h p : handler_inv h p -> exists h', handler_send_message m h = Ok h' /\ handler_inv h' p.
Proof.
  intros (p' & Hp & Hs). unfold handler_send_message.
  destruct (h_state h) as [ss d|d|[|s0 ss] sh|sh re| |] eqn:Hst; simpl in Hs; try done.
  4:{ destruct Hs as (? & ? & [Hs0 Hss]%Forall_cons & ?). eexists. split; [done|].
      eapply set_state_inv; [done|]. split_and!; try done. constructor; [|done]. intros Hc. unfold send_message in *.
      destruct (is_closing s0) eqn:Hc0; [by apply Hs0|]. simpl in Hc. congruence. }
  3: by destruct Hs as (_ & ? & _).
  all: exists h; split; [done|]; exists p'; by rewrite Hst.
Qed.

Lemma inject_negotiated_inv s h p : negotiated s -> handler_inv h p -> handler_inv (inject_fully_negotiated s h) p.
Proof.
  intros Hn%negotiated_wf (p' & Hp & Hs). unfold inject_fully_negotiated.
  destruct (h_state h) as [ss d|d|ss sh|sh re| |] eqn:Hst; simpl in Hs.
  - destruct Hs as [? ?]. eapply set_state_inv; [done|]. split; [done|]. apply Forall_app. auto.
  - subst p'. eapply push_report_inv; [exact Hp|reflexivity|]. split_and!; [done|done|by apply Forall_singleton|apply List.Forall_nil].
  - destruct Hs as (? & ? & ? & ?). eapply set_state_inv; [done|]. split_and!; try done; [by destruct ss|].
    apply Forall_app. auto.
  - destruct Hs as (? & _ & ?). eapply set_state_inv; [done|]. split_and!; try done.
    apply Forall_app. split; [done|]. apply Forall_singleton, shutdown_retired.
  - exists p'. by rewrite Hst.
  - done.
Qed.

Lemma dial_error_inv err h p : handler_inv h p -> handler_inv (inject_dial_upgrade_error err h) p.
Proof.
  intros (p' & Hp & Hs). exists p'. split; [|done]. unfold inject_dial_upgrade_error.
  rewrite queued_reports_push, observes_app, Hp. done.
Qed.

Lemma queued_reports_cons pr st ep e q :
  queued_reports (mkHandler pr st ep (e :: q)) =
  match e with Custom e => [Reported e] | _ => [] end ++ queued_reports (mkHandler pr st ep q).
Proof. done. Qed.

Lemma handler_poll_inv timer h p : handler_inv h p ->
  match handler_poll timer h with
  | Ok (Ready (Custom e), h') => exists p', observe p (Reported e) = Some p' /\ handler_inv h' p'
  | Ok (_, h') => handler_inv h' p
  | Err _ => True
  | Panic _ => False
  end.
Proof.
  intros (p' & Hp & Hs). unfold handler_poll. destruct h as [pr st ep [|e q]]; cbn [events_queue h_state h_protocol h_endpoint] in *.
  2:{ rewrite queued_reports_cons in Hp. destruct e as [e|req]; cbn [app observes mbind option_bind] in Hp.
      - destruct (observe p (Reported e)) as [p1|] eqn:He; [|done]. exists p1. split; [done|]. by exists p'.
      - by exists p'. }
  injection Hp as <-. unfold poll_state. cbn [events_queue h_state h_protocol].
  destruct st as [ss d|d|ss sh|sh re| |]; cbn [state_ok] in Hs; rstep; try done.
  - exists p. by destruct timer as [[]| |].
  - destruct timer as [[]| |]; rstep; [exists p; split; [done|]|..]; by exists p.
  - destruct Hs as (-> & Hne & Hss & Hsh). destruct (poll_substreams_ok (length ss) ss sh) as (r & -> & Hr); [done..|].
    rstep. destruct r as [[e st]|[ss' sh']]; simpl in Hr.
    + destruct e as [[v|r|m|ms|b e]|]; try done; destruct st as [| |ss' sh'|sh' []| |]; try done; rstep.
      all: eexists; (split; [reflexivity|]); eexists; split; [reflexivity|]; cbn; naive_solver.
    + eexists. split; [reflexivity|]. cbn; naive_solver.
  - destruct Hs as (Ho & Hen & Hsh). destruct (shutdown_list_ok sh Hsh) as (sh' & -> & Hsh'). rstep.
    destruct re; simpl; [case_bool_decide|]; exists p; split; try done; destruct p; simpl in *; [by rewrite Ho, Hen|..]; by split_and!.
Qed.

Lemma handler_step_ok i h p : handler_inv h p -> (forall s, i = HNegotiated s -> negotiated s) ->
  exists os o p', handler_step i h = Ok (os, o) /\ observes p os = Some p' /\
    forall h', o = Some h' -> handler_inv h' p'.
Proof.
  intros Hi Hn. destruct i as [[| |m]|s|err|timer]; cbn [handler_step inject_event]; rstep.
  - eexists _, _, _. split_and!; [done|done|]. intros ? [= <-]. by apply enable_inv.
  - eexists _, _, _. split_and!; [done|done|]. intros ? [= <-]. by apply disable_inv.
  - destruct (send_message_inv m h p Hi) as (h' & -> & ?). rstep. eexists _, _, _. split_and!; [done|done|]. by intros ? [= <-].
  - eexists _, _, _. split_and!; [done|done|]. intros ? [= <-]. apply inject_negotiated_inv; auto.
  - eexists _, _, _. split_and!; [done|done|]. intros ? [= <-]. by apply dial_error_inv.
  - pose proof (handler_poll_inv timer h p Hi) as Hp. destruct (handler_poll timer h) as [[[[e|]|] h']|e|e]; [| | | |done].
    1: destruct Hp as (p' & He & ?); exists [Reported e], (Some h'), p'; split_and!; [done| |by intros ? [= <-]];
       cbn [observes mbind option_bind]; by rewrite He.
    all: eexists _, _, _; split_and!; [done|done|]; by intros ? [= <-].
Qed.

Lemma handler_run_ok inputs h p : handler_inv h p -> Forall (fun i => forall s, i = HNegotiated s -> negotiated s) inputs ->
  exists os o p', handler_run inputs h = Ok (os, o) /\ observes p os = Some p'.
Proof.
  revert h p. induction inputs as [|i inputs IH]; intros h p Hi Hn; cbn [handler_run].
  { by eexists _, _, _. }
  apply Forall_cons in Hn as [Hn1 Hn]. destruct (handler_step_ok i h p Hi Hn1) as (os & o & p1 & -> & Hos & Ho). rstep.
  destruct o as [h'|]; [|by eexists _, _, _]. destruct (IH h' p1 (Ho h' eq_refl) Hn) as (os' & o' & p' & -> & Hos').
  rstep. eexists _, _, p'. split; [done|]. by rewrite observes_app, Hos.
Qed.

(** Inputs that do not come from the behaviour. *)
Definition not_told (i : handler_input) : Prop :=
  match i with HPoll _ => True | HNegotiated s => negotiated s | _ => False end.

Lemma disabled_stays_quiet inputs h sh : Forall not_told inputs ->
  h_state h = DisabledState sh false -> events_queue h = [] -> Forall retired sh ->
  exists h' sh', handler_run inputs h = Ok ([], Some h') /\ h_state h' = DisabledState sh' false.
Proof.
  revert h sh. induction inputs as [|i inputs IH]; intros h sh Hi Hst Hq Hsh; cbn [handler_run].
  { eexists _, _. split; [done|exact Hst]. }
  apply Forall_cons in Hi as [Hi1 Hi]. destruct i as [|s| |timer]; try done; cbn [handler_step]; rstep.
  - destruct (IH (inject_fully_negotiated s h) (sh ++ [Substream.shutdown s]) Hi) as (h' & sh' & -> & ?).
    + unfold inject_fully_negotiated. by rewrite Hst.
    + unfold inject_fully_negotiated. by rewrite Hst.
    + apply Forall_app. split; [done|]. apply Forall_singleton, shutdown_retired.
    + rstep. by eexists _, _.
  - destruct (shutdown_list_ok sh Hsh) as (sh1 & E & Hsh1).
    assert (handler_poll timer h = Ok (NotReady, set_state (DisabledState sh1 false) h)) as ->.
    { unfold handler_poll, poll_state. rewrite Hq, Hst, E. done. }
    rstep. destruct (IH (set_state (DisabledState sh1 false) h) sh1 Hi) as (h' & sh' & -> & ?); [done..|].
    rstep. by eexists _, _.
Qed.

(** ** Properties *)

(** C17: whatever commands, substreams, errors and polls reach the handler of a new connection, in whatever
    order, it does not panic, and what it reports keeps the contract with the behaviour: it reports itself
    open only after it was told to enable itself and not twice in a row, closed only when open, and
    passes on messages only while open. *)
Theorem handler_keeps_contract protocol endpoint inputs :
  (forall s, HNegotiated s ∈ inputs -> negotiated s) ->
  exists os o p, handler_run inputs (into_handler protocol endpoint) = Ok (os, o) /\
    observes (mkPhase false false) os = Some p.
Proof.
  intros Hn. apply handler_run_ok.
  - exists (mkPhase false false). split; [done|]. by split.
  - apply Forall_forall. intros i Hi s ->. by apply Hn.
Qed.

(** the handler is not entirely controlled by its commands.  Told to disable and then to enable itself,
    it would open a substream at its next poll.  But when the remote opens one before that poll, the
    handler forgets that it is enabled: until it is told again it stays disabled, reports nothing, and
    does not keep the connection alive. *)
Theorem inbound_substream_forgets_enable protocol endpoint substream timer rest :
  negotiated substream -> Forall not_told rest ->
  (exists h, handler_run [HTold Disable; HTold Enable; HPoll timer] (into_handler protocol endpoint) =
       Ok ([Told Disable; Told Enable], Some h) /\ h_state h = Opening 60 /\ connection_keep_alive h = true) /\
  (exists h sh, handler_run ([HTold Disable; HTold Enable; HNegotiated substream] ++ rest) (into_handler protocol endpoint) =
       Ok ([Told Disable; Told Enable], Some h) /\ h_state h = DisabledState sh false /\ connection_keep_alive h = false).
Proof.
  intros Hs Hrest. split; [by eexists|].
  destruct (disabled_stays_quiet rest
    (mkHandler protocol (DisabledState [Substream.shutdown substream] false) endpoint []) [Substream.shutdown substream])
    as (h & sh & Hr & Hst); [done..| |].
  { apply Forall_singleton, shutdown_retired. }
  exists h, sh. split; [|split; [done|]; unfold connection_keep_alive; by rewrite Hst].
  cbn [app handler_run handler_step inject_event mbind res_bind into_handler disable enable inject_fully_negotiated
    set_state h_state h_protocol h_endpoint events_queue map]. change (handler_run rest _) with (handler_run rest
    (mkHandler protocol (DisabledState [Substream.shutdown substream] false) endpoint [])). by rewrite Hr.
Qed.
End handler.
