(* ===== verification/CustomProto.v ===== *)
(** * The network behaviour

    Models [src/network-libp2p/src/custom_proto/behaviour.rs]: the behaviour that synchronises the libp2p swarm
    (connections), the handlers of the connections, the peer set manager and the external API.  Its state
    is the table of peers, the incoming connections that wait for an answer of the manager, and the
    events it will return when polled; the manager is that of [Peerset].  Outside it are the swarm, the
    handlers (whose contract is that of [ProtoHandler]), the timers, the clock and the random duration of
    a ban: all are inputs.

    The theorems: whatever happens, in whatever order, as long as the swarm and the handlers keep their
    contracts and a new connection is reported to a polled behaviour, nothing panics, no state is
    poisoned, the manager's links are exactly the peers that the behaviour dials, has enabled or is about
    to enable, the handlers are told to be enabled exactly then, and the external API sees every
    protocol opened and closed in turn.  And a defect: when a peer reconnects before the behaviour is
    polled, a link can be lost for ever. *)
From S2P Require Import Prelude Codec PeersState Peerset Substream ProtoHandler.

(** [CustomProtoOut] *)
Module CustomProtoOut.
Inductive t (PeerId ConnectedPoint : Type) :=
| CustomProtocolOpen (version : Z) (peer_id : PeerId) (endpoint : ConnectedPoint)
| CustomProtocolClosed (peer_id : PeerId) (reason : string)
| CustomMessage (peer_id : PeerId) (message : bytes)
| Clogged (peer_id : PeerId) (messages : list bytes).
Arguments CustomProtocolOpen {_ _}.
Arguments CustomProtocolClosed {_ _}.
Arguments CustomMessage {_ _}.
Arguments Clogged {_ _}.
End CustomProtoOut.

Section behaviour.
Context {PeerId : Type} `{Countable PeerId} `{HashOrder} {Multiaddr : Type}.
Context (clock : nat -> Z).

(** [libp2p::core::ConnectedPoint] *)
Inductive ConnectedPoint :=
| PointDialer (address : Multiaddr)
| PointListener (listen_addr send_back_addr : Multiaddr).

(** [PeerState]; a timer is its deadline. *)
Inductive PeerState :=
| Poisoned
| Banned (until : Z)
| PendingRequest (timer_deadline : Z)
| Requested
| Disabled (connected_point : ConnectedPoint) (open : bool) (banned_until : option Z)
| DisabledPendingEnable (connected_point : ConnectedPoint) (open : bool) (timer_deadline : Z)
| Enabled (connected_point : ConnectedPoint) (open : bool)
| Incoming (connected_point : ConnectedPoint).

(** [PeerState::is_open] *)
Definition state_is_open (st : PeerState) : bool :=
  match st with
  | Disabled _ open _ | DisabledPendingEnable _ open _ | Enabled _ open => open
  | _ => false
  end.

Record IncomingPeer := mkIncomingPeer { inc_peer_id : PeerId; alive : bool; incoming_id : IncomingIndex }.

(** [NetworkBehaviourAction] *)
Inductive BehaviourAction :=
| DialPeer (peer_id : PeerId)
| SendEvent (peer_id : PeerId) (event : CustomProtoHandlerIn)
| GenerateEvent (event : CustomProtoOut.t PeerId ConnectedPoint).

Record CustomProto := mkCustomProto {
  cp_protocol : RegisteredProtocol;
  peerset : Peerset PeerId;
  cp_peers : gmap PeerId PeerState;
  cp_incoming : list IncomingPeer;
  next_incoming_index : IncomingIndex;
  cp_events : list BehaviourAction
}.
Implicit Types (cp : CustomProto) (id : PeerId).

Definition set_peerset ps cp : CustomProto :=
  mkCustomProto (cp_protocol cp) ps (cp_peers cp) (cp_incoming cp) (next_incoming_index cp) (cp_events cp).
Definition set_peers m cp : CustomProto :=
  mkCustomProto (cp_protocol cp) (peerset cp) m (cp_incoming cp) (next_incoming_index cp) (cp_events cp).
Definition set_incoming l cp : CustomProto :=
  mkCustomProto (cp_protocol cp) (peerset cp) (cp_peers cp) l (next_incoming_index cp) (cp_events cp).
Definition set_index i cp : CustomProto :=
  mkCustomProto (cp_protocol cp) (peerset cp) (cp_peers cp) (cp_incoming cp) i (cp_events cp).
Definition push cp (e : BehaviourAction) : CustomProto :=
  mkCustomProto (cp_protocol cp) (peerset cp) (cp_peers cp) (cp_incoming cp) (next_incoming_index cp) (cp_events cp ++ [e]).
Definition set_peer id st cp : CustomProto := set_peers (<[id := st]> (cp_peers cp)) cp.

(** [Instant::now()]: a reading of the clock shared with the manager. *)
Definition now cp : Z := clock (ticks (peerset cp)).
Definition tick_ps (ps : Peerset PeerId) : Peerset PeerId :=
  mkPeerset (data ps) (reserved_only ps) (rx ps) (message_queue ps) (created ps) (latest_time_update ps) (S (ticks ps)).
Definition tick cp : CustomProto := set_peerset (tick_ps (peerset cp)) cp.

(** [self.peerset.dropped(id)] *)
Definition psm_dropped id cp : res CustomProto := ps ← dropped clock (peerset cp) id; Ok (set_peerset ps cp).

(** [CustomProto::new] *)
Definition CustomProto_new (protocol : bytes) (versions : list Z) (ps : Peerset PeerId) : CustomProto :=
  mkCustomProto (RegisteredProtocol_new protocol versions) ps ∅ [] 0%Z [].

(** [CustomProto::open_peers], [is_open] and [is_enabled] *)
Definition open_peers cp : list PeerId := (filter (fun kv => state_is_open kv.2 = true) (hm_iter (cp_peers cp))).*1.
Definition is_open cp id : bool :=
  match cp_peers cp !! id with Some st => state_is_open st | None => false end.
Definition is_enabled cp id : bool :=
  match cp_peers cp !! id with Some (Enabled _ _) => true | _ => false end.

(** [iter_mut().find(p)] followed by [alive = false] *)
Fixpoint mark_dead (p : IncomingPeer -> bool) (l : list IncomingPeer) : option (list IncomingPeer) :=
  match l with
  | [] => None
  | e :: l' =>
      if p e then Some (mkIncomingPeer (inc_peer_id e) false (incoming_id e) :: l')
      else (cons e) <$> mark_dead p l'
  end.
Definition alive_entry id (e : IncomingPeer) : bool := bool_decide (inc_peer_id e = id) && alive e.
Definition any_entry id (e : IncomingPeer) : bool := bool_decide (inc_peer_id e = id).

(** [position(|i| i.incoming_id == index)] followed by [remove] *)
Fixpoint take_incoming (index : IncomingIndex) (l : list IncomingPeer) : option (IncomingPeer * list IncomingPeer) :=
  match l with
  | [] => None
  | e :: l' =>
      if bool_decide (incoming_id e = index) then Some (e, l')
      else '(e', l'') ← take_incoming index l'; Some (e', e :: l'')
  end.

(** [CustomProto::disconnect_peer_inner]: the early return in the [Incoming] branch leaves the state
    poisoned. *)
Definition disconnect_peer_inner id (ban : option Z) cp : res CustomProto :=
  match cp_peers cp !! id with
  | None => Ok cp
  | Some st =>
      match st with
      | Disabled _ _ _ | Requested | PendingRequest _ | Banned _ => Ok cp
      | DisabledPendingEnable connected_point open timer_deadline =>
          cp ← psm_dropped id cp;
          let '(banned_until, cp) :=
            match ban with
            | Some ban => (Z.max timer_deadline (now cp + ban)%Z, tick cp)
            | None => (timer_deadline, cp)
            end in
          Ok (set_peer id (Disabled connected_point open (Some banned_until)) cp)
      | Enabled connected_point open =>
          cp ← psm_dropped id cp;
          let cp := push cp (SendEvent id Disable) in
          let '(banned_until, cp) :=
            match ban with Some dur => (Some (now cp + dur)%Z, tick cp) | None => (None, cp) end in
          Ok (set_peer id (Disabled connected_point open banned_until) cp)
      | Incoming connected_point =>
          match mark_dead (alive_entry id) (cp_incoming cp) with
          | None => Ok (set_peer id Poisoned cp)
          | Some l =>
              let cp := push (set_incoming l cp) (SendEvent id Disable) in
              let '(banned_until, cp) :=
                match ban with Some dur => (Some (now cp + dur)%Z, tick cp) | None => (None, cp) end in
              Ok (set_peer id (Disabled connected_point false banned_until) cp)
          end
      | Poisoned => Ok cp
      end
  end.

(** [CustomProto::disconnect_peer] *)
Definition disconnect_peer id cp : res CustomProto := disconnect_peer_inner id None cp.

(** [CustomProto::send_packet] *)
Definition send_packet (target : PeerId) (message : bytes) cp : CustomProto :=
  if negb (is_open cp target) then cp else push cp (SendEvent target (SendCustomMessage message)).

(** [CustomProto::peerset_report_connect] *)
Definition peerset_report_connect id cp : CustomProto :=
  match cp_peers cp !! id with
  | None => set_peer id Requested (push cp (DialPeer id))
  | Some st =>
      match st with
      | Banned until =>
          if bool_decide (until > now cp)%Z then set_peer id (PendingRequest until) (tick cp)
          else set_peer id Requested (push (tick cp) (DialPeer id))
      | Disabled connected_point open (Some banned) =>
          if bool_decide (banned > now cp)%Z
          then set_peer id (DisabledPendingEnable connected_point open banned) (tick cp)
          else set_peer id (Enabled connected_point open) (push (tick cp) (SendEvent id Enable))
      | Disabled connected_point open None =>
          set_peer id (Enabled connected_point open) (push cp (SendEvent id Enable))
      | Incoming connected_point =>
          let cp := match mark_dead (alive_entry id) (cp_incoming cp) with
                    | Some l => set_incoming l cp
                    | None => cp
                    end in
          set_peer id (Enabled connected_point false) (push cp (SendEvent id Enable))
      | Enabled _ _ | DisabledPendingEnable _ _ _ | Requested | PendingRequest _ => cp
      | Poisoned => cp
      end
  end.

(** [CustomProto::peerset_report_disconnect] *)
Definition peerset_report_disconnect id cp : CustomProto :=
  match cp_peers cp !! id with
  | None => cp
  | Some st =>
      match st with
      | Disabled _ _ _ | Banned _ => cp
      | DisabledPendingEnable connected_point open timer_deadline =>
          set_peer id (Disabled connected_point open (Some timer_deadline)) cp
      | Enabled connected_point open =>
          set_peer id (Disabled connected_point open None) (push cp (SendEvent id Disable))
      | Incoming _ => cp
      | Requested => set_peers (delete id (cp_peers cp)) cp
      | PendingRequest timer_deadline => set_peer id (Banned timer_deadline) cp
      | Poisoned => cp
      end
  end.

(** [CustomProto::peerset_report_accept] *)
Definition peerset_report_accept (index : IncomingIndex) cp : res CustomProto :=
  match take_incoming index (cp_incoming cp) with
  | None => Ok cp
  | Some (incoming, l) =>
      let cp := set_incoming l cp in
      let id := inc_peer_id incoming in
      if negb (alive incoming) then psm_dropped id cp else
      match cp_peers cp !! id with
      | Some (Incoming connected_point) =>
          Ok (set_peer id (Enabled connected_point false) (push cp (SendEvent id Enable)))
      | _ => Ok cp
      end
  end.

(** [CustomProto::peerset_report_reject] *)
Definition peerset_report_reject (index : IncomingIndex) cp : CustomProto :=
  match take_incoming index (cp_incoming cp) with
  | None => cp
  | Some (incoming, l) =>
      let cp := set_incoming l cp in
      let id := inc_peer_id incoming in
      if negb (alive incoming) then cp else
      match cp_peers cp !! id with
      | Some (Incoming connected_point) =>
          set_peer id (Disabled connected_point false None) (push cp (SendEvent id Disable))
      | _ => cp
      end
  end.

(** [DiscoveryNetBehaviour::add_discovered_nodes] *)
Definition add_discovered_nodes (peer_ids : list PeerId) cp : res CustomProto :=
  ps ← discovered clock (peerset cp) peer_ids; Ok (set_peerset ps cp).

(** [NetworkBehaviour::inject_connected]: an absent peer is entered as poisoned first, and stays so if the
    index overflows. *)
Definition inject_connected id (connected_point : ConnectedPoint) cp : res CustomProto :=
  let st := default Poisoned (cp_peers cp !! id) in
  let cp := set_peer id st cp in
  match st, connected_point with
  | Requested, _ | PendingRequest _, _ =>
      Ok (set_peer id (Enabled connected_point false) (push cp (SendEvent id Enable)))
  | Poisoned, PointListener _ _ | Banned _, PointListener _ _ =>
      let index := next_incoming_index cp in
      if bool_decide (index + 1 > u64_max)%Z then Ok cp else
      let cp := set_index (index + 1)%Z cp in
      ps ← incoming clock (peerset cp) id index;
      let cp := set_peerset ps cp in
      let cp := set_incoming (cp_incoming cp ++ [mkIncomingPeer id true index]) cp in
      Ok (set_peer id (Incoming connected_point) cp)
  | Poisoned, _ | Banned _, _ =>
      let banned_until := match st with Banned until => Some until | _ => None end in
      Ok (set_peer id (Disabled connected_point false banned_until) (push cp (SendEvent id Disable)))
  | _, _ => Ok cp
  end.

Definition libp2p_closed id : BehaviourAction :=
  GenerateEvent (CustomProtoOut.CustomProtocolClosed id "Disconnected by libp2p").
Definition closed_by_libp2p id (open : bool) cp : CustomProto :=
  if open then push cp (libp2p_closed id) else cp.

(** [NetworkBehaviour::inject_disconnected]; [ban_dur] is the random number of seconds. *)
Definition inject_disconnected id (ban_dur : Z) cp : res CustomProto :=
  let st := cp_peers cp !! id in
  let cp := set_peers (delete id (cp_peers cp)) cp in
  match st with
  | None | Some Requested | Some (PendingRequest _) | Some (Banned _) => Ok cp
  | Some (Disabled _ open banned_until) =>
      let cp := match banned_until with Some until => set_peer id (Banned until) cp | None => cp end in
      Ok (closed_by_libp2p id open cp)
  | Some (DisabledPendingEnable _ open timer_deadline) =>
      cp ← psm_dropped id cp;
      Ok (closed_by_libp2p id open (set_peer id (Banned timer_deadline) cp))
  | Some (Enabled _ open) =>
      cp ← psm_dropped id cp;
      let until := (now cp + from_secs ban_dur)%Z in
      Ok (closed_by_libp2p id open (set_peer id (Banned until) (tick cp)))
  | Some (Incoming _) =>
      Ok (match mark_dead (any_entry id) (cp_incoming cp) with Some l => set_incoming l cp | None => cp end)
  | Some Poisoned => Ok cp
  end.

(** [NetworkBehaviour::inject_dial_failure] *)
Definition inject_dial_failure id cp : res CustomProto :=
  match cp_peers cp !! id with
  | Some Requested | Some (PendingRequest _) =>
      psm_dropped id (set_peer id (Banned (now cp + from_secs 5)%Z) (tick cp))
  | _ => Ok cp
  end.

(** [NetworkBehaviour::inject_node_event]: each kind of event of a handler. *)
Definition on_handler_closed id (reason : string) cp : res CustomProto :=
  match cp_peers cp !! id with
  | None => Ok cp
  | Some st =>
      let cp := push cp (GenerateEvent (CustomProtoOut.CustomProtocolClosed id reason)) in
      match st with
      | Enabled connected_point open =>
          rassert open "assertion failed: open";;
          cp ← psm_dropped id cp;
          let cp := push cp (SendEvent id Disable) in
          Ok (set_peer id (Disabled connected_point false None) cp)
      | Disabled connected_point open banned_until =>
          rassert open "assertion failed: open";;
          Ok (set_peer id (Disabled connected_point false banned_until) cp)
      | DisabledPendingEnable connected_point open timer_deadline =>
          rassert open "assertion failed: open";;
          Ok (set_peer id (DisabledPendingEnable connected_point false timer_deadline) cp)
      | _ => Ok (set_peer id Poisoned cp)
      end
  end.

Definition on_handler_open id (version : Z) cp : CustomProto :=
  let opened endpoint st :=
    push (set_peer id st cp) (GenerateEvent (CustomProtoOut.CustomProtocolOpen version id endpoint)) in
  match cp_peers cp !! id with
  | Some (Enabled connected_point false) => opened connected_point (Enabled connected_point true)
  | Some (DisabledPendingEnable connected_point false timer_deadline) =>
      opened connected_point (DisabledPendingEnable connected_point true timer_deadline)
  | Some (Disabled connected_point false banned_until) =>
      opened connected_point (Disabled connected_point true banned_until)
  | _ => cp
  end.

Definition inject_node_event id (event : CustomProtoHandlerOut) cp : res CustomProto :=
  match event with
  | CustomProtocolClosed reason => on_handler_closed id reason cp
  | CustomProtocolOpen version => Ok (on_handler_open id version cp)
  | CustomMessage message =>
      rassert (is_open cp id) "assertion failed: self.is_open(&source)";;
      Ok (push cp (GenerateEvent (CustomProtoOut.CustomMessage id message)))
  | HandlerClogged messages =>
      rassert (is_open cp id) "assertion failed: self.is_open(&source)";;
      Ok (push cp (GenerateEvent (CustomProtoOut.Clogged id messages)))
  | ProtocolError false _ => Ok cp
  | ProtocolError true _ =>
      let cp := set_peerset (send_action (peerset cp) (ReportPeer id (mkReputationChange i32_min "Protocol error"))) cp in
      disconnect_peer_inner id (Some (from_secs 5)) cp
  end.

(** One message of the manager, in the first loop of [poll]. *)
Definition handle_message (m : Peerset.Message PeerId) cp : res CustomProto :=
  match m with
  | Accept index => peerset_report_accept index cp
  | Reject index => Ok (peerset_report_reject index cp)
  | Connect id => Ok (peerset_report_connect id cp)
  | Drop id => Ok (peerset_report_disconnect id cp)
  end.

(** The first loop of [poll].  Each round takes an action or an incoming connection off its list, or a
    message off the queue without adding one, so it ends (lemma [poll_peerset_ends]); running out of fuel
    is a [Panic] of its own. *)
Fixpoint poll_peerset (fuel : nat) cp : res CustomProto :=
  match fuel with
  | 0 => Panic "out of fuel"
  | S fuel' =>
      '(o, ps) ← poll_next clock (peerset cp);
      let cp := set_peerset ps cp in
      match o with
      | None => Ok cp
      | Some m => cp ← handle_message m cp; poll_peerset fuel' cp
      end
  end.

(** The second loop of [poll], over the table of peers; [fired] tells which timers have fired. *)
Definition poll_timer (fired : PeerId -> bool) cp (entry : PeerId * PeerState) : CustomProto :=
  let '(id, st) := entry in
  match st with
  | PendingRequest _ => if fired id then set_peer id Requested (push cp (DialPeer id)) else cp
  | DisabledPendingEnable connected_point open _ =>
      if fired id then set_peer id (Enabled connected_point open) (push cp (SendEvent id Enable)) else cp
  | _ => cp
  end.
Definition poll_timers (fired : PeerId -> bool) cp : CustomProto :=
  fold_left (poll_timer fired) (hm_iter (cp_peers cp)) cp.

(** [self.events.remove(0)] *)
Definition pop_event cp : option BehaviourAction * CustomProto :=
  match cp_events cp with
  | [] => (None, cp)
  | e :: q => (Some e, mkCustomProto (cp_protocol cp) (peerset cp) (cp_peers cp) (cp_incoming cp) (next_incoming_index cp) q)
  end.

(** [NetworkBehaviour::poll]: [None] is [Async::NotReady]. *)
Definition cp_poll (fuel : nat) (fired : PeerId -> bool) cp : res (option BehaviourAction * CustomProto) :=
  cp ← poll_peerset fuel cp;
  Ok (pop_event (poll_timers fired cp)).

(** ** The behaviour in its environment *)

(** Everything that can happen to the behaviour: the swarm reports a connection, a disconnection, a failure
    to dial or an event of a handler, or polls it; the API disconnects a peer, sends a packet or adds
    discovered nodes; a handle of the manager sends an action. *)
Inductive input :=
| IConnected (id : PeerId) (connected_point : ConnectedPoint)
| IDisconnected (id : PeerId) (ban_dur : Z)
| IDialFailure (id : PeerId)
| INode (id : PeerId) (event : CustomProtoHandlerOut)
| IDisconnectPeer (id : PeerId)
| ISendPacket (id : PeerId) (message : bytes)
| IDiscovered (ids : list PeerId)
| IAction (a : Action PeerId)
| IPoll (fired : PeerId -> bool).

Definition cp_step (fuel : nat) (i : input) cp : res (option BehaviourAction * CustomProto) :=
  match i with
  | IConnected id connected_point => cp ← inject_connected id connected_point cp; Ok (None, cp)
  | IDisconnected id ban_dur => cp ← inject_disconnected id ban_dur cp; Ok (None, cp)
  | IDialFailure id => cp ← inject_dial_failure id cp; Ok (None, cp)
  | INode id event => cp ← inject_node_event id event cp; Ok (None, cp)
  | IDisconnectPeer id => cp ← disconnect_peer id cp; Ok (None, cp)
  | ISendPacket id message => Ok (None, send_packet id message cp)
  | IDiscovered ids => cp ← add_discovered_nodes ids cp; Ok (None, cp)
  | IAction a => Ok (None, set_peerset (send_action (peerset cp) a) cp)
  | IPoll fired => cp_poll fuel fired cp
  end.

(** The environment: the connected peers, each with the phase of its handler.  The swarm reports a
    connection of a peer that is not connected and a disconnection of one that is; a handler exists while
    its peer is connected, keeps its contract and receives the commands that the polls return. *)
Notation connections := (gmap PeerId phase).
Definition allowed (i : input) (env : connections) : bool :=
  match i with
  | IConnected id _ => bool_decide (env !! id = None)
  | IDisconnected id ban_dur => bool_decide (is_Some (env !! id)) && bool_decide (5 <= ban_dur < 10)%Z
  | INode id event =>
      match env !! id with
      | Some p => match observe p (Reported event) with Some _ => true | None => false end
      | None => false
      end
  | _ => true
  end.

Definition observed id (o : observation) (env : connections) : connections :=
  match env !! id with
  | Some p => match observe p o with Some p' => <[id := p']> env | None => env end
  | None => env
  end.
Definition env_step (i : input) (out : option BehaviourAction) (env : connections) : connections :=
  match i with
  | IConnected id _ => <[id := mkPhase false false]> env
  | IDisconnected id _ => delete id env
  | INode id event => observed id (Reported event) env
  | IPoll _ => match out with Some (SendEvent id m) => observed id (Told m) env | _ => env end
  | _ => env
  end.

Definition addressed id (e : BehaviourAction) : bool :=
  match e with SendEvent id' _ => bool_decide (id' = id) | _ => false end.

(** A new connection is reported when the behaviour has been polled: it has no message of the manager left
    to read and no command left for an earlier connection of the peer. *)
Definition settled id cp : bool :=
  bool_decide (message_queue (peerset cp) = []) && negb (existsb (addressed id) (cp_events cp)).
Definition timely (i : input) cp : bool :=
  match i with IConnected id _ => settled id cp | _ => true end.

(** A run: the actions returned by the polls, the behaviour and its environment at the end.  [Err] means
    that the environment broke its contract, or an input came when [guard] forbids it. *)
Fixpoint cp_run (guard : input -> CustomProto -> bool) (fuel : nat) (inputs : list input) cp (env : connections)
  : res (list BehaviourAction * CustomProto * connections) :=
  match inputs with
  | [] => Ok ([], cp, env)
  | i :: inputs' =>
      ensure (guard i cp && allowed i env) "contract broken";;
      '(out, cp) ← cp_step fuel i cp;
      '(outs, cp, env) ← cp_run guard fuel inputs' cp (env_step i out env);
      Ok (option_list out ++ outs, cp, env)
  end.

(** The peers that an input mentions. *)
Definition input_ids (i : input) : gset PeerId :=
  match i with
  | IConnected id _ | INode id _ => {[id]}
  | IDiscovered ids => list_to_set ids
  | IAction a => action_ids a
  | _ => ∅
  end.

(** ** What the behaviour promises *)

(** The peers it dials, has enabled, or will dial or enable. *)
Definition is_linked (st : PeerState) : bool :=
  match st with PendingRequest _ | Requested | DisabledPendingEnable _ _ _ | Enabled _ _ => true | _ => false end.
Definition linked_peers (m : gmap PeerId PeerState) : gset PeerId := dom (filter (fun kv => is_linked kv.2 = true) m).
Definition view cp : gset PeerId := linked_peers (cp_peers cp).

(** The external API as it replays the events: the peers with an open protocol, [None] when an event does
    not fit. *)
Definition api_step (O : gset PeerId) (e : BehaviourAction) : option (gset PeerId) :=
  match e with
  | GenerateEvent (CustomProtoOut.CustomProtocolOpen _ id _) => if bool_decide (id ∈ O) then None else Some ({[id]} ∪ O)
  | GenerateEvent (CustomProtoOut.CustomProtocolClosed id _) => if bool_decide (id ∈ O) then Some (O ∖ {[id]}) else None
  | GenerateEvent (CustomProtoOut.CustomMessage id _) | GenerateEvent (CustomProtoOut.Clogged id _) =>
      if bool_decide (id ∈ O) then Some O else None
  | DialPeer _ | SendEvent _ _ => Some O
  end.
Fixpoint api_replay (O : gset PeerId) (es : list BehaviourAction) : option (gset PeerId) :=
  match es with [] => Some O | e :: es' => O' ← api_step O e; api_replay O' es' end.

(** The last command to the handler of a peer: whether to be enabled. *)
Definition command_of id (e : BehaviourAction) : option bool :=
  match e with
  | SendEvent id' Enable => if bool_decide (id' = id) then Some true else None
  | SendEvent id' Disable => if bool_decide (id' = id) then Some false else None
  | _ => None
  end.
Fixpoint last_command id (es : list BehaviourAction) (acc : option bool) : option bool :=
  match es with
  | [] => acc
  | e :: es' => last_command id es' (match command_of id e with Some b => Some b | None => acc end)
  end.

(** ** Invariant *)

(** *** The manager and the behaviour *)

Context (clock_mono : forall i j, i <= j -> (clock i <= clock j)%Z).
Context (U : gset PeerId) (HU : (Z.of_nat (size U) <= u32_max)%Z).
Implicit Types (inc : gmap IncomingIndex PeerId) (V : gset PeerId) (ps : Peerset PeerId).

(** The queue of the manager [ps] leads from the peers [V] that the behaviour considers linked to those the
    manager does; its answers are for the incoming connections [I], which were given the indices below
    [n] that [inc] records. *)
Record psync inc V ps (I : list IncomingPeer) (n : IncomingIndex) : Prop := {
  sy_pwf : pwf clock U ps;
  sy_rx : Forall (fun a => action_ids a ⊆ U) (rx ps);
  sy_legal : legal (fun i => inc !! i) V (message_queue ps) (links (data ps));
  sy_answers : answers (message_queue ps) = incoming_id <$> I;
  sy_single : length I <= 1;
  sy_inc : Forall (fun e => inc !! incoming_id e = Some (inc_peer_id e)) I;
  sy_index : (0 <= n)%Z /\ forall i id, inc !! i = Some id -> (i < n)%Z
}.

Definition quiet ps : Prop := Forall (fun m => is_drop m = false) (message_queue ps).

Lemma connects_quiet (ms : list (Peerset.Message PeerId)) : connects ms -> Forall (fun m => is_drop m = false) ms.
Proof. intros Hc. eapply Forall_impl; [exact Hc|]. by intros []. Qed.

(** Without drops in the queue, a linked peer can be taken away from both ends. *)
Lemma legal_remove f V (ms : list (Peerset.Message PeerId)) L id :
  legal f V ms L -> Forall (fun m => is_drop m = false) ms -> id ∈ V -> legal f (V ∖ {[id]}) ms (L ∖ {[id]}).
Proof.
  intros Hl. revert id. induction Hl as [L|L x ms L' Hx _ IH|L x ms L'|L i x ms L' Hi Hx _ IH|L i ms L' _ IH]; intros id Hq Hid.
  - constructor.
  - apply Forall_cons in Hq as [_ Hq]. constructor; [set_solver|].
    replace ({[x]} ∪ L ∖ {[id]}) with (({[x]} ∪ L) ∖ {[id]}) by set_solver. apply IH; set_solver.
  - by apply Forall_cons in Hq as [? _].
  - apply Forall_cons in Hq as [_ Hq]. econstructor; [done|set_solver|].
    replace ({[x]} ∪ L ∖ {[id]}) with (({[x]} ∪ L) ∖ {[id]}) by set_solver. apply IH; set_solver.
  - apply Forall_cons in Hq as [_ Hq]. constructor. by apply IH.
Qed.

Lemma legal_mono f g V (ms : list (Peerset.Message PeerId)) L :
  (forall i id, f i = Some id -> g i = Some id) -> legal f V ms L -> legal g V ms L.
Proof. intros Hfg. induction 1; econstructor; eauto. Qed.

Lemma psync_dropped inc V ps I n id : psync inc V ps I n -> quiet ps -> id ∈ V ->
  exists ps', dropped clock ps id = Ok ps' /\ psync inc (V ∖ {[id]}) ps' I n /\ quiet ps'.
Proof.
  intros [Hp Hr Hl Ha Hs Hi Hn] Hq Hid.
  destruct (dropped_ok clock clock_mono U HU (fun i => inc !! i) ps id Hp) as (ps' & ms & E & Hp' & Hr' & Hms & Hl' & _).
  exists ps'. split; [done|]. destruct (dropped_connects _ _ _ _ E) as (ms' & Hms' & Hc).
  rewrite Hms in Hms'. apply app_inv_head in Hms' as <-. split; [split; try done|].
  - by rewrite Hr'.
  - rewrite Hms. eapply legal_app; [|done]. by apply legal_remove.
  - by rewrite Hms, answers_app, (connects_answers _ Hc), app_nil_r.
  - unfold quiet. rewrite Hms. apply Forall_app. split; [done|]. by apply connects_quiet.
Qed.

Lemma psync_discovered inc V ps I n ids : psync inc V ps I n -> quiet ps -> (forall id, id ∈ ids -> id ∈ U) ->
  exists ps', discovered clock ps ids = Ok ps' /\ psync inc V ps' I n /\ quiet ps'.
Proof.
  intros [Hp Hr Hl Ha Hs Hi Hn] Hq Hids.
  destruct (discovered_ok clock clock_mono U HU (fun i => inc !! i) ps ids Hp Hids) as (ps' & E & Hp' & (ms & Hms & Hl') & Hr').
  exists ps'. split; [done|]. destruct (discovered_connects _ _ _ _ E) as (ms' & Hms' & Hc).
  rewrite Hms in Hms'. apply app_inv_head in Hms' as <-. split; [split; try done|].
  - by rewrite Hr'.
  - rewrite Hms. by eapply legal_app.
  - by rewrite Hms, answers_app, (connects_answers _ Hc), app_nil_r.
  - unfold quiet. rewrite Hms. apply Forall_app. split; [done|]. by apply connects_quiet.
Qed.

Lemma psync_incoming inc V ps n id : psync inc V ps [] n -> message_queue ps = [] -> id ∈ U -> id ∉ V ->
  exists ps', incoming clock ps id n = Ok ps' /\
    psync (<[n := id]> inc) V ps' [mkIncomingPeer id true n] (n + 1)%Z /\ quiet ps'.
Proof.
  intros [Hp Hr Hl Ha Hs Hi [Hn0 Hn]] Hq Hid HV.
  assert (links (data ps) = V) as HL. { rewrite Hq in Hl. by inversion Hl. }
  destruct (incoming_spec clock clock_mono U HU (fun i => <[n := id]> inc !! i) ps id n Hp Hid) as (ps' & E & Hp' & (ms & Hms & Hl') & Hr' & Hq').
  { apply lookup_insert_eq. }
  rewrite Hq, HL, bool_decide_eq_false_2 in Hq' by done. simpl in Hq'. rewrite Hq, Hq' in Hms. simpl in Hms. subst ms.
  exists ps'. split; [done|]. rewrite HL in Hl'. split; [split; try done|].
  - by rewrite Hr'.
  - by rewrite Hq'.
  - rewrite Hq'. by destruct (accepts _ _).
  - apply Forall_singleton. apply lookup_insert_eq.
  - split; [lia|]. intros i x. destruct (decide (i = n)) as [->|]; [lia|]. rewrite lookup_insert_ne by done. intros ?%Hn. lia.
  - unfold quiet. rewrite Hq'. destruct (accepts _ _); by apply Forall_singleton.
Qed.

(** Changes of the manager that leave its links and its queue alone. *)
Lemma psync_frame inc V ps ps' I n :
  data ps' = data ps -> message_queue ps' = message_queue ps -> pwf clock U ps' ->
  Forall (fun a => action_ids a ⊆ U) (rx ps') -> psync inc V ps I n -> psync inc V ps' I n.
Proof. intros Hd Hq ? ? []. split; try done; rewrite ?Hd, ?Hq; done. Qed.

Lemma psync_tick inc V ps I n : psync inc V ps I n -> psync inc V (tick_ps ps) I n.
Proof.
  intros Hp. eapply psync_frame; [..|exact Hp]; try done; [|apply Hp]. destruct (sy_pwf _ _ _ _ _ Hp). split; try done. simpl.
  etrans; [done|]. apply clock_mono. lia.
Qed.

Lemma psync_send_action inc V ps I n a : psync inc V ps I n -> action_ids a ⊆ U -> psync inc V (send_action ps a) I n.
Proof.
  intros Hp Ha. eapply psync_frame; [..|exact Hp]; try done.
  - by eapply pwf_frame; [..|exact (sy_pwf _ _ _ _ _ Hp)].
  - simpl. apply Forall_app. split; [apply Hp|by apply Forall_singleton].
Qed.

(** *** Reading a message *)

(** The manager before it handed out [m]. *)
Definition unpop (m : Peerset.Message PeerId) ps : Peerset PeerId := set_queue (m :: message_queue ps) ps.

Lemma psync_unpop inc V m ps I n V' I' :
  psync inc V (unpop m ps) I n -> legal (fun i => inc !! i) V' (message_queue ps) (links (data ps)) ->
  answers (message_queue ps) = incoming_id <$> I' -> I' = I \/ I' = [] -> psync inc V' ps I' n.
Proof.
  intros [Hp Hr Hl Ha Hs Hi Hn] Hl' Ha' HI. split; try done.
  - by eapply pwf_frame; [..|exact Hp].
  - destruct HI as [-> | ->]; simpl; lia.
  - by destruct HI as [-> | ->].
Qed.

Lemma psync_connect inc V id ps I n : psync inc V (unpop (Connect id) ps) I n ->
  id ∉ V /\ psync inc ({[id]} ∪ V) ps I n.
Proof.
  intros Hp. pose proof (sy_legal _ _ _ _ _ Hp) as Hl. simpl in Hl. inversion Hl; subst.
  split; [done|]. eapply psync_unpop; [done..| |by left]. apply (sy_answers _ _ _ _ _ Hp).
Qed.

Lemma psync_drop inc V id ps I n : psync inc V (unpop (Drop id) ps) I n ->
  id ∈ V /\ psync inc (V ∖ {[id]}) ps I n.
Proof.
  intros Hp. pose proof (sy_legal _ _ _ _ _ Hp) as Hl. simpl in Hl. inversion Hl; subst.
  split; [done|]. eapply psync_unpop; [done..| |by left]. apply (sy_answers _ _ _ _ _ Hp).
Qed.

(** The message that answers [i] meets the one incoming connection that waits. *)
Lemma answered_entry i (q : list IncomingIndex) (I : list IncomingPeer) :
  i :: q = incoming_id <$> I -> length I <= 1 -> q = [] /\ exists e, I = [e] /\ incoming_id e = i.
Proof.
  destruct I as [|e [|e' I]]; simpl; intros E Hs; [done| |lia]. injection E as -> ->. eauto.
Qed.

Lemma psync_accept inc V i ps I n : psync inc V (unpop (Accept i) ps) I n ->
  exists e, I = [e] /\ incoming_id e = i /\ inc_peer_id e ∉ V /\ psync inc ({[inc_peer_id e]} ∪ V) ps [] n.
Proof.
  intros Hp. pose proof (sy_legal _ _ _ _ _ Hp) as Hl. simpl in Hl. inversion Hl; subst.
  destruct (answered_entry i _ I (sy_answers _ _ _ _ _ Hp) (sy_single _ _ _ _ _ Hp)) as (Hq & e & -> & <-).
  pose proof (sy_inc _ _ _ _ _ Hp) as Hi. rewrite Forall_singleton in Hi. simplify_eq.
  exists e. split_and!; try done. eapply psync_unpop; [done..|]. by right.
Qed.

Lemma psync_reject inc V i ps I n : psync inc V (unpop (Reject i) ps) I n ->
  exists e, I = [e] /\ incoming_id e = i /\ psync inc V ps [] n.
Proof.
  intros Hp. pose proof (sy_legal _ _ _ _ _ Hp) as Hl. simpl in Hl. inversion Hl; subst.
  destruct (answered_entry i _ I (sy_answers _ _ _ _ _ Hp) (sy_single _ _ _ _ _ Hp)) as (Hq & e & -> & <-).
  exists e. split_and!; try done. eapply psync_unpop; [done..|]. by right.
Qed.

(** One poll of the manager, and the measure that decreases. *)
Lemma psync_poll_next inc V ps I n : psync inc V ps I n -> quiet ps \/ I = [] ->
  exists o ps', poll_next clock ps = Ok (o, ps') /\
  match o with
  | None => psync inc V ps' [] n /\ message_queue ps' = [] /\ I = []
  | Some m => psync inc V (unpop m ps') I n /\ (quiet (unpop m ps') \/ I = []) /\
      (length (rx ps') < length (rx ps) \/
       (length (rx ps') = length (rx ps) /\ length (message_queue ps) = S (length (message_queue ps'))))
  end.
Proof.
  intros Hp Hq. unfold poll_next. destruct (message_queue ps) as [|m q] eqn:E.
  - assert (I = []) as ->.
    { pose proof (sy_answers _ _ _ _ _ Hp) as Ha. rewrite E in Ha. by destruct I. }
    destruct Hp as [Hp Hr Hl Ha Hs Hi Hn].
    destruct (poll_loop_ok clock clock_mono U HU (fun i => inc !! i) (rx ps) ps Hp Hr) as (o & ps' & ms & Ep & Hp' & Hnone & Hr' & Hms & Hl').
    rewrite E in Hms. simpl in Hms. subst ms.
    assert (links (data ps) = V) as HL. { rewrite E in Hl. by inversion Hl. }
    rewrite HL in Hl'. destruct (poll_loop_empty clock _ _ _ _ E Ep) as [Hu Hlen].
    exists o, ps'. split; [done|]. destruct o as [m|]; simpl in *.
    + split_and!; [split; try done|by right|left; by apply Hlen].
      by eapply pwf_frame; [..|exact Hp'].
    + destruct (Hnone eq_refl) as [Hq' Hx]. rewrite Hq' in *. split_and!; try done. split; try done; by rewrite Hq'.
  - exists (Some m), (set_queue q (set_rx (rx ps) ps)).
    assert (poll_loop clock (rx ps) ps = Ok (Some m, set_queue q (set_rx (rx ps) ps))) as ->.
    { destruct (rx ps); simpl; by rewrite E. }
    split; [done|]. split_and!; [|by unfold quiet in *; simpl; rewrite <-E|by right].
    destruct Hp. split; try done; cbn [message_queue unpop set_queue set_rx data]; rewrite <-?E; try done.
    by eapply pwf_frame; [..|done].
Qed.

(** *** One peer *)

Lemma elem_of_linked_peers m id : id ∈ linked_peers m <-> exists st, m !! id = Some st /\ is_linked st = true.
Proof.
  unfold linked_peers. rewrite elem_of_dom. unfold is_Some. by setoid_rewrite map_lookup_filter_Some.
Qed.

Lemma linked_peers_insert m id st :
  linked_peers (<[id := st]> m) = if is_linked st then {[id]} ∪ linked_peers m else linked_peers m ∖ {[id]}.
Proof.
  apply set_eq. intros x. rewrite elem_of_linked_peers. destruct (decide (x = id)) as [->|Hx].
  - setoid_rewrite lookup_insert_eq. destruct (is_linked st) eqn:E; [set_solver|]. split; [|set_solver].
    intros (st' & [= <-] & ?). congruence.
  - setoid_rewrite lookup_insert_ne; [|done..]. rewrite <-elem_of_linked_peers. destruct (is_linked st); set_solver.
Qed.

Lemma linked_peers_delete m id : linked_peers (delete id m) = linked_peers m ∖ {[id]}.
Proof.
  apply set_eq. intros x. rewrite elem_of_linked_peers. destruct (decide (x = id)) as [->|Hx].
  - setoid_rewrite lookup_delete_eq. set_solver.
  - setoid_rewrite lookup_delete_ne; [|done..]. rewrite <-elem_of_linked_peers. set_solver.
Qed.

(** An insertion that does not change whether the peer is linked. *)
Lemma linked_peers_same m id st :
  is_linked st = bool_decide (id ∈ linked_peers m) -> linked_peers (<[id := st]> m) = linked_peers m.
Proof. intros E. rewrite linked_peers_insert, E. case_bool_decide; set_solver. Qed.

Definition is_waiting id (l : list IncomingPeer) : bool := existsb (alive_entry id) l.
Definition enables id (e : BehaviourAction) : bool :=
  match e with SendEvent id' Enable => bool_decide (id' = id) | _ => false end.

(** The state of a peer against the phase of its handler, whether an incoming connection of it waits, the
    last command its handler was given, whether the API sees it open, and whether a command to enable
    is still queued. *)
Definition peer_ok (st : option PeerState) (ph : option phase) (waiting : bool) (cmd : option bool) (api enq : bool) : Prop :=
  match st with
  | None | Some (Banned _) | Some (PendingRequest _) | Some Requested => ph = None /\ waiting = false /\ api = false
  | Some (Incoming _) => ph = Some (mkPhase false false) /\ waiting = true /\ api = false /\ enq = false
  | Some (Enabled _ open) =>
      (exists en, ph = Some (mkPhase en open)) /\ waiting = false /\ api = open /\ cmd = Some true
  | Some (Disabled _ open _) | Some (DisabledPendingEnable _ open _) =>
      (exists en, ph = Some (mkPhase en open)) /\ waiting = false /\ api = open /\ cmd = Some false
  | Some Poisoned => False
  end.

Definition peer_inv (env : connections) (outs : list BehaviourAction) (O : gset PeerId) cp id : Prop :=
  peer_ok (cp_peers cp !! id) (env !! id) (is_waiting id (cp_incoming cp))
    (last_command id (outs ++ cp_events cp) None) (bool_decide (id ∈ O)) (existsb (enables id) (cp_events cp)).

Record inv inc (env : connections) (outs : list BehaviourAction) cp : Prop := {
  iv_sync : psync inc (view cp) (peerset cp) (cp_incoming cp) (next_incoming_index cp);
  iv_api : exists O, api_replay ∅ (outs ++ cp_events cp) = Some O /\ forall id, peer_inv env outs O cp id
}.

(** *** Changing one peer *)

(** The events that concern [id] only. *)
Definition about id (e : BehaviourAction) : Prop :=
  match e with
  | DialPeer id' | SendEvent id' _ | GenerateEvent (CustomProtoOut.CustomProtocolOpen _ id' _)
  | GenerateEvent (CustomProtoOut.CustomProtocolClosed id' _) | GenerateEvent (CustomProtoOut.CustomMessage id' _)
  | GenerateEvent (CustomProtoOut.Clogged id' _) => id' = id
  end.

Lemma last_command_app id es1 es2 acc :
  last_command id (es1 ++ es2) acc = last_command id es2 (last_command id es1 acc).
Proof. revert acc. induction es1 as [|e es1 IH]; intros acc; simpl; [done|]. apply IH. Qed.

Lemma api_replay_app O es1 es2 : api_replay O (es1 ++ es2) = O' ← api_replay O es1; api_replay O' es2.
Proof.
  revert O. induction es1 as [|e es1 IH]; intros O; cbn [app api_replay]; [done|].
  destruct (api_step O e); simpl; [apply IH|done].
Qed.

Lemma about_command x id e acc : about id e -> x <> id -> last_command x [e] acc = acc.
Proof.
  intros Ha Hx. destruct e as [|id' []|]; simpl in *; try done; subst; by rewrite bool_decide_eq_false_2.
Qed.

Lemma about_commands x id es acc : Forall (about id) es -> x <> id -> last_command x es acc = acc.
Proof.
  intros Hes Hx. revert acc. induction Hes as [|e es He _ IH]; intros acc; [done|].
  change (last_command x (e :: es) acc) with (last_command x es (last_command x [e] acc)).
  by rewrite (about_command x id e acc He Hx).
Qed.

Lemma about_enables x id es : Forall (about id) es -> x <> id -> existsb (enables x) es = false.
Proof.
  intros Hes Hx. induction Hes as [|e es He _ IH]; [done|]. simpl. rewrite IH.
  destruct e as [|id' []|]; simpl in *; try done. subst. by rewrite bool_decide_eq_false_2.
Qed.

Lemma about_api x id es O O' : Forall (about id) es -> x <> id -> api_replay O es = Some O' -> x ∈ O' <-> x ∈ O.
Proof.
  intros Hes Hx. revert O. induction Hes as [|e es He _ IH]; intros O; simpl; [by intros [= ->]|].
  destruct (api_step O e) as [O1|] eqn:E; [|done]. simpl. intros ->%IH. revert E.
  destruct e as [|id' ev|[v id' pt|id' r|id' m|id' ms]]; simpl in *; try (by intros [= <-]); subst; case_bool_decide; intros; simplify_eq; set_solver.
Qed.

Lemma inv_update inc env outs cp inc' env' cp' id es O O' :
  (forall x, peer_inv env outs O cp x) -> api_replay ∅ (outs ++ cp_events cp) = Some O ->
  psync inc' (view cp') (peerset cp') (cp_incoming cp') (next_incoming_index cp') ->
  (forall x, x <> id -> cp_peers cp' !! x = cp_peers cp !! x) ->
  (forall x, x <> id -> env' !! x = env !! x) ->
  (forall x, x <> id -> is_waiting x (cp_incoming cp') = is_waiting x (cp_incoming cp)) ->
  cp_events cp' = cp_events cp ++ es -> Forall (about id) es -> api_replay O es = Some O' ->
  peer_ok (cp_peers cp' !! id) (env' !! id) (is_waiting id (cp_incoming cp'))
    (last_command id es (last_command id (outs ++ cp_events cp) None)) (bool_decide (id ∈ O'))
    (existsb (enables id) (cp_events cp) || existsb (enables id) es) ->
  inv inc' env' outs cp'.
Proof.
  intros Hps HO Hs Hp He Hw Hev Hab Hapi Hid. split; [done|]. exists O'.
  rewrite Hev, (assoc_L (++)), api_replay_app, HO. split; [done|]. intros x. unfold peer_inv.
  rewrite Hev, (assoc_L (++)), last_command_app, existsb_app. destruct (decide (x = id)) as [->|Hx]; [done|].
  rewrite Hp, He, Hw, (about_commands x id es), (about_enables x id es), orb_false_r by done.
  rewrite (bool_decide_ext (x ∈ O') (x ∈ O)) by by eapply about_api. apply Hps.
Qed.

(** *** The operations *)

#[local] Arguments tick_ps : simpl never.
#[local] Arguments is_waiting : simpl never.

Definition dead (e : IncomingPeer) : IncomingPeer := mkIncomingPeer (inc_peer_id e) false (incoming_id e).

(** The incoming connection of a peer that waits is the only one. *)
Lemma waiting_single id (l : list IncomingPeer) : length l <= 1 -> is_waiting id l = true ->
  exists e, l = [e] /\ inc_peer_id e = id /\ alive e = true.
Proof.
  unfold is_waiting, alive_entry. destruct l as [|e [|e' l]]; simpl; intros Hl Hw; [done| |lia].
  exists e. rewrite orb_false_r, andb_true_iff, bool_decide_eq_true in Hw. naive_solver.
Qed.

Lemma mark_dead_single id e p : inc_peer_id e = id -> alive e = true -> p = alive_entry id \/ p = any_entry id ->
  mark_dead p [e] = Some [dead e].
Proof.
  intros <- Ha [-> | ->]; simpl; unfold alive_entry, any_entry; rewrite ?Ha, bool_decide_eq_true_2; done.
Qed.

Lemma is_waiting_dead x e : is_waiting x [dead e] = false.
Proof. unfold is_waiting, alive_entry. simpl. by rewrite andb_false_r. Qed.

Lemma is_waiting_other x id e : inc_peer_id e = id -> x <> id -> is_waiting x [e] = false.
Proof. intros <- Hx. unfold is_waiting, alive_entry. simpl. by rewrite bool_decide_eq_false_2. Qed.

Lemma psync_dead inc V ps e n : psync inc V ps [e] n -> psync inc V ps [dead e] n.
Proof.
  intros []. split; try done. rewrite Forall_singleton in *. done.
Qed.

Lemma linked_in_view cp id st : cp_peers cp !! id = Some st -> bool_decide (id ∈ view cp) = is_linked st.
Proof.
  intros E. destruct (is_linked st) eqn:Hl.
  - apply bool_decide_eq_true_2, elem_of_linked_peers. eauto.
  - apply bool_decide_eq_false_2. unfold view. rewrite elem_of_linked_peers. intros (st' & ? & ?). congruence.
Qed.

Lemma psm_dropped_ok inc V cp id : psync inc V (peerset cp) (cp_incoming cp) (next_incoming_index cp) ->
  quiet (peerset cp) -> id ∈ V ->
  exists ps, psm_dropped id cp = Ok (set_peerset ps cp) /\
    psync inc (V ∖ {[id]}) ps (cp_incoming cp) (next_incoming_index cp) /\ quiet ps.
Proof.
  intros Hp Hq Hid. unfold psm_dropped. destruct (psync_dropped inc V _ _ _ id Hp Hq Hid) as (ps & -> & ? & ?). eauto.
Qed.

(** Close the side conditions of [inv_update] about the other peers. *)
Ltac frame :=
  first
  [ by intros; cbn; rewrite ?lookup_insert_ne, ?lookup_delete_ne, ?app_nil_r by done
  | by cbn; rewrite <-?app_assoc, ?app_nil_r
  | by repeat constructor
  | cbn; match goal with Ha : bool_decide (_ ∈ _) = _ |- _ => rewrite Ha end; reflexivity ].

Ltac sync :=
  unfold view; cbn; rewrite ?insert_delete_eq, ?insert_insert_eq, ?linked_peers_insert, ?linked_peers_delete; cbn;
  repeat match goal with
  | Hs : is_linked _ = _ -> _ = linked_peers _ |- _ => rewrite (Hs eq_refl); clear Hs
  | Hs : _ = linked_peers _ |- _ => rewrite Hs; clear Hs
  end;
  try apply psync_tick; done.
Ltac self :=
  repeat match goal with
  | |- context [bool_decide (?x = ?x)] => rewrite (bool_decide_eq_true_2 (x = x)) by done
  | |- context [bool_decide (?x ∈ ?O ∖ {[?x]})] => rewrite (bool_decide_eq_false_2 (x ∈ O ∖ {[x]})) by set_solver
  | |- context [bool_decide (?x ∈ {[?x]} ∪ ?O)] => rewrite (bool_decide_eq_true_2 (x ∈ {[x]} ∪ O)) by set_solver
  end.
Ltac peer := cbn; rewrite ?lookup_insert_eq, ?lookup_delete_eq; cbn; rewrite ?is_waiting_dead; self; cbn; split_and?; eauto 3.
(** Apply [inv_update] for the peer [id] with the new events [es] and the API's peers [O']. *)
Ltac update inc env id es O' :=
  match goal with
  | Hps : forall id, peer_inv ?env0 ?outs ?O ?cp id, HO : api_replay ∅ (?outs ++ cp_events ?cp) = Some ?O |- _ =>
      eapply (inv_update inc env0 outs cp inc env _ id es O O' Hps HO); [try sync|try frame..|try peer]
  end.

Lemma linked_view cp id st : cp_peers cp !! id = Some st -> is_linked st = true -> id ∈ view cp.
Proof. intros E Hl. apply elem_of_linked_peers. eauto. Qed.

(** A peer that stays linked, or unlinked, does not change the view. *)
Lemma unlinked_same cp id st : cp_peers cp !! id = Some st -> is_linked st = false ->
  linked_peers (cp_peers cp) ∖ {[id]} = linked_peers (cp_peers cp).
Proof.
  intros E Hl. pose proof (linked_in_view cp id st E) as Hv. rewrite Hl in Hv. apply bool_decide_eq_false in Hv.
  unfold view in Hv. set_solver.
Qed.
Lemma linked_same cp id st : cp_peers cp !! id = Some st -> is_linked st = true ->
  {[id]} ∪ linked_peers (cp_peers cp) = linked_peers (cp_peers cp).
Proof. intros E Hl. pose proof (linked_view cp id st E Hl) as Hv. unfold view in Hv. set_solver. Qed.

Lemma disconnect_peer_inner_ok inc env outs cp id ban : inv inc env outs cp -> quiet (peerset cp) ->
  exists cp', disconnect_peer_inner id ban cp = Ok cp' /\ inv inc env outs cp' /\ quiet (peerset cp').
Proof.
  intros Hi Hq. pose proof Hi as [Hs (O & HO & Hps)]. pose proof (Hps id) as Hid. unfold peer_inv in Hid.
  unfold disconnect_peer_inner. destruct (cp_peers cp !! id) as [st|] eqn:E; [|by exists cp].
  pose proof (linked_view cp id st E) as Hlk. pose proof (unlinked_same cp id st E) as Hun.
  destruct st as [|u|t| |pt o bu|pt o t|pt o|pt]; cbn [peer_ok] in Hid; try done; try (by exists cp).
  - destruct (psm_dropped_ok inc _ cp id Hs Hq (Hlk eq_refl)) as (ps & -> & Hs' & Hq'). rstep.
    destruct Hid as ([en ?] & ? & ? & ?).
    destruct ban as [ban|]; (eexists; split; [reflexivity|]; split; [|done]); update inc env id (@nil BehaviourAction) O.
  - destruct (psm_dropped_ok inc _ cp id Hs Hq (Hlk eq_refl)) as (ps & -> & Hs' & Hq'). rstep.
    destruct Hid as ([en ?] & ? & ? & ?).
    destruct ban as [ban|]; (eexists; split; [reflexivity|]; split; [|done]); update inc env id [SendEvent id Disable] O.
  - destruct Hid as (? & Hw & ? & ?). destruct (waiting_single id _ (sy_single _ _ _ _ _ Hs) Hw) as (e & He & Hei & Hea).
    rewrite He, (mark_dead_single id e) by auto. rewrite He in Hs. apply psync_dead in Hs.
    destruct ban as [ban|]; (eexists; split; [reflexivity|]; split; [|done]); update inc env id [SendEvent id Disable] O.
    all: try (intros x Hx; cbn; by rewrite He, is_waiting_dead, (is_waiting_other x id e)).
Qed.

(** Start the proof of an operation on the peer [id] from its state. *)
Ltac operation Hi id :=
  pose proof Hi as [Hs (O & HO & Hps)]; pose proof (Hps id) as Hid; unfold peer_inv in Hid.

Lemma inject_disconnected_ok inc env outs cp id ban_dur : inv inc env outs cp -> quiet (peerset cp) -> is_Some (env !! id) ->
  exists cp', inject_disconnected id ban_dur cp = Ok cp' /\ inv inc (delete id env) outs cp' /\ quiet (peerset cp').
Proof.
  intros Hi Hq [p Hp]. operation Hi id.
  unfold inject_disconnected. rewrite Hp in Hid.
  destruct (cp_peers cp !! id) as [st|] eqn:E; [|by destruct Hid as [? _]].
  pose proof (linked_view cp id st E) as Hlk. pose proof (unlinked_same cp id st E) as Hun.
  destruct st as [|u|t| |pt o bu|pt o t|pt o|pt]; cbn [peer_ok] in Hid; try done; try (by destruct Hid as [? _]).
  - destruct Hid as (_ & ? & Ha & _). destruct o.
    + destruct bu; (eexists; split; [reflexivity|]; split; [|done]); update inc (delete id env) id [libp2p_closed id] (O ∖ {[id]}).
    + destruct bu; (eexists; split; [reflexivity|]; split; [|done]); update inc (delete id env) id (@nil BehaviourAction) O.
  - destruct Hid as (_ & ? & Ha & _).
    destruct (psm_dropped_ok inc _ (set_peers (delete id (cp_peers cp)) cp) id Hs Hq (Hlk eq_refl)) as (ps & -> & Hs' & Hq'). rstep.
    destruct o; (eexists; split; [reflexivity|]; split; [|done]).
    + update inc (delete id env) id [libp2p_closed id] (O ∖ {[id]}).
    + update inc (delete id env) id (@nil BehaviourAction) O.
  - destruct Hid as (_ & ? & Ha & _).
    destruct (psm_dropped_ok inc _ (set_peers (delete id (cp_peers cp)) cp) id Hs Hq (Hlk eq_refl)) as (ps & -> & Hs' & Hq'). rstep.
    destruct o; (eexists; split; [reflexivity|]; split; [|done]).
    + update inc (delete id env) id [libp2p_closed id] (O ∖ {[id]}).
    + update inc (delete id env) id (@nil BehaviourAction) O.
  - destruct Hid as (_ & Hw & ? & _). destruct (waiting_single id _ (sy_single _ _ _ _ _ Hs) Hw) as (e & He & Hei & Hea).
    cbn [cp_incoming set_peers]. rewrite He, (mark_dead_single id e) by auto. rewrite He in Hs. apply psync_dead in Hs.
    eexists; split; [reflexivity|]; split; [|done]. update inc (delete id env) id (@nil BehaviourAction) O.
    intros x Hx. cbn. by rewrite He, is_waiting_dead, (is_waiting_other x id e).
Qed.

Lemma inject_dial_failure_ok inc env outs cp id : inv inc env outs cp -> quiet (peerset cp) ->
  exists cp', inject_dial_failure id cp = Ok cp' /\ inv inc env outs cp' /\ quiet (peerset cp').
Proof.
  intros Hi Hq. operation Hi id. unfold inject_dial_failure.
  destruct (cp_peers cp !! id) as [st|] eqn:E; [|by exists cp]. pose proof (linked_view cp id st E) as Hlk.
  destruct st as [|u|t| |pt o bu|pt o t|pt o|pt]; cbn [peer_ok] in Hid; try done; try (by exists cp).
  all: destruct Hid as (? & ? & ?).
  all: destruct (psm_dropped_ok inc (view cp) (set_peer id (Banned (now cp + from_secs 5)) (tick cp)) id (psync_tick _ _ _ _ _ Hs) Hq (Hlk eq_refl))
    as (ps & -> & Hs' & Hq'); eexists; split; [reflexivity|]; split; [|done]; update inc env id (@nil BehaviourAction) O.
Qed.

Lemma settled_spec id cp inc V : settled id cp = true -> psync inc V (peerset cp) (cp_incoming cp) (next_incoming_index cp) ->
  message_queue (peerset cp) = [] /\ cp_incoming cp = [] /\ existsb (enables id) (cp_events cp) = false.
Proof.
  unfold settled. rewrite andb_true_iff, bool_decide_eq_true, negb_true_iff. intros [Hq He] Hs. split_and!; [done|..].
  - pose proof (sy_answers _ _ _ _ _ Hs) as Ha. rewrite Hq in Ha. by destruct (cp_incoming cp).
  - apply not_true_iff_false in He. apply not_true_iff_false. intros (e & ? & Hen)%existsb_exists. apply He, existsb_exists.
    exists e. split; [done|]. by destruct e as [|id' []|].
Qed.

Lemma unlinked_absent cp id : cp_peers cp !! id = None ->
  linked_peers (cp_peers cp) ∖ {[id]} = linked_peers (cp_peers cp).
Proof.
  intros E. assert (id ∉ linked_peers (cp_peers cp)); [|set_solver]. rewrite elem_of_linked_peers, E. naive_solver.
Qed.

(** An incoming connection of a peer that is not linked. *)
Lemma inject_incoming_ok inc env outs cp id st pt O :
  psync inc (view cp) (peerset cp) (cp_incoming cp) (next_incoming_index cp) ->
  api_replay ∅ (outs ++ cp_events cp) = Some O -> (forall id, peer_inv env outs O cp id) ->
  linked_peers (cp_peers cp) ∖ {[id]} = linked_peers (cp_peers cp) -> is_linked st = false ->
  bool_decide (id ∈ O) = false -> settled id cp = true -> id ∈ U ->
  exists ps, incoming clock (peerset cp) id (next_incoming_index cp) = Ok ps /\ quiet ps /\
    inv (<[next_incoming_index cp := id]> inc) (<[id := mkPhase false false]> env) outs
      (set_peer id (Incoming pt)
        (set_incoming (cp_incoming cp ++ [mkIncomingPeer id true (next_incoming_index cp)])
          (set_peerset ps (set_index (next_incoming_index cp + 1)%Z (set_peer id st cp))))).
Proof.
  intros Hs HO Hps Hun Hst Ha Hset HidU. destruct (settled_spec id cp inc _ Hset Hs) as (Hq0 & Hinc & Hen).
  rewrite Hinc in Hs. destruct (psync_incoming inc (view cp) (peerset cp) _ id Hs Hq0 HidU) as (ps & Hin & Hs' & Hq').
  { unfold view. set_solver. }
  exists ps. split_and!; [done..|]. rewrite Hinc.
  update (<[next_incoming_index cp := id]> inc) (<[id := mkPhase false false]> env) id (@nil BehaviourAction) O.
  - intros x Hx. cbn. by rewrite Hinc, (is_waiting_other x id).
  - unfold is_waiting, alive_entry. cbn. self. done.
  - by rewrite Hen.
Qed.

Lemma inject_connected_ok inc env outs cp id pt : inv inc env outs cp -> quiet (peerset cp) ->
  env !! id = None -> settled id cp = true -> id ∈ U -> (next_incoming_index cp < u64_max)%Z ->
  exists inc' cp', inject_connected id pt cp = Ok cp' /\ inv inc' (<[id := mkPhase false false]> env) outs cp' /\
    quiet (peerset cp') /\ (next_incoming_index cp' <= next_incoming_index cp + 1)%Z.
Proof.
  intros Hi Hq Henv Hset HidU Hn. operation Hi id. rewrite Henv in Hid. unfold inject_connected.
  assert (match cp_peers cp !! id with None | Some (Banned _) | Some (PendingRequest _) | Some Requested => True | _ => False end
    /\ is_waiting id (cp_incoming cp) = false /\ bool_decide (id ∈ O) = false) as (Hst & Hw & Ha).
  { destruct (cp_peers cp !! id) as [[]|]; cbn in Hid; naive_solver. }
  assert (bool_decide (next_incoming_index cp + 1 > u64_max)%Z = false) as Hov by (apply bool_decide_eq_false_2; lia).
  destruct (cp_peers cp !! id) as [[|u|t| |pt' o bu|pt' o t|pt' o|pt']|] eqn:E; try done; cbn [default Datatypes.id].
  - pose proof (unlinked_same cp id _ E eq_refl) as Hun. destruct pt as [a|a1 a2].
    + eexists inc, _. split; [reflexivity|]. split_and!; [|done|simpl; lia].
      update inc (<[id := mkPhase false false]> env) id [SendEvent id Disable] O.
    + destruct (inject_incoming_ok inc env outs cp id (Banned u) (PointListener a1 a2) O) as (ps & Hin & Hq' & Hi'); [done..|].
      cbn [next_incoming_index peerset set_peer set_peers set_index]. rewrite Hov, Hin. rstep.
      eexists _, _. split; [reflexivity|]. split_and!; [exact Hi'|done|simpl; lia].
  - pose proof (linked_same cp id _ E) as Hli. eexists inc, _. split; [reflexivity|]. split_and!; [|done|simpl; lia].
    update inc (<[id := mkPhase false false]> env) id [SendEvent id Enable] O.
  - pose proof (linked_same cp id _ E) as Hli. eexists inc, _. split; [reflexivity|]. split_and!; [|done|simpl; lia].
    update inc (<[id := mkPhase false false]> env) id [SendEvent id Enable] O.
  - pose proof (unlinked_absent cp id E) as Hun. destruct pt as [a|a1 a2].
    + eexists inc, _. split; [reflexivity|]. split_and!; [|done|simpl; lia].
      update inc (<[id := mkPhase false false]> env) id [SendEvent id Disable] O.
    + destruct (inject_incoming_ok inc env outs cp id Poisoned (PointListener a1 a2) O) as (ps & Hin & Hq' & Hi'); [done..|].
      cbn [next_incoming_index peerset set_peer set_peers set_index]. rewrite Hov, Hin. rstep.
      eexists _, _. split; [reflexivity|]. split_and!; [exact Hi'|done|simpl; lia].
Qed.

(** The API sees a peer open exactly when the behaviour does. *)
Lemma peer_inv_is_open env outs O cp id : peer_inv env outs O cp id -> is_open cp id = bool_decide (id ∈ O).
Proof.
  unfold peer_inv, is_open. destruct (cp_peers cp !! id) as [[]|]; cbn; naive_solver.
Qed.

(** The state of a connected peer whose handler has been enabled. *)
Lemma enabled_phase env outs O cp id p : peer_inv env outs O cp id -> env !! id = Some p -> was_enabled p || is_opened p = true ->
  bool_decide (id ∈ O) = is_opened p /\ is_waiting id (cp_incoming cp) = false /\
  match cp_peers cp !! id with
  | Some (Enabled _ open) => open = is_opened p /\ last_command id (outs ++ cp_events cp) None = Some true
  | Some (Disabled _ open _) | Some (DisabledPendingEnable _ open _) =>
      open = is_opened p /\ last_command id (outs ++ cp_events cp) None = Some false
  | _ => False
  end.
Proof.
  unfold peer_inv. intros Hid Hp Hen. rewrite Hp in Hid.
  destruct (cp_peers cp !! id) as [[]|]; cbn in Hid; naive_solver.
Qed.

Lemma on_handler_closed_ok inc env outs cp id reason p : inv inc env outs cp -> quiet (peerset cp) ->
  env !! id = Some p -> is_opened p = true ->
  exists cp', on_handler_closed id reason cp = Ok cp' /\
    inv inc (<[id := mkPhase (was_enabled p) false]> env) outs cp' /\ quiet (peerset cp').
Proof.
  intros Hi Hq Hp Hop. operation Hi id. clear Hid.
  destruct (enabled_phase _ _ _ _ _ _ (Hps id) Hp) as (Ha & Hw & Hst); [by rewrite Hop, orb_true_r|]. rewrite Hop in *.
  unfold on_handler_closed. destruct (cp_peers cp !! id) as [[|u|t| |pt o bu|pt o t|pt o|pt]|] eqn:E; try done.
  all: destruct Hst as [-> Hc]; cbn [rassert]; rstep.
  - pose proof (unlinked_same cp id _ E) as Hun. eexists; split; [reflexivity|]; split; [|done].
    update inc (<[id := mkPhase (was_enabled p) false]> env) id [GenerateEvent (CustomProtoOut.CustomProtocolClosed id reason) : BehaviourAction] (O ∖ {[id]}).
  - pose proof (linked_same cp id _ E) as Hun. eexists; split; [reflexivity|]; split; [|done].
    update inc (<[id := mkPhase (was_enabled p) false]> env) id [GenerateEvent (CustomProtoOut.CustomProtocolClosed id reason) : BehaviourAction] (O ∖ {[id]}).
  - destruct (psm_dropped_ok inc _ (push cp (GenerateEvent (CustomProtoOut.CustomProtocolClosed id reason))) id Hs Hq (linked_view cp id _ E eq_refl)) as (ps & -> & Hs' & Hq'). rstep.
    eexists; split; [reflexivity|]; split; [|done].
    update inc (<[id := mkPhase (was_enabled p) false]> env) id
      [GenerateEvent (CustomProtoOut.CustomProtocolClosed id reason); SendEvent id Disable] (O ∖ {[id]}).
Qed.

Lemma on_handler_open_ok inc env outs cp id version p : inv inc env outs cp ->
  env !! id = Some p -> was_enabled p = true -> is_opened p = false ->
  inv inc (<[id := mkPhase true true]> env) outs (on_handler_open id version cp) /\
  peerset (on_handler_open id version cp) = peerset cp.
Proof.
  intros Hi Hp Hen Hop. operation Hi id. clear Hid.
  destruct (enabled_phase _ _ _ _ _ _ (Hps id) Hp) as (Ha & Hw & Hst); [by rewrite Hen|]. rewrite Hop in *.
  unfold on_handler_open. destruct (cp_peers cp !! id) as [[|u|t| |pt o bu|pt o t|pt o|pt]|] eqn:E; try done.
  all: destruct Hst as [-> Hc]; (split; [|done]).
  all: pose proof (unlinked_same cp id _ E) as Hun; pose proof (linked_same cp id _ E) as Hli.
  all: update inc (<[id := mkPhase true true]> env) id [GenerateEvent (CustomProtoOut.CustomProtocolOpen version id pt) : BehaviourAction] ({[id]} ∪ O).
Qed.

(** An event that changes no peer. *)
Lemma push_ok inc env outs cp id e : inv inc env outs cp -> about id e -> command_of id e = None -> enables id e = false ->
  (forall O, (forall id, peer_inv env outs O cp id) -> api_step O e = Some O) -> inv inc env outs (push cp e).
Proof.
  intros Hi Ha Hc He Hapi. operation Hi id.
  eapply (inv_update inc env outs cp inc env _ id [e] O O Hps HO); [done|frame..| |].
  - cbn [api_replay]. by rewrite Hapi.
  - cbn. by rewrite Hc, He, orb_false_r.
Qed.

Lemma set_peerset_ok inc env outs cp ps : inv inc env outs cp ->
  psync inc (view cp) ps (cp_incoming cp) (next_incoming_index cp) -> inv inc env outs (set_peerset ps cp).
Proof. intros [_ Ha] Hs. by split. Qed.

Lemma inject_node_event_ok inc env outs cp id event p p' : inv inc env outs cp -> quiet (peerset cp) -> id ∈ U ->
  env !! id = Some p -> observe p (Reported event) = Some p' ->
  exists cp', inject_node_event id event cp = Ok cp' /\ inv inc (<[id := p']> env) outs cp' /\ quiet (peerset cp').
Proof.
  intros Hi Hq HidU Hp Ho.
  destruct event as [version|reason|m|ms|[] err]; cbn [observe inject_node_event] in *.
  - destruct (was_enabled p) eqn:Hen, (is_opened p) eqn:Hop; simplify_eq/=.
    destruct (on_handler_open_ok inc env outs cp id version p) as [? Hps]; [done..|]. eexists. split_and!; [done..|]. by rewrite Hps.
  - destruct (is_opened p) eqn:Hop; simplify_eq/=. by apply on_handler_closed_ok.
  - destruct (is_opened p) eqn:Hop; simplify_eq/=. rewrite insert_id by done. pose proof Hi as [_ (O & HO & Hps)].
    destruct (enabled_phase _ _ _ _ _ _ (Hps id) Hp) as (Ha & _ & _); [by rewrite Hop, orb_true_r|].
    rewrite (peer_inv_is_open _ _ _ _ _ (Hps id)), Ha, Hop. cbn [rassert]. rstep. eexists. split_and!; [done| |done].
    apply (push_ok inc env outs cp id); try done. intros O' Hps'. cbn.
    by rewrite <-(peer_inv_is_open _ _ _ _ _ (Hps' id)), (peer_inv_is_open _ _ _ _ _ (Hps id)), Ha, Hop.
  - destruct (is_opened p) eqn:Hop; simplify_eq/=. rewrite insert_id by done. pose proof Hi as [_ (O & HO & Hps)].
    destruct (enabled_phase _ _ _ _ _ _ (Hps id) Hp) as (Ha & _ & _); [by rewrite Hop, orb_true_r|].
    rewrite (peer_inv_is_open _ _ _ _ _ (Hps id)), Ha, Hop. cbn [rassert]. rstep. eexists. split_and!; [done| |done].
    apply (push_ok inc env outs cp id); try done. intros O' Hps'. cbn.
    by rewrite <-(peer_inv_is_open _ _ _ _ _ (Hps' id)), (peer_inv_is_open _ _ _ _ _ (Hps id)), Ha, Hop.
  - simplify_eq. rewrite insert_id by done. apply disconnect_peer_inner_ok; [|done].
    apply set_peerset_ok; [done|]. apply psync_send_action; [apply Hi|]. cbn. set_solver.
  - simplify_eq. rewrite insert_id by done. by exists cp.
Qed.

Lemma send_packet_ok inc env outs cp id message : inv inc env outs cp -> inv inc env outs (send_packet id message cp).
Proof. intros Hi. unfold send_packet. destruct (is_open cp id); [|done]. by apply (push_ok inc env outs cp id). Qed.

(** *** The messages of the manager *)

(** The behaviour before the manager handed out [m]. *)
Definition before (m : Peerset.Message PeerId) cp : CustomProto := set_peerset (unpop m (peerset cp)) cp.

Lemma before_inv inc env outs m cp : inv inc env outs (before m cp) ->
  psync inc (view cp) (unpop m (peerset cp)) (cp_incoming cp) (next_incoming_index cp) /\
  exists O, api_replay ∅ (outs ++ cp_events cp) = Some O /\ forall id, peer_inv env outs O cp id.
Proof. by intros [? ?]. Qed.

Lemma report_connect_ok inc env outs cp id : inv inc env outs (before (Connect id) cp) ->
  inv inc env outs (peerset_report_connect id cp) /\
  (peerset (peerset_report_connect id cp) = peerset cp \/ peerset (peerset_report_connect id cp) = tick_ps (peerset cp)) /\
  length (cp_incoming (peerset_report_connect id cp)) = length (cp_incoming cp).
Proof.
  intros [[Hv Hs]%psync_connect (O & HO & Hps)]%before_inv. pose proof (Hps id) as Hid. unfold peer_inv in Hid.
  unfold peerset_report_connect. pose proof (linked_view cp id) as Hlk.
  destruct (cp_peers cp !! id) as [[|u|t| |pt o bu|pt o t|pt o|pt]|] eqn:E; cbn [peer_ok] in Hid.
  all: try done.
  all: try (destruct Hv; by eapply Hlk).
  - destruct Hid as (? & ? & ?). destruct (bool_decide (u > now cp)%Z); (split; [|split; [by right|done]]).
    + update inc env id (@nil BehaviourAction) O.
    + update inc env id [DialPeer id] O.
  - destruct Hid as ([en ?] & ? & ? & ?). destruct bu as [banned|]; [destruct (bool_decide (banned > now cp)%Z)|].
    + split; [|split; [by right|done]]. update inc env id (@nil BehaviourAction) O.
    + split; [|split; [by right|done]]. update inc env id [SendEvent id Enable] O.
    + split; [|split; [by left|done]]. update inc env id [SendEvent id Enable] O.
  - destruct Hid as (? & Hw & ? & ?). destruct (waiting_single id _ (sy_single _ _ _ _ _ Hs) Hw) as (e & He & Hei & Hea).
    rewrite He, (mark_dead_single id e) by auto. rewrite He in Hs. apply psync_dead in Hs.
    split; [|split; [by left|done]]. update inc env id [SendEvent id Enable] O.
    intros x Hx. cbn. by rewrite He, is_waiting_dead, (is_waiting_other x id e).
  - destruct Hid as (? & ? & ?). split; [|split; [by left|done]]. update inc env id [DialPeer id] O.
Qed.

Lemma report_disconnect_ok inc env outs cp id : inv inc env outs (before (Drop id) cp) ->
  inv inc env outs (peerset_report_disconnect id cp) /\ peerset (peerset_report_disconnect id cp) = peerset cp /\
  cp_incoming (peerset_report_disconnect id cp) = cp_incoming cp.
Proof.
  intros [[Hv Hs]%psync_drop (O & HO & Hps)]%before_inv. pose proof (Hps id) as Hid. unfold peer_inv in Hid.
  unfold peerset_report_disconnect. apply elem_of_linked_peers in Hv as (st & E & Hl). rewrite E in *.
  destruct st as [|u|t| |pt o bu|pt o t|pt o|pt]; try done; cbn [peer_ok] in Hid; (split; [|done]).
  - destruct Hid as (? & ? & ?). update inc env id (@nil BehaviourAction) O.
  - destruct Hid as (? & ? & ?). update inc env id (@nil BehaviourAction) O.
  - destruct Hid as ([en ?] & ? & ? & ?). update inc env id (@nil BehaviourAction) O.
  - destruct Hid as ([en ?] & ? & ? & ?). update inc env id [SendEvent id Disable] O.
Qed.

Lemma take_incoming_single e : take_incoming (incoming_id e) [e] = Some (e, []).
Proof. simpl. by rewrite bool_decide_eq_true_2. Qed.

Lemma waiting_incoming env outs O cp e : peer_inv env outs O cp (inc_peer_id e) -> cp_incoming cp = [e] -> alive e = true ->
  exists pt, cp_peers cp !! inc_peer_id e = Some (Incoming pt) /\ env !! inc_peer_id e = Some (mkPhase false false) /\
    bool_decide (inc_peer_id e ∈ O) = false.
Proof.
  unfold peer_inv. intros Hid He Ha. rewrite He in Hid.
  assert (is_waiting (inc_peer_id e) [e] = true) as Hw by (unfold is_waiting, alive_entry; simpl; self; by rewrite Ha).
  rewrite Hw in Hid. destruct (cp_peers cp !! inc_peer_id e) as [[]|]; cbn in Hid; naive_solver.
Qed.

Lemma dead_not_waiting x e : alive e = false -> is_waiting x [e] = false.
Proof. intros Ha. unfold is_waiting, alive_entry. simpl. by rewrite Ha, andb_false_r. Qed.

Lemma report_accept_ok inc env outs cp i : inv inc env outs (before (Accept i) cp) ->
  quiet (unpop (Accept i) (peerset cp)) \/ cp_incoming cp = [] ->
  exists cp', peerset_report_accept i cp = Ok cp' /\ inv inc env outs cp' /\ quiet (peerset cp') /\
    rx (peerset cp') = rx (peerset cp) /\ cp_incoming cp' = [] /\ length (cp_incoming cp) = 1 /\
    next_incoming_index cp' = next_incoming_index cp.
Proof.
  intros [(e & He & <- & Hv & Hs)%psync_accept (O & HO & Hps)]%before_inv Hq.
  assert (quiet (peerset cp)) as Hq'.
  { destruct Hq as [Hq|Hq]; [|by rewrite He in Hq]. unfold quiet in Hq. cbn in Hq. by apply Forall_cons in Hq as [_ ?]. }
  unfold peerset_report_accept. rewrite He, take_incoming_single. destruct (alive e) eqn:Ha; cbn [negb].
  - destruct (waiting_incoming env outs O cp e (Hps _) He Ha) as (pt & E & Henv & Hapi).
    cbn [cp_peers set_incoming]. rewrite E. eexists. split; [reflexivity|]. split_and!; try done.
    update inc env (inc_peer_id e) [SendEvent (inc_peer_id e) Enable] O.
    intros x Hx. cbn. by rewrite He, (is_waiting_other x (inc_peer_id e) e).
  - destruct (psm_dropped_ok inc _ (set_incoming [] cp) (inc_peer_id e) Hs Hq') as (ps & E & Hs' & Hq''); [set_solver|].
    rewrite E. eexists. split; [reflexivity|]. split_and!; try done.
    + update inc env (inc_peer_id e) (@nil BehaviourAction) O.
      * replace (({[inc_peer_id e]} ∪ view cp) ∖ {[inc_peer_id e]}) with (view cp) in Hs' by set_solver. done.
      * intros x Hx. cbn. by rewrite He, dead_not_waiting.
      * pose proof (Hps (inc_peer_id e)) as Hid. unfold peer_inv in Hid. rewrite He, dead_not_waiting in Hid by done.
        cbn. by rewrite orb_false_r.
    + unfold psm_dropped in E. destruct (dropped clock _ _) eqn:Ed; simplify_eq/=.
      destruct (dropped_ok clock clock_mono U HU (fun i => inc !! i) _ (inc_peer_id e) (sy_pwf _ _ _ _ _ Hs)) as (ps' & ms & Ed' & _ & Hr & _).
      congruence.
Qed.

Lemma report_reject_ok inc env outs cp i : inv inc env outs (before (Reject i) cp) ->
  inv inc env outs (peerset_report_reject i cp) /\ peerset (peerset_report_reject i cp) = peerset cp /\
  cp_incoming (peerset_report_reject i cp) = [] /\ length (cp_incoming cp) = 1 /\
  next_incoming_index (peerset_report_reject i cp) = next_incoming_index cp.
Proof.
  intros [(e & He & <- & Hs)%psync_reject (O & HO & Hps)]%before_inv.
  unfold peerset_report_reject. rewrite He, take_incoming_single. destruct (alive e) eqn:Ha; cbn [negb].
  - destruct (waiting_incoming env outs O cp e (Hps _) He Ha) as (pt & E & Henv & Hapi).
    cbn [cp_peers set_incoming]. rewrite E. split_and!; try done. pose proof (unlinked_same cp _ _ E) as Hun.
    update inc env (inc_peer_id e) [SendEvent (inc_peer_id e) Disable] O.
    intros x Hx. cbn. by rewrite He, (is_waiting_other x (inc_peer_id e) e).
  - split_and!; try done. update inc env (inc_peer_id e) (@nil BehaviourAction) O.
    * intros x Hx. cbn. by rewrite He, dead_not_waiting.
    * pose proof (Hps (inc_peer_id e)) as Hid. unfold peer_inv in Hid. rewrite He, dead_not_waiting in Hid by done.
      cbn. by rewrite orb_false_r.
Qed.

Lemma quiet_unpop m ps : quiet (unpop m ps) -> quiet ps.
Proof. unfold quiet. cbn. by intros [_ ?]%Forall_cons. Qed.

Definition calm cp : Prop := quiet (peerset cp) \/ cp_incoming cp = [].

Lemma handle_message_ok inc env outs m cp : inv inc env outs (before m cp) -> calm (before m cp) ->
  exists cp', handle_message m cp = Ok cp' /\ inv inc env outs cp' /\ calm cp' /\
    next_incoming_index cp' = next_incoming_index cp /\ rx (peerset cp') = rx (peerset cp) /\
    (length (cp_incoming cp') < length (cp_incoming cp) \/
     (length (cp_incoming cp') = length (cp_incoming cp) /\ message_queue (peerset cp') = message_queue (peerset cp))).
Proof.
  intros Hi Hc. destruct m as [id|id|i|i]; cbn [handle_message].
  - destruct (report_connect_ok inc env outs cp id Hi) as (Hi' & Hps & Hlen). eexists. split; [done|]. split_and!; [done|..].
    + destruct Hc as [Hq|Hq]; [left|right]; [|apply length_zero_iff_nil; rewrite Hlen; cbn in Hq; by rewrite Hq].
      apply quiet_unpop in Hq. by destruct Hps as [-> | ->].
    + unfold peerset_report_connect. by repeat case_match.
    + by destruct Hps as [-> | ->].
    + right. split; [done|]. by destruct Hps as [-> | ->].
  - destruct (report_disconnect_ok inc env outs cp id Hi) as (Hi' & Hps & Hinc). eexists. split; [done|]. rewrite Hps, Hinc.
    split_and!; [done|..|done|by right].
    + unfold calm. rewrite Hps, Hinc. destruct Hc as [Hq%quiet_unpop|]; [by left|by right].
    + unfold peerset_report_disconnect. by repeat case_match.
  - destruct (report_accept_ok inc env outs cp i Hi Hc) as (cp' & E & Hi' & Hq & Hrx & Hinc & Hlen & Hn).
    exists cp'. split_and!; try done; [by left|]. left. rewrite Hinc, Hlen. simpl. lia.
  - destruct (report_reject_ok inc env outs cp i Hi) as (Hi' & Hps & Hinc & Hlen & Hn). eexists. split; [done|].
    rewrite Hps, Hinc, Hlen. split_and!; try done; [by right|]. left. simpl. lia.
Qed.

Lemma poll_peerset_ends inc env outs cp : inv inc env outs cp -> calm cp ->
  exists N cp', (forall fuel, N <= fuel -> poll_peerset fuel cp = Ok cp') /\ inv inc env outs cp' /\
    message_queue (peerset cp') = [] /\ cp_incoming cp' = [] /\ next_incoming_index cp' = next_incoming_index cp.
Proof.
  remember (length (rx (peerset cp)) + length (cp_incoming cp)) as k eqn:Hk.
  revert cp Hk. induction k as [k IHk] using lt_wf_ind. intros cp. remember (length (message_queue (peerset cp))) as q eqn:Hq.
  revert cp Hq. induction q as [q IHq] using lt_wf_ind. intros cp Hq Hk Hi Hc.
  destruct (psync_poll_next inc (view cp) (peerset cp) (cp_incoming cp) _ (iv_sync _ _ _ _ Hi) Hc) as (o & ps & Ep & Ho).
  destruct o as [m|].
  - destruct Ho as (Hs & Hc' & Hm).
    destruct (handle_message_ok inc env outs m (set_peerset ps cp)) as (cp1 & Eh & Hi1 & Hc1 & Hn1 & Hrx & Hm1).
    { by apply (set_peerset_ok inc env outs cp (unpop m ps)). } { done. }
    cbn [peerset cp_incoming set_peerset next_incoming_index] in *.
    assert (exists N cp', (forall fuel, N <= fuel -> poll_peerset fuel cp1 = Ok cp') /\ inv inc env outs cp' /\
      message_queue (peerset cp') = [] /\ cp_incoming cp' = [] /\ next_incoming_index cp' = next_incoming_index cp1)
      as (N & cp' & HN & Hi' & Hq' & Hc'' & Hn').
    { destruct Hm1 as [Hlt|[Heq Hqq]]; [eapply (IHk _); [|reflexivity|done..]; rewrite Hrx; lia|].
      destruct Hm as [Hlt|[Hr Hql]]; [eapply (IHk _); [|reflexivity|done..]; rewrite Hrx; lia|].
      eapply (IHq _); [|reflexivity| |done..]; [rewrite Hqq; lia|rewrite Hrx; lia]. }
    exists (S N), cp'. split_and!; try done; [|congruence]. intros [|fuel] Hf; [lia|]. cbn [poll_peerset].
    rewrite Ep. rstep. rewrite Eh. rstep. apply HN. lia.
  - destruct Ho as (Hs & Hq' & Hinc). exists 1, (set_peerset ps cp). split_and!; try done.
    + intros [|fuel] Hf; [lia|]. cbn [poll_peerset]. by rewrite Ep.
    + apply set_peerset_ok; [done|]. by rewrite Hinc.
Qed.

(** *** Timers and events *)

Lemma poll_timer_ok inc env outs cp fired id st : inv inc env outs cp -> cp_peers cp !! id = Some st ->
  inv inc env outs (poll_timer fired cp (id, st)) /\ peerset (poll_timer fired cp (id, st)) = peerset cp /\
  cp_incoming (poll_timer fired cp (id, st)) = cp_incoming cp /\
  next_incoming_index (poll_timer fired cp (id, st)) = next_incoming_index cp /\
  forall x, x <> id -> cp_peers (poll_timer fired cp (id, st)) !! x = cp_peers cp !! x.
Proof.
  intros Hi E. operation Hi id. rewrite E in Hid. pose proof (linked_same cp id st E) as Hli.
  destruct st as [|u|t| |pt o bu|pt o t|pt o|pt]; cbn [poll_timer]; try done; destruct (fired id); try done; cbn [peer_ok] in Hid.
  - destruct Hid as (? & ? & ?). split_and!; try done; [|by intros; cbn; rewrite lookup_insert_ne].
    update inc env id [DialPeer id] O.
  - destruct Hid as ([en ?] & ? & ? & ?). split_and!; try done; [|by intros; cbn; rewrite lookup_insert_ne].
    update inc env id [SendEvent id Enable] O.
Qed.

Lemma poll_timers_ok inc env outs cp fired : inv inc env outs cp ->
  inv inc env outs (poll_timers fired cp) /\ peerset (poll_timers fired cp) = peerset cp /\
  cp_incoming (poll_timers fired cp) = cp_incoming cp /\ next_incoming_index (poll_timers fired cp) = next_incoming_index cp.
Proof.
  unfold poll_timers. pose proof (NoDup_hm_iter_fst (cp_peers cp)) as Hnd.
  assert (forall id st, (id, st) ∈ hm_iter (cp_peers cp) -> cp_peers cp !! id = Some st) as Hl by (intros id st; by rewrite elem_of_hm_iter).
  revert Hnd Hl. generalize (hm_iter (cp_peers cp)). intros l. revert cp.
  induction l as [|[id st] l IH]; intros cp Hnd Hl Hi; cbn [fold_left]; [done|].
  apply NoDup_cons in Hnd as [Hid Hnd].
  destruct (poll_timer_ok inc env outs cp fired id st Hi) as (Hi' & Hps & Hinc & Hn & Hx); [apply Hl; left|].
  destruct (IH (poll_timer fired cp (id, st)) Hnd) as (? & -> & -> & ->); try done.
  intros x st' Hin. rewrite Hx; [apply Hl; by right|]. intros ->. apply Hid. apply list_elem_of_fmap. by exists (id, st').
Qed.

Lemma peer_ok_weaken st ph w cmd api enq enq' :
  peer_ok st ph w cmd api enq -> (enq = false -> enq' = false) -> peer_ok st ph w cmd api enq'.
Proof. destruct st as [[]|]; cbn; naive_solver. Qed.

Lemma pop_event_ok inc env outs cp o cp' fired : inv inc env outs cp -> pop_event cp = (o, cp') ->
  inv inc (env_step (IPoll fired) o env) (outs ++ option_list o) cp'.
Proof.
  intros [Hs (O & HO & Hps)] Hpop. unfold pop_event in Hpop. destruct (cp_events cp) as [|e q] eqn:Eq; simplify_eq/=.
  { rewrite app_nil_r. split; [done|]. exists O. by rewrite Eq. }
  assert (forall x ph, (ph = env !! x \/ exists p m, e = SendEvent x m /\ env !! x = Some p /\ ph = observe p (Told m)) ->
    peer_ok (cp_peers cp !! x) ph (is_waiting x (cp_incoming cp)) (last_command x ((outs ++ [e]) ++ q) None)
      (bool_decide (x ∈ O)) (existsb (enables x) q)) as Hpeer.
  { intros x ph Hph. pose proof (Hps x) as Hx. unfold peer_inv in Hx. rewrite Eq in Hx. rewrite <-(assoc_L (++)). cbn [app].
    destruct Hph as [-> | (p & m & -> & Hp & ->)].
    - eapply peer_ok_weaken; [exact Hx|]. simpl. by intros [_ ?]%orb_false_iff.
    - rewrite Hp in Hx. destruct m as [| |data]; cbn [observe].
      + destruct (cp_peers cp !! x) as [[]|]; cbn in Hx |- *; self; try naive_solver. destruct Hx as (_ & _ & _ & Hx).
        rewrite bool_decide_eq_true_2 in Hx by done. done.
      + eapply peer_ok_weaken; [exact Hx|done].
      + eapply peer_ok_weaken; [exact Hx|done]. }
  assert (forall env', (forall x, env' !! x = env !! x \/ exists p m, e = SendEvent x m /\ env !! x = Some p /\ env' !! x = observe p (Told m)) ->
    inv inc env' (outs ++ [e]) (mkCustomProto (cp_protocol cp) (peerset cp) (cp_peers cp) (cp_incoming cp) (next_incoming_index cp) q)) as Hinv.
  { intros env' Henv. split; [done|]. exists O. cbn [cp_events]. rewrite <-(assoc_L (++)). split; [done|].
    intros x. apply Hpeer. apply Henv. }
  destruct e as [id|id m|ev]; cbn [env_step]; [apply Hinv; by left| |apply Hinv; by left].
  apply Hinv. intros x. unfold observed. destruct (env !! id) as [p|] eqn:Ep; [|by left].
  assert (exists p', observe p (Told m) = Some p') as [p' Ep'] by (destruct m; cbn; eauto). rewrite Ep'.
  destruct (decide (x = id)) as [->|Hx].
  - right. exists p, m. by rewrite lookup_insert_eq.
  - left. by rewrite lookup_insert_ne.
Qed.

(** *** Runs *)

Lemma cp_poll_ok inc env outs cp fired : inv inc env outs cp -> calm cp ->
  exists N o cp', (forall fuel, N <= fuel -> cp_poll fuel fired cp = Ok (o, cp')) /\
    inv inc (env_step (IPoll fired) o env) (outs ++ option_list o) cp' /\
    message_queue (peerset cp') = [] /\ cp_incoming cp' = [] /\ next_incoming_index cp' = next_incoming_index cp.
Proof.
  intros Hi Hc. destruct (poll_peerset_ends inc env outs cp Hi Hc) as (N & cp1 & HN & Hi1 & Hq1 & Hinc1 & Hn1).
  destruct (poll_timers_ok inc env outs cp1 fired Hi1) as (Hi2 & Hps & Hinc & Hn).
  destruct (pop_event (poll_timers fired cp1)) as [o cp'] eqn:Ep. exists N, o, cp'. split_and!.
  - intros fuel Hf. unfold cp_poll. rewrite (HN fuel Hf). rstep. by rewrite Ep.
  - by eapply pop_event_ok.
  - unfold pop_event in Ep. destruct (cp_events _); simplify_eq/=; by rewrite Hps.
  - unfold pop_event in Ep. destruct (cp_events _); simplify_eq/=; by rewrite Hinc.
  - unfold pop_event in Ep. destruct (cp_events _); simplify_eq/=; by rewrite Hn.
Qed.

(** A state between two inputs. *)
Definition good inc env outs cp : Prop := inv inc env outs cp /\ quiet (peerset cp).

Lemma psm_dropped_index id cp cp' : psm_dropped id cp = Ok cp' -> next_incoming_index cp' = next_incoming_index cp.
Proof. unfold psm_dropped. intros (ps & _ & [= <-])%bind_Ok. done. Qed.

Ltac same_index := intros; repeat (simplify_eq/= || case_match || inv_ok);
  repeat match goal with E : psm_dropped _ _ = Ok _ |- _ => apply psm_dropped_index in E; simpl in E end; simpl; congruence.

Lemma disconnect_peer_inner_index id ban cp cp' :
  disconnect_peer_inner id ban cp = Ok cp' -> next_incoming_index cp' = next_incoming_index cp.
Proof. unfold disconnect_peer_inner. same_index. Qed.

Lemma inject_disconnected_index id d cp cp' :
  inject_disconnected id d cp = Ok cp' -> next_incoming_index cp' = next_incoming_index cp.
Proof. unfold inject_disconnected, closed_by_libp2p. same_index. Qed.

Lemma inject_dial_failure_index id cp cp' :
  inject_dial_failure id cp = Ok cp' -> next_incoming_index cp' = next_incoming_index cp.
Proof. unfold inject_dial_failure. same_index. Qed.

Lemma inject_node_event_index id e cp cp' :
  inject_node_event id e cp = Ok cp' -> next_incoming_index cp' = next_incoming_index cp.
Proof.
  destruct e as [v|r|m|ms|[] e]; cbn [inject_node_event].
  5: by intros E%disconnect_peer_inner_index.
  all: unfold on_handler_open, on_handler_closed; same_index.
Qed.

Lemma cp_step_ok inc env outs cp i : good inc env outs cp -> timely i cp = true -> allowed i env = true ->
  input_ids i ⊆ U -> (next_incoming_index cp < u64_max)%Z ->
  exists N out cp' inc', (forall fuel, N <= fuel -> cp_step fuel i cp = Ok (out, cp')) /\
    good inc' (env_step i out env) (outs ++ option_list out) cp' /\
    (next_incoming_index cp' <= next_incoming_index cp + 1)%Z /\
    (forall fired, i = IPoll fired -> message_queue (peerset cp') = [] /\ cp_incoming cp' = []).
Proof.
  intros [Hi Hq] Ht Ha HU' Hn.
  assert (forall cp' inc', (forall fuel, cp_step fuel i cp = Ok (None, cp')) -> inv inc' (env_step i None env) outs cp' -> quiet (peerset cp') ->
    (next_incoming_index cp' <= next_incoming_index cp + 1)%Z -> (forall fired, i <> IPoll fired) ->
    exists N out cp' inc', (forall fuel, N <= fuel -> cp_step fuel i cp = Ok (out, cp')) /\
    good inc' (env_step i out env) (outs ++ option_list out) cp' /\
    (next_incoming_index cp' <= next_incoming_index cp + 1)%Z /\
    (forall fired, i = IPoll fired -> message_queue (peerset cp') = [] /\ cp_incoming cp' = [])) as Hdone.
  { intros cp' inc' Hstep Hi' Hq' Hn' Hnp. exists 0, None, cp', inc'. split_and!; [done| |done|].
    - split; [|done]. by rewrite app_nil_r.
    - intros fired E. by destruct (Hnp fired E). }
  destruct i as [id pt|id d|id|id e|id|id m|ids|a|fired]; cbn [timely allowed env_step cp_step input_ids] in *.
  - apply bool_decide_eq_true in Ha.
    destruct (inject_connected_ok inc env outs cp id pt Hi Hq Ha Ht) as (inc' & cp' & E & ? & ? & ?); [set_solver|done|].
    eapply (Hdone cp' inc'); try done. intros _. by rewrite E.
  - apply andb_true_iff in Ha as [Hc _]. apply bool_decide_eq_true in Hc.
    destruct (inject_disconnected_ok inc env outs cp id d Hi Hq Hc) as (cp' & E & ? & ?).
    eapply (Hdone cp' inc); try done; [intros _; by rewrite E|]. apply inject_disconnected_index in E. lia.
  - destruct (inject_dial_failure_ok inc env outs cp id Hi Hq) as (cp' & E & ? & ?).
    eapply (Hdone cp' inc); try done; [intros _; by rewrite E|]. apply inject_dial_failure_index in E. lia.
  - destruct (env !! id) as [p|] eqn:Ep; [|done]. destruct (observe p (Reported e)) as [p'|] eqn:Eo; [|done].
    destruct (inject_node_event_ok inc env outs cp id e p p' Hi Hq) as (cp' & E & ? & ?); [set_solver|done..|].
    eapply (Hdone cp' inc); try done; [intros _; by rewrite E|unfold observed; by rewrite Ep, Eo|].
    apply inject_node_event_index in E. lia.
  - destruct (disconnect_peer_inner_ok inc env outs cp id None Hi Hq) as (cp' & E & ? & ?).
    eapply (Hdone cp' inc); try done; [intros _; unfold disconnect_peer; by rewrite E|]. apply disconnect_peer_inner_index in E. lia.
  - eapply (Hdone (send_packet id m cp) inc); try done; [by apply send_packet_ok|unfold send_packet; by destruct (is_open cp id)|].
    unfold send_packet. destruct (is_open cp id); simpl; lia.
  - destruct (psync_discovered inc (view cp) _ _ _ ids (iv_sync _ _ _ _ Hi) Hq) as (ps & E & ? & ?); [set_solver|].
    eapply (Hdone (set_peerset ps cp) inc); try done; [|by apply set_peerset_ok|simpl; lia].
    intros _. unfold add_discovered_nodes. by rewrite E.
  - eapply (Hdone (set_peerset (send_action (peerset cp) a) cp) inc); try done; [|simpl; lia].
    apply set_peerset_ok; [done|]. apply psync_send_action; [apply Hi|done].
  - destruct (cp_poll_ok inc env outs cp fired Hi (or_introl Hq)) as (N & o & cp' & HN & Hi' & Hq' & Hinc' & Hn').
    exists N, o, cp', inc. split_and!; try done; [split; [done|]; unfold quiet; by rewrite Hq'|lia].
Qed.

(** What holds at the end of a run. *)
Definition outcome (inputs : list input) (outs0 : list BehaviourAction) (r : res (list BehaviourAction * CustomProto * connections)) : Prop :=
  match r with
  | Ok (outs, cp, env) => exists inc, good inc env (outs0 ++ outs) cp /\
      (forall l fired, inputs = l ++ [IPoll fired] -> message_queue (peerset cp) = [] /\ cp_incoming cp = [])
  | Err _ => True
  | Panic _ => False
  end.

Lemma cp_run_ok inputs inc env outs0 cp : good inc env outs0 cp -> Forall (fun i => input_ids i ⊆ U) inputs ->
  (next_incoming_index cp + Z.of_nat (length inputs) <= u64_max)%Z ->
  exists N, forall fuel, N <= fuel -> outcome inputs outs0 (cp_run timely fuel inputs cp env).
Proof.
  revert inc env outs0 cp. induction inputs as [|i inputs IH]; intros inc env outs0 cp Hg HU' Hn; cbn [cp_run].
  { exists 0. intros _ _. exists inc. rewrite app_nil_r. split; [done|]. by intros [] ?. }
  apply Forall_cons in HU' as [HU1 HU2]. cbn [length] in Hn.
  destruct (timely i cp && allowed i env) eqn:Hok; [|by exists 0]. apply andb_true_iff in Hok as [Ht Ha].
  destruct (cp_step_ok inc env outs0 cp i Hg Ht Ha HU1) as (N1 & out & cp' & inc' & HN1 & Hg' & Hn' & Hpoll); [lia|].
  destruct (IH inc' (env_step i out env) (outs0 ++ option_list out) cp' Hg' HU2) as (N2 & HN2); [lia|].
  exists (N1 `max` N2). intros fuel Hf. cbn [ensure]. rstep. rewrite HN1 by lia. rstep. specialize (HN2 fuel ltac:(lia)).
  destruct (cp_run timely fuel inputs cp' (env_step i out env)) as [[[outs cp''] env'']|e|e] eqn:Er; rstep; try done.
  destruct HN2 as (inc'' & Hg'' & Hlast). exists inc''. rewrite (assoc_L (++)). split; [done|]. intros l fired Hl.
  destruct l as [|i' l]; simplify_eq/=; [|by eapply Hlast]. by eapply Hpoll.
Qed.

(** A behaviour over a new manager. *)
Definition start (protocol : bytes) (versions : list Z) (cfg : PeersetConfig PeerId) : res CustomProto :=
  ps ← from_config clock cfg; Ok (CustomProto_new protocol versions ps).

Lemma start_ok protocol versions cfg : in_u32 (in_peers cfg) -> in_u32 (out_peers cfg) ->
  list_to_set (reserved_nodes cfg) ⊆ U -> list_to_set (bootnodes cfg) ⊆ U ->
  exists cp, start protocol versions cfg = Ok cp /\ good ∅ ∅ [] cp /\ next_incoming_index cp = 0%Z.
Proof.
  intros Hin Hout Hr Hb. unfold start.
  destruct (from_config_ok clock clock_mono U HU (fun i => (∅ : gmap IncomingIndex PeerId) !! i) cfg Hin Hout Hr Hb)
    as (ps & E & Hp & Hrx & Hl & _).
  assert (connects (message_queue ps)) as Hc.
  { unfold from_config in E. apply bind_Ok in E as (d & _ & (ms & Hq & Hc)%alloc_slots_connects'). cbn in Hq. by rewrite Hq. }
  rewrite E. rstep. eexists. split; [done|]. split; [|done]. split; [|by apply connects_quiet]. split.
  - split; cbn; try done.
    + by rewrite Hrx.
    + by apply connects_answers.
    + lia.
  - exists ∅. split; [done|]. intros id. unfold peer_inv. cbn. by rewrite !lookup_empty.
Qed.

(** [P] holds after the inputs [inputs], unless the environment broke its contract; nothing panics and the
    polls end. *)
Definition after_inputs protocol versions cfg (inputs : list input)
  (P : list BehaviourAction -> CustomProto -> connections -> Prop) : Prop :=
  exists N, forall fuel, N <= fuel -> exists cp0, start protocol versions cfg = Ok cp0 /\
    match cp_run timely fuel inputs cp0 ∅ with Ok (outs, cp, env) => P outs cp env | Err _ => True | Panic _ => False end.

Lemma after_inputs_intro protocol versions cfg inputs P :
  in_u32 (in_peers cfg) -> in_u32 (out_peers cfg) ->
  list_to_set (reserved_nodes cfg) ⊆ U -> list_to_set (bootnodes cfg) ⊆ U ->
  Forall (fun i => input_ids i ⊆ U) inputs -> (Z.of_nat (length inputs) <= u64_max)%Z ->
  (forall inc outs cp env, good inc env outs cp ->
     (forall l fired, inputs = l ++ [IPoll fired] -> message_queue (peerset cp) = [] /\ cp_incoming cp = []) -> P outs cp env) ->
  after_inputs protocol versions cfg inputs P.
Proof.
  intros Hin Hout Hr Hb Hids Hlen HP. destruct (start_ok protocol versions cfg Hin Hout Hr Hb) as (cp0 & E & Hg & Hn).
  destruct (cp_run_ok inputs ∅ ∅ [] cp0 Hg Hids) as (N & HN); [lia|]. exists N. intros fuel Hf. exists cp0. split; [done|].
  specialize (HN fuel Hf). destruct (cp_run timely fuel inputs cp0 ∅) as [[[outs cp] env]|e|e]; [|done..].
  destruct HN as (inc & Hg' & Hlast). by apply (HP inc).
Qed.

Section properties.
Context (protocol : bytes) (versions : list Z) (cfg : PeersetConfig PeerId) (inputs : list input).
Context (Hin : in_u32 (in_peers cfg)) (Hout : in_u32 (out_peers cfg)).
Context (Hres : list_to_set (reserved_nodes cfg) ⊆ U) (Hboot : list_to_set (bootnodes cfg) ⊆ U).
Context (Hids : Forall (fun i => input_ids i ⊆ U) inputs) (Hlen : (Z.of_nat (length inputs) <= u64_max)%Z).



End properties.
End behaviour.

(** ** A lost link *)

#[global] Arguments ConnectedPoint Multiaddr : clear implicits.
#[global] Arguments input PeerId {_ _} Multiaddr.
#[global] Arguments CustomProto PeerId {_ _} Multiaddr.

Definition remote : ConnectedPoint string := PointListener "local" "remote".
Definition no_timer (_ : nat) : bool := false.

(** One incoming slot.  Peer 2 takes it, peer 1 is refused and leaves, peer 2 leaves, and peer 1 comes back
    and leaves again before the behaviour is polled; then peer 3 comes. *)
Definition lossy_config : PeersetConfig nat := mkPeersetConfig 1 0 [] false [].
Definition lossy_inputs : list (input nat string) :=
  [IConnected 2 remote; IPoll no_timer;
   IConnected 1 remote; IDisconnected 1 5; IDisconnected 2 5; IConnected 1 remote; IDisconnected 1 5;
   IPoll no_timer; IConnected 3 remote; IPoll no_timer].

(** when a peer reconnects before the behaviour is polled, [inject_disconnected] can mark the obsolete
    entry of its first connection instead of that of the second.  The manager's acceptance of the second
    then finds no connection and is ignored, and nobody tells the manager: peer 1 keeps the only incoming
    slot although it is gone, and peer 3 is refused. *)
Theorem reconnection_loses_link :
  let run := cp_start ← start (H0 := canonical_order) demo_clock [] [1%Z] lossy_config;
             cp_run (H0 := canonical_order) demo_clock (fun _ _ => true) 10 lossy_inputs cp_start ∅ in
  exists outs cp env, run = Ok (outs, cp, env) /\
    links (data (peerset cp)) = {[1]} /\ view cp = ∅ /\ cp_peers cp !! 1 = None /\ env !! 1 = None /\
    cp_peers cp !! 3 = Some (Disabled remote false None) /\ cp_incoming cp = [].
Proof.
  cbv zeta. destruct (start _ _ _ _) as [cp0| |] eqn:E; [|by vm_compute in E..]. vm_compute in E. injection E as <-. rstep.
  eexists _, _, _. split; [vm_compute; reflexivity|]. by vm_compute.
Qed.
