(* ===== verification/NetConfig.v ===== *)
(** * Configuration of the network service

    Models [src/network-libp2p/src/config.rs] and the addresses of [lib.rs]: the settings, the node's key, which is
    given, generated or kept in a file, and the text form of the address of a node.  The file system is that of the
    standard library: its files, and the errors that the operating system may answer with.  Keys and multiaddresses
    are libp2p's, and parameters.

    The theorem: a node whose key is in a file keeps its identity from one start to the next. *)
From S2P Require Import Prelude Codec.

(** ** Files *)

(** [std::fs], as far as it is used.  [fs_read_err] and the like are what the operating system refuses; a write stops
    after [fs_room] bytes, if that is less than it has. *)
Record Fs := mkFs {
  fs_files : gmap string bytes;
  fs_read_err : string -> option string;
  fs_dir_err : string -> option string;
  fs_open_err : string -> option string;
  fs_room : string -> option nat
}.
Definition set_files m (fs : Fs) : Fs := mkFs m (fs_read_err fs) (fs_dir_err fs) (fs_open_err fs) (fs_room fs).
Inductive IoError := NotFound | InvalidData (e : string) | AlreadyExists | OtherIo (e : string).
Definition fs_read (path : string) (fs : Fs) : bytes + IoError :=
  match fs_read_err fs path with
  | Some e => inr (OtherIo e)
  | None => match fs_files fs !! path with Some b => inl b | None => inr NotFound end
  end.
Definition create_dir_all (path : string) (fs : Fs) : unit + IoError :=
  match fs_dir_err fs path with Some e => inr (OtherIo e) | None => inl tt end.

(** [open_secret_file] creates the file, which must not exist; [write_secret_file] fills it. *)
Definition open_secret_file (path : string) (fs : Fs) : (unit + IoError) * Fs :=
  match fs_open_err fs path with
  | Some e => (inr (OtherIo e), fs)
  | None =>
      match fs_files fs !! path with
      | Some _ => (inr AlreadyExists, fs)
      | None => (inl tt, set_files (<[path := []]> (fs_files fs)) fs)
      end
  end.
Definition write_secret_file (path : string) (sk_bytes : bytes) (fs : Fs) : (unit + IoError) * Fs :=
  match open_secret_file path fs with
  | (inr e, fs) => (inr e, fs)
  | (inl _, fs) =>
      match fs_room fs path with
      | Some n => if bool_decide (n < length sk_bytes) then (inr (OtherIo "no space"), set_files (<[path := take n sk_bytes]> (fs_files fs)) fs)
                  else (inl tt, set_files (<[path := sk_bytes]> (fs_files fs)) fs)
      | None => (inl tt, set_files (<[path := sk_bytes]> (fs_files fs)) fs)
      end
  end.

(** [get_secret]; [parent] is that of the path. *)
Definition get_secret {K} (file : string) (parent : option string) (parse : bytes -> K + string) (generate : K) (serialize : K -> bytes) (fs : Fs)
    : (K + IoError) * Fs :=
  let r := match fs_read file fs with
           | inl sk_bytes => match parse sk_bytes with inl k => inl k | inr e => inr (InvalidData e) end
           | inr e => inr e
           end in
  match r with
  | inl k => (inl k, fs)
  | inr NotFound =>
      match match parent with Some p => create_dir_all p fs | None => inl tt end with
      | inr e => (inr e, fs)
      | inl _ =>
          let sk := generate in
          match write_secret_file file (serialize sk) fs with
          | (inr e, fs) => (inr e, fs)
          | (inl _, fs) => (inl sk, fs)
          end
      end
  | inr e => (inr e, fs)
  end.

(** ** The node's key *)

Inductive Secret (K : Type) := SecretInput (k : K) | SecretFile (file : string) | SecretNew.
Arguments SecretInput {_}.
Arguments SecretFile {_}.
Arguments SecretNew {_}.

(** libp2p's ed25519 keys: [from_bytes] reads what [as_ref] wrote. *)
Class NodeKeys := {
  SecretKey : Type;
  Keypair : Type;
  keypair_of : SecretKey -> Keypair;
  sk_from_bytes : bytes -> SecretKey + string;
  sk_as_ref : SecretKey -> bytes
}.
Class NodeKeysLaws {NK : NodeKeys} : Prop := sk_roundtrip k : sk_from_bytes (sk_as_ref k) = inl k.

Section keys.
Context {NK : NodeKeys}.
Inductive NodeKeyConfig := KeyEd25519 (secret : Secret SecretKey).
(** [into_keypair]; [generate] is the key that would be generated, [parent] gives the parent of a path. *)
Definition into_keypair (parent : string -> option string) (generate : SecretKey) (c : NodeKeyConfig) (fs : Fs) : (Keypair + IoError) * Fs :=
  match c with
  | KeyEd25519 SecretNew => (inl (keypair_of generate), fs)
  | KeyEd25519 (SecretInput k) => (inl (keypair_of k), fs)
  | KeyEd25519 (SecretFile f) =>
      match get_secret f (parent f) sk_from_bytes generate sk_as_ref fs with
      | (inl k, fs) => (inl (keypair_of k), fs)
      | (inr e, fs) => (inr e, fs)
      end
  end.

Lemma write_secret_file_spec path b fs r fs' : write_secret_file path b fs = (r, fs') ->
  fs_read_err fs' = fs_read_err fs /\ (forall q, q <> path -> fs_files fs' !! q = fs_files fs !! q) /\
  match r with
  | inl _ => fs_files fs !! path = None /\ fs_files fs' !! path = Some b
  | inr _ => fs_files fs' = fs_files fs \/ exists n, n < length b /\ fs_files fs' !! path = Some (take n b)
  end.
Proof.
  unfold write_secret_file, open_secret_file. destruct (fs_open_err fs path); [intros [= <- <-]; eauto|].
  destruct (fs_files fs !! path) eqn:E; [intros [= <- <-]; eauto|]. cbn [fs_room set_files].
  assert (forall b', (forall q, q <> path -> <[path := b']> (<[path := []]> (fs_files fs)) !! q = fs_files fs !! q)) as Hq.
  { intros b' q Hq. by rewrite !lookup_insert_ne. }
  destruct (fs_room fs path) as [n|]; [case_bool_decide|]; intros [= <- <-]; simpl; split_and!; try done; rewrite ?lookup_insert_eq; eauto.
Qed.

Context {NKL : NodeKeysLaws}.
(** C39: a node keeps its identity.  A key file that gave a key pair, by being read or by being created, gives the same
    at the next start, whatever key would be generated then, and is not written again; other files are left alone. *)
Theorem identity_persists parent f generate generate' fs kp fs' :
  into_keypair parent generate (KeyEd25519 (SecretFile f)) fs = (inl kp, fs') ->
  into_keypair parent generate' (KeyEd25519 (SecretFile f)) fs' = (inl kp, fs') /\
  (forall q, q <> f -> fs_files fs' !! q = fs_files fs !! q) /\
  (forall b, fs_files fs !! f = Some b -> fs' = fs) /\
  (fs_files fs !! f = None -> kp = keypair_of generate).
Proof.
  unfold into_keypair, get_secret. destruct (fs_read f fs) as [b|e] eqn:Er.
  - destruct (sk_from_bytes b) as [k|e] eqn:Ek; [|done]. intros [= <- <-]. rewrite Er, Ek. split_and!; try done.
    unfold fs_read in Er. destruct (fs_read_err fs f); [done|]. by intros E; rewrite E in Er.
  - destruct e; try done. destruct (match parent f with Some p => _ | None => _ end); [|done].
    destruct (write_secret_file f (sk_as_ref generate) fs) as [[[]|] fs1] eqn:Ew; [|done]. intros [= <- <-].
    apply write_secret_file_spec in Ew as (Hre & Hq & Hn & Hs). unfold fs_read in Er |- *. rewrite Hre.
    destruct (fs_read_err fs f); [done|]. rewrite Hs, sk_roundtrip. split_and!; [done..| |done]. intros b Hb. by rewrite Hn in Hb.
Qed.
End keys.

(** ** Addresses *)

(** libp2p's [Multiaddr] and [PeerId]: [ma_pop] takes the last protocol off, with its multihash if that is [P2p]. *)
Class Multiaddrs (PeerId Multiaddr : Type) := {
  Multihash : Type;
  ma_parse : string -> Multiaddr + string;
  ma_pop : Multiaddr -> option (option Multihash) * Multiaddr;
  from_multihash : Multihash -> option PeerId
}.
Inductive ParseErr := MultiaddrParse (e : string) | InvalidPeerId | PeerIdMissing.

Section addresses.
Context {PeerId Multiaddr : Type} {MA : Multiaddrs PeerId Multiaddr}.
(** [parse_str_addr] *)
Definition parse_str_addr (addr_str : string) : (PeerId * Multiaddr) + ParseErr :=
  match ma_parse addr_str with
  | inr e => inr (MultiaddrParse e)
  | inl addr =>
      match ma_pop addr with
      | (Some (Some key), addr) => match from_multihash key with Some who => inl (who, addr) | None => inr InvalidPeerId end
      | (_, _) => inr PeerIdMissing
      end
  end.
End addresses.

(** ** Settings *)

Inductive TransportConfig := Normal (enable_mdns allow_private_ipv4 : bool) | MemoryOnly.
Inductive NonReservedPeerMode := Accept | Deny.
(** [NonReservedPeerMode::parse] *)
Definition NonReservedPeerMode_parse (s : string) : option NonReservedPeerMode :=
  if bool_decide (s = "accept") then Some Accept else if bool_decide (s = "deny") then Some Deny else None.
Section configuration.
Context {NK : NodeKeys} {Multiaddr : Type}.
Record NetworkConfiguration := mkNetworkConfiguration {
  config_path : option string;
  net_config_path : option string;
  listen_addresses : list Multiaddr;
  public_addresses : list Multiaddr;
  boot_nodes : list string;
  node_key : NodeKeyConfig;
  nc_in_peers : Z;
  nc_out_peers : Z;
  nc_reserved_nodes : list string;
  non_reserved_mode : NonReservedPeerMode;
  nc_client_version : string;
  node_name : string;
  transport : TransportConfig
}.
(** [NetworkConfiguration::default] *)
Definition NetworkConfiguration_default : NetworkConfiguration :=
  mkNetworkConfiguration None None [] [] [] (KeyEd25519 SecretNew) 25 75 [] Accept "unknown" "unknown" (Normal false true).
End configuration.
Arguments NetworkConfiguration {_} _.
