(* ===== verification/Discovery.v ===== *)
(** * Discovery of nodes

    Models [src/network-libp2p/src/discovery.rs]: the behaviour that finds nodes, over Kademlia and mDNS.  It also
    declares what the network service uses of libp2p's own behaviours, which are parameters: Kademlia, mDNS, ping and
    identify.  The timer of the random queries is its deadline; the clock does not move during a poll.

    The theorem: the random queries of Kademlia back off to one a minute, and start when they are due. *)
From S2P Require Import Prelude Codec PeersState Peerset Substream ProtoHandler CustomProto.


(** ** libp2p *)

(** [NetworkBehaviourAction] *)
Inductive NetAction (PeerId Multiaddr In Out : Type) :=
| ADialAddress (address : Multiaddr)
| ADialPeer (peer_id : PeerId)
| ASendEvent (peer_id : PeerId) (event : In)
| AReportObservedAddr (address : Multiaddr)
| AGenerateEvent (event : Out).
Arguments ADialAddress {_ _ _ _}.
Arguments ADialPeer {_ _ _ _}.
Arguments ASendEvent {_ _ _ _}.
Arguments AReportObservedAddr {_ _ _ _}.
Arguments AGenerateEvent {_ _ _ _}.

(** The trait [NetworkBehaviour] as the code calls it on libp2p's own behaviours: [In] and [NodeOut] are what goes
    to and comes from the handlers, [None] is [Async::NotReady]. *)
Class NetworkBehaviour (PeerId Multiaddr T In NodeOut Out : Type) := {
  addresses_of_peer : PeerId -> T -> list Multiaddr;
  nb_inject_connected : PeerId -> ConnectedPoint Multiaddr -> T -> T;
  nb_inject_disconnected : PeerId -> ConnectedPoint Multiaddr -> T -> T;
  nb_inject_replaced : PeerId -> ConnectedPoint Multiaddr -> ConnectedPoint Multiaddr -> T -> T;
  nb_inject_node_event : PeerId -> NodeOut -> T -> T;
  nb_poll : T -> option (NetAction PeerId Multiaddr In Out) * T
}.

(** [KademliaEvent]: the constructors that the code treats apart. *)
Inductive KademliaEvent (PeerId Key : Type) :=
| KadUnroutablePeer (peer : PeerId)
| KadRoutingUpdated (peer : PeerId)
| KadGetClosestPeersResult
| KadGetRecordResult (r : list (Key * bytes) + Key)
| KadPutRecordResult (r : Key + Key)
| KadRepublishRecordResult
| KadDiscovered
| KadOther.
Arguments KadUnroutablePeer {_ _}.
Arguments KadRoutingUpdated {_ _}.
Arguments KadGetClosestPeersResult {_ _}.
Arguments KadGetRecordResult {_ _}.
Arguments KadPutRecordResult {_ _}.
Arguments KadRepublishRecordResult {_ _}.
Arguments KadDiscovered {_ _}.
Arguments KadOther {_ _}.
Inductive MdnsEvent (PeerId Multiaddr : Type) := MdnsDiscovered (l : list (PeerId * Multiaddr)) | MdnsExpired.
Arguments MdnsDiscovered {_ _}.
Arguments MdnsExpired {_ _}.
(** [IdentifyInfo], as far as it is read *)
Record IdentifyInfo (Multiaddr : Type) := mkIdentifyInfo { agent_version : string; listen_addrs : list Multiaddr }.
Arguments mkIdentifyInfo {_}.
Arguments agent_version {_}.
Arguments listen_addrs {_}.
Inductive IdentifyEvent (PeerId Multiaddr : Type) :=
| IdentifyReceived (peer_id : PeerId) (info : IdentifyInfo Multiaddr)
| IdentifyError (peer_id : PeerId)
| IdentifySent (peer_id : PeerId).
Arguments IdentifyReceived {_ _}.
Arguments IdentifyError {_ _}.
Arguments IdentifySent {_ _}.
(** [PingEvent]: a ping that came back, or anything else *)
Inductive PingEvent (PeerId : Type) := PingRtt (peer : PeerId) (rtt : Z) | PingOther (peer : PeerId).
Arguments PingRtt {_}.
Arguments PingOther {_}.

Class Kademlia (PeerId Multiaddr : Type) := {
  Key : Type;
  Kad : Type;
  KadIn : Type;
  KadOut : Type;
  kad_behaviour :: NetworkBehaviour PeerId Multiaddr Kad KadIn KadOut (KademliaEvent PeerId Key);
  kad_new : PeerId -> Kad;
  kad_add_address : PeerId -> Multiaddr -> Kad -> Kad;
  kbuckets_entries : Kad -> list PeerId;
  kad_get_record : Key -> Kad -> Kad;
  kad_put_record : Key -> bytes -> Kad -> Kad;
  kad_get_closest_peers : PeerId -> Kad -> Kad;
  Mdns : Type;
  mdns_behaviour :: NetworkBehaviour PeerId Multiaddr Mdns Empty_set Empty_set (MdnsEvent PeerId Multiaddr);
  (* the address starts with an IPv4 address, and that is private *)
  starts_private : Multiaddr -> bool
}.
Class PingIdentify (PeerId Multiaddr : Type) := {
  Ping : Type;
  PingIn : Type;
  PingOut : Type;
  ping_behaviour :: NetworkBehaviour PeerId Multiaddr Ping PingIn PingOut (PingEvent PeerId);
  ping_new : Ping;
  PublicKey : Type;
  Identify : Type;
  IdentifyIn : Type;
  IdentifyOut : Type;
  identify_behaviour :: NetworkBehaviour PeerId Multiaddr Identify IdentifyIn IdentifyOut (IdentifyEvent PeerId Multiaddr);
  identify_new : string -> string -> PublicKey -> Identify
}.

(** ** [DiscoveryBehaviour] *)

Section discovery.
Context {PeerId : Type} `{Countable PeerId} {Multiaddr : Type} `{EqDecision Multiaddr} {KD : Kademlia PeerId Multiaddr}.
Notation Point := (ConnectedPoint Multiaddr).

(** A timer is its deadline. *)
Record DiscoveryBehaviour := mkDiscovery {
  user_defined : list (PeerId * Multiaddr);
  kademlia : Kad;
  mdns : option Mdns;
  next_kad_random_query : Z;
  duration_to_next_kad : Z;
  discoveries : list PeerId;
  local_peer_id : PeerId;
  num_connections : Z;
  allow_private_ipv4 : bool
}.
Implicit Types d : DiscoveryBehaviour.

(** [new]; [mdns] is the result of [Mdns::new] when it is enabled. *)
Definition DiscoveryBehaviour_new (now : Z) (local_id : PeerId) (user_defined : list (PeerId * Multiaddr)) (mdns : option Mdns) (allow_private_ipv4 : bool)
    : DiscoveryBehaviour :=
  let kademlia := foldl (fun k e => kad_add_address e.1 e.2 k) (kad_new local_id) user_defined in
  mkDiscovery user_defined kademlia mdns now (from_secs 1) [] local_id 0 allow_private_ipv4.

Definition set_kademlia k d : DiscoveryBehaviour :=
  mkDiscovery (user_defined d) k (mdns d) (next_kad_random_query d) (duration_to_next_kad d) (discoveries d) (local_peer_id d) (num_connections d)
    (allow_private_ipv4 d).
Definition set_mdns m d : DiscoveryBehaviour :=
  mkDiscovery (user_defined d) (kademlia d) m (next_kad_random_query d) (duration_to_next_kad d) (discoveries d) (local_peer_id d) (num_connections d)
    (allow_private_ipv4 d).
Definition set_discoveries l d : DiscoveryBehaviour :=
  mkDiscovery (user_defined d) (kademlia d) (mdns d) (next_kad_random_query d) (duration_to_next_kad d) l (local_peer_id d) (num_connections d)
    (allow_private_ipv4 d).
Definition set_num_connections n d : DiscoveryBehaviour :=
  mkDiscovery (user_defined d) (kademlia d) (mdns d) (next_kad_random_query d) (duration_to_next_kad d) (discoveries d) (local_peer_id d) n
    (allow_private_ipv4 d).

(** [known_peers], [add_known_address], [add_self_reported_address], [get_value] and [put_value] *)
Definition known_peers d : list PeerId := kbuckets_entries (kademlia d).
Definition add_known_address (peer_id : PeerId) (addr : Multiaddr) d : DiscoveryBehaviour :=
  if forallb (fun e => bool_decide (e.1 <> peer_id) && bool_decide (e.2 <> addr)) (user_defined d)
  then mkDiscovery (user_defined d ++ [(peer_id, addr)]) (kademlia d) (mdns d) (next_kad_random_query d) (duration_to_next_kad d)
         (discoveries d ++ [peer_id]) (local_peer_id d) (num_connections d) (allow_private_ipv4 d)
  else d.
Definition add_self_reported_address (peer_id : PeerId) (addr : Multiaddr) d : DiscoveryBehaviour :=
  set_kademlia (kad_add_address peer_id addr (kademlia d)) d.
Definition get_value (key : Key) d : DiscoveryBehaviour := set_kademlia (kad_get_record key (kademlia d)) d.
Definition put_value (key : Key) (value : bytes) d : DiscoveryBehaviour := set_kademlia (kad_put_record key value (kademlia d)) d.

Inductive DiscoveryOut :=
| Discovered (peer_id : PeerId)
| UnroutablePeer (peer_id : PeerId)
| ValueFound (results : list (Key * bytes))
| ValueNotFound (key : Key)
| ValuePut (key : Key)
| ValuePutFailed (key : Key).
Notation Action := (NetAction PeerId Multiaddr KadIn DiscoveryOut).

(** [addresses_of_peer] *)
Definition discovery_addresses (peer_id : PeerId) d : list Multiaddr :=
  let list := omap (fun e => if bool_decide (e.1 = peer_id) then Some e.2 else None) (user_defined d) in
  let list_to_filter := addresses_of_peer peer_id (kademlia d) ++ match mdns d with Some m => addresses_of_peer peer_id m | None => [] end in
  let list_to_filter := if allow_private_ipv4 d then list_to_filter else List.filter (fun a => negb (starts_private a)) list_to_filter in
  list ++ list_to_filter.

(** [inject_connected], [inject_disconnected], [inject_replaced] and [inject_node_event] *)
Definition discovery_connected (peer_id : PeerId) (endpoint : Point) d : res DiscoveryBehaviour :=
  n ← add_u64 (num_connections d) 1;
  Ok (set_kademlia (nb_inject_connected peer_id endpoint (kademlia d)) (set_num_connections n d)).
Definition discovery_disconnected (peer_id : PeerId) (endpoint : Point) d : res DiscoveryBehaviour :=
  n ← sub_u64 (num_connections d) 1;
  Ok (set_kademlia (nb_inject_disconnected peer_id endpoint (kademlia d)) (set_num_connections n d)).
Definition discovery_replaced (peer_id : PeerId) (closed opened : Point) d : DiscoveryBehaviour :=
  set_kademlia (nb_inject_replaced peer_id closed opened (kademlia d)) d.
Definition discovery_node_event (peer_id : PeerId) (event : KadOut) d : DiscoveryBehaviour :=
  set_kademlia (nb_inject_node_event peer_id event (kademlia d)) d.

(** The first loop of [poll], over the timer, which may fail; [random_peer_id] gives the identities drawn.  The result
    has those for which a query was started. *)
Fixpoint poll_random_query (fuel : nat) (timer_fails : bool) (now : Z) (random_peer_id : nat -> PeerId) d : option (list PeerId * DiscoveryBehaviour) :=
  match fuel with
  | 0 => None
  | S fuel =>
      if timer_fails || bool_decide (now < next_kad_random_query d)%Z then Some ([], d)
      else
        '(queried, d) ← poll_random_query fuel timer_fails now (fun n => random_peer_id (S n))
          (mkDiscovery (user_defined d) (kad_get_closest_peers (random_peer_id 0) (kademlia d)) (mdns d) (now + duration_to_next_kad d)
             (Z.min (duration_to_next_kad d * 2) (from_secs 60)) (discoveries d) (local_peer_id d) (num_connections d) (allow_private_ipv4 d));
        Some (random_peer_id 0 :: queried, d)
  end.
(** The second loop, over Kademlia: [None] when the fuel ends, else the action that [poll] returns, if any. *)
Definition kademlia_out (ev : KademliaEvent PeerId Key) : option DiscoveryOut :=
  match ev with
  | KadUnroutablePeer peer => Some (UnroutablePeer peer)
  | KadRoutingUpdated peer => Some (Discovered peer)
  | KadGetRecordResult (inl records) => Some (ValueFound records)
  | KadGetRecordResult (inr key) => Some (ValueNotFound key)
  | KadPutRecordResult (inl key) => Some (ValuePut key)
  | KadPutRecordResult (inr key) => Some (ValuePutFailed key)
  | KadGetClosestPeersResult | KadRepublishRecordResult | KadDiscovered | KadOther => None
  end.
Fixpoint poll_kademlia (fuel : nat) d : option (option Action * DiscoveryBehaviour) :=
  match fuel with
  | 0 => None
  | S fuel =>
      let '(a, k) := nb_poll (kademlia d) in
      let d := set_kademlia k d in
      match a with
      | None => Some (None, d)
      | Some (AGenerateEvent ev) =>
          match kademlia_out ev with
          | Some out => Some (Some (AGenerateEvent out), d)
          | None => poll_kademlia fuel d
          end
      | Some (ADialAddress address) => Some (Some (ADialAddress address), d)
      | Some (ADialPeer peer_id) => Some (Some (ADialPeer peer_id), d)
      | Some (ASendEvent peer_id event) => Some (Some (ASendEvent peer_id event), d)
      | Some (AReportObservedAddr address) => Some (Some (AReportObservedAddr address), d)
      end
  end.
(** The third loop, over mDNS *)
Fixpoint poll_mdns (fuel : nat) d : option (option Action * DiscoveryBehaviour) :=
  match fuel with
  | 0 => None
  | S fuel =>
      match mdns d with
      | None => Some (None, d)
      | Some m =>
          let '(a, m) := (nb_poll m : option (NetAction PeerId Multiaddr Empty_set (MdnsEvent PeerId Multiaddr)) * Mdns) in
          let d := set_mdns (Some m) d in
          match a with
          | None => Some (None, d)
          | Some (AGenerateEvent (MdnsDiscovered l)) =>
              match discoveries d ++ l.*1 with
              | peer_id :: rest => Some (Some (AGenerateEvent (Discovered peer_id)), set_discoveries rest d)
              | [] => poll_mdns fuel (set_discoveries [] d)
              end
          | Some (AGenerateEvent MdnsExpired) => poll_mdns fuel d
          | Some (ADialAddress address) => Some (Some (ADialAddress address), d)
          | Some (ADialPeer peer_id) => Some (Some (ADialPeer peer_id), d)
          | Some (ASendEvent _ event) => match event with end
          | Some (AReportObservedAddr address) => Some (Some (AReportObservedAddr address), d)
          end
      end
  end.
(** [poll], with the identities for which it starts a query *)
Definition discovery_poll (fuel : nat) (timer_fails : bool) (now : Z) (random_peer_id : nat -> PeerId) d
    : option (list PeerId * option Action * DiscoveryBehaviour) :=
  match discoveries d with
  | peer_id :: rest => Some ([], Some (AGenerateEvent (Discovered peer_id)), set_discoveries rest d)
  | [] =>
      '(queried, d) ← poll_random_query fuel timer_fails now random_peer_id d;
      '(a, d) ← poll_kademlia fuel d;
      match a with
      | Some a => Some (queried, Some a, d)
      | None => '(a, d) ← poll_mdns fuel d; Some (queried, a, d)
      end
  end.

(** *** The behaviour in its environment *)

(** The calls of the other behaviours and of the swarm, which reports a connection of a peer that is not
    connected and a disconnection of one that is. *)
Inductive discovery_event :=
| DKnownAddress (peer_id : PeerId) (addr : Multiaddr)
| DSelfReported (peer_id : PeerId) (addr : Multiaddr)
| DGetValue (key : Key)
| DPutValue (key : Key) (value : bytes)
| DConnected (peer_id : PeerId) (endpoint : Point)
| DDisconnected (peer_id : PeerId) (endpoint : Point)
| DReplaced (peer_id : PeerId) (closed opened : Point)
| DNode (peer_id : PeerId) (event : KadOut)
| DPoll (timer_fails : bool) (now : Z) (random_peer_id : nat -> PeerId).

(** A step gives the time of each random query that it starts. *)
Definition discovery_step (fuel : nat) (e : discovery_event) (w : DiscoveryBehaviour * gset PeerId)
    : res (list Z * (DiscoveryBehaviour * gset PeerId)) :=
  let '(d, conn) := w in
  match e with
  | DKnownAddress peer_id addr => Ok ([], (add_known_address peer_id addr d, conn))
  | DSelfReported peer_id addr => Ok ([], (add_self_reported_address peer_id addr d, conn))
  | DGetValue key => Ok ([], (get_value key d, conn))
  | DPutValue key value => Ok ([], (put_value key value d, conn))
  | DConnected peer_id endpoint =>
      ensure (bool_decide (peer_id ∉ conn)) "contract broken";;
      d ← discovery_connected peer_id endpoint d; Ok ([], (d, {[peer_id]} ∪ conn))
  | DDisconnected peer_id endpoint =>
      ensure (bool_decide (peer_id ∈ conn)) "contract broken";;
      d ← discovery_disconnected peer_id endpoint d; Ok ([], (d, conn ∖ {[peer_id]}))
  | DReplaced peer_id closed opened => Ok ([], (discovery_replaced peer_id closed opened d, conn))
  | DNode peer_id event => Ok ([], (discovery_node_event peer_id event d, conn))
  | DPoll timer_fails now random_peer_id =>
      match discovery_poll fuel timer_fails now random_peer_id d with
      | Some (queried, _, d) => Ok ((fun _ => now) <$> queried, (d, conn))
      | None => Err "still polling"
      end
  end.
Fixpoint discovery_run (fuel : nat) (l : list discovery_event) w : res (list Z * (DiscoveryBehaviour * gset PeerId)) :=
  match l with
  | [] => Ok ([], w)
  | e :: l => '(ts, w) ← discovery_step fuel e w; '(ts', w) ← discovery_run fuel l w; Ok (ts ++ ts', w)
  end.

(** *** The random queries back off *)

(** The time from query [k] to the next *)
Definition gap (k : nat) : Z := from_secs (Z.min (2 ^ Z.of_nat k) 60).
Lemma gap_S k : Z.min (gap k * 2) (from_secs 60) = gap (S k).
Proof. unfold gap, from_secs, NANOS_PER_SEC. rewrite Nat2Z.inj_succ, Z.pow_succ_r by lia. lia. Qed.
Lemma gap_pos k : (0 < gap k)%Z.
Proof. unfold gap, from_secs, NANOS_PER_SEC. pose proof (Z.pow_pos_nonneg 2 (Z.of_nat k)). lia. Qed.

(** The fields that the other operations leave alone *)
Definition timer d : Z * Z * Z := (next_kad_random_query d, duration_to_next_kad d, num_connections d).
Lemma poll_kademlia_timer fuel d a d' : poll_kademlia fuel d = Some (a, d') -> timer d' = timer d.
Proof.
  revert d. induction fuel as [|fuel IH]; intros d; simpl; [done|]. destruct (nb_poll (kademlia d)) as [[[adr|p|p i|adr|ev]|] k]; try by intros [= <- <-].
  destruct (kademlia_out ev); [by intros [= <- <-]|]. by intros ->%IH.
Qed.
Lemma poll_mdns_timer fuel d a d' : poll_mdns fuel d = Some (a, d') -> timer d' = timer d.
Proof.
  revert d. induction fuel as [|fuel IH]; intros d; simpl; [done|]. destruct (mdns d) as [m|]; [|by intros [= <- <-]].
  destruct (nb_poll m) as [[[adr|p|p []|adr|ev]|] m']; try by intros [= <- <-].
  destruct ev as [l|]; [|by intros ->%IH]. destruct (_ ++ _); [by intros ->%IH|by intros [= <- <-]].
Qed.

(** One query when the timer has fired, then the loop ends: two turns. *)
Lemma poll_random_query_ends fuel timer_fails now r d : (0 < duration_to_next_kad d)%Z -> 2 <= fuel ->
  exists q d', poll_random_query fuel timer_fails now r d = Some (q, d').
Proof.
  intros Hd Hf. destruct fuel as [|[|fuel]]; [lia..|]. simpl. destruct (timer_fails || _) eqn:E; [eauto|].
  rewrite (bool_decide_eq_true_2 (now < now + _)%Z) by lia. rewrite orb_true_r. simpl. eauto.
Qed.
Lemma poll_random_query_spec fuel timer_fails now r d q d' : (0 < duration_to_next_kad d)%Z ->
  poll_random_query fuel timer_fails now r d = Some (q, d') ->
  if timer_fails || bool_decide (now < next_kad_random_query d)%Z then q = [] /\ timer d' = timer d
  else q = [r 0] /\ timer d' = (now + duration_to_next_kad d, Z.min (duration_to_next_kad d * 2) (from_secs 60), num_connections d)%Z.
Proof.
  intros Hd. destruct fuel as [|fuel]; simpl; [done|]. destruct (timer_fails || _) eqn:E; [by intros [= <- <-]|].
  destruct fuel as [|fuel]; simpl; [done|]. rewrite (bool_decide_eq_true_2 (now < now + _)%Z) by lia. rewrite orb_true_r. simpl.
  by intros [= <- <-].
Qed.
Lemma discovery_poll_queries fuel timer_fails now r d q a d' : (0 < duration_to_next_kad d)%Z ->
  discovery_poll fuel timer_fails now r d = Some (q, a, d') ->
  if bool_decide (discoveries d <> []) || timer_fails || bool_decide (now < next_kad_random_query d)%Z then q = [] /\ timer d' = timer d
  else q = [r 0] /\ timer d' = (now + duration_to_next_kad d, Z.min (duration_to_next_kad d * 2) (from_secs 60), num_connections d)%Z.
Proof.
  intros Hd. unfold discovery_poll. destruct (discoveries d) as [|x rest] eqn:Ed.
  2: { rewrite bool_decide_eq_true_2 by done. by intros [= <- <- <-]. }
  rewrite bool_decide_eq_false_2 by naive_solver. simpl.
  destruct (poll_random_query _ _ _ _ _) as [[q1 d1]|] eqn:E1; simpl; [|done]. apply poll_random_query_spec in E1; [|done].
  destruct (poll_kademlia fuel d1) as [[a2 d2]|] eqn:E2; simpl; [|done]. apply poll_kademlia_timer in E2.
  assert (forall d'', timer d'' = timer d2 -> timer d'' = timer d1) as Hd2 by congruence.
  destruct a2 as [a2|].
  - intros [= <- <- <-]. destruct (_ || _); destruct E1; split; congruence.
  - destruct (poll_mdns fuel d2) as [[a3 d3]|] eqn:E3; simpl; [|done]. apply poll_mdns_timer in E3.
    intros [= <- <- <-]. destruct (_ || _); destruct E1; split; congruence.
Qed.

(** After [k] queries, the next due at [D] *)
Definition backing_off (k : nat) (D : Z) (w : DiscoveryBehaviour * gset PeerId) : Prop :=
  timer w.1 = (D, gap k, Z.of_nat (size w.2)).
Definition after_step (k : nat) (D : Z) (n : nat) (r : res (list Z * (DiscoveryBehaviour * gset PeerId))) : Prop :=
  match r with
  | Ok (ts, w) => size w.2 <= S n /\
      (ts = [] /\ backing_off k D w \/ exists now, ts = [now] /\ (D <= now)%Z /\ backing_off (S k) (now + gap k) w)
  | Err _ => True
  | Panic _ => False
  end.
Lemma discovery_step_ok fuel e k D w : backing_off k D w -> (Z.of_nat (size w.2) + 1 <= u64_max)%Z ->
  after_step k D (size w.2) (discovery_step fuel e w).
Proof.
  destruct w as [d conn]. intros Hb Hn. unfold backing_off in Hb. cbn [fst snd] in Hb, Hn. pose proof Hb as [= H1 H2 H3].
  destruct e as [p a|p a|key|key v|p pt|p pt|p c o|p ev|timer_fails now r]; simpl; try (split; [simpl; lia|left; split; [done|exact Hb]]).
  - split; [simpl; lia|left; split; [done|]]. unfold backing_off, add_known_address. by destruct (forallb _ _).
  - case_bool_decide as Hp; [|done]. unfold discovery_connected. simpl. rewrite add_u64_Ok by lia. simpl.
    assert (size ({[p]} ∪ conn) = S (size conn)) as Hs by (rewrite size_union by set_solver; by rewrite size_singleton).
    split; [lia|]. left. split; [done|]. unfold backing_off, timer. simpl. f_equal; [congruence|lia].
  - case_bool_decide as Hp; [|done]. unfold discovery_disconnected. simpl.
    assert (size conn = S (size (conn ∖ {[p]}))) as Hs.
    { rewrite (union_difference_L {[p]} conn) at 1 by set_solver. rewrite size_union by set_solver. by rewrite size_singleton. }
    rewrite sub_u64_Ok by lia. simpl. split; [lia|]. left. split; [done|]. unfold backing_off, timer. simpl. f_equal; [congruence|lia].
  - destruct (discovery_poll _ _ _ _ _) as [[[q a] d']|] eqn:E; [|done]. apply discovery_poll_queries in E; [|rewrite H2; apply gap_pos].
    split; [simpl; lia|]. destruct (bool_decide _ || timer_fails || _) eqn:Ec; destruct E as [-> Ht]; [left; split; [done|exact (eq_trans Ht Hb)]|].
    right. exists now. apply orb_false_iff in Ec as [_ Ec%bool_decide_eq_false]. split_and!; [done|lia|].
    unfold backing_off. simpl. by rewrite Ht, H2, H3, gap_S.
Qed.

(** When the query after those at [ts] is due *)
Definition due (D : Z) (k : nat) (ts : list Z) : Z := match last ts with Some t => t + gap (pred (k + length ts)) | None => D end.
Lemma due_cons D k t ts : due D k (t :: ts) = due (t + gap k) (S k) ts.
Proof.
  unfold due. destruct ts as [|t' ts]; [simpl; do 2 f_equal; lia|]. rewrite last_cons_cons.
  destruct (last (t' :: ts)) eqn:E; [|by apply last_None in E]. simpl. do 2 f_equal. lia.
Qed.
Lemma discovery_run_ok fuel l k D w : backing_off k D w -> (Z.of_nat (size w.2) + Z.of_nat (length l) <= u64_max)%Z ->
  match discovery_run fuel l w with
  | Ok (ts, w) => backing_off (k + length ts) (due D k ts) w /\ (forall t, ts !! 0 = Some t -> (D <= t)%Z) /\
      (forall i t t', ts !! i = Some t -> ts !! S i = Some t' -> (t + gap (k + i) <= t')%Z)
  | Err _ => True
  | Panic _ => False
  end.
Proof.
  revert k D w. induction l as [|e l IH]; intros k D w Hb Hn; simpl.
  { split_and!; [by rewrite Nat.add_0_r|done|done]. }
  simpl in Hn. pose proof (discovery_step_ok fuel e k D w Hb ltac:(lia)) as Hs.
  destruct (discovery_step fuel e w) as [[ts w']| |]; simpl in *; [|done..].
  destruct Hs as [Hsz [[-> Hb']|(now & -> & Hnow & Hb')]].
  - specialize (IH k D w' Hb' ltac:(lia)). destruct (discovery_run fuel l w') as [[ts' w'']| |]; simpl in *; done.
  - specialize (IH (S k) _ w' Hb' ltac:(lia)). destruct (discovery_run fuel l w') as [[ts' w'']| |]; simpl in *; [|done..].
    destruct IH as (H1 & H2 & H3). split_and!.
    + by rewrite due_cons, Nat.add_succ_r.
    + by intros t [= <-].
    + intros [|i] t t' Ht Ht'; simpl in *; [simplify_eq; rewrite Nat.add_0_r; by apply H2|].
      rewrite Nat.add_succ_r. by apply H3.
Qed.

(** C37: the random queries of Kademlia back off.  Whatever else happens, at least one second passes from the
    first to the second, two to the next, and so on up to a minute; a poll with nothing to report starts one
    exactly when that time is over.  And the count of connections is exact, so it never overflows. *)
Theorem random_queries_back_off fuel l now local_id known mdns0 private :
  (Z.of_nat (length l) <= u64_max)%Z ->
  match discovery_run fuel l (DiscoveryBehaviour_new now local_id known mdns0 private, ∅) with
  | Ok (ts, (d, conn)) =>
      (forall k t t', ts !! k = Some t -> ts !! S k = Some t' -> (t + from_secs (Z.min (2 ^ Z.of_nat k) 60) <= t')%Z) /\
      (forall fuel now' r q a d', discoveries d = [] -> discovery_poll fuel false now' r d = Some (q, a, d') ->
         q = if bool_decide (due now 0 ts <= now')%Z then [r 0] else []) /\
      num_connections d = Z.of_nat (size conn)
  | Err _ => True
  | Panic _ => False
  end.
Proof.
  intros Hl. pose proof (discovery_run_ok fuel l 0 now (DiscoveryBehaviour_new now local_id known mdns0 private, ∅) eq_refl) as Hr.
  cbn [snd] in Hr. rewrite size_empty in Hr. specialize (Hr ltac:(lia)).
  destruct (discovery_run _ _ _) as [[ts [d conn]]| |]; [|done..]. destruct Hr as ([= H1 H2 H3] & _ & Hg). split_and!; [by apply Hg| |done].
  intros fuel' now' r q a d' Hd E. apply discovery_poll_queries in E; [|rewrite H2; apply gap_pos].
  rewrite Hd, H1, bool_decide_eq_false_2 in E by naive_solver. simpl in E.
  repeat case_bool_decide; try lia; by destruct E.
Qed.
End discovery.
