(* ===== verification/DebugInfo.v ===== *)
(** * Information about nodes

    Models [src/network-libp2p/src/debug_info.rs]: the behaviour that keeps what ping and identify report of the nodes,
    while they are connected and for ten minutes after.  The ticks of the garbage collection and the clock are inputs.

    The theorem: against the history of all that was ever seen, the cache has every node that is connected or left at
    most ten minutes ago, whenever the collection runs. *)
From S2P Require Import Prelude Codec PeersState Peerset Substream ProtoHandler CustomProto Discovery.

Section debug_info.
Context {PeerId : Type} `{Countable PeerId} {Multiaddr : Type} {PI : PingIdentify PeerId Multiaddr}.
Notation Point := (ConnectedPoint Multiaddr).

Definition CACHE_EXPIRE : Z := from_secs (10 * 60).

(** [NodeInfo] *)
Record CachedInfo := mkCachedInfo {
  info_expire : option Z;
  ci_endpoint : Point;
  ci_client_version : option string;
  ci_latest_ping : option Z
}.
Record DebugInfoBehaviour := mkDebugInfo { ping : Ping; identify : Identify; cached : gmap PeerId CachedInfo }.
Implicit Types d : DebugInfoBehaviour.

(** [new] and [node] *)
Definition DebugInfoBehaviour_new (user_agent : string) (local_public_key : PublicKey) : DebugInfoBehaviour :=
  mkDebugInfo ping_new (identify_new "/stargate/0.1" user_agent local_public_key) ∅.
Definition debug_node d (peer_id : PeerId) : option CachedInfo := cached d !! peer_id.

Definition set_cached m d : DebugInfoBehaviour := mkDebugInfo (ping d) (identify d) m.
Definition set_ping x d : DebugInfoBehaviour := mkDebugInfo x (identify d) (cached d).
Definition set_identify x d : DebugInfoBehaviour := mkDebugInfo (ping d) x (cached d).

(** [handle_ping_report] and [handle_identify_report] *)
Definition handle_ping_report (peer_id : PeerId) (ping_time : Z) d : DebugInfoBehaviour :=
  match cached d !! peer_id with
  | Some e => set_cached (<[peer_id := mkCachedInfo (info_expire e) (ci_endpoint e) (ci_client_version e) (Some ping_time)]> (cached d)) d
  | None => d
  end.
Definition handle_identify_report (peer_id : PeerId) (info : IdentifyInfo Multiaddr) d : DebugInfoBehaviour :=
  match cached d !! peer_id with
  | Some e => set_cached (<[peer_id := mkCachedInfo (info_expire e) (ci_endpoint e) (Some (agent_version info)) (ci_latest_ping e)]> (cached d)) d
  | None => d
  end.

Inductive DebugInfoEvent := Identified (peer_id : PeerId) (info : IdentifyInfo Multiaddr).
Notation Action := (NetAction PeerId Multiaddr (PingIn + IdentifyIn) DebugInfoEvent).

(** [addresses_of_peer], [inject_connected], [inject_disconnected], [inject_node_event] and [inject_replaced] *)
Definition debug_addresses (peer_id : PeerId) d : list Multiaddr :=
  addresses_of_peer peer_id (ping d) ++ addresses_of_peer peer_id (identify d).
Definition debug_connected (now : Z) (peer_id : PeerId) (endpoint : Point) d : DebugInfoBehaviour :=
  let d := mkDebugInfo (nb_inject_connected peer_id endpoint (ping d)) (nb_inject_connected peer_id endpoint (identify d)) (cached d) in
  match cached d !! peer_id with
  | None => set_cached (<[peer_id := mkCachedInfo None endpoint None None]> (cached d)) d
  | Some e =>
      let stale := match info_expire e with Some exp => bool_decide (exp < now)%Z | None => false end in
      let e := if stale then mkCachedInfo (info_expire e) (ci_endpoint e) None None else e in
      set_cached (<[peer_id := mkCachedInfo None endpoint (ci_client_version e) (ci_latest_ping e)]> (cached d)) d
  end.
Definition debug_disconnected (now : Z) (peer_id : PeerId) (endpoint : Point) d : DebugInfoBehaviour :=
  let d := mkDebugInfo (nb_inject_disconnected peer_id endpoint (ping d)) (nb_inject_disconnected peer_id endpoint (identify d)) (cached d) in
  match cached d !! peer_id with
  | Some e =>
      set_cached (<[peer_id := mkCachedInfo (Some (now + CACHE_EXPIRE)%Z) (ci_endpoint e) (ci_client_version e) (ci_latest_ping e)]> (cached d)) d
  | None => d
  end.
Definition debug_node_event (peer_id : PeerId) (event : PingOut + IdentifyOut) d : DebugInfoBehaviour :=
  match event with
  | inl event => set_ping (nb_inject_node_event peer_id event (ping d)) d
  | inr event => set_identify (nb_inject_node_event peer_id event (identify d)) d
  end.
Definition debug_replaced (peer_id : PeerId) (closed_endpoint new_endpoint : Point) d : DebugInfoBehaviour :=
  let d := mkDebugInfo (nb_inject_replaced peer_id closed_endpoint new_endpoint (ping d))
             (nb_inject_replaced peer_id closed_endpoint new_endpoint (identify d)) (cached d) in
  match cached d !! peer_id with
  | Some e => set_cached (<[peer_id := mkCachedInfo (info_expire e) new_endpoint (ci_client_version e) (ci_latest_ping e)]> (cached d)) d
  | None => d
  end.

(** What a poll learns, in order *)
Inductive report := RPing (peer : PeerId) (rtt : Z) | RIdentify (peer_id : PeerId) (info : IdentifyInfo Multiaddr).
(** The first two loops of [poll], with what they learn *)
Fixpoint poll_ping (fuel : nat) d : option (list report * option Action * DebugInfoBehaviour) :=
  match fuel with
  | 0 => None
  | S fuel =>
      let '(a, x) := (nb_poll (ping d) : option (NetAction PeerId Multiaddr PingIn (PingEvent PeerId)) * Ping) in
      let d := set_ping x d in
      match a with
      | None => Some ([], None, d)
      | Some (AGenerateEvent (PingRtt peer rtt)) =>
          '(rs, a, d) ← poll_ping fuel (handle_ping_report peer rtt d); Some (RPing peer rtt :: rs, a, d)
      | Some (AGenerateEvent (PingOther _)) => poll_ping fuel d
      | Some (ADialAddress address) => Some ([], Some (ADialAddress address), d)
      | Some (ADialPeer peer_id) => Some ([], Some (ADialPeer peer_id), d)
      | Some (ASendEvent peer_id event) => Some ([], Some (ASendEvent peer_id (inl event)), d)
      | Some (AReportObservedAddr address) => Some ([], Some (AReportObservedAddr address), d)
      end
  end.
Fixpoint poll_identify (fuel : nat) d : option (list report * option Action * DebugInfoBehaviour) :=
  match fuel with
  | 0 => None
  | S fuel =>
      let '(a, x) := (nb_poll (identify d) : option (NetAction PeerId Multiaddr IdentifyIn (IdentifyEvent PeerId Multiaddr)) * Identify) in
      let d := set_identify x d in
      match a with
      | None => Some ([], None, d)
      | Some (AGenerateEvent (IdentifyReceived peer_id info)) =>
          Some ([RIdentify peer_id info], Some (AGenerateEvent (Identified peer_id info)), handle_identify_report peer_id info d)
      | Some (AGenerateEvent (IdentifyError _)) | Some (AGenerateEvent (IdentifySent _)) => poll_identify fuel d
      | Some (ADialAddress address) => Some ([], Some (ADialAddress address), d)
      | Some (ADialPeer peer_id) => Some ([], Some (ADialPeer peer_id), d)
      | Some (ASendEvent peer_id event) => Some ([], Some (ASendEvent peer_id (inr event)), d)
      | Some (AReportObservedAddr address) => Some ([], Some (AReportObservedAddr address), d)
      end
  end.
(** The third: one turn for each tick of [garbage_collect] that is ready *)
Definition keeps (now : Z) (e : CachedInfo) : bool := match info_expire e with Some exp => bool_decide (now <= exp)%Z | None => true end.
Fixpoint garbage_collect (ticks : nat) (now : Z) d : DebugInfoBehaviour :=
  match ticks with
  | 0 => d
  | S ticks => garbage_collect ticks now (set_cached (filter (fun kv => keeps now kv.2 = true) (cached d)) d)
  end.
(** [poll] *)
Definition debug_poll (fuel ticks : nat) (now : Z) d : option (list report * option Action * DebugInfoBehaviour) :=
  '(rs, a, d) ← poll_ping fuel d;
  match a with
  | Some a => Some (rs, Some a, d)
  | None =>
      '(rs', a, d) ← poll_identify fuel d;
      match a with
      | Some a => Some (rs ++ rs', Some a, d)
      | None => Some (rs ++ rs', None, garbage_collect ticks now d)
      end
  end.

(** *** What the cache promises *)

(** All that was ever seen of a node: where it was, when it left, and what is known of it since it first
    connected or last came back too late. *)
Record seen := mkSeen { seen_at : Point; left_at : option Z; seen_version : option string; seen_ping : option Z }.
Notation history := (gmap PeerId seen).
Definition expired (now : Z) (s : seen) : bool := match left_at s with Some t => bool_decide (t + CACHE_EXPIRE < now)%Z | None => false end.
Definition is_connected_in (h : history) (p : PeerId) : bool := match h !! p with Some s => bool_decide (left_at s = None) | None => false end.
Definition comes (now : Z) (p : PeerId) (pt : Point) (h : history) : history :=
  <[p := match h !! p with
         | Some s => if expired now s then mkSeen pt None None None else mkSeen pt None (seen_version s) (seen_ping s)
         | None => mkSeen pt None None None
         end]> h.
Definition leaves (now : Z) (p : PeerId) (h : history) : history :=
  alter (fun s => mkSeen (seen_at s) (Some now) (seen_version s) (seen_ping s)) p h.
Definition moves (p : PeerId) (pt : Point) (h : history) : history :=
  alter (fun s => mkSeen pt (left_at s) (seen_version s) (seen_ping s)) p h.
Definition learns (h : history) (r : report) : history :=
  match r with
  | RPing p rtt => alter (fun s => mkSeen (seen_at s) (left_at s) (seen_version s) (Some rtt)) p h
  | RIdentify p info => alter (fun s => mkSeen (seen_at s) (left_at s) (Some (agent_version info)) (seen_ping s)) p h
  end.

(** The calls of the swarm; the clock does not go back, and only a peer that is not connected connects. *)
Inductive debug_event :=
| GConnected (now : Z) (peer_id : PeerId) (endpoint : Point)
| GDisconnected (now : Z) (peer_id : PeerId) (endpoint : Point)
| GReplaced (peer_id : PeerId) (closed_endpoint new_endpoint : Point)
| GNode (peer_id : PeerId) (event : PingOut + IdentifyOut)
| GPoll (now : Z) (ticks : nat).
Definition debug_step (fuel : nat) (e : debug_event) (w : DebugInfoBehaviour * history * Z) : res (DebugInfoBehaviour * history * Z) :=
  let '(d, h, now0) := w in
  match e with
  | GConnected now p pt =>
      ensure (bool_decide (now0 <= now)%Z && negb (is_connected_in h p)) "contract broken";;
      Ok (debug_connected now p pt d, comes now p pt h, now)
  | GDisconnected now p pt =>
      ensure (bool_decide (now0 <= now)%Z && is_connected_in h p) "contract broken";;
      Ok (debug_disconnected now p pt d, leaves now p h, now)
  | GReplaced p pt pt' =>
      ensure (is_connected_in h p) "contract broken";;
      Ok (debug_replaced p pt pt' d, moves p pt' h, now0)
  | GNode p ev => Ok (debug_node_event p ev d, h, now0)
  | GPoll now ticks =>
      ensure (bool_decide (now0 <= now)%Z) "contract broken";;
      match debug_poll fuel ticks now d with
      | Some (rs, _, d) => Ok (d, foldl learns h rs, now)
      | None => Err "still polling"
      end
  end.
Definition debug_run (fuel : nat) (l : list debug_event) w : res (DebugInfoBehaviour * history * Z) :=
  foldM (fun w e => debug_step fuel e w) w l.

(** The cache against the history: an entry is that of the history, but what is known of an expired node may
    differ, and only an expired node may be missing. *)
Definition caches (now : Z) (s : option seen) (n : option CachedInfo) : Prop :=
  match n, s with
  | Some i, Some s =>
      info_expire i = (fun t => t + CACHE_EXPIRE)%Z <$> left_at s /\ ci_endpoint i = seen_at s /\
      (expired now s = false -> ci_client_version i = seen_version s /\ ci_latest_ping i = seen_ping s)
  | Some _, None => False
  | None, Some s => expired now s = true
  | None, None => True
  end.
Definition cache_ok (now : Z) (h : history) d : Prop := forall p, caches now (h !! p) (cached d !! p).

Lemma expired_later now now' s : (now <= now')%Z -> expired now s = true -> expired now' s = true.
Proof. unfold expired. destruct (left_at s); [|done]. rewrite !bool_decide_eq_true. lia. Qed.
Lemma cache_ok_later now now' h d : (now <= now')%Z -> cache_ok now h d -> cache_ok now' h d.
Proof.
  intros Hn Hok p. specialize (Hok p). unfold caches in *. destruct (cached d !! p), (h !! p) as [s|]; try done; [|by eapply expired_later].
  destruct Hok as (? & ? & Hv). split_and!; [done..|]. intros He. apply Hv. destruct (expired now s) eqn:E; [|done].
  by rewrite (expired_later now now' s Hn E) in He.
Qed.
(** Two updates of the same entry *)
Lemma cache_ok_insert now h d p (f : seen -> seen) (g : CachedInfo -> CachedInfo) :
  cache_ok now h d -> (forall s i, h !! p = Some s -> caches now (Some s) (Some i) -> caches now (Some (f s)) (Some (g i))) ->
  (forall s, h !! p = Some s -> expired now s = true -> expired now (f s) = true) ->
  cache_ok now (alter f p h) (match cached d !! p with Some e => set_cached (<[p := g e]> (cached d)) d | None => d end).
Proof.
  intros Hok Hfg Hf q. pose proof (Hok q) as Hq. destruct (decide (q = p)) as [->|Hne].
  - rewrite lookup_alter_eq. destruct (cached d !! p) as [i|] eqn:E; simpl.
    + rewrite lookup_insert_eq. destruct (h !! p) as [s|] eqn:Eh; simpl in *; [by apply Hfg|done].
    + rewrite E. destruct (h !! p) as [s|] eqn:Eh; simpl in *; [by apply Hf|done].
  - rewrite lookup_alter_ne by done. destruct (cached d !! p) as [i|]; simpl; [by rewrite lookup_insert_ne by done|done].
Qed.
Lemma learns_ok now h d r : cache_ok now h d ->
  cache_ok now (learns h r) (match r with RPing p rtt => handle_ping_report p rtt d | RIdentify p info => handle_identify_report p info d end).
Proof.
  intros Hok. destruct r as [p rtt|p info].
  - apply (cache_ok_insert now h d p _ (fun e => mkCachedInfo (info_expire e) (ci_endpoint e) (ci_client_version e) (Some rtt)) Hok); [|done].
    intros s i _ (? & ? & Hv). split_and!; [done..|]. intros He. split; [by apply Hv|done].
  - apply (cache_ok_insert now h d p _ (fun e => mkCachedInfo (info_expire e) (ci_endpoint e) (Some (agent_version info)) (ci_latest_ping e)) Hok); [|done].
    intros s i _ (? & ? & Hv). split_and!; [done..|]. intros He. split; [done|by apply Hv].
Qed.
Lemma comes_ok now h d p pt : cache_ok now h d -> cache_ok now (comes now p pt h) (debug_connected now p pt d).
Proof.
  intros Hok q. pose proof (Hok q) as Hq. unfold comes, debug_connected. cbn [cached]. destruct (decide (q = p)) as [->|Hne].
  - rewrite lookup_insert_eq. destruct (cached d !! p) as [i|], (h !! p) as [s|]; simpl in *; rewrite lookup_insert_eq; [|done| |done].
    + destruct Hq as (He & _ & Hv). rewrite He. unfold expired in *.
      destruct (left_at s) as [t|]; simpl; [|naive_solver]. destruct (bool_decide (_ < _)%Z); naive_solver.
    + by rewrite Hq.
  - rewrite lookup_insert_ne by done. destruct (cached d !! p); simpl; by rewrite lookup_insert_ne by done.
Qed.
Lemma connected_stays now h p s : is_connected_in h p = true -> h !! p = Some s -> left_at s = None /\ expired now s = false.
Proof. unfold is_connected_in, expired. intros Hc E. rewrite E in Hc. apply bool_decide_eq_true in Hc. by rewrite Hc. Qed.
Lemma leaves_ok now h d p pt : is_connected_in h p = true -> cache_ok now h d -> cache_ok now (leaves now p h) (debug_disconnected now p pt d).
Proof.
  intros Hc Hok. apply (cache_ok_insert now h (mkDebugInfo _ _ (cached d)) p _
    (fun e => mkCachedInfo (Some (now + CACHE_EXPIRE)%Z) (ci_endpoint e) (ci_client_version e) (ci_latest_ping e)) Hok).
  - intros s i Es (? & ? & Hv). destruct (connected_stays now h p s Hc Es) as [_ He]. destruct (Hv He). done.
  - intros s Es. by destruct (connected_stays now h p s Hc Es) as [_ ->].
Qed.
Lemma moves_ok now h d p pt pt' : is_connected_in h p = true -> cache_ok now h d -> cache_ok now (moves p pt' h) (debug_replaced p pt pt' d).
Proof.
  intros Hc Hok. apply (cache_ok_insert now h (mkDebugInfo _ _ (cached d)) p _
    (fun e => mkCachedInfo (info_expire e) pt' (ci_client_version e) (ci_latest_ping e)) Hok); [|done].
  intros s i Es (? & ? & Hv). done.
Qed.
Lemma poll_ping_ok now h fuel d rs a d' : cache_ok now h d -> poll_ping fuel d = Some (rs, a, d') -> cache_ok now (foldl learns h rs) d'.
Proof.
  revert h d rs. induction fuel as [|fuel IH]; intros h d rs Hok; simpl; [done|].
  destruct (nb_poll (ping d)) as [[[adr|p|p i|adr|[p rtt|p]]|] x]; try by intros [= <- <- <-].
  - destruct (poll_ping fuel _) as [[[rs' a'] d'']|] eqn:E; simpl; [|done]. intros [= <- <- <-]. simpl. eapply IH; [|exact E].
    by apply (learns_ok now h (set_ping x d) (RPing p rtt)).
  - by apply IH.
Qed.
Lemma poll_identify_ok now h fuel d rs a d' : cache_ok now h d -> poll_identify fuel d = Some (rs, a, d') -> cache_ok now (foldl learns h rs) d'.
Proof.
  revert d. induction fuel as [|fuel IH]; intros d Hok; simpl; [done|].
  destruct (nb_poll (identify d)) as [[[adr|p|p i|adr|[p info|p|p]]|] x]; try (by intros [= <- <- <-]); try by apply IH.
  intros [= <- <- <-]. by apply (learns_ok now h (set_identify x d) (RIdentify p info)).
Qed.
Lemma garbage_collect_cached ticks now d p : cached (garbage_collect (S ticks) now d) !! p = e ← cached d !! p; if keeps now e then Some e else None.
Proof.
  revert d. induction ticks as [|ticks IH]; intros d.
  - simpl. rewrite map_lookup_filter. destruct (cached d !! p) as [e|]; simpl; [|done]. case_guard as E; simpl; [by rewrite E|]. by destruct (keeps now e).
  - change (cached (garbage_collect (S ticks) now (set_cached (filter (fun kv => keeps now kv.2 = true) (cached d)) d)) !! p = e ← cached d !! p; if keeps now e then Some e else None).
    rewrite IH. simpl. rewrite map_lookup_filter. destruct (cached d !! p) as [e|]; simpl; [|done].
    case_guard as E; simpl; [by rewrite E|]. by destruct (keeps now e).
Qed.
Lemma keeps_expired now s i : caches now (Some s) (Some i) -> keeps now i = negb (expired now s).
Proof.
  intros (He & _ & _). unfold keeps, expired. rewrite He. destruct (left_at s); simpl; [|done]. repeat case_bool_decide; simpl; lia || done.
Qed.
Lemma garbage_collect_ok ticks now h d : cache_ok now h d -> cache_ok now h (garbage_collect ticks now d).
Proof.
  intros Hok. destruct ticks as [|ticks]; [done|]. intros p. specialize (Hok p). rewrite garbage_collect_cached.
  destruct (cached d !! p) as [i|]; simpl; [|done]. destruct (h !! p) as [s|]; [|done]. pose proof (keeps_expired now s i Hok) as ->.
  destruct (expired now s) eqn:E; [exact E|exact Hok].
Qed.
Lemma debug_poll_ok now h fuel ticks d rs a d' : cache_ok now h d -> debug_poll fuel ticks now d = Some (rs, a, d') ->
  cache_ok now (foldl learns h rs) d' /\
  (a = None -> 0 < ticks -> forall p s, foldl learns h rs !! p = Some s -> expired now s = true -> cached d' !! p = None).
Proof.
  intros Hok. unfold debug_poll. destruct (poll_ping fuel d) as [[[rs1 a1] d1]|] eqn:E1; simpl; [|done].
  pose proof (poll_ping_ok now h _ _ _ _ _ Hok E1) as H1. destruct a1 as [a1|]; [by intros [= <- <- <-]|].
  destruct (poll_identify fuel d1) as [[[rs2 a2] d2]|] eqn:E2; simpl; [|done].
  pose proof (poll_identify_ok now _ _ _ _ _ _ H1 E2) as H2. rewrite <- foldl_app in H2. destruct a2 as [a2|]; [by intros [= <- <- <-]|].
  intros [= <- <- <-]. split; [by apply garbage_collect_ok|]. intros _ Ht p s Es He. destruct ticks as [|ticks]; [lia|].
  rewrite garbage_collect_cached. specialize (H2 p). rewrite Es in H2. destruct (cached d2 !! p) as [i|]; simpl; [|done].
  by rewrite (keeps_expired now s i H2), He.
Qed.
Lemma debug_run_ok fuel l d h now : cache_ok now h d ->
  match debug_run fuel l (d, h, now) with Ok (d, h, now) => cache_ok now h d | Err _ => True | Panic _ => False end.
Proof.
  revert d h now. induction l as [|e l IH]; intros d h now Hok; [done|]. unfold debug_run. cbn [foldM].
  destruct e as [now' p pt|now' p pt|p pt pt'|p ev|now' ticks]; cbn [debug_step].
  - destruct (bool_decide _ && _) eqn:E; [|done]. apply andb_true_iff in E as [E%bool_decide_eq_true _]. apply IH, comes_ok. by eapply cache_ok_later.
  - destruct (bool_decide _ && _) eqn:E; [|done]. apply andb_true_iff in E as [E%bool_decide_eq_true Hc]. apply IH, leaves_ok; [done|]. by eapply cache_ok_later.
  - destruct (is_connected_in h p) eqn:Hc; [|done]. by apply IH, moves_ok.
  - apply IH. by destruct ev.
  - case_bool_decide; [|done]. cbn [ensure]. rstep. destruct (debug_poll _ _ _ _) as [[[rs a] d']|] eqn:E; [|done]. rstep. apply IH.
    eapply debug_poll_ok; [|exact E]. by eapply cache_ok_later.
Qed.

(** C36: a node that is connected is always known, with its endpoint, the version it last reported and the last ping
    that came back; so is one that left at most ten minutes ago, and when it comes back in that time what was
    known of it is kept, whenever the garbage collection ran.  Nothing is known of a node that never came, and a
    poll in which the collection runs forgets all that left more than ten minutes ago. *)
Theorem node_info_kept fuel l user_agent key now0 :
  match debug_run fuel l (DebugInfoBehaviour_new user_agent key, ∅, now0) with
  | Ok (d, h, now) =>
      (forall p, match h !! p with
         | None => debug_node d p = None
         | Some s => expired now s = false ->
             debug_node d p = Some (mkCachedInfo ((fun t => t + from_secs 600)%Z <$> left_at s) (seen_at s) (seen_version s) (seen_ping s))
         end) /\
      (forall now' ticks rs d', (now <= now')%Z -> 0 < ticks -> debug_poll fuel ticks now' d = Some (rs, None, d') ->
         forall p s, foldl learns h rs !! p = Some s -> expired now' s = true -> debug_node d' p = None)
  | Err _ => True
  | Panic _ => False
  end.
Proof.
  pose proof (debug_run_ok fuel l (DebugInfoBehaviour_new user_agent key) ∅ now0) as Hr.
  destruct (debug_run _ _ _) as [[[d h] now]| |]; [|done|by apply Hr]. specialize (Hr ltac:(done)). split.
  - intros p. specialize (Hr p). unfold debug_node. destruct (h !! p) as [s|], (cached d !! p) as [[]|]; simpl in *; try done.
    + intros He. destruct Hr as (-> & -> & Hv). by destruct (Hv He) as [-> ->].
    + by rewrite Hr.
  - intros now' ticks rs d' Hn Ht E. eapply debug_poll_ok; [by eapply cache_ok_later|exact E|done|done].
Qed.
End debug_info.
