(* ===== verification/NetService.v ===== *)
(** * The network service

    Models [src/network-libp2p/src/behaviour.rs] and [service_task.rs]: the behaviour that composes the custom
    protocols, the discovery and the information about nodes, and the service on top of it, from [start_service] to
    the events that its stream yields.  The code that libp2p derives for the composition and its swarm drive the three
    behaviours in any order; here that order is the sequence of inputs.  The identity, the transport and the sockets
    are libp2p's.

    The theorem: in the environment of [CustomProto] nothing panics, and the service reports every event of the
    custom protocols once, in order; its table of nodes is the set of protocols open at that point. *)
From S2P Require Import Prelude Codec PeersState Peerset Substream ProtoHandler CustomProto NetConfig Discovery DebugInfo.

(** [BehaviourOut]; the events of the DHT are those of the discovery. *)
Module BehaviourOut.
Inductive DhtEvent (Key : Type) :=
| ValueFound (results : list (Key * bytes))
| ValueNotFound (key : Key)
| ValuePut (key : Key)
| ValuePutFailed (key : Key).
Arguments ValueFound {_}.
Arguments ValueNotFound {_}.
Arguments ValuePut {_}.
Arguments ValuePutFailed {_}.
Inductive t (PeerId Multiaddr Key : Type) :=
| CustomProtocolOpen (version : Z) (peer_id : PeerId) (endpoint : ConnectedPoint Multiaddr)
| CustomProtocolClosed (peer_id : PeerId) (reason : string)
| CustomMessage (peer_id : PeerId) (message : bytes)
| Clogged (peer_id : PeerId) (messages : list bytes)
| Identified (peer_id : PeerId) (info : IdentifyInfo Multiaddr)
| PingSuccess (peer_id : PeerId) (ping_time : Z)
| Event (event : DhtEvent Key).
Arguments CustomProtocolOpen {_ _ _}.
Arguments CustomProtocolClosed {_ _ _}.
Arguments CustomMessage {_ _ _}.
Arguments Clogged {_ _ _}.
Arguments Identified {_ _ _}.
Arguments PingSuccess {_ _ _}.
Arguments Event {_ _ _}.
(** [From<CustomProtoOut>] *)
Definition from {PeerId Multiaddr Key} (other : CustomProtoOut.t PeerId (ConnectedPoint Multiaddr)) : t PeerId Multiaddr Key :=
  match other with
  | CustomProtoOut.CustomProtocolOpen version peer_id endpoint => CustomProtocolOpen version peer_id endpoint
  | CustomProtoOut.CustomProtocolClosed peer_id reason => CustomProtocolClosed peer_id reason
  | CustomProtoOut.CustomMessage peer_id message => CustomMessage peer_id message
  | CustomProtoOut.Clogged peer_id messages => Clogged peer_id messages
  end.
End BehaviourOut.

Section service.
Context {PeerId : Type} `{Countable PeerId} `{HashOrder} {Multiaddr : Type} `{EqDecision Multiaddr}.
Context {KD : Kademlia PeerId Multiaddr} {PI : PingIdentify PeerId Multiaddr}.
Context (clock : nat -> Z).
Notation Out := (BehaviourOut.t PeerId Multiaddr Key).
Notation Proto := (CustomProto PeerId Multiaddr).

(** ** [Behaviour] *)

Record Behaviour := mkBehaviour {
  custom_protocols : Proto;
  discovery : DiscoveryBehaviour (PeerId := PeerId) (Multiaddr := Multiaddr);
  debug_info : DebugInfoBehaviour (PeerId := PeerId) (Multiaddr := Multiaddr);
  events : list Out
}.
Implicit Types b : Behaviour.
Definition set_custom_protocols cp b : Behaviour := mkBehaviour cp (discovery b) (debug_info b) (events b).
Definition set_discovery d b : Behaviour := mkBehaviour (custom_protocols b) d (debug_info b) (events b).
Definition push_out (e : Out) b : Behaviour := mkBehaviour (custom_protocols b) (discovery b) (debug_info b) (events b ++ [e]).

(** [new]: the versions of the protocol are the bytes of a text. *)
Definition Behaviour_new (now : Z) (protocol : bytes) (user_agent : string) (local_public_key : PublicKey) (local_id : PeerId)
    (known_addresses : list (PeerId * Multiaddr)) (mdns : option Mdns) (allow_private_ipv4 : bool) (ps : Peerset PeerId) : Behaviour :=
  let versions := ascii_bytes "/stargate/0.1" in
  mkBehaviour (CustomProto_new protocol versions ps) (DiscoveryBehaviour_new now local_id known_addresses mdns allow_private_ipv4)
    (DebugInfoBehaviour_new user_agent local_public_key) [].

(** The API of the behaviour *)
Definition behaviour_send (target : PeerId) (data : bytes) b : Behaviour := set_custom_protocols (send_packet target data (custom_protocols b)) b.
Definition behaviour_known_peers b : list PeerId := known_peers (discovery b).
Definition behaviour_is_enabled b (peer_id : PeerId) : bool := is_enabled (custom_protocols b) peer_id.
Definition behaviour_is_open b (peer_id : PeerId) : bool := is_open (custom_protocols b) peer_id.
Definition behaviour_add_known_address (peer_id : PeerId) (addr : Multiaddr) b : Behaviour :=
  set_discovery (add_known_address peer_id addr (discovery b)) b.
Definition behaviour_drop_node (peer_id : PeerId) b : res Behaviour :=
  cp ← disconnect_peer clock peer_id (custom_protocols b); Ok (set_custom_protocols cp b).

(** [inject_event] of the events of the three behaviours *)
Definition inject_custom (event : CustomProtoOut.t PeerId (ConnectedPoint Multiaddr)) b : Behaviour := push_out (BehaviourOut.from event) b.
Definition behaviour_discovered (peer_id : PeerId) b : res Behaviour :=
  cp ← add_discovered_nodes clock [peer_id] (custom_protocols b); Ok (set_custom_protocols cp b).
Definition inject_debug (event : DebugInfoEvent (PeerId := PeerId) (Multiaddr := Multiaddr)) b : res Behaviour :=
  match event with
  | Identified peer_id info =>
      let addrs := if bool_decide (30 < length (listen_addrs info)) then take 30 (listen_addrs info) else listen_addrs info in
      behaviour_discovered peer_id (foldl (fun b addr => set_discovery (add_self_reported_address peer_id addr (discovery b)) b) b addrs)
  end.
Definition inject_discovery (out : DiscoveryOut (PeerId := PeerId)) b : res Behaviour :=
  match out with
  | UnroutablePeer _ => Ok b
  | Discovered peer_id => behaviour_discovered peer_id b
  | ValueFound results => Ok (push_out (BehaviourOut.Event (BehaviourOut.ValueFound results)) b)
  | ValueNotFound key => Ok (push_out (BehaviourOut.Event (BehaviourOut.ValueNotFound key)) b)
  | ValuePut key => Ok (push_out (BehaviourOut.Event (BehaviourOut.ValuePut key)) b)
  | ValuePutFailed key => Ok (push_out (BehaviourOut.Event (BehaviourOut.ValuePutFailed key)) b)
  end.
(** [poll] *)
Definition behaviour_poll b : option Out * Behaviour :=
  match events b with
  | [] => (None, b)
  | e :: rest => (Some e, mkBehaviour (custom_protocols b) (discovery b) (debug_info b) rest)
  end.

(** ** [Service] *)

Inductive ServiceEvent :=
| OpenedCustomProtocol (peer_id : PeerId) (version : Z) (debug_info : string)
| ClosedCustomProtocol (peer_id : PeerId) (debug_info : string)
| CustomMessage (peer_id : PeerId) (message : bytes)
| Clogged (peer_id : PeerId) (messages : list bytes).
Record NodeInfo := mkNodeInfo {
  ni_endpoint : ConnectedPoint Multiaddr;
  ni_client_version : option string;
  ni_latest_ping : option Z
}.
Record Service := mkService {
  swarm : Behaviour;
  nodes_info : gmap PeerId NodeInfo;
  injected_events : list ServiceEvent
}.
Implicit Types s : Service.
Definition set_swarm b s : Service := mkService b (nodes_info s) (injected_events s).
Definition set_nodes_info m s : Service := mkService (swarm s) m (injected_events s).

(** The queries and the calls that the service passes on *)
Definition service_is_open s (peer_id : PeerId) : bool := behaviour_is_open (swarm s) peer_id.
Definition connected_peers s : gset PeerId := dom (nodes_info s).
Definition node_endpoint s (peer_id : PeerId) : option (ConnectedPoint Multiaddr) := ni_endpoint <$> nodes_info s !! peer_id.
Definition node_client_version s (peer_id : PeerId) : option string := info ← nodes_info s !! peer_id; ni_client_version info.
Definition send_custom_message (peer_id : PeerId) (message : bytes) s : Service := set_swarm (behaviour_send peer_id message (swarm s)) s.
Definition drop_node (peer_id : PeerId) s : res Service :=
  match nodes_info s !! peer_id with
  | Some _ => b ← behaviour_drop_node peer_id (swarm s); Ok (set_swarm b s)
  | None => Ok s
  end.
Definition service_add_known_address (peer_id : PeerId) (addr : Multiaddr) s : Service := set_swarm (behaviour_add_known_address peer_id addr (swarm s)) s.

(** [peer_debug_info]; [show_node] is the text of the identity, the version and the endpoint. *)
Context (show_node : PeerId -> option string -> ConnectedPoint Multiaddr -> string).
Definition peer_debug_info s (who : PeerId) : string :=
  match nodes_info s !! who with Some info => show_node who (ni_client_version info) (ni_endpoint info) | None => "unknown" end.

(** The body of the loop of [poll_swarm] on an event of the swarm: [None] goes on with the loop. *)
Definition swarm_event (ev : Out) s : option ServiceEvent * Service :=
  match ev with
  | BehaviourOut.Event _ => (None, s)
  | BehaviourOut.CustomProtocolOpen version peer_id endpoint =>
      let s := set_nodes_info (<[peer_id := mkNodeInfo endpoint None None]> (nodes_info s)) s in
      (Some (OpenedCustomProtocol peer_id version (peer_debug_info s peer_id)), s)
  | BehaviourOut.CustomProtocolClosed peer_id _ =>
      let debug_info := peer_debug_info s peer_id in
      (Some (ClosedCustomProtocol peer_id debug_info), set_nodes_info (delete peer_id (nodes_info s)) s)
  | BehaviourOut.CustomMessage peer_id message => (Some (CustomMessage peer_id message), s)
  | BehaviourOut.Clogged peer_id messages => (Some (Clogged peer_id messages), s)
  | BehaviourOut.Identified peer_id info =>
      (None, set_nodes_info (alter (fun n => mkNodeInfo (ni_endpoint n) (Some (agent_version info)) (ni_latest_ping n)) peer_id (nodes_info s)) s)
  | BehaviourOut.PingSuccess peer_id ping_time =>
      (None, set_nodes_info (alter (fun n => mkNodeInfo (ni_endpoint n) (ni_client_version n) (Some ping_time)) peer_id (nodes_info s)) s)
  end.
(** [poll_swarm] and [poll]; the swarm yields the events of its behaviour, and so as many turns as there are
    events, and one, end the loop. *)
Fixpoint poll_swarm_loop (fuel : nat) s : option (option ServiceEvent * Service) :=
  match fuel with
  | 0 => None
  | S fuel =>
      match behaviour_poll (swarm s) with
      | (None, b) => Some (None, set_swarm b s)
      | (Some ev, b) =>
          match swarm_event ev (set_swarm b s) with
          | (Some event, s) => Some (Some event, s)
          | (None, s) => poll_swarm_loop fuel s
          end
      end
  end.
Definition poll_swarm s : option (option ServiceEvent * Service) := poll_swarm_loop (S (length (events (swarm s)))) s.
Definition service_poll s : option (option ServiceEvent * Service) :=
  match injected_events s with
  | event :: rest => Some (Some event, mkService (swarm s) (nodes_info s) rest)
  | [] => poll_swarm s
  end.

(** ** [start_service] *)

Context {NK : NodeKeys} {MA : Multiaddrs PeerId Multiaddr} (public_of : Keypair -> PublicKey) (into_peer_id : PublicKey -> PeerId).

(** The addresses that parse *)
Definition parse_nodes (l : list string) : list (PeerId * Multiaddr) :=
  omap (fun node => match parse_str_addr node with inl x => Some x | inr _ => None end) l.
Definition peerset_config (config : NetworkConfiguration Multiaddr) : PeersetConfig PeerId :=
  mkPeersetConfig (nc_in_peers config) (nc_out_peers config) (parse_nodes (boot_nodes config)).*1
    (match non_reserved_mode config with Deny => true | Accept => false end) (parse_nodes (nc_reserved_nodes config)).*1.
(** [mdns] is what [Mdns::new] gives, [None] if it fails. *)
Definition start_service (now : Z) (parent : string -> option string) (generate : SecretKey) (mdns : option Mdns) (protocol : bytes)
    (config : NetworkConfiguration Multiaddr) (fs : Fs) : res ((Service + IoError) * Fs) :=
  match match net_config_path config with Some path => create_dir_all path fs | None => inl tt end with
  | inr e => Ok (inr e, fs)
  | inl _ =>
      let known_addresses := parse_nodes (boot_nodes config) ++ parse_nodes (nc_reserved_nodes config) in
      ps ← from_config clock (peerset_config config);
      match into_keypair parent generate (node_key config) fs with
      | (inr e, fs) => Ok (inr e, fs)
      | (inl local_identity, fs) =>
          let local_public := public_of local_identity in
          let user_agent := (nc_client_version config +:+ " (" +:+ node_name config +:+ ")")%string in
          let enable_mdns := match transport config with MemoryOnly => false | Normal enable_mdns _ => enable_mdns end in
          let allow_private_ipv4 := match transport config with MemoryOnly => false | Normal _ allow_private_ipv4 => allow_private_ipv4 end in
          let behaviour := Behaviour_new now protocol user_agent local_public (into_peer_id local_public) known_addresses
                             (if enable_mdns then mdns else None) allow_private_ipv4 ps in
          Ok (inl (mkService behaviour ∅ []), fs)
      end
  end.

(** ** The service in its environment *)

(** What the swarm does with the custom protocols, as in [CustomProto], with the events of the other two behaviours and
    the calls of the user, in any order. *)
Inductive service_input :=
| SProto (i : input PeerId Multiaddr)
| SDebug (event : DebugInfoEvent (PeerId := PeerId) (Multiaddr := Multiaddr))
| SDiscovery (out : DiscoveryOut (PeerId := PeerId))
| SSend (peer_id : PeerId) (message : bytes)
| SDrop (peer_id : PeerId)
| SKnownAddress (peer_id : PeerId) (addr : Multiaddr)
| SPoll.
Notation Action := (BehaviourAction (PeerId := PeerId) (Multiaddr := Multiaddr)).
Notation World := (Service * gmap PeerId phase)%type.

(** An event that a poll of the custom protocols generates is injected; other actions go to the swarm. *)
Definition proto_step (fuel : nat) (i : input PeerId Multiaddr) (w : World) : res (list Action * World) :=
  let '(s, env) := w in
  ensure (timely i (custom_protocols (swarm s)) && allowed i env) "contract broken";;
  '(out, cp) ← cp_step clock fuel i (custom_protocols (swarm s));
  let b := set_custom_protocols cp (swarm s) in
  let b := match out with Some (GenerateEvent ev) => inject_custom ev b | _ => b end in
  Ok (option_list out, (set_swarm b s, env_step i out env)).
(** A step: the actions of the custom protocols, and the events of the service *)
Definition service_step (fuel : nat) (x : service_input) (w : World) : res (list Action * list ServiceEvent * World) :=
  let '(s, env) := w in
  match x with
  | SProto i => '(outs, w) ← proto_step fuel i w; Ok (outs, [], w)
  | SDebug event => b ← inject_debug event (swarm s); Ok ([], [], (set_swarm b s, env))
  | SDiscovery out => b ← inject_discovery out (swarm s); Ok ([], [], (set_swarm b s, env))
  | SSend peer_id message => Ok ([], [], (send_custom_message peer_id message s, env))
  | SDrop peer_id => s ← drop_node peer_id s; Ok ([], [], (s, env))
  | SKnownAddress peer_id addr => Ok ([], [], (service_add_known_address peer_id addr s, env))
  | SPoll => match service_poll s with Some (event, s) => Ok ([], option_list event, (s, env)) | None => Panic "polls for ever" end
  end.
Fixpoint service_run (fuel : nat) (l : list service_input) (w : World) : res (list Action * list ServiceEvent * World) :=
  match l with
  | [] => Ok ([], [], w)
  | x :: l =>
      '(outs, reported, w) ← service_step fuel x w;
      '(outs', reported', w) ← service_run fuel l w;
      Ok (outs ++ outs', reported ++ reported', w)
  end.
Definition service_ids (x : service_input) : gset PeerId :=
  match x with
  | SProto i => input_ids i
  | SDebug (Identified p _) | SDiscovery (Discovered p) => {[p]}
  | _ => ∅
  end.

(** ** What the service promises *)

(** The events of the custom protocols, in their actions and in the queue of the behaviour *)
Definition generated (e : Action) : option (CustomProtoOut.t PeerId (ConnectedPoint Multiaddr)) :=
  match e with GenerateEvent ev => Some ev | _ => None end.
Definition custom_of (o : Out) : option (CustomProtoOut.t PeerId (ConnectedPoint Multiaddr)) :=
  match o with
  | BehaviourOut.CustomProtocolOpen version peer_id endpoint => Some (CustomProtoOut.CustomProtocolOpen version peer_id endpoint)
  | BehaviourOut.CustomProtocolClosed peer_id reason => Some (CustomProtoOut.CustomProtocolClosed peer_id reason)
  | BehaviourOut.CustomMessage peer_id message => Some (CustomProtoOut.CustomMessage peer_id message)
  | BehaviourOut.Clogged peer_id messages => Some (CustomProtoOut.Clogged peer_id messages)
  | _ => None
  end.
(** An event of the service for one of the custom protocols *)
Definition reports (ev : CustomProtoOut.t PeerId (ConnectedPoint Multiaddr)) (r : ServiceEvent) : Prop :=
  match ev with
  | CustomProtoOut.CustomProtocolOpen version p pt => r = OpenedCustomProtocol p version (show_node p None pt)
  | CustomProtoOut.CustomProtocolClosed p _ => exists pt, r = ClosedCustomProtocol p (show_node p None pt)
  | CustomProtoOut.CustomMessage p message => r = CustomMessage p message
  | CustomProtoOut.Clogged p messages => r = Clogged p messages
  end.
Definition plain (o : Out) : bool := match o with BehaviourOut.Identified _ _ | BehaviourOut.PingSuccess _ _ => false | _ => true end.
Record follows (outs : list Action) (reported : list ServiceEvent) s : Prop := {
  fo_injected : injected_events s = [];
  fo_plain : Forall (fun o => plain o = true) (events (swarm s));
  fo_unknown : forall p n, nodes_info s !! p = Some n -> ni_client_version n = None /\ ni_latest_ping n = None;
  fo_events : exists es, omap generated outs = es ++ omap custom_of (events (swarm s)) /\ Forall2 reports es reported /\
    api_replay ∅ (GenerateEvent <$> es) = Some (connected_peers s)
}.

Lemma replay_generated O (outs : list Action) : api_replay O outs = api_replay O (GenerateEvent <$> omap generated outs).
Proof.
  revert O. induction outs as [|[p|p e|ev] outs IH]; intros O; [done|apply IH|apply IH|].
  cbn [omap list_omap generated fmap list_fmap api_replay]. destruct (api_step O (GenerateEvent ev)) as [O'|]; [apply (IH O')|done].
Qed.
Lemma custom_of_from ev : custom_of (BehaviourOut.from ev) = Some ev.
Proof. by destruct ev. Qed.

(** One event of the custom protocols reaches the service. *)
Lemma swarm_event_ok s ev o O : custom_of o = Some ev -> api_step (connected_peers s) (GenerateEvent ev) = Some O ->
  (forall p n, nodes_info s !! p = Some n -> ni_client_version n = None /\ ni_latest_ping n = None) ->
  exists r s', swarm_event o s = (Some r, s') /\ reports ev r /\ connected_peers s' = O /\ swarm s' = swarm s /\
    injected_events s' = injected_events s /\
    forall p n, nodes_info s' !! p = Some n -> ni_client_version n = None /\ ni_latest_ping n = None.
Proof.
  intros Ho HO Hu. destruct o as [v p pt|p reason|p m|p ms|p i|p t|e]; simplify_eq/=; case_bool_decide as Hp; simplify_eq; eexists _, _; split; try done; cbn [reports].
  - split_and!; try done.
    + unfold peer_debug_info. simpl. by rewrite lookup_insert_eq.
    + unfold connected_peers. simpl. by rewrite dom_insert_L.
    + simpl. intros q n [[<- <-]|[_ Hq]]%lookup_insert_Some; [done|by eapply Hu].
  - unfold connected_peers in Hp. apply elem_of_dom in Hp as [n Hn]. destruct (Hu _ _ Hn) as [Hv _]. split_and!; try done.
    + exists (ni_endpoint n). unfold peer_debug_info. by rewrite Hn, Hv.
    + unfold connected_peers. simpl. by rewrite dom_delete_L.
    + simpl. intros q n' [_ Hq]%lookup_delete_Some. by eapply Hu.
Qed.
Lemma poll_swarm_loop_ok outs reported fuel s : follows outs reported s -> is_Some (api_replay ∅ outs) -> length (events (swarm s)) < fuel ->
  exists event s', poll_swarm_loop fuel s = Some (event, s') /\ follows outs (reported ++ option_list event) s' /\
    custom_protocols (swarm s') = custom_protocols (swarm s) /\ (event = None -> events (swarm s') = []).
Proof.
  revert s. induction fuel as [|fuel IH]; intros s Hf Hr Hl; [lia|]. cbn [poll_swarm_loop]. unfold behaviour_poll.
  destruct (events (swarm s)) as [|o rest] eqn:Ee.
  { eexists None, _. split; [done|]. simpl. rewrite app_nil_r. by destruct s. }
  destruct Hf as [Hi Hp Hu (es & Hes & HF & HO)]. rewrite Ee in Hp, Hes. apply Forall_cons in Hp as [Hpo Hp]. simpl in Hl.
  destruct (custom_of o) as [ev|] eqn:Ho.
  - assert (omap generated outs = (es ++ [ev]) ++ omap custom_of rest) as Hes'.
    { rewrite Hes, <- (assoc_L (++)). cbn [omap list_omap]. by rewrite Ho. }
    assert (exists O, api_step (connected_peers s) (GenerateEvent ev) = Some O) as [O HO'].
    { rewrite replay_generated, Hes', !fmap_app, !api_replay_app, HO in Hr. cbn in Hr.
      destruct (match ev with CustomProtoOut.CustomProtocolOpen _ _ _ => _ | _ => _ end) as [O|] eqn:E; [by exists O|by destruct Hr]. }
    destruct (swarm_event_ok (set_swarm (mkBehaviour (custom_protocols (swarm s)) (discovery (swarm s)) (debug_info (swarm s)) rest) s) ev o O Ho HO' Hu)
      as (r & s' & -> & Hrep & Hc & Hsw & Hin & Hu').
    exists (Some r), s'. split_and!; [done| |by rewrite Hsw|done]. split; [by rewrite Hin|by rewrite Hsw|done|].
    exists (es ++ [ev]). rewrite Hsw, Hc. split_and!; [done|by apply Forall2_app; [|constructor]|].
    rewrite fmap_app, api_replay_app, HO. cbn [mbind option_bind fmap list_fmap api_replay]. by rewrite HO'.
  - destruct o; try done. cbn [swarm_event].
    apply (IH (set_swarm (mkBehaviour (custom_protocols (swarm s)) (discovery (swarm s)) (debug_info (swarm s)) rest) s)); [|done|simpl; lia]. split; try done. exists es. split_and!; try done.
Qed.
Lemma service_poll_ok outs reported s : follows outs reported s -> is_Some (api_replay ∅ outs) ->
  exists event s', service_poll s = Some (event, s') /\ follows outs (reported ++ option_list event) s' /\
    custom_protocols (swarm s') = custom_protocols (swarm s) /\ (event = None -> events (swarm s') = []).
Proof.
  intros Hf Hr. unfold service_poll, poll_swarm. rewrite (fo_injected _ _ _ Hf). apply poll_swarm_loop_ok; [done..|lia].
Qed.

(** Changes of the other parts *)
Lemma follows_swarm outs reported s b : follows outs reported s -> events b = events (swarm s) -> follows outs reported (set_swarm b s).
Proof. intros [Hi Hp Hu He] E. split; simpl; rewrite ?E; done. Qed.
Lemma follows_push outs reported s b o : follows outs reported s -> events b = events (swarm s) -> custom_of o = None -> plain o = true ->
  follows outs reported (set_swarm (push_out o b) s).
Proof.
  intros [Hi Hp Hu (es & Hes & He)] E Ho Hpo. split; simpl; rewrite ?E; [done|apply Forall_app; by repeat constructor|done|].
  exists es. rewrite omap_app. cbn [omap list_omap]. by rewrite Ho, app_nil_r.
Qed.
Lemma follows_action outs reported s cp out : follows outs reported s ->
  let b := set_custom_protocols cp (swarm s) in
  follows (outs ++ option_list out) reported (set_swarm (match out with Some (GenerateEvent ev) => inject_custom ev b | _ => b end) s).
Proof.
  intros Hf b. destruct Hf as [Hi Hp Hu (es & Hes & HF & HO)].
  destruct out as [[p|p e|ev]|]; split; simpl; try done; try (exists es; rewrite ?app_nil_r, ?omap_app, ?Hes; cbn; by rewrite ?app_nil_r).
  - apply Forall_app. split; [done|]. constructor; [by destruct ev|done].
  - exists es. rewrite !omap_app, Hes, <- (assoc_L (++)). split_and!; try done. cbn [omap list_omap generated]. by rewrite custom_of_from.
Qed.

Context (clock_mono : forall i j, i <= j -> (clock i <= clock j)%Z).
Context (U : gset PeerId) (HU : (Z.of_nat (size U) <= u32_max)%Z).

Definition service_ok inc env (outs : list Action) reported s : Prop :=
  good clock U inc env outs (custom_protocols (swarm s)) /\ follows outs reported s.
Lemma good_replay inc env (outs : list Action) cp : good clock U inc env outs cp -> is_Some (api_replay ∅ outs).
Proof.
  intros [Hi _]. destruct (iv_api _ _ _ _ _ _ Hi) as (O & HO & _). rewrite api_replay_app in HO. destruct (api_replay ∅ outs); [eauto|done].
Qed.
Notation index s := (next_incoming_index (custom_protocols (swarm s))).

(** A step of the custom protocols alone; the other steps that reach them are such steps too. *)
Lemma behaviour_discovered_ok inc env outs reported s b p : service_ok inc env outs reported s -> custom_protocols b = custom_protocols (swarm s) ->
  events b = events (swarm s) -> p ∈ U -> (index s < u64_max)%Z ->
  exists b' inc', behaviour_discovered p b = Ok b' /\ service_ok inc' env outs reported (set_swarm b' s) /\ (index (set_swarm b' s) <= index s + 1)%Z.
Proof.
  intros [Hg Hf] Ec Ee Hp Hn.
  destruct (cp_step_ok clock clock_mono U HU inc env outs _ (IDiscovered [p]) Hg) as (N & out & cp' & inc' & HN & Hg' & Hn' & _); [done..|set_solver|done|].
  specialize (HN N ltac:(lia)). cbn [cp_step] in HN. unfold behaviour_discovered. rewrite Ec.
  destruct (add_discovered_nodes clock [p] _) as [cp1| |]; simplify_eq/=. rewrite app_nil_r in Hg'.
  eexists _, inc'. split; [done|]. split; [|done]. split; [done|]. by apply follows_swarm.
Qed.
Lemma proto_step_ok inc env outs reported s i : service_ok inc env outs reported s -> input_ids i ⊆ U -> (index s < u64_max)%Z ->
  exists N r, (forall fuel, N <= fuel -> proto_step fuel i (s, env) = r) /\
    match r with
    | Ok (outs', (s', env')) => exists inc', service_ok inc' env' (outs ++ outs') reported s' /\ (index s' <= index s + 1)%Z
    | Err _ => True
    | Panic _ => False
    end.
Proof.
  intros [Hg Hf] Hids Hn. unfold proto_step. destruct (timely i _ && allowed i env) eqn:Hok; [|by exists 0, (Err "contract broken")]. apply andb_true_iff in Hok as [Ht Ha].
  destruct (cp_step_ok clock clock_mono U HU inc env outs _ i Hg Ht Ha Hids Hn) as (N & out & cp' & inc' & HN & Hg' & Hn' & _).
  exists N. eexists. split; [intros fuel Hfuel; cbn [ensure]; rstep; rewrite HN by done; rstep; reflexivity|].
  exists inc'. split; [split; [|by apply follows_action]|]; by destruct out as [[]|].
Qed.
Lemma drop_node_ok inc env outs reported s p : service_ok inc env outs reported s -> (index s < u64_max)%Z ->
  exists s' inc', drop_node p s = Ok s' /\ service_ok inc' env outs reported s' /\ (index s' <= index s + 1)%Z.
Proof.
  intros [Hg Hf] Hn. unfold drop_node. destruct (nodes_info s !! p); [|exists s, inc; split_and!; [done|done|lia]].
  destruct (cp_step_ok clock clock_mono U HU inc env outs _ (IDisconnectPeer p) Hg) as (N & out & cp' & inc' & HN & Hg' & Hn' & _); [done..|set_solver|done|].
  specialize (HN N ltac:(lia)). cbn [cp_step] in HN. unfold behaviour_drop_node.
  destruct (disconnect_peer clock p _) as [cp1| |]; simplify_eq/=. rewrite app_nil_r in Hg'.
  eexists _, inc'. split; [done|]. split; [|done]. split; [done|]. by apply follows_swarm.
Qed.
Lemma send_custom_message_ok inc env outs reported s p m : service_ok inc env outs reported s -> (index s < u64_max)%Z ->
  exists inc', service_ok inc' env outs reported (send_custom_message p m s) /\ (index (send_custom_message p m s) <= index s + 1)%Z.
Proof.
  intros [Hg Hf] Hn.
  destruct (cp_step_ok clock clock_mono U HU inc env outs _ (ISendPacket p m) Hg) as (N & out & cp' & inc' & HN & Hg' & Hn' & _); [done..|set_solver|done|].
  specialize (HN N ltac:(lia)). cbn [cp_step] in HN. simplify_eq/=. rewrite app_nil_r in Hg'.
  exists inc'. split; [|done]. split; [done|]. by apply follows_swarm.
Qed.

(** A step or a run from [s], whose actions and events come after [outs] and [reported] *)
Definition service_goes outs reported s n (r : res (list Action * list ServiceEvent * World)) : Prop :=
  match r with
  | Ok (outs', reported', (s', env')) => exists inc', service_ok inc' env' (outs ++ outs') (reported ++ reported') s' /\ (index s' <= index s + n)%Z
  | Err _ => True
  | Panic _ => False
  end.
Lemma self_reported_fold p l b :
  let b' := foldl (fun b addr => set_discovery (add_self_reported_address p addr (discovery b)) b) b l in
  custom_protocols b' = custom_protocols b /\ events b' = events b.
Proof. revert b. induction l as [|adr l IH]; intros b; [done|]. cbn [foldl]. apply (IH (set_discovery _ b)). Qed.
Lemma service_step_ok inc env outs reported s x : service_ok inc env outs reported s -> service_ids x ⊆ U -> (index s < u64_max)%Z ->
  exists N r, (forall fuel, N <= fuel -> service_step fuel x (s, env) = r) /\ service_goes outs reported s 1 r.
Proof.
  intros Hok Hids Hn. pose proof Hok as [Hg Hf].
  assert (forall s' inc', (forall fuel, service_step fuel x (s, env) = Ok ([], [], (s', env))) -> service_ok inc' env outs reported s' -> (index s' <= index s + 1)%Z ->
    exists N r, (forall fuel, N <= fuel -> service_step fuel x (s, env) = r) /\ service_goes outs reported s 1 r) as Hdone.
  { intros s' inc' E Hok' Hn'. exists 0, (Ok ([], [], (s', env))). split; [by intros|]. exists inc'. by rewrite !app_nil_r. }
  destruct x as [i|[p info]|out|p m|p|p a|]; cbn [service_step] in Hdone |- *.
  - destruct (proto_step_ok inc env outs reported s i Hok Hids Hn) as (N & r & HN & Hr).
    exists N, ('(outs, w) ← r; Ok (outs, [], w)). split; [intros fuel Hfuel; by rewrite HN|].
    destruct r as [[outs' [s' env']]| |]; [|done..]. unfold service_goes. rstep. by rewrite app_nil_r.
  - unfold inject_debug in *. destruct (self_reported_fold p (if bool_decide (30 < length (listen_addrs info)) then take 30 (listen_addrs info) else listen_addrs info) (swarm s)) as [Ec Ee].
    destruct (behaviour_discovered_ok inc env outs reported s _ p Hok Ec Ee) as (b' & inc' & E & Hok' & Hn'); [set_solver|done|].
    rewrite E in *. by eapply Hdone.
  - destruct out as [p|p|rs|k|k|k]; cbn [inject_discovery] in *.
    1: destruct (behaviour_discovered_ok inc env outs reported s (swarm s) p Hok) as (b' & inc' & E & Hok' & Hn'); [done..|set_solver|done|rewrite E in *; by eapply Hdone].
    all: eapply (Hdone _ inc); [done|split; [done|]|simpl; lia].
    1: by apply follows_swarm.
    all: by apply follows_push.
  - destruct (send_custom_message_ok inc env outs reported s p m Hok Hn) as (inc' & Hok' & Hn'). by eapply Hdone.
  - destruct (drop_node_ok inc env outs reported s p Hok Hn) as (s' & inc' & E & Hok' & Hn'). rewrite E in *. by eapply Hdone.
  - eapply (Hdone _ inc); [done|split; [done|by apply follows_swarm]|simpl; lia].
  - destruct (service_poll_ok outs reported s Hf (good_replay _ _ _ _ Hg)) as (event & s' & E & Hf' & Hc & _). rewrite E in *.
    exists 0. eexists. split; [done|]. exists inc. rewrite app_nil_r. unfold service_ok. rewrite Hc. split; [done|lia].
Qed.
Lemma service_run_ok l inc env outs reported s : service_ok inc env outs reported s -> Forall (fun x => service_ids x ⊆ U) l ->
  (index s + Z.of_nat (length l) <= u64_max)%Z ->
  exists N, forall fuel, N <= fuel -> service_goes outs reported s (Z.of_nat (length l)) (service_run fuel l (s, env)).
Proof.
  revert inc env outs reported s. induction l as [|x l IH]; intros inc env outs reported s Hok Hids Hn.
  { exists 0. intros fuel _. exists inc. rewrite !app_nil_r. split; [done|simpl; lia]. }
  apply Forall_cons in Hids as [Hx Hl]. simpl length in Hn |- *. cbn [service_run].
  destruct (service_step_ok inc env outs reported s x Hok Hx) as (N1 & r & HN1 & Hr); [lia|].
  destruct r as [[[outs1 rep1] [s1 env1]]|e|e]; [|by exists N1; intros fuel Hf; rewrite HN1|done].
  destruct Hr as (inc1 & Hok1 & Hn1). destruct (IH inc1 env1 _ _ s1 Hok1 Hl) as (N2 & HN2); [lia|].
  exists (N1 `max` N2). intros fuel Hf. rewrite HN1 by lia. rstep. specialize (HN2 fuel ltac:(lia)).
  destruct (service_run fuel l (s1, env1)) as [[[outs2 rep2] [s2 env2]]|e|e]; [|done..]. rstep.
  destruct HN2 as (inc2 & Hok2 & Hn2). exists inc2. rewrite !(assoc_L (++)). split; [done|lia].
Qed.

(** Whether a poll answers tells whether an event is left. *)
Lemma service_poll_answers outs reported s : follows outs reported s -> is_Some (api_replay ∅ outs) ->
  exists event s', service_poll s = Some (event, s') /\ (event = None <-> omap custom_of (events (swarm s)) = []).
Proof.
  intros Hf Hr. destruct (service_poll_ok outs reported s Hf Hr) as (event & s' & E & Hf' & _ & Hend). exists event, s'. split; [done|].
  destruct Hf as [_ _ _ (es & Hes & HF & _)], Hf' as [_ _ _ (es' & Hes' & HF' & _)].
  apply Forall2_length in HF, HF'. rewrite Hes in Hes'. apply (f_equal length) in Hes'. rewrite !length_app in Hes'. split.
  - intros ->. rewrite (Hend eq_refl), length_app in *. simpl in *. apply length_zero_iff_nil. lia.
  - intros Hnil. rewrite Hnil, length_app in *. destruct event; [simpl in *; lia|done].
Qed.
(** Once no event is left, the table has the protocols that are open. *)
Lemma caught_up_is_open inc env outs reported s p : service_ok inc env outs reported s -> omap custom_of (events (swarm s)) = [] ->
  omap generated (cp_events (custom_protocols (swarm s))) = [] -> service_is_open s p = bool_decide (p ∈ connected_peers s).
Proof.
  intros [[Hi _] [_ _ _ (es & Hes & _ & HO)]] Hnil Hcp. rewrite Hnil, app_nil_r in Hes. destruct (iv_api _ _ _ _ _ _ Hi) as (O & HO' & Hps).
  rewrite replay_generated, omap_app, Hes, Hcp, app_nil_r, HO in HO'. injection HO' as <-. by apply (peer_inv_is_open _ _ _ _ p (Hps p)).
Qed.
Lemma start_service_ok now parent generate mdns0 protocol config fs :
  in_u32 (nc_in_peers config) -> in_u32 (nc_out_peers config) ->
  list_to_set (parse_nodes (nc_reserved_nodes config)).*1 ⊆ U -> list_to_set (parse_nodes (boot_nodes config)).*1 ⊆ U ->
  match start_service now parent generate mdns0 protocol config fs with
  | Ok (inl s, _) => service_ok ∅ ∅ [] [] s /\ index s = 0%Z
  | Ok (inr _, _) => True
  | Err _ | Panic _ => False
  end.
Proof.
  intros Hin Hout Hr Hb. unfold start_service. destruct (match net_config_path config with Some path => _ | None => _ end); [|done].
  destruct (start_ok clock clock_mono U HU protocol (ascii_bytes "/stargate/0.1") (peerset_config config) Hin Hout Hr Hb (Multiaddr := Multiaddr)) as (cp & E & Hg & Hn).
  unfold start in E. destruct (from_config clock (peerset_config config)) as [ps| |]; rstep; [|done..]. injection E as <-.
  destruct (into_keypair _ _ _ _) as [[kp|e] fs']; [|done]. split; [|done]. split; [done|].
  split; try done. exists []. split_and!; [done|constructor|]. unfold connected_peers. simpl. by rewrite dom_empty_L.
Qed.

End service.
