(* ===== verification/NetState.v ===== *)
(** * The state of the network, for diagnostics

    Models [Service::state] of [src/network-libp2p/src/service_task.rs], the records of [src/network-libp2p/src/lib.rs]
    that it fills and [Peerset::debug_info] of [src/network-libp2p/peerset/src/lib.rs].  The function takes [&mut self]
    for a reason: to tell the reputations the manager of the peers first lets the time since its last change pass.
    The text of an identity, the addresses of the swarm and the meter of the transport are libp2p's.

    The theorem: after any run of the service a snapshot is answered, it says what the tables say, and the service goes
    on as if it had not been taken. *)
From S2P Require Import Prelude Codec PeersState Peerset Substream ProtoHandler CustomProto NetConfig Discovery DebugInfo NetService.

(** [collect::<HashMap<_, _>>()]: a later entry replaces an earlier one. *)
Definition collect_map {V : Type} (l : list (string * V)) : gmap string V := foldl (fun m kv => <[kv.1 := kv.2]> m) ∅ l.

Section state.
Context {PeerId : Type} `{Countable PeerId} `{HashOrder} {Multiaddr : Type} `{Countable Multiaddr}.
Context {KD : Kademlia PeerId Multiaddr} {PI : PingIdentify PeerId Multiaddr}.
Context (clock : nat -> Z) (to_base58 : PeerId -> string).
Notation Service := (Service (PeerId := PeerId) (Multiaddr := Multiaddr)).
Notation Behaviour := (Behaviour (PeerId := PeerId) (Multiaddr := Multiaddr)).

(** ** The records *)

Inductive NetworkStatePeerEndpoint :=
| Dialing (address : Multiaddr)
| Listening (local_addr send_back_addr : Multiaddr).
(** [From<ConnectedPoint>] *)
Definition endpoint_from (endpoint : ConnectedPoint Multiaddr) : NetworkStatePeerEndpoint :=
  match endpoint with
  | PointDialer address => Dialing address
  | PointListener local_addr send_back_addr => Listening local_addr send_back_addr
  end.
Record NetworkStatePeer := mkNetworkStatePeer {
  nsp_endpoint : NetworkStatePeerEndpoint;
  version_string : option string;
  latest_ping_time : option Z;
  nsp_enabled : bool;
  nsp_open : bool;
  nsp_known_addresses : gset Multiaddr
}.
Record NetworkStateNotConnectedPeer := mkNotConnectedPeer { ncp_known_addresses : gset Multiaddr }.
(** The JSON value of the manager of the peers, by its fields *)
Record PeersetInfo := mkPeersetInfo {
  pi_nodes : gmap string (bool * Z);
  pi_reserved_only : bool;
  pi_message_queue : nat
}.
Record NetworkState := mkNetworkState {
  ns_peer_id : string;
  listened_addresses : gset Multiaddr;
  external_addresses : gset Multiaddr;
  ns_connected_peers : gmap string NetworkStatePeer;
  not_connected_peers : gmap string NetworkStateNotConnectedPeer;
  ns_average_download_per_sec : Z;
  ns_average_upload_per_sec : Z;
  ns_peerset : PeersetInfo
}.

(** ** The functions *)

(** [Peerset::debug_info]: the entry of one node, and the whole *)
Definition node_state (d : PeersState PeerId) (peer_id : PeerId) : res (string * (bool * Z)) :=
  match peer d peer_id with
  | Connected => Ok (to_base58 peer_id, (true, reputation d peer_id))
  | NotConnectedPeer => Ok (to_base58 peer_id, (false, reputation d peer_id))
  | Unknown => Panic "We iterate over the known peers; QED"
  end.
Definition peerset_debug_info (ps : Peerset PeerId) : res (PeersetInfo * Peerset PeerId) :=
  ps ← update_time clock ps;
  nodes ← mapM (node_state (data ps)) (peers (data ps));
  Ok (mkPeersetInfo (collect_map nodes) (reserved_only ps) (length (message_queue ps)), ps).
(** [Behaviour::peerset_debug_info], by way of the custom protocols *)
Definition behaviour_debug_info (b : Behaviour) : res (PeersetInfo * Behaviour) :=
  '(info, ps) ← peerset_debug_info (peerset (custom_protocols b));
  Ok (info, set_custom_protocols (set_peerset ps (custom_protocols b)) b).

(** [addresses_of_peer] of the composition: those of its parts, in their order; the custom protocols know none. *)
Definition behaviour_addresses (b : Behaviour) (peer_id : PeerId) : list Multiaddr :=
  [] ++ discovery_addresses peer_id (discovery b) ++ debug_addresses peer_id (debug_info b).

(** What libp2p's swarm and the meter of the transport answer *)
Record SwarmInfo := mkSwarmInfo {
  sw_local_peer_id : PeerId;
  sw_listeners : list Multiaddr;
  sw_external_addresses : list Multiaddr;
  sw_download : Z;
  sw_upload : Z
}.
(** [Service::state] *)
Definition state_peer (s : Service) (peer_id : PeerId) (info : NodeInfo (Multiaddr := Multiaddr)) : NetworkStatePeer :=
  mkNetworkStatePeer (endpoint_from (ni_endpoint info)) (ni_client_version info) (ni_latest_ping info)
    (behaviour_is_enabled (swarm s) peer_id) (behaviour_is_open (swarm s) peer_id) (list_to_set (behaviour_addresses (swarm s) peer_id)).
Definition service_state (sw : SwarmInfo) (s : Service) : res (NetworkState * Service) :=
  let connected_peers := collect_map ((fun kv => (to_base58 kv.1, state_peer s kv.1 kv.2)) <$> hm_iter (nodes_info s)) in
  let list := List.filter (fun p => bool_decide (nodes_info s !! p = None)) (behaviour_known_peers (swarm s)) in
  let not_connected_peers :=
    collect_map ((fun p => (to_base58 p, mkNotConnectedPeer (list_to_set (behaviour_addresses (swarm s) p)))) <$> list) in
  '(info, b) ← behaviour_debug_info (swarm s);
  Ok (mkNetworkState (to_base58 (sw_local_peer_id sw)) (list_to_set (sw_listeners sw)) (list_to_set (sw_external_addresses sw))
        connected_peers not_connected_peers (sw_download sw) (sw_upload sw) info, set_swarm b s).

(** ** Lemmas *)

Context (base58_inj : Inj (=) (=) to_base58).
Context (clock_mono : forall i j, i <= j -> (clock i <= clock j)%Z).
Context (U : gset PeerId) (HU : (Z.of_nat (size U) <= u32_max)%Z).

(** A table collected from entries whose value is a function of the key *)
Lemma collect_map_snoc {V} (l : list (string * V)) k v : collect_map (l ++ [(k, v)]) = <[k := v]> (collect_map l).
Proof. unfold collect_map. by rewrite foldl_app. Qed.
Lemma collect_map_lookup {V} (f : PeerId -> V) (l : list PeerId) p :
  collect_map ((fun q => (to_base58 q, f q)) <$> l) !! to_base58 p = if bool_decide (p ∈ l) then Some (f p) else None.
Proof.
  induction l as [|q l IH] using rev_ind; [done|]. rewrite fmap_app. cbn [fmap list_fmap]. rewrite collect_map_snoc. destruct (decide (q = p)) as [->|Hne].
  - rewrite lookup_insert_eq, bool_decide_eq_true_2; [done|set_solver].
  - rewrite lookup_insert_ne by (by intros ?%(inj _)). rewrite IH. repeat case_bool_decide; set_solver.
Qed.

Lemma collect_map_pairs {A V} (f : PeerId -> A -> V) (l : list (PeerId * A)) p : NoDup l.*1 ->
  collect_map ((fun kv => (to_base58 kv.1, f kv.1 kv.2)) <$> l) !! to_base58 p = (f p <$> (list_to_map l : gmap PeerId A) !! p).
Proof.
  induction l as [|[q a] l IH] using rev_ind; [simpl; by rewrite !lookup_empty|]. rewrite fmap_app. cbn [fmap list_fmap fst].
  intros (Hl & Hq & _)%NoDup_app. rewrite fmap_app. cbn [fmap list_fmap]. rewrite collect_map_snoc. simpl.
  assert (q ∉ l.*1) as Hnew by set_solver. rewrite list_to_map_snoc by done. destruct (decide (q = p)) as [->|Hne].
  - by rewrite !lookup_insert_eq.
  - rewrite !lookup_insert_ne by (by try intros ?%(inj _)). by apply IH.
Qed.
Lemma collect_map_hm {A V} (f : PeerId -> A -> V) (m : gmap PeerId A) p :
  collect_map ((fun kv => (to_base58 kv.1, f kv.1 kv.2)) <$> hm_iter m) !! to_base58 p = (f p <$> m !! p).
Proof.
  rewrite collect_map_pairs by apply NoDup_hm_iter_fst. f_equiv. f_equal.
  rewrite (list_to_map_proper _ (map_to_list m)); [apply list_to_map_to_list|apply NoDup_hm_iter_fst|apply hm_iter_perm].
Qed.

(** The manager: time passes, and every node it knows is told. *)
Definition node_entry (d : PeersState PeerId) (p : PeerId) : bool * Z :=
  match nodes d !! p with Some n => (is_connected (connection_state n), reputation_of n) | None => (false, 0%Z) end.
Lemma mapM_node_state (d : PeersState PeerId) l : Forall (fun p => is_Some (nodes d !! p)) l ->
  mapM (node_state d) l = Ok ((fun p => (to_base58 p, node_entry d p)) <$> l).
Proof.
  induction 1 as [|p l [n E] _ IH]; [done|]. cbn [mapM fmap list_fmap]. rewrite IH.
  assert (node_state d p = Ok (to_base58 p, node_entry d p)) as ->; [|done].
  unfold node_state, node_entry, peer, reputation. rewrite E. by destruct (connection_state n).
Qed.
Definition node_shown (ps : Peerset PeerId) (n : Node) : bool * Z :=
  (is_connected (connection_state n), reputation_of (Nat.iter (elapsed_ticks clock ps) tick_node n)).
Lemma peerset_debug_info_eq ps : pwf clock U ps ->
  exists info, peerset_debug_info ps = Ok (info, advance clock ps) /\ pi_reserved_only info = reserved_only ps /\
    pi_message_queue info = length (message_queue ps) /\
    forall p, pi_nodes info !! to_base58 p = (node_shown ps <$> nodes (data ps) !! p).
Proof.
  intros Hp. unfold peerset_debug_info. rewrite (update_time_eq clock U ps Hp). rstep.
  rewrite mapM_node_state by (apply Forall_forall; intros p; apply elem_of_peers).
  rstep. eexists. split_and!; [reflexivity|done|done|]. intros p. cbn [pi_nodes]. rewrite collect_map_lookup.
  assert (nodes (data (advance clock ps)) !! p = (Nat.iter (elapsed_ticks clock ps) tick_node <$> nodes (data ps) !! p)) as En.
  { simpl. apply lookup_fmap. }
  rewrite (bool_decide_ext _ _ (elem_of_peers _ _)). unfold node_entry, node_shown. rewrite En.
  destruct (nodes (data ps) !! p) as [n|]; simpl; [|done]. by rewrite (iter_tick_conn (elapsed_ticks clock ps) n).
Qed.

(** The invariant of the service does not depend on when the manager last looked at its clock. *)
Lemma good_advance inc env outs (cp : CustomProto PeerId Multiaddr) : good clock U inc env outs cp ->
  good clock U inc env outs (set_peerset (advance clock (peerset cp)) cp).
Proof.
  intros [[[Hp Hr Hl Ha Hs Hi Hn] Hapi] Hq]. split; [|done]. split; [|done]. split; try done; simpl.
  - by apply (advance_pwf clock clock_mono).
  - by rewrite decay_links.
Qed.
Context (show_node : PeerId -> option string -> ConnectedPoint Multiaddr -> string).

(** What a snapshot [st] of [s] says *)
Record shows (sw : SwarmInfo) (s : Service) (st : NetworkState) : Prop := {
  sh_own : ns_peer_id st = to_base58 (sw_local_peer_id sw);
  sh_connected : forall p, ns_connected_peers st !! to_base58 p = (state_peer s p <$> nodes_info s !! p);
  sh_known : forall p, not_connected_peers st !! to_base58 p =
    if bool_decide (p ∈ behaviour_known_peers (swarm s) /\ p ∉ connected_peers s)
    then Some (mkNotConnectedPeer (list_to_set (behaviour_addresses (swarm s) p))) else None;
  sh_manager : forall p, pi_nodes (ns_peerset st) !! to_base58 p =
    (node_shown (peerset (custom_protocols (swarm s))) <$> nodes (data (peerset (custom_protocols (swarm s)))) !! p)
}.
Lemma service_state_ok sw inc env outs reported (s : Service) : service_ok clock show_node U inc env outs reported s ->
  exists st s', service_state sw s = Ok (st, s') /\ shows sw s st /\ service_ok clock show_node U inc env outs reported s' /\
    s' = set_swarm (set_custom_protocols (set_peerset (advance clock (peerset (custom_protocols (swarm s)))) (custom_protocols (swarm s))) (swarm s)) s.
Proof.
  intros [Hg Hf]. pose proof (sy_pwf _ _ _ _ _ _ _ (iv_sync _ _ _ _ _ _ (proj1 Hg))) as Hp.
  destruct (peerset_debug_info_eq _ Hp) as (info & E & _ & _ & Hn). unfold service_state, behaviour_debug_info. rewrite E. rstep.
  eexists _, _. split_and!; [reflexivity| |split; [by apply good_advance|by apply follows_swarm]|done]. split; try done; intros p; cbn [ns_connected_peers not_connected_peers].
  - apply collect_map_hm.
  - rewrite collect_map_lookup. erewrite bool_decide_ext; [done|]. unfold connected_peers. rewrite not_elem_of_dom.
    by rewrite !list_elem_of_In, filter_In, bool_decide_eq_true.
Qed.

(** The next event is a matter of the queues and the table. *)
Lemma poll_swarm_ext fuel (s s' : Service) : events (swarm s) = events (swarm s') -> nodes_info s = nodes_info s' ->
  (fst <$> poll_swarm_loop show_node fuel s) = (fst <$> poll_swarm_loop show_node fuel s').
Proof.
  revert s s'. induction fuel as [|fuel IH]; intros [b m i] [b' m' i'] E; [done|]. simpl in E |- *. intros <-. unfold behaviour_poll. rewrite <- E.
  destruct (events b) as [|[] rest]; simpl; try done; by apply IH.
Qed.
Lemma service_poll_ext (s s' : Service) : events (swarm s) = events (swarm s') -> nodes_info s = nodes_info s' -> injected_events s = injected_events s' ->
  (fst <$> service_poll show_node s) = (fst <$> service_poll show_node s').
Proof. intros E En Ei. unfold service_poll, poll_swarm. rewrite <- Ei, <- E. destruct (injected_events s); [by apply poll_swarm_ext|done]. Qed.

Context {NK : NodeKeys} {MA : Multiaddrs PeerId Multiaddr} (public_of : Keypair -> PublicKey) (into_peer_id : PublicKey -> PeerId).

(** The diagnostic state of the network is true and harmless.  After any run of a started service [Service::state]
    is answered without a panic.  It lists the open nodes of the service's table, those known to the discovery that are
    not among them, and every node of the manager with its connection and its reputation after the seconds that have
    passed.  Once the service has caught up every listed node is shown as open, but never with a version or a ping time.
    The table, the queries and the next event of the service are what they were, and the service runs on without a panic. *)
Theorem network_state_is_true now parent generate mdns0 protocol config fs l l' sw :
  in_u32 (nc_in_peers config) -> in_u32 (nc_out_peers config) ->
  list_to_set (parse_nodes (nc_reserved_nodes config)).*1 ⊆ U -> list_to_set (parse_nodes (boot_nodes config)).*1 ⊆ U ->
  Forall (fun x => service_ids x ⊆ U) (l ++ l') -> (Z.of_nat (length (l ++ l')) <= u64_max)%Z ->
  exists N, forall fuel, N <= fuel ->
  match start_service clock public_of into_peer_id now parent generate mdns0 protocol config fs with
  | Ok (inl s0, _) =>
      match service_run clock show_node fuel l (s0, ∅) with
      | Ok (outs, reported, (s, env)) =>
          exists st s', service_state sw s = Ok (st, s') /\ shows sw s st /\
            (forall p n, ns_connected_peers st !! to_base58 p = Some n -> version_string n = None /\ latest_ping_time n = None /\
               (omap custom_of (events (swarm s)) = [] -> omap generated (cp_events (custom_protocols (swarm s))) = [] -> nsp_open n = true)) /\
            nodes_info s' = nodes_info s /\ (forall p, service_is_open s' p = service_is_open s p) /\
            (fst <$> service_poll show_node s') = (fst <$> service_poll show_node s) /\
            exists N', forall fuel', N' <= fuel' -> match service_run clock show_node fuel' l' (s', env) with Panic _ => False | _ => True end
      | Err _ => True
      | Panic _ => False
      end
  | Ok (inr _, _) => True
  | Err _ | Panic _ => False
  end.
Proof.
  intros Hin Hout Hr Hb [Hids Hids']%Forall_app Hl. rewrite length_app in Hl.
  pose proof (start_service_ok clock show_node public_of into_peer_id clock_mono U HU now parent generate mdns0 protocol config fs Hin Hout Hr Hb) as Hs.
  destruct (start_service _ _ _ _ _ _ _ _ _ _) as [[[s0|e] fs']| |]; [|by exists 0|done..]. destruct Hs as [Hok Hn].
  destruct (service_run_ok clock show_node clock_mono U HU l ∅ ∅ [] [] s0 Hok Hids) as (N & HN); [lia|]. exists N. intros fuel Hfuel. specialize (HN fuel Hfuel).
  destruct (service_run clock show_node fuel l (s0, ∅)) as [[[outs reported] [s env]]| |]; [|done..]. destruct HN as (inc & Hok1 & Hn1).
  destruct (service_state_ok sw inc env _ _ s Hok1) as (st & s' & E & Hst & Hok2 & Es). exists st, s'. split_and!; try done.
  - intros p n. rewrite (sh_connected _ _ _ Hst). intros (i & Ei & ->)%fmap_Some. destruct (fo_unknown _ _ _ _ (proj2 Hok1) p i Ei) as [Hv Hping].
    split_and!; [done..|]. intros Hnil Hcp. cbn [nsp_open state_peer]. etrans; [by eapply (caught_up_is_open clock show_node U)|].
    apply bool_decide_eq_true_2, elem_of_dom. by eexists.
  - by rewrite Es.
  - by rewrite Es.
  - apply service_poll_ext; by rewrite Es.
  - destruct (service_run_ok clock show_node clock_mono U HU l' inc env _ _ s' Hok2 Hids') as (N' & HN'); [rewrite Es; simpl; lia|].
    exists N'. intros fuel' Hf'. specialize (HN' fuel' Hf'). by destruct (service_run _ _ _ _ _).
Qed.
End state.
