(* ===== verification/Libra.v ===== *)
(** * The interface of the libra crates

    The sources under [src/] use the libra crates (a git submodule that is not part of the tree) for
    addresses, cryptography, canonical serialization, write sets and transactions.  They are a parameter
    of the development: the class [Libra] names the types and the operations that the modelled code uses,
    and [LibraLaws] states what their documentation promises: accessors return what the constructors
    were given, serialization is a round trip, a signature verifies under its own key.  The enum
    constructors are those that the sources pattern-match on. *)
From stdpp Require Import sorting.
From S2P Require Import Prelude Codec.

(** [libra_types::write_set::WriteOp] *)
Inductive WriteOp := Value (v : bytes) | Deletion.
#[global] Instance WriteOp_eq : EqDecision WriteOp.
Proof. solve_decision. Defined.

Class Libra := {
  (* [account_address] *)
  AccountAddress : Type;
  AccountAddress_eq :: EqDecision AccountAddress;
  AccountAddress_countable :: Countable AccountAddress;
  ADDRESS_LENGTH : nat;
  address_to_vec : AccountAddress -> bytes;
  address_try_from : bytes -> res AccountAddress;
  (* [AccountAddress::from(&BTreeSet<AccountAddress>)], the address of a channel *)
  address_from_participants : gset AccountAddress -> AccountAddress;

  (* [libra_crypto] *)
  HashValue : Type;
  HashValue_eq :: EqDecision HashValue;
  HashValue_countable :: Countable HashValue;
  HashValue_default : HashValue;
  hash_to_vec : HashValue -> bytes;
  hash_from_slice : bytes -> res HashValue;
  Ed25519PublicKey : Type;
  Ed25519PublicKey_eq :: EqDecision Ed25519PublicKey;
  pk_to_bytes : Ed25519PublicKey -> bytes;
  pk_try_from : bytes -> res Ed25519PublicKey;
  Ed25519Signature : Type;
  Ed25519Signature_eq :: EqDecision Ed25519Signature;
  sig_to_bytes : Ed25519Signature -> bytes;
  sig_try_from : bytes -> res Ed25519Signature;
  KeyPair : Type;
  public_key : KeyPair -> Ed25519PublicKey;
  sign_message : KeyPair -> HashValue -> Ed25519Signature;
  verify_signature : Ed25519PublicKey -> HashValue -> Ed25519Signature -> res unit;
  (* a hasher absorbs bytes under the salt of its type *)
  hasher : string -> bytes -> HashValue;
  from_sha3_256 : bytes -> HashValue;

  (* [access_path] and [write_set] *)
  AccessPath : Type;
  AccessPath_eq :: EqDecision AccessPath;
  AccessPath_countable :: Countable AccessPath;
  path_address : AccessPath -> AccountAddress;
  path_path : AccessPath -> bytes;
  path_participant : AccessPath -> option AccountAddress;
  is_channel_resource : AccessPath -> bool;
  WriteSet : Type;
  WriteSet_eq :: EqDecision WriteSet;
  WriteSet_default : WriteSet;
  ws_iter : WriteSet -> list (AccessPath * WriteOp);
  ws_get : WriteSet -> AccessPath -> option WriteOp;
  ws_freeze : list (AccessPath * WriteOp) -> res WriteSet;

  (* [transaction], [channel] and [contract_event] *)
  TransactionArgument : Type;
  TransactionArgument_eq :: EqDecision TransactionArgument;
  TransactionArgument_Address : AccountAddress -> TransactionArgument;
  TransactionArgument_U64 : Z -> TransactionArgument;
  TransactionArgument_ByteArray : bytes -> TransactionArgument;
  (* the patterns [TransactionArgument::U64(a)] and [TransactionArgument::ByteArray(d)] *)
  arg_U64 : TransactionArgument -> option Z;
  arg_ByteArray : TransactionArgument -> option bytes;
  (* its protobuf message *)
  pb_TransactionArgument : Type;
  arg_into : TransactionArgument -> pb_TransactionArgument;
  arg_try_from : pb_TransactionArgument -> res TransactionArgument;
  ContractEvent : Type;
  ContractEvent_eq :: EqDecision ContractEvent;
  StatusCode : Type;
  StatusCode_eq :: EqDecision StatusCode;
  WitnessData : Type;
  WitnessData_new : Z -> WriteSet -> WitnessData;
  witness_data_hash_of : WitnessData -> HashValue;
  Witness : Type;
  Witness_new : WitnessData -> list Ed25519Signature -> Witness;
  Witness_default : Witness;
  witness_channel_sequence_number : Witness -> Z;
  witness_write_set : Witness -> WriteSet;
  ScriptAction : Type;
  ScriptAction_new_call : (AccountAddress * string) -> string -> list TransactionArgument -> ScriptAction;
  ScriptAction_new_code : bytes -> list TransactionArgument -> ScriptAction;
  Identifier_ok : string -> bool;
  ChannelTransactionPayloadBody : Type;
  PayloadBody_new : AccountAddress -> AccountAddress -> ScriptAction -> Witness -> ChannelTransactionPayloadBody;
  payload_body_hash : ChannelTransactionPayloadBody -> HashValue;
  payload_body_witness : ChannelTransactionPayloadBody -> Witness;
  ChannelTransactionPayload : Type;
  ChannelPayload_new : ChannelTransactionPayloadBody -> list Ed25519PublicKey ->
    list (option Ed25519Signature) -> ChannelTransactionPayload;
  payload_is_authorized : ChannelTransactionPayload -> bool;
  payload_public_keys : ChannelTransactionPayload -> list Ed25519PublicKey;
  payload_channel_address : ChannelTransactionPayload -> AccountAddress;
  payload_proposer : ChannelTransactionPayload -> AccountAddress;
  payload_witness : ChannelTransactionPayload -> Witness;
  payload_channel_sequence_number : ChannelTransactionPayload -> Z;
  SignedTransaction : Type;
  SignedTransaction_eq :: EqDecision SignedTransaction;
  (* the payload of a transaction, [None] when it is not [TransactionPayload::Channel] *)
  channel_payload : SignedTransaction -> option ChannelTransactionPayload;
  txn_sender : SignedTransaction -> AccountAddress;
  txn_sequence_number : SignedTransaction -> Z;
  raw_txn_hash : SignedTransaction -> HashValue;
  (* [RawTransaction::new(sender, sequence number, payload, max gas, gas price, expiration).sign(..)] *)
  sign_raw_txn : KeyPair -> AccountAddress -> Z -> ChannelTransactionPayload -> Z -> Z -> Z -> res SignedTransaction;
  TransactionOutput : Type;
  TransactionOutput_eq :: EqDecision TransactionOutput;
  output_write_set : TransactionOutput -> WriteSet;
  output_events : TransactionOutput -> list ContractEvent;
  output_major_status : TransactionOutput -> StatusCode;
  output_gas_used : TransactionOutput -> Z;
  is_travel_txn : TransactionOutput -> bool
}.

(** [lcs::to_bytes] and [lcs::from_bytes]: canonical serialization is a round trip, and no value of the
    serialized types has an empty encoding. *)
Class Lcs (A : Type) := {
  lcs_to_bytes : A -> bytes;
  lcs_from_bytes : bytes -> res A;
  lcs_roundtrip x : lcs_from_bytes (lcs_to_bytes x) = Ok x;
  lcs_bytes_ok x : bytes_ok (lcs_to_bytes x);
  lcs_nonempty x : lcs_to_bytes x <> []
}.

Class LibraLaws `{Libra} : Prop := {
  address_roundtrip a : address_try_from (address_to_vec a) = Ok a;
  address_length a : length (address_to_vec a) = ADDRESS_LENGTH;
  address_bytes_ok a : bytes_ok (address_to_vec a);
  hash_roundtrip h : hash_from_slice (hash_to_vec h) = Ok h;
  pk_roundtrip k : pk_try_from (pk_to_bytes k) = Ok k;
  sig_roundtrip s : sig_try_from (sig_to_bytes s) = Ok s;
  sig_nonempty s : sig_to_bytes s <> [];
  address_try_from_no_panic b : no_panic (address_try_from b);
  hash_from_slice_no_panic b : no_panic (hash_from_slice b);
  pk_try_from_no_panic b : no_panic (pk_try_from b);
  sig_try_from_no_panic b : no_panic (sig_try_from b);
  arg_U64_new n : arg_U64 (TransactionArgument_U64 n) = Some n;
  arg_ByteArray_new b : arg_ByteArray (TransactionArgument_ByteArray b) = Some b;
  arg_roundtrip a : arg_try_from (arg_into a) = Ok a;
  arg_try_from_no_panic a : no_panic (arg_try_from a);
  verify_sign kp h : verify_signature (public_key kp) h (sign_message kp h) = Ok tt;
  ws_iter_default : ws_iter WriteSet_default = [];
  ws_iter_freeze ws : ws_freeze (ws_iter ws) = Ok ws;
  (* a write set is in memory: its length is a [usize] *)
  ws_iter_length ws : (Z.of_nat (length (ws_iter ws)) <= u64_max)%Z;
  ws_get_iter ws p : ws_get ws p = (list_to_map (ws_iter ws) : gmap AccessPath WriteOp) !! p;
  witness_sequence_new n ws sigs :
    witness_channel_sequence_number (Witness_new (WitnessData_new n ws) sigs) = n;
  witness_write_set_new n ws sigs : witness_write_set (Witness_new (WitnessData_new n ws) sigs) = ws;
  witness_sequence_default : witness_channel_sequence_number Witness_default = 0%Z;
  witness_write_set_default : witness_write_set Witness_default = WriteSet_default;
  payload_body_witness_new a p act w : payload_body_witness (PayloadBody_new a p act w) = w
}.

(** ** [BTreeMap] and [BTreeSet] over addresses

    They are finite maps and sets; iteration goes by increasing address, which is the order of the
    bytes. *)
Section btree.
Context `{Libra}.

Definition addr_le (a b : AccountAddress) : Prop := bytes_le (address_to_vec a) (address_to_vec b) = true.
#[global] Instance addr_le_dec : RelDecision addr_le.
Proof. intros a b. unfold addr_le. apply _. Defined.

(** The addresses in order. *)
Definition bt_sort (X : gset AccountAddress) : list AccountAddress := merge_sort addr_le (elements X).
(** [BTreeMap::iter] *)
Definition bt_iter {V} (m : gmap AccountAddress V) : list (AccountAddress * V) :=
  omap (fun a => pair a <$> m !! a) (bt_sort (dom m)).
(** [BTreeMap::values] *)
Definition bt_values {V} (m : gmap AccountAddress V) : list V := (bt_iter m).*2.

Lemma elem_of_bt_sort X a : a ∈ bt_sort X <-> a ∈ X.
Proof. unfold bt_sort. by rewrite (merge_sort_Permutation addr_le), elem_of_elements. Qed.

Lemma NoDup_bt_sort X : NoDup (bt_sort X).
Proof. unfold bt_sort. rewrite (merge_sort_Permutation addr_le). apply NoDup_elements. Qed.

Lemma elem_of_bt_iter {V} (m : gmap AccountAddress V) a v : (a, v) ∈ bt_iter m <-> m !! a = Some v.
Proof.
  unfold bt_iter. rewrite list_elem_of_omap. split.
  - intros (a' & _ & Hm). destruct (m !! a') eqn:E; simplify_eq/=. done.
  - intros Hm. exists a. rewrite elem_of_bt_sort, elem_of_dom, Hm. split; [eauto|done].
Qed.

Lemma bt_iter_fst {V} (m : gmap AccountAddress V) : (bt_iter m).*1 = bt_sort (dom m).
Proof.
  unfold bt_iter. assert (forall a, a ∈ bt_sort (dom m) -> is_Some (m !! a)) as Hd.
  { intros a. rewrite elem_of_bt_sort. apply elem_of_dom. }
  induction (bt_sort (dom m)) as [|a l IH]; simpl; [done|].
  destruct (Hd a) as [v Hv]; [left|]. rewrite Hv. simpl. f_equal. apply IH. intros b ?. apply Hd. by right.
Qed.

Lemma bt_iter_zip {V} (m : gmap AccountAddress V) : zip (bt_sort (dom m)) (bt_values m) = bt_iter m.
Proof. unfold bt_values. by rewrite <-bt_iter_fst, zip_fst_snd. Qed.

Lemma length_bt_values {V} (m : gmap AccountAddress V) : length (bt_values m) = size m.
Proof.
  unfold bt_values. rewrite length_fmap, <-(length_fmap fst), bt_iter_fst. unfold bt_sort.
  rewrite (merge_sort_Permutation addr_le). by rewrite <-size_dom.
Qed.

Lemma bt_values_fmap {V W} (f : V -> W) (m : gmap AccountAddress V) : bt_values (f <$> m) = f <$> bt_values m.
Proof.
  unfold bt_values, bt_iter. rewrite dom_fmap_L. induction (bt_sort (dom m)) as [|a l IH]; simpl; [done|].
  rewrite lookup_fmap. destruct (m !! a); simpl; [by f_equal|done].
Qed.
End btree.
