(* ===== verification/SchemaDB.v ===== *)
(** * The database of one channel

    Models [src/sgstorage/src/schema_db.rs] (the trait [SchemaDB]), [src/sgstorage/src/channel_db.rs]
    ([ChannelDB] and [ChannelSchemaIterator]) and the column families of [src/sgstorage/src/storage.rs].
    The storage engine (RocksDB) and libra's schema batches are parameters: [RocksDB] and
    [SchemaBatches] name their operations, the two classes of laws their documented behaviour.

    A [ChannelDB] keeps the tables of one channel in the engine shared by all channels, every key
    prefixed with the channel's address.  The theorems show that it implements the trait: what it
    reads, lists and seeks is exactly what was written through the same address, in key order, and no
    channel sees or changes the data of another. *)
From stdpp Require Import sorting.
From S2P Require Import Prelude Codec Libra.

(** ** The storage engine *)

(** One operation of a write batch: put or delete. *)
Notation batch_op := (string * bytes * option bytes)%type.

Class RocksDB := {
  DB : Type;
  db_get : DB -> string -> bytes -> option bytes;
  db_write : DB -> list batch_op -> res DB;
  db_delete_range : DB -> string -> bytes -> bytes -> res DB;
  (* what an iterator yields after [seek] and [seek_for_prev] *)
  db_seek : DB -> string -> bytes -> list (bytes * bytes);
  db_seek_for_prev : DB -> string -> bytes -> list (bytes * bytes)
}.

(** The value of a key after the operations of a batch. *)
Definition apply_ops (ops : list batch_op) (cf : string) (k : bytes) (old : option bytes) : option bytes :=
  fold_left (fun v op => if bool_decide (op.1 = (cf, k)) then op.2 else v) ops old.

Definition keys_sorted (l : list (bytes * bytes)) : Prop := StronglySorted bytes_lt l.*1.

Class RocksDBLaws `{RocksDB} : Prop := {
  db_write_get d ops d' cf k :
    db_write d ops = Ok d' -> db_get d' cf k = apply_ops ops cf k (db_get d cf k);
  db_write_no_panic d ops : no_panic (db_write d ops);
  db_delete_range_get d cf b e d' cf' k :
    db_delete_range d cf b e = Ok d' ->
    db_get d' cf' k =
      if decide (cf' = cf /\ bytes_le b k = true /\ bytes_lt k e) then None else db_get d cf' k;
  db_seek_sorted d cf k : keys_sorted (db_seek d cf k);
  db_seek_elem d cf k k' v :
    (k', v) ∈ db_seek d cf k <-> db_get d cf k' = Some v /\ bytes_le k k' = true;
  db_prev_sorted d cf k : keys_sorted (db_seek_for_prev d cf k);
  db_prev_elem d cf k k' v :
    (k', v) ∈ db_seek_for_prev d cf k <->
    db_get d cf k' = Some v /\
    (exists k0, is_Some (db_get d cf k0) /\ bytes_le k0 k = true) /\
    (forall k0, is_Some (db_get d cf k0) -> bytes_le k0 k = true -> bytes_le k0 k' = true)
}.

(** ** Schema batches (libra's [schemadb]) *)

Class SchemaBatches := {
  SchemaBatch : Type;
  batch_new : SchemaBatch;
  batch_put : string -> bytes -> bytes -> SchemaBatch -> SchemaBatch;
  batch_delete : string -> bytes -> SchemaBatch -> SchemaBatch;
  (* the field [rows]: per column family the operation of each key *)
  batch_rows : SchemaBatch -> list (string * list (bytes * option bytes))
}.

(** What the rows hold for a key. *)
Definition rows_ops (rows : list (string * list (bytes * option bytes))) : list batch_op :=
  flat_map (fun row : string * list (bytes * option bytes) =>
              map (fun e : bytes * option bytes => (row.1, e.1, e.2)) row.2) rows.

Class SchemaBatchesLaws `{SchemaBatches} : Prop := {
  batch_rows_NoDup b : NoDup (rows_ops (batch_rows b)).*1;
  batch_rows_nonempty b row : row ∈ batch_rows b -> row.2 <> [];
  batch_rows_new cf k op : (cf, k, op) ∉ rows_ops (batch_rows batch_new);
  batch_rows_put cf k v b cf' k' op :
    (cf', k', op) ∈ rows_ops (batch_rows (batch_put cf k v b)) <->
    ((cf', k') = (cf, k) /\ op = Some v) \/
    ((cf', k') <> (cf, k) /\ (cf', k', op) ∈ rows_ops (batch_rows b));
  batch_rows_delete cf k b cf' k' op :
    (cf', k', op) ∈ rows_ops (batch_rows (batch_delete cf k b)) <->
    ((cf', k') = (cf, k) /\ op = None) \/
    ((cf', k') <> (cf, k) /\ (cf', k', op) ∈ rows_ops (batch_rows b))
}.

(** ** Schemas and the trait *)

(** [schemadb::schema::Schema] with its [KeyCodec] and [ValueCodec]. *)
Record Schema := mkSchema {
  Key : Type;
  Val : Type;
  COLUMN_FAMILY_NAME : string;
  encode_key : Key -> bytes;
  decode_key : bytes -> res Key;
  encode_value : Val -> bytes;
  decode_value : bytes -> res Val
}.

(** The positions a [SchemaIterator] can be moved to. *)
Inductive SeekTo (T : Schema) :=
| SeekFirst
| SeekLast
| Seek (k : Key T)
| SeekForPrev (k : Key T).
Arguments SeekFirst {T}.
Arguments SeekLast {T}.
Arguments Seek {T} k.
Arguments SeekForPrev {T} k.

(** The trait [SchemaDB].  [sdb_iter] is [iter] followed by a seek: whether the seek found an entry, and
    what the iterator then yields. *)
Class SchemaDB `{SchemaBatches} (S : Type) := {
  sdb_get : forall T : Schema, S -> Key T -> res (option (Val T));
  sdb_put : forall T : Schema, S -> Key T -> Val T -> res S;
  sdb_range_delete : forall T : Schema, S -> bytes -> bytes -> res S;
  sdb_iter : forall T : Schema, S -> SeekTo T -> res (bool * list (res (Key T * Val T)));
  sdb_write_schemas : S -> SchemaBatch -> res S
}.

(** [SchemaBatch::put::<T>] and [delete::<T>] encode the key and the value. *)
Definition put `{SchemaBatches} (T : Schema) (k : Key T) (v : Val T) (b : SchemaBatch) : SchemaBatch :=
  batch_put (COLUMN_FAMILY_NAME T) (encode_key T k) (encode_value T v) b.
Definition delete `{SchemaBatches} (T : Schema) (k : Key T) (b : SchemaBatch) : SchemaBatch :=
  batch_delete (COLUMN_FAMILY_NAME T) (encode_key T k) b.

(** [for x in l { batch.put::<T>(key(x), val(x)) }] *)
Definition put_all `{SchemaBatches} {X} (T : Schema) (key : X -> Key T) (val : X -> Val T) (l : list X)
    (b : SchemaBatch) : SchemaBatch :=
  fold_left (fun b x => put T (key x) (val x) b) l b.

(** ** Column families *)

Definition DEFAULT_CF_NAME : string := "default".
Definition JELLYFISH_MERKLE_NODE_CF_NAME : string := "jellyfish_merkle_node".
Definition STALE_NODE_INDEX_CF_NAME : string := "stale_node_index".
Definition TRANSACTION_BY_ACCOUNT_CF_NAME : string := "transaction_by_account".
Definition APPLIED_CHANNEL_TRANSACTION_CF_NAME : string := "applied_channel_transaction".
Definition CHANNEL_TRANSACTION_ACCUMULATOR_CF_NAME : string := "channel_transaction_accumulator".
Definition CHANNEL_TRANSACTION_INFO_CF_NAME : string := "channel_transaction_info".
Definition CHANNEL_WRITE_SET_CF_NAME : string := "channel_write_set".
Definition CHANNEL_WRITE_SET_ACCUMULATOR_CF_NAME : string := "channel_write_set_accumulator".
Definition PENDING_CHANNEL_TRANSACTION_CF_NAME : string := "pending_channel_transaction".
Definition PARTICIPANT_PUBLIC_KEY_CF_NAME : string := "participant_public_key".

(** The families [SgStorage::new] opens. *)
Definition sg_column_families : list string :=
  [DEFAULT_CF_NAME; JELLYFISH_MERKLE_NODE_CF_NAME; STALE_NODE_INDEX_CF_NAME;
   CHANNEL_TRANSACTION_INFO_CF_NAME; CHANNEL_TRANSACTION_ACCUMULATOR_CF_NAME;
   TRANSACTION_BY_ACCOUNT_CF_NAME; CHANNEL_WRITE_SET_CF_NAME; CHANNEL_WRITE_SET_ACCUMULATOR_CF_NAME;
   APPLIED_CHANNEL_TRANSACTION_CF_NAME; PENDING_CHANNEL_TRANSACTION_CF_NAME;
   PARTICIPANT_PUBLIC_KEY_CF_NAME].

(** [SgStorage::get_cf_handle] *)
Definition get_cf_handle (cf_name : string) : res string :=
  if bool_decide (cf_name ∈ sg_column_families) then Ok cf_name
  else Err "DB::cf_handle not found for column family name".

(** ** What an implementation of the trait promises *)

(** The operation a batch holds for a key. *)
Definition row_op `{SchemaBatches} (b : SchemaBatch) (cf : string) (k : bytes) : option (option bytes) :=
  (list_to_map (rows_ops (batch_rows b)) : gmap (string * bytes) (option bytes)) !! (cf, k).

(** The keys of a batch belong to known families, are not empty, and are made of bytes. *)
Definition batch_ok `{SchemaBatches} (b : SchemaBatch) : Prop :=
  forall cf k op, (cf, k, op) ∈ rows_ops (batch_rows b) ->
    cf ∈ sg_column_families /\ k <> [] /\ bytes_ok k.

(** The entries [v : key -> option value] an iterator yields from a position. *)
Definition seek_bound (T : Schema) (v : bytes -> option bytes) (pos : SeekTo T) (k : bytes) : Prop :=
  match pos with
  | SeekFirst => True
  | SeekLast => forall k0, is_Some (v k0) -> bytes_le k0 k = true
  | Seek k1 => bytes_le (encode_key T k1) k = true
  | SeekForPrev k1 =>
      (exists k0, is_Some (v k0) /\ bytes_le k0 (encode_key T k1) = true) /\
      (forall k0, is_Some (v k0) -> bytes_le k0 (encode_key T k1) = true -> bytes_le k0 k = true)
  end.

Definition decode_entry (T : Schema) (e : bytes * bytes) : res (Key T * Val T) :=
  k ← decode_key T e.1;
  v ← decode_value T e.2;
  Ok (k, v).

(** [sdb_view] is the encoded content; [sdb_ok] the condition under which the promises hold. *)
Class SchemaDBLaws `{SchemaBatches} (S : Type) `{!SchemaDB S} := {
  sdb_view : S -> string -> bytes -> option bytes;
  sdb_ok : S -> Prop;
  sdb_get_view T s k : COLUMN_FAMILY_NAME T ∈ sg_column_families ->
    sdb_get T s k =
      match sdb_view s (COLUMN_FAMILY_NAME T) (encode_key T k) with
      | Some v => Some <$> decode_value T v
      | None => Ok None
      end;
  sdb_iter_view T s pos : sdb_ok s -> COLUMN_FAMILY_NAME T ∈ sg_column_families ->
    exists found raw, sdb_iter T s pos = Ok (found, decode_entry T <$> raw) /\ keys_sorted raw /\
      (forall k v, (k, v) ∈ raw <->
         sdb_view s (COLUMN_FAMILY_NAME T) k = Some v /\ seek_bound T (sdb_view s (COLUMN_FAMILY_NAME T)) pos k) /\
      (found = false -> raw = []);
  sdb_write_no_panic s b : batch_ok b -> no_panic (sdb_write_schemas s b);
  sdb_write_view s b s' : sdb_ok s -> batch_ok b -> sdb_write_schemas s b = Ok s' ->
    sdb_ok s' /\ forall cf k, sdb_view s' cf k = default (sdb_view s cf k) (row_op b cf k)
}.

(** ** [ChannelDB] *)

Section channel_db.
Context `{Libra} `{RocksDB} `{SchemaBatches}.

(** [SgStorage]: the engine and its owner. *)
Record SgStorage := mkSgStorage { rocks : DB; owner : AccountAddress }.
Record ChannelDB := mkChannelDB { inner : SgStorage; participant : AccountAddress }.

Implicit Types c : ChannelDB.

Definition cdb_prefix c : bytes := address_to_vec (participant c).
Definition with_rocks c (d : DB) : ChannelDB := mkChannelDB (mkSgStorage d (owner (inner c))) (participant c).

(** [ChannelDB::get] *)
Definition cdb_get (T : Schema) c (schema_key : Key T) : res (option (Val T)) :=
  let k := prefix_key (cdb_prefix c) (encode_key T schema_key) in
  cf ← get_cf_handle (COLUMN_FAMILY_NAME T);
  match db_get (rocks (inner c)) cf k with
  | Some raw_value => Some <$> decode_value T raw_value
  | None => Ok None
  end.

(** [ChannelDB::put]; a single put is a batch of one operation. *)
Definition cdb_put (T : Schema) c (key : Key T) (value : Val T) : res ChannelDB :=
  let k := prefix_key (cdb_prefix c) (encode_key T key) in
  let v := encode_value T value in
  cf ← get_cf_handle (COLUMN_FAMILY_NAME T);
  d ← db_write (rocks (inner c)) [(cf, k, Some v)];
  Ok (with_rocks c d).

(** [ChannelDB::range_delete], on the encoded seek keys. *)
Definition cdb_range_delete (T : Schema) c (begin_key end_key : bytes) : res ChannelDB :=
  let raw_begin := prefix_key (cdb_prefix c) begin_key in
  let raw_end := prefix_key (cdb_prefix c) end_key in
  cf ← get_cf_handle (COLUMN_FAMILY_NAME T);
  d ← db_delete_range (rocks (inner c)) cf raw_begin raw_end;
  Ok (with_rocks c d).

(** [ChannelDB::write_schemas]: one engine batch for all rows. *)
Definition cdb_write_schemas c (batch : SchemaBatch) : res ChannelDB :=
  db_batch ← foldM (fun (acc : list batch_op) row =>
      cf ← get_cf_handle row.1;
      Ok (acc ++ map (fun e : bytes * option bytes => (cf, prefix_key (cdb_prefix c) e.1, e.2)) row.2))
    [] (batch_rows batch);
  d ← db_write (rocks (inner c)) db_batch;
  Ok (with_rocks c d).

(** [ChannelSchemaIterator::is_in_valid_range], on the entry the engine's iterator is at. *)
Definition is_in_valid_range c (e : bytes * bytes) : bool := bool_decide (cdb_prefix c `prefix_of` e.1).

(** [ChannelSchemaIterator::decode_kv] *)
Definition decode_kv (T : Schema) c (e : bytes * bytes) : res (Key T * Val T) :=
  _ ← ensure (bool_decide (ADDRESS_LENGTH <= length e.1)) "failed to fill whole buffer";
  _ ← rassert (bool_decide (take ADDRESS_LENGTH e.1 = cdb_prefix c)) "participant_address";
  k ← decode_key T (drop ADDRESS_LENGTH e.1);
  v ← decode_value T e.2;
  Ok (k, v).

(** The entries [Iterator::next] yields: up to the first one out of range. *)
Fixpoint in_range_entries c (l : list (bytes * bytes)) : list (bytes * bytes) :=
  match l with
  | [] => []
  | e :: l' => if is_in_valid_range c e then e :: in_range_entries c l' else []
  end.

(** Where the engine's iterator is after a seek. *)
Definition cdb_raw_seek (T : Schema) c (cf : string) (pos : SeekTo T) : list (bytes * bytes) :=
  let d := rocks (inner c) in
  match pos with
  | SeekFirst => db_seek d cf (cdb_prefix c)
  | SeekLast => db_seek_for_prev d cf (prefix_next (cdb_prefix c))
  | Seek k => db_seek d cf (prefix_key (cdb_prefix c) (encode_key T k))
  | SeekForPrev k => db_seek_for_prev d cf (prefix_key (cdb_prefix c) (encode_key T k))
  end.

(** [seek_to_first] and [seek_to_last] report whether the engine found an entry, [seek] and
    [seek_for_prev] also check that it is in this channel's range. *)
Definition cdb_seek_result (T : Schema) c (pos : SeekTo T) (raw : list (bytes * bytes)) : bool :=
  match raw with
  | [] => false
  | e :: _ => match pos with SeekFirst | SeekLast => true | _ => is_in_valid_range c e end
  end.

(** [ChannelDB::iter] and a seek of its [ChannelSchemaIterator] *)
Definition cdb_iter (T : Schema) c (pos : SeekTo T) : res (bool * list (res (Key T * Val T))) :=
  cf ← get_cf_handle (COLUMN_FAMILY_NAME T);
  let raw := cdb_raw_seek T c cf pos in
  Ok (cdb_seek_result T c pos raw, decode_kv T c <$> in_range_entries c raw).

#[global] Instance ChannelDB_SchemaDB : SchemaDB ChannelDB := {|
  sdb_get := cdb_get;
  sdb_put := cdb_put;
  sdb_range_delete := cdb_range_delete;
  sdb_iter := cdb_iter;
  sdb_write_schemas := cdb_write_schemas
|}.
End channel_db.

(** ** Lemmas *)

Lemma keys_sorted_app l1 l2 : keys_sorted l1 -> keys_sorted l2 ->
  (forall e1 e2, e1 ∈ l1 -> e2 ∈ l2 -> bytes_lt e1.1 e2.1) -> keys_sorted (l1 ++ l2).
Proof.
  unfold keys_sorted. induction l1 as [|e l1 IH]; intros H1 H2 H12; [done|]. rewrite fmap_cons in H1.
  apply StronglySorted_inv in H1 as [H1 Ha]. cbn [app]. rewrite fmap_cons. constructor.
  - apply IH; [done..|]. intros; apply H12; [by right|done].
  - rewrite fmap_app. apply Forall_app. split; [done|]. rewrite Forall_fmap, Forall_forall.
    intros e2 He2. apply H12; [left|done].
Qed.

Lemma keys_sorted_filter (P : bytes * bytes -> bool) l : keys_sorted l -> keys_sorted (List.filter P l).
Proof.
  unfold keys_sorted. induction l as [|e l IH]; intros Hs; [constructor|]. rewrite fmap_cons in Hs.
  apply StronglySorted_inv in Hs as [Hs Ha]. simpl. destruct (P e); [|auto].
  rewrite fmap_cons. constructor; [auto|]. rewrite Forall_fmap, Forall_forall in Ha |- *.
  intros e' He'. apply Ha. rewrite list_elem_of_In, filter_In, <-list_elem_of_In in He'. tauto.
Qed.

Lemma keys_sorted_NoDup l : keys_sorted l -> NoDup l.*1.
Proof.
  unfold keys_sorted. induction (l.*1) as [|k ks IH]; intros Hs; [constructor|].
  apply StronglySorted_inv in Hs as [Hs Ha]. constructor; [|auto]. intros Hin.
  rewrite Forall_forall in Ha. by apply (bytes_lt_irrefl k), Ha.
Qed.

Section batch_lemmas.
Context `{!SchemaBatches} `{!SchemaBatchesLaws}.

Lemma row_op_Some b cf k op : row_op b cf k = Some op <-> (cf, k, op) ∈ rows_ops (batch_rows b).
Proof. unfold row_op. symmetry. apply elem_of_list_to_map. apply batch_rows_NoDup. Qed.

Lemma row_op_new cf k : row_op batch_new cf k = None.
Proof. destruct (row_op batch_new cf k) eqn:E; [|done]. by apply row_op_Some, batch_rows_new in E. Qed.

Lemma row_op_put T key v b cf k :
  row_op (put T key v b) cf k =
  if decide ((cf, k) = (COLUMN_FAMILY_NAME T, encode_key T key)) then Some (Some (encode_value T v))
  else row_op b cf k.
Proof.
  apply option_eq. intros op. unfold put. rewrite row_op_Some, batch_rows_put.
  case_decide as Hd; [|rewrite row_op_Some; naive_solver].
  split; [intros [[_ ->]|[? _]]; [done|congruence]|]. intros [= <-]. auto.
Qed.

Lemma row_op_delete T key b cf k :
  row_op (delete T key b) cf k =
  if decide ((cf, k) = (COLUMN_FAMILY_NAME T, encode_key T key)) then Some None else row_op b cf k.
Proof.
  apply option_eq. intros op. unfold delete. rewrite row_op_Some, batch_rows_delete.
  case_decide as Hd; [|rewrite row_op_Some; naive_solver].
  split; [intros [[_ ->]|[? _]]; [done|congruence]|]. intros [= <-]. auto.
Qed.

Lemma row_op_put_eq T key v b :
  row_op (put T key v b) (COLUMN_FAMILY_NAME T) (encode_key T key) = Some (Some (encode_value T v)).
Proof. rewrite row_op_put. by rewrite decide_True. Qed.

Lemma row_op_put_ne T key v b cf k :
  cf <> COLUMN_FAMILY_NAME T \/ k <> encode_key T key -> row_op (put T key v b) cf k = row_op b cf k.
Proof. intros Hne. rewrite row_op_put. rewrite decide_False; [done|]. intros [= -> ->]. naive_solver. Qed.

Lemma row_op_delete_ne T key b cf k :
  cf <> COLUMN_FAMILY_NAME T -> row_op (delete T key b) cf k = row_op b cf k.
Proof. intros Hne. rewrite row_op_delete. rewrite decide_False; [done|]. congruence. Qed.

(** A loop of puts into one table. *)
Section put_all.
Context {X : Type} (T : Schema) (key : X -> Key T) (val : X -> Val T).

Lemma row_op_put_all_ne l b cf k :
  cf <> COLUMN_FAMILY_NAME T \/ (forall x, x ∈ l -> k <> encode_key T (key x)) ->
  row_op (put_all T key val l b) cf k = row_op b cf k.
Proof.
  unfold put_all. revert b. induction l as [|x l IH]; intros b Hne; simpl; [done|].
  rewrite IH by (destruct Hne as [?|Hne]; [by left|right; intros ??; apply Hne; by right]).
  apply row_op_put_ne. destruct Hne as [?|Hne]; [by left|right; apply Hne; left].
Qed.

Lemma row_op_put_all l b x :
  NoDup (map (fun x => encode_key T (key x)) l) -> x ∈ l ->
  row_op (put_all T key val l b) (COLUMN_FAMILY_NAME T) (encode_key T (key x)) = Some (Some (encode_value T (val x))).
Proof.
  revert b. induction l as [|y l IH]; intros b; [by intros _ ?%elem_of_nil|]. simpl.
  change (put_all T key val (y :: l) b) with (put_all T key val l (put T (key y) (val y) b)).
  intros [Hni Hnd]%NoDup_cons [->|Hin]%elem_of_cons; [|by apply IH].
  rewrite row_op_put_all_ne; [apply row_op_put_eq|]. right. intros z Hz E. apply Hni.
  change (map ?f l) with (f <$> l). apply list_elem_of_fmap. by exists z.
Qed.
End put_all.

Lemma batch_ok_new : batch_ok batch_new.
Proof. intros cf k op Hin. by apply batch_rows_new in Hin. Qed.

(** A schema whose encoded keys may be stored. *)
Class StorableSchema (T : Schema) : Prop := {
  storable_cf : COLUMN_FAMILY_NAME T ∈ sg_column_families;
  storable_key k : encode_key T k <> [] /\ bytes_ok (encode_key T k)
}.

Lemma batch_ok_put T `{!StorableSchema T} k v b : batch_ok b -> batch_ok (put T k v b).
Proof.
  intros Hb cf k' op [[[= -> ->] _]|[_ ?]]%batch_rows_put; [|by eapply Hb].
  split; [apply storable_cf|apply storable_key].
Qed.

Lemma batch_ok_put_all {X} T `{!StorableSchema T} (key : X -> Key T) (val : X -> Val T) l b :
  batch_ok b -> batch_ok (put_all T key val l b).
Proof.
  unfold put_all. revert b. induction l as [|x l IH]; intros b Hb; simpl; [done|]. apply IH. by apply batch_ok_put.
Qed.

Lemma batch_ok_delete T `{!StorableSchema T} k b : batch_ok b -> batch_ok (delete T k b).
Proof.
  intros Hb cf k' op [[[= -> ->] _]|[_ ?]]%batch_rows_delete; [|by eapply Hb].
  split; [apply storable_cf|apply storable_key].
Qed.
End batch_lemmas.

(** *** [ChannelDB] implements the trait *)

Section channel_db_lemmas.
Context {L : Libra} {LL : LibraLaws} {R : RocksDB} {RL : RocksDBLaws} {B : SchemaBatches} {BL : SchemaBatchesLaws}.

Implicit Types c : ChannelDB.

Definition cdb_view c (cf : string) (k : bytes) : option bytes :=
  db_get (rocks (inner c)) cf (prefix_key (cdb_prefix c) k).

(** The address is not the all-ones one, and the engine holds only keys longer than an address. *)
Definition cdb_ok c : Prop :=
  ~ Forall (fun b => b = u8_max) (cdb_prefix c) /\
  forall cf k, cf ∈ sg_column_families -> is_Some (db_get (rocks (inner c)) cf k) ->
    ADDRESS_LENGTH < length k /\ bytes_ok k.

Lemma get_cf_handle_ok cf : cf ∈ sg_column_families -> get_cf_handle cf = Ok cf.
Proof. intros Hcf. unfold get_cf_handle. by rewrite bool_decide_eq_true_2. Qed.

Lemma length_cdb_prefix c : length (cdb_prefix c) = ADDRESS_LENGTH.
Proof. apply address_length. Qed.

Lemma in_range_prefix c l : in_range_entries c l `prefix_of` l.
Proof.
  induction l as [|e l IH]; simpl; [done|]. destruct (is_in_valid_range c e); [|apply prefix_nil].
  by apply prefix_cons.
Qed.

Lemma StronglySorted_prefix {A} (Rel : A -> A -> Prop) l l' :
  l `prefix_of` l' -> StronglySorted Rel l' -> StronglySorted Rel l.
Proof.
  intros [k ->]. induction l as [|a l IH]; simpl; intros Hs; [constructor|].
  apply StronglySorted_inv in Hs as [Hs Ha]. constructor; [auto|]. by apply Forall_app in Ha as [? _].
Qed.

Lemma in_range_sorted c l : keys_sorted l -> keys_sorted (in_range_entries c l).
Proof.
  unfold keys_sorted. apply StronglySorted_prefix. destruct (in_range_prefix c l) as [k Hk].
  exists k.*1. by rewrite <-fmap_app, <-Hk.
Qed.

(** From the prefix on, the entries of this channel come first. *)
Lemma elem_of_in_range c l e :
  keys_sorted l -> (forall e', e' ∈ l -> bytes_le (cdb_prefix c) e'.1 = true) ->
  e ∈ in_range_entries c l <-> e ∈ l /\ cdb_prefix c `prefix_of` e.1.
Proof.
  induction l as [|a l IH]; intros Hs Hge; simpl; [set_solver|].
  unfold keys_sorted in Hs. simpl in Hs. apply StronglySorted_inv in Hs as [Hs Ha].
  unfold is_in_valid_range. case_bool_decide as Hp.
  - rewrite !elem_of_cons, IH; [naive_solver|done|]. intros e' ?. apply Hge. by right.
  - rewrite elem_of_nil, elem_of_cons. split; [done|]. intros [[->|Hin] Hpre]; [done|].
    apply Hp. destruct Hpre as [s Hpre].
    apply prefix_convex with s; [apply Hge; left|]. rewrite <-Hpre. apply bytes_lt_le.
    rewrite Forall_fmap, Forall_forall in Ha. by apply Ha.
Qed.

(** The engine's [seek_for_prev] lands on the last key up to the target. *)
Lemma prev_landing d cf t k0 : is_Some (db_get d cf k0) -> bytes_le k0 t = true ->
  exists m v, db_get d cf m = Some v /\ bytes_le m t = true /\
    (forall k, is_Some (db_get d cf k) -> bytes_le k t = true -> bytes_le k m = true) /\
    (forall k v', (k, v') ∈ db_seek_for_prev d cf t <-> db_get d cf k = Some v' /\ bytes_le m k = true).
Proof.
  intros [v0 Hk0] Hle0.
  set (l := List.filter (fun k => bytes_le k t) (db_seek d cf []).*1).
  assert (forall k, k ∈ l <-> is_Some (db_get d cf k) /\ bytes_le k t = true) as Hl.
  { intros k. unfold l. rewrite list_elem_of_In, filter_In, <-list_elem_of_In, list_elem_of_fmap. split.
    - intros [([k' v] & -> & Hin) ?]. apply db_seek_elem in Hin as [Hin _]. simpl in *. split; [eauto|done].
    - intros [[v Hv] ?]. split; [|done]. exists (k, v). split; [done|]. by apply db_seek_elem. }
  destruct (bytes_max l) as (m & Hm & Hmax).
  { intros E. assert (k0 ∈ l) as Hin by (apply Hl; eauto). rewrite E in Hin. by apply elem_of_nil in Hin. }
  apply Hl in Hm as [[v Hv] Hmt]. exists m, v. split_and!; [done|done| |].
  - intros k Hk Hkt. apply Hmax, Hl. done.
  - intros k v'. rewrite db_prev_elem. split.
    + intros (? & _ & Hb). split; [done|]. apply Hb; [eauto|done].
    + intros [? Hmk]. split_and!; [done|eauto|]. intros k1 Hk1 Hk1t.
      eapply bytes_le_trans; [|exact Hmk]. apply Hmax, Hl. done.
Qed.

Lemma prev_cases d cf t :
  (db_seek_for_prev d cf t = [] /\ forall k, is_Some (db_get d cf k) -> bytes_le k t = false) \/
  exists k0, is_Some (db_get d cf k0) /\ bytes_le k0 t = true.
Proof.
  destruct (db_seek_for_prev d cf t) as [|[k v] l] eqn:E; [left|right].
  - split; [done|]. intros k Hk. destruct (bytes_le k t) eqn:Hkt; [|done].
    destruct (prev_landing d cf t k Hk Hkt) as (m & vm & Hm & _ & _ & Hraw).
    assert ((m, vm) ∈ db_seek_for_prev d cf t) as Hin by (apply Hraw; split; [done|apply bytes_le_refl]).
    rewrite E in Hin. by apply elem_of_nil in Hin.
  - assert ((k, v) ∈ db_seek_for_prev d cf t) as Hin by (rewrite E; left).
    by apply db_prev_elem in Hin as (_ & ? & _).
Qed.

(** An engine listing that starts at or after the prefix, cut to this channel. *)
Lemma in_range_view c cf raw k v (P : bytes -> Prop) :
  keys_sorted raw -> (forall e, e ∈ raw -> bytes_le (cdb_prefix c) e.1 = true) ->
  (forall k' v', (prefix_key (cdb_prefix c) k', v') ∈ raw <-> cdb_view c cf k' = Some v' /\ P k') ->
  (prefix_key (cdb_prefix c) k, v) ∈ in_range_entries c raw <-> cdb_view c cf k = Some v /\ P k.
Proof.
  intros Hs Hge He. rewrite elem_of_in_range by done. rewrite He. simpl. split; [tauto|].
  intros ?. split; [done|]. by exists k.
Qed.

Lemma in_range_prefixed c l e : e ∈ in_range_entries c l -> exists k, e.1 = prefix_key (cdb_prefix c) k.
Proof.
  induction l as [|a l IH]; simpl; [by intros ?%elem_of_nil|].
  unfold is_in_valid_range. case_bool_decide as Hp; [|by intros ?%elem_of_nil].
  intros [->|?]%elem_of_cons; [|auto]. destruct Hp as [k Hk]. eauto.
Qed.

(** An engine listing whose first entry is out of range yields nothing. *)
Lemma in_range_empty c l e : keys_sorted l -> e ∈ l ->
  (forall e', e' ∈ l -> bytes_le e.1 e'.1 = true) -> ~ cdb_prefix c `prefix_of` e.1 ->
  in_range_entries c l = [].
Proof.
  intros Hs Hin Hmin Hp. destruct l as [|a l]; simpl; [done|].
  assert (a.1 = e.1) as E.
  { apply elem_of_cons in Hin as [->|Hin]; [done|].
    unfold keys_sorted in Hs. simpl in Hs. apply StronglySorted_inv in Hs as [_ Ha].
    rewrite Forall_fmap, Forall_forall in Ha. apply bytes_le_antisymm; [|apply Hmin; left].
    apply bytes_lt_le. by apply Ha. }
  unfold is_in_valid_range. by rewrite bool_decide_eq_false_2 by by rewrite E.
Qed.

Lemma prefix_key_le c k k' :
  bytes_le (prefix_key (cdb_prefix c) k) (prefix_key (cdb_prefix c) k') = bytes_le k k'.
Proof. apply bytes_le_app. Qed.

Lemma seek_from_view c cf t k v :
  (prefix_key (cdb_prefix c) k, v)
    ∈ in_range_entries c (db_seek (rocks (inner c)) cf (prefix_key (cdb_prefix c) t)) <->
  cdb_view c cf k = Some v /\ bytes_le t k = true.
Proof.
  apply (in_range_view c cf _ k v (fun k => bytes_le t k = true)); [apply db_seek_sorted| |].
  - intros [k' v'] [_ Hle]%db_seek_elem. simpl. eapply bytes_le_trans; [|exact Hle]. apply bytes_le_prefix.
  - intros k' v'. rewrite db_seek_elem, prefix_key_le. done.
Qed.

(** [seek_for_prev] to a target such that a key of the engine between the prefix and the target is one
    of this channel. *)
Lemma seek_prev_view c cf t k v :
  (forall m, is_Some (db_get (rocks (inner c)) cf m) -> bytes_le (cdb_prefix c) m = true ->
     bytes_le m t = true -> cdb_prefix c `prefix_of` m) ->
  (prefix_key (cdb_prefix c) k, v) ∈ in_range_entries c (db_seek_for_prev (rocks (inner c)) cf t) <->
  cdb_view c cf k = Some v /\
  (exists k0, is_Some (cdb_view c cf k0) /\ bytes_le (prefix_key (cdb_prefix c) k0) t = true) /\
  (forall k0, is_Some (cdb_view c cf k0) -> bytes_le (prefix_key (cdb_prefix c) k0) t = true -> bytes_le k0 k = true).
Proof.
  intros Hmid. set (d := rocks (inner c)) in *.
  destruct (prev_cases d cf t) as [[-> Hnone]|(k1 & Hk1 & Hk1t)].
  { simpl. rewrite elem_of_nil. split; [done|]. intros (_ & (k0 & Hk0 & Ht) & _).
    by rewrite (Hnone _ Hk0) in Ht. }
  destruct (prev_landing d cf t k1 Hk1 Hk1t) as (m & vm & Hm & Hmt & Hmax & Hraw).
  destruct (decide (bytes_le (cdb_prefix c) m = true)) as [Hpm|Hpm].
  - destruct (Hmid m) as [km Hkm]; [eauto|done..|].
    rewrite (in_range_view c cf _ k v (fun k => bytes_le km k = true)).
    + split; intros [Hv Hr]; (split; [done|]).
      * split; [exists km; split; [unfold cdb_view, prefix_key; rewrite <-Hkm; eauto|]|].
        { unfold prefix_key. by rewrite <-Hkm. }
        intros k0 Hk0 Hle. eapply bytes_le_trans; [|exact Hr]. rewrite <-(prefix_key_le c).
        change (prefix_key (cdb_prefix c) km) with (cdb_prefix c ++ km). rewrite <-Hkm. by apply Hmax.
      * destruct Hr as [_ Hr]. apply Hr; [unfold cdb_view, prefix_key; rewrite <-Hkm; eauto|].
        unfold prefix_key. by rewrite <-Hkm.
    + apply db_prev_sorted.
    + intros [k' v'] [_ Hle]%Hraw. simpl. by eapply bytes_le_trans.
    + intros k' v'. rewrite Hraw. unfold cdb_view. by rewrite Hkm, prefix_key_le.
  - rewrite (in_range_empty c _ (m, vm)).
    + rewrite elem_of_nil. split; [done|]. intros (_ & (k0 & Hk0 & Ht) & _). apply Hpm.
      eapply bytes_le_trans; [|by apply (Hmax _ Hk0 Ht)]. apply bytes_le_prefix.
    + apply db_prev_sorted.
    + apply Hraw. split; [done|apply bytes_le_refl].
    + intros [k' v'] [_ ?]%Hraw. done.
    + intros [s Hs]. apply Hpm. simpl in Hs. rewrite Hs. apply bytes_le_prefix.
Qed.

Lemma raw_seek_view T c cf pos k v : cdb_ok c -> cf ∈ sg_column_families ->
  (prefix_key (cdb_prefix c) k, v) ∈ in_range_entries c (cdb_raw_seek T c cf pos) <->
  cdb_view c cf k = Some v /\ seek_bound T (cdb_view c cf) pos k.
Proof.
  intros [Hones Hkeys] Hcf. pose proof (address_bytes_ok (participant c)) as Hok. destruct pos; simpl.
  - pose proof (seek_from_view c cf [] k v) as E. unfold prefix_key at 2 in E. rewrite app_nil_r in E.
    rewrite E. simpl. tauto.
  - rewrite seek_prev_view.
    + split; intros [Hv Hr]; (split; [done|]).
      * intros k0 Hk0. apply Hr; [done|]. apply bytes_lt_le, prefix_next_bound; [done..|]. by exists k0.
      * split; [|by intros k0 Hk0 _; apply Hr]. exists k. split; [eauto|].
        apply bytes_lt_le, prefix_next_bound; [done..|]. by exists k.
    + intros m Hm Hpm Hmt. destruct (Hkeys cf m Hcf Hm) as [Hlen Hmok].
      destruct (prefix_next_split _ Hok Hones) as (q & x & j & Eq & _ & En).
      fold (cdb_prefix c) in Eq, En. rewrite Eq in Hpm |- *. apply between_prefix; try done.
      * apply (f_equal length) in Eq. rewrite length_cdb_prefix, length_app in Eq. simpl in Eq.
        rewrite length_replicate in Eq. lia.
      * rewrite <-En. apply bytes_le_neq_lt; [done|]. intros E. apply (f_equal length) in E.
        rewrite (length_prefix_next (cdb_prefix c) Hok Hones), length_cdb_prefix in E. lia.
  - apply seek_from_view.
  - rewrite seek_prev_view.
    + setoid_rewrite prefix_key_le. done.
    + intros m _ Hpm Hmt. by eapply prefix_convex.
Qed.

Lemma decode_kv_prefixed T c k v : decode_kv T c (prefix_key (cdb_prefix c) k, v) = decode_entry T (k, v).
Proof.
  unfold decode_kv, decode_entry, prefix_key. simpl.
  rewrite take_app_length', drop_app_length' by by rewrite length_cdb_prefix.
  rewrite !bool_decide_eq_true_2; try done. rewrite length_app, length_cdb_prefix. lia.
Qed.

(** The entries an iterator of this channel yields, with the prefix stripped. *)
Definition cdb_entries T c cf pos : list (bytes * bytes) :=
  (fun e : bytes * bytes => (drop ADDRESS_LENGTH e.1, e.2)) <$> in_range_entries c (cdb_raw_seek T c cf pos).

Lemma unstrip c (l : list (bytes * bytes)) : (forall e, e ∈ l -> exists k, e.1 = prefix_key (cdb_prefix c) k) ->
  (fun e : bytes * bytes => (prefix_key (cdb_prefix c) e.1, e.2)) <$>
    ((fun e : bytes * bytes => (drop ADDRESS_LENGTH e.1, e.2)) <$> l) = l.
Proof.
  induction l as [|[k v] l IH]; intros Hl; simpl; [done|]. f_equal; [|apply IH; intros; apply Hl; by right].
  destruct (Hl (k, v)) as [k' Hk]; [left|]. simpl in Hk. subst. f_equal. unfold prefix_key.
  by rewrite drop_app_length' by by rewrite length_cdb_prefix.
Qed.

Lemma cdb_entries_unstrip T c cf pos :
  in_range_entries c (cdb_raw_seek T c cf pos) =
  (fun e : bytes * bytes => (prefix_key (cdb_prefix c) e.1, e.2)) <$> cdb_entries T c cf pos.
Proof. unfold cdb_entries. rewrite unstrip; [done|]. intros e. apply in_range_prefixed. Qed.

Lemma keys_sorted_strip c l :
  keys_sorted ((fun e : bytes * bytes => (prefix_key (cdb_prefix c) e.1, e.2)) <$> l) -> keys_sorted l.
Proof.
  unfold keys_sorted. induction l as [|e l IH]; intros Hs; [constructor|]. rewrite !fmap_cons in *.
  apply StronglySorted_inv in Hs as [Hs Ha]. constructor; [auto|].
  rewrite !Forall_fmap in Ha. apply Forall_fmap. eapply Forall_impl; [exact Ha|].
  intros e'. simpl. unfold bytes_lt. by rewrite prefix_key_le.
Qed.

Lemma cdb_iter_view T c pos : cdb_ok c -> COLUMN_FAMILY_NAME T ∈ sg_column_families ->
  exists found raw, cdb_iter T c pos = Ok (found, decode_entry T <$> raw) /\ keys_sorted raw /\
    (forall k v, (k, v) ∈ raw <->
       cdb_view c (COLUMN_FAMILY_NAME T) k = Some v /\
       seek_bound T (cdb_view c (COLUMN_FAMILY_NAME T)) pos k) /\
    (found = false -> raw = []).
Proof.
  intros Hc Hcf. set (cf := COLUMN_FAMILY_NAME T) in *.
  exists (cdb_seek_result T c pos (cdb_raw_seek T c cf pos)), (cdb_entries T c cf pos).
  pose proof (cdb_entries_unstrip T c cf pos) as Eu. split_and!.
  - unfold cdb_iter. fold cf. rewrite get_cf_handle_ok by done. rstep. do 2 f_equal. rewrite Eu.
    rewrite <-list_fmap_compose. apply list_fmap_ext. intros _ [k v] _. simpl. apply decode_kv_prefixed.
  - assert (keys_sorted (in_range_entries c (cdb_raw_seek T c cf pos))) as Hs.
    { apply in_range_sorted. destruct pos; simpl; apply db_seek_sorted || apply db_prev_sorted. }
    rewrite Eu in Hs. by eapply keys_sorted_strip.
  - intros k v. rewrite <-(raw_seek_view T c cf pos k v) by done. rewrite Eu, list_elem_of_fmap. split.
    + intros Hin. by exists (k, v).
    + intros ([k' v'] & [= E ->] & Hin). apply (inj (cdb_prefix c ++.)) in E. by subst.
  - unfold cdb_entries, cdb_seek_result. destruct (cdb_raw_seek T c cf pos) as [|e l]; [done|]. simpl.
    destruct pos; [done|done| |]; destruct (is_in_valid_range c e); done.
Qed.

Definition prefix_op c (op : batch_op) : batch_op := (op.1.1, prefix_key (cdb_prefix c) op.1.2, op.2).

Lemma write_loop c rows acc : (forall row, row ∈ rows -> row.1 ∈ sg_column_families) ->
  foldM (fun (acc : list batch_op) (row : string * list (bytes * option bytes)) =>
      cf ← get_cf_handle row.1;
      Ok (acc ++ map (fun e : bytes * option bytes => (cf, prefix_key (cdb_prefix c) e.1, e.2)) row.2))
    acc rows = Ok (acc ++ map (prefix_op c) (rows_ops rows)).
Proof.
  revert acc. induction rows as [|row rows IH]; intros acc Hcf; simpl; [by rewrite app_nil_r|].
  rewrite get_cf_handle_ok by (apply Hcf; left). simpl. rewrite IH by (intros; apply Hcf; by right).
  f_equal. rewrite map_app, map_map, (assoc_L (++)). done.
Qed.

Lemma apply_ops_notin ops cf k old : (forall op, (cf, k, op) ∉ ops) -> apply_ops ops cf k old = old.
Proof.
  unfold apply_ops. revert old. induction ops as [|[ck op] ops IH]; intros old Hn; simpl; [done|].
  rewrite bool_decide_eq_false_2; [|intros ->; apply (Hn op); left]. apply IH. intros op' ?. apply (Hn op'). by right.
Qed.

Lemma apply_ops_in ops cf k op old : NoDup ops.*1 -> (cf, k, op) ∈ ops -> apply_ops ops cf k old = op.
Proof.
  unfold apply_ops. revert old. induction ops as [|[ck op'] ops IH]; intros old; simpl; [by intros _ ?%elem_of_nil|].
  intros [Hni Hnd]%NoDup_cons [[= <- <-]|Hin]%elem_of_cons; [|by apply IH].
  rewrite bool_decide_eq_true_2 by done. apply apply_ops_notin. intros op' Hin. apply Hni.
  apply list_elem_of_fmap. by exists (cf, k, op').
Qed.

Lemma apply_ops_prefixed c b cf k old :
  apply_ops (map (prefix_op c) (rows_ops (batch_rows b))) cf (prefix_key (cdb_prefix c) k) old =
  default old (row_op b cf k).
Proof.
  set (ops := rows_ops (batch_rows b)).
  assert (forall k' op, (cf, k', op) ∈ map (prefix_op c) ops ->
            exists k0, k' = prefix_key (cdb_prefix c) k0 /\ (cf, k0, op) ∈ ops) as Hinv.
  { intros k' op Hin. change (map (prefix_op c) ops) with (prefix_op c <$> ops) in Hin.
    apply list_elem_of_fmap in Hin as ([[cf' k0] op'] & [= -> -> ->] & ?). eauto. }
  destruct (row_op b cf k) as [op|] eqn:E; simpl.
  - apply row_op_Some in E. apply apply_ops_in.
    + pose proof (batch_rows_NoDup b) as Hnd. fold ops in Hnd.
      replace (map (prefix_op c) ops).*1 with (map (fun ck : string * bytes => (ck.1, prefix_key (cdb_prefix c) ck.2)) ops.*1)
        by (clear; induction ops; simpl; [done|by f_equal]).
      apply NoDup_fmap_2; [|done]. intros [c1 k1] [c2 k2] [= -> E2]. apply (inj (cdb_prefix c ++.)) in E2. by subst.
    + change (map (prefix_op c) ops) with (prefix_op c <$> ops). apply list_elem_of_fmap. by exists (cf, k, op).
  - apply apply_ops_notin. intros op (k0 & E2 & Hin)%Hinv. apply (inj (cdb_prefix c ++.)) in E2. subst k0.
    apply row_op_Some in Hin. congruence.
Qed.

(** The batch touches no key outside this channel. *)
Lemma apply_ops_other c b cf k old : ~ cdb_prefix c `prefix_of` k ->
  apply_ops (map (prefix_op c) (rows_ops (batch_rows b))) cf k old = old.
Proof.
  intros Hk. apply apply_ops_notin. intros op Hin. apply Hk.
  change (map (prefix_op c)) with (fmap (M:=list) (prefix_op c)) in Hin.
  apply list_elem_of_fmap in Hin as ([[cf' k0] op'] & [= -> -> ->] & ?). by exists k0.
Qed.

Lemma cdb_write_eq c b : batch_ok b ->
  cdb_write_schemas c b =
  d ← db_write (rocks (inner c)) (map (prefix_op c) (rows_ops (batch_rows b))); Ok (with_rocks c d).
Proof.
  intros Hb. unfold cdb_write_schemas. rewrite write_loop; [done|]. intros row Hrow.
  destruct (row.2) as [|[k op] l] eqn:E; [by apply batch_rows_nonempty in Hrow|].
  apply (Hb row.1 k op). unfold rows_ops. rewrite list_elem_of_In, in_flat_map. exists row.
  rewrite <-list_elem_of_In. split; [done|]. rewrite E. left. done.
Qed.

Lemma cdb_write_view c b c' : cdb_ok c -> batch_ok b -> cdb_write_schemas c b = Ok c' ->
  cdb_ok c' /\ forall cf k, cdb_view c' cf k = default (cdb_view c cf k) (row_op b cf k).
Proof.
  intros [Hones Hkeys] Hb. rewrite cdb_write_eq by done. intros (d & Hd & [= <-])%bind_Ok.
  split; [split; [done|]|].
  - simpl. intros cf k Hcf. rewrite (db_write_get _ _ _ _ _ Hd).
    destruct (decide (cdb_prefix c `prefix_of` k)) as [[k0 ->]|Hn].
    + change (cdb_prefix c ++ k0) with (prefix_key (cdb_prefix c) k0). rewrite apply_ops_prefixed.
      destruct (row_op b cf k0) as [op|] eqn:E; simpl; [|by apply Hkeys]. intros _.
      apply row_op_Some, Hb in E as (_ & Hne & Hbok). unfold prefix_key.
      rewrite length_app, length_cdb_prefix. split; [destruct k0; simpl; [done|lia]|].
      apply Forall_app. split; [apply address_bytes_ok|done].
    + rewrite apply_ops_other by done. by apply Hkeys.
  - intros cf k. unfold cdb_view. simpl. rewrite (db_write_get _ _ _ _ _ Hd).
    exact (apply_ops_prefixed c b cf k _).
Qed.

#[global] Instance ChannelDB_laws : SchemaDBLaws ChannelDB.
Proof.
  refine {| sdb_view := cdb_view; sdb_ok := cdb_ok |}.
  - intros T c k Hcf. simpl. unfold cdb_get. by rewrite get_cf_handle_ok.
  - intros T c pos. apply cdb_iter_view.
  - intros c b Hb. simpl. rewrite cdb_write_eq by done.
    pose proof (db_write_no_panic (rocks (inner c)) (map (prefix_op c) (rows_ops (batch_rows b)))).
    by destruct (db_write _ _).
  - intros c b c'. apply cdb_write_view.
Defined.

Lemma keys_sorted_unique (l1 l2 : list (bytes * bytes)) : keys_sorted l1 -> keys_sorted l2 ->
  (forall k v, (k, v) ∈ l1 <-> (k, v) ∈ l2) -> l1 = l2.
Proof.
  unfold keys_sorted. revert l2. induction l1 as [|[k1 v1] l1 IH]; intros [|[k2 v2] l2] H1 H2 E; [done|..].
  - exfalso. assert ((k2, v2) ∈ []) as Hin by (apply E; left). by apply elem_of_nil in Hin.
  - exfalso. assert ((k1, v1) ∈ []) as Hin by (apply E; left). by apply elem_of_nil in Hin.
  - rewrite fmap_cons in *. apply StronglySorted_inv in H1 as [H1 F1]. apply StronglySorted_inv in H2 as [H2 F2].
    rewrite Forall_fmap, Forall_forall in F1, F2.
    assert ((k1, v1) = (k2, v2)) as [= <- <-].
    { assert ((k1, v1) ∈ (k2, v2) :: l2) as Hin1 by (apply E; left).
      assert ((k2, v2) ∈ (k1, v1) :: l1) as Hin2 by (apply E; left).
      apply elem_of_cons in Hin1 as [|Hin1]; [done|]. apply elem_of_cons in Hin2 as [|Hin2]; [done|].
      destruct (bytes_lt_irrefl k1). apply (bytes_le_lt_trans _ k2).
      - apply bytes_lt_le, (F1 _ Hin2).
      - apply (F2 _ Hin1). }
    f_equal. apply IH; [done..|]. intros k v. specialize (E k v). rewrite !elem_of_cons in E.
    split; intros Hin.
    + destruct (proj1 E (or_intror Hin)) as [[= -> ->]|]; [|done]. by apply F1, bytes_lt_irrefl in Hin.
    + destruct (proj2 E (or_intror Hin)) as [[= -> ->]|]; [|done]. by apply F2, bytes_lt_irrefl in Hin.
Qed.

(** Two channels of one storage have incomparable keys. *)
Lemma prefixes_differ c1 c2 k : participant c1 <> participant c2 ->
  ~ cdb_prefix c1 `prefix_of` prefix_key (cdb_prefix c2) k.
Proof.
  intros Hne [s E]. unfold prefix_key in E. apply app_inj_1 in E as [E _].
  2: by rewrite !length_cdb_prefix.
  apply Hne. assert (Ok (participant c1) = Ok (participant c2)) as [= ?]; [|done].
  unfold cdb_prefix in E. by rewrite <-(address_roundtrip (participant c1)), <-E, address_roundtrip.
Qed.

(** ** Properties *)

(** a committed batch is read back: a key that the batch put has the value it put, a key it deleted
    is absent, and every other key of the channel reads as before. *)
Theorem channel_db_read_your_writes T c b c' k
  (Hok : cdb_ok c) (Hb : batch_ok b) (Hcf : COLUMN_FAMILY_NAME T ∈ sg_column_families)
  (Hw : cdb_write_schemas c b = Ok c') :
  cdb_get T c' k =
    match row_op b (COLUMN_FAMILY_NAME T) (encode_key T k) with
    | Some (Some v) => Some <$> decode_value T v
    | Some None => Ok None
    | None => cdb_get T c k
    end.
Proof.
  destruct (cdb_write_view c b c' Hok Hb Hw) as [_ Hv].
  unfold cdb_get. rewrite get_cf_handle_ok by done. rstep.
  change (db_get (rocks (inner ?x)) ?cf (prefix_key (cdb_prefix ?x) ?key)) with (cdb_view x cf key).
  rewrite Hv. by destruct (row_op b _ _) as [[]|].
Qed.

(** a seek of the iterator yields exactly the entries of this channel from the sought position on, in
    increasing key order and decoded, and none of any other channel: all of them after [seek_to_first],
    the greatest one after [seek_to_last], those from the key on after [seek]. *)
Theorem channel_db_iterates T c pos (Hok : cdb_ok c) (Hcf : COLUMN_FAMILY_NAME T ∈ sg_column_families) :
  exists found raw, cdb_iter T c pos = Ok (found, decode_entry T <$> raw) /\ keys_sorted raw /\
    (forall k v, (k, v) ∈ raw <->
       db_get (rocks (inner c)) (COLUMN_FAMILY_NAME T) (prefix_key (cdb_prefix c) k) = Some v /\
       seek_bound T (cdb_view c (COLUMN_FAMILY_NAME T)) pos k) /\
    (found = false -> raw = []).
Proof. by apply cdb_iter_view. Qed.

(** channels that share a storage do not interfere: a batch committed through one address changes
    neither the reads nor the iterations through any other address. *)
Theorem channel_db_isolated c1 c2 b c1' (Hsame : inner c1 = inner c2)
  (Hne : participant c1 <> participant c2) (Hb : batch_ok b) (Hok1 : cdb_ok c1) (Hok : cdb_ok c2)
  (Hw : cdb_write_schemas c1 b = Ok c1') T (Hcf : COLUMN_FAMILY_NAME T ∈ sg_column_families) :
  let c2' := mkChannelDB (inner c1') (participant c2) in
  (forall k, cdb_get T c2' k = cdb_get T c2 k) /\
  (forall pos, snd <$> cdb_iter T c2' pos = snd <$> cdb_iter T c2 pos).
Proof.
  intros c2'. destruct (cdb_write_view c1 b c1' Hok1 Hb Hw) as [[_ Hkeys] _].
  assert (cdb_ok c2') as Hok' by (split; [apply Hok|exact Hkeys]).
  assert (forall cf k, cdb_view c2' cf k = cdb_view c2 cf k) as Hv.
  { rewrite cdb_write_eq in Hw by done. apply bind_Ok in Hw as (d & Hd & [= <-]).
    intros cf k. unfold cdb_view. simpl. rewrite (db_write_get _ _ _ _ _ Hd), <-Hsame.
    apply apply_ops_other. by apply (prefixes_differ c1 c2). }
  split.
  - intros k. unfold cdb_get. rewrite get_cf_handle_ok by done. rstep.
    change (db_get (rocks (inner ?x)) ?cf (prefix_key (cdb_prefix ?x) ?key)) with (cdb_view x cf key).
    by rewrite Hv.
  - intros pos. destruct (cdb_iter_view T c2 pos Hok Hcf) as (f & raw & -> & Hs & He & _).
    destruct (cdb_iter_view T c2' pos Hok' Hcf) as (f' & raw' & -> & Hs' & He' & _).
    simpl. do 2 f_equal. apply keys_sorted_unique; [done..|]. intros k v. rewrite He, He', Hv.
    destruct pos; simpl; repeat setoid_rewrite Hv; done.
Qed.

(** for the one address whose bytes are all ones, [seek_to_last] misses the entries with [u64] keys:
    it yields nothing however many entries the channel has. *)
Theorem seek_to_last_misses_all_ones T c (Hones : Forall (fun b => b = u8_max) (cdb_prefix c))
  (Hcf : COLUMN_FAMILY_NAME T ∈ sg_column_families)
  (Hkeys : forall k, is_Some (cdb_view c (COLUMN_FAMILY_NAME T) k) -> exists n, k = encode_u64_key n) :
  exists found, cdb_iter T c SeekLast = Ok (found, []).
Proof.
  unfold cdb_iter. rewrite get_cf_handle_ok by done. rstep. eexists.
  rewrite cdb_entries_unstrip. destruct (cdb_entries T c (COLUMN_FAMILY_NAME T) SeekLast) as [|[k v] l] eqn:E; [done|].
  exfalso. pose proof (cdb_entries_unstrip T c (COLUMN_FAMILY_NAME T) SeekLast) as Eu. rewrite E in Eu. simpl in Eu.
  rewrite prefix_next_full in Eu by done.
  assert ((prefix_key (cdb_prefix c) k, v) ∈ in_range_entries c
    (db_seek_for_prev (rocks (inner c)) (COLUMN_FAMILY_NAME T) (cdb_prefix c ++ [0%Z]))) as Hin by (rewrite Eu; left).
  apply seek_prev_view in Hin as (_ & (k0 & Hk0 & Hle) & _); [|intros m _ ? ?; by eapply prefix_convex].
  unfold prefix_key in Hle. rewrite bytes_le_app in Hle. apply Hkeys in Hk0 as [n ->].
  unfold encode_u64_key, to_be_bytes in Hle. cbn [be_bytes bytes_le] in Hle.
  rewrite orb_true_iff, andb_true_iff, Z.ltb_lt in Hle. destruct Hle as [Hlt|[_ ?]]; [|done].
  pose proof (Z.mod_pos_bound (n / 256 ^ Z.of_nat 7) 256). lia.
Qed.
End channel_db_lemmas.
