(* ===== verification/Storage.v ===== *)
(** * Opening the storage

    Models [SgStorage] of [src/sgstorage/src/storage.rs]: creating the database with its column families, one after
    the other, or opening one that exists.  RocksDB's directory is a parameter ([RocksDir]) with the documented
    behaviour of opening and of creating a column family ([RocksDirLaws]); any of these may fail.

    The theorem: a storage that was opened has exactly its column families and opens again; but a creation that fails
    half way leaves a database that can never be opened. *)
From S2P Require Import Prelude Codec Libra SchemaDB.

(** A directory: whether it has the file [CURRENT], and the column families of the database in it. *)
Class RocksDir := {
  Dir : Type;
  has_current : Dir -> bool;
  families : Dir -> gset string;
  readable : Dir -> Prop;
  rocks_open_cf : bool -> list string -> Dir -> res unit * Dir;
  rocks_create_cf : string -> Dir -> res unit * Dir
}.
(** A database is opened with all its column families and no others; a new one, with [create_if_missing], has the
    default one. *)
Class RocksDirLaws {RD : RocksDir} : Prop := {
  open_all c l d : has_current d = true -> readable d -> list_to_set l = families d -> rocks_open_cf c l d = (Ok tt, d);
  open_same c l d r d' : has_current d = true -> rocks_open_cf c l d = (r, d') ->
    d' = d /\ no_panic r /\ (r = Ok tt -> list_to_set l = families d /\ readable d);
  open_new d r d' : has_current d = false -> rocks_open_cf true [DEFAULT_CF_NAME] d = (r, d') ->
    no_panic r /\ if has_current d' then families d' = {[DEFAULT_CF_NAME]} else r <> Ok tt;
  open_new_ok d d' : has_current d = false -> rocks_open_cf true [DEFAULT_CF_NAME] d = (Ok tt, d') -> readable d';
  create_family n d r d' : has_current d = true -> n ∉ families d -> rocks_create_cf n d = (r, d') ->
    has_current d' = true /\ no_panic r /\ families d' = (if is_ok r then {[n]} ∪ families d else families d) /\ (readable d -> readable d')
}.

Section storage.
Context {RD : RocksDir} `{HashOrder}.
Notation D := (stM Dir).

Definition open_cf (create_if_missing : bool) (cfds : list string) : D unit := rocks_open_cf create_if_missing cfds.
Definition create_cf (cfd : string) : D unit := rocks_create_cf cfd.
(** The rest of the families, until one fails *)
Fixpoint create_cfs (l : list string) : D unit :=
  match l with
  | [] => mret tt
  | cf_name :: l => _ ← create_cf cf_name; create_cfs l
  end.
(** [open] and [new] *)
Definition storage_open (cf_opts_map : gset string) : D unit :=
  d ← getS;
  if has_current d then open_cf false (hs_iter cf_opts_map)
  else
    _ ← lift (ensure (bool_decide (DEFAULT_CF_NAME ∈ cf_opts_map)) "No default column family name found");
    _ ← open_cf true [DEFAULT_CF_NAME];
    create_cfs (hs_iter (cf_opts_map ∖ {[DEFAULT_CF_NAME]})).
Definition storage_cfs : gset string := list_to_set sg_column_families.
Definition SgStorage_new : D unit := fun d => let '(r, d') := storage_open storage_cfs d in (expect_ok r, d').

Definition panics_with {T} (o : res T * Dir) (d : Dir) : Prop := exists e, o = (Panic e, d).

Context {RDL : RocksDirLaws}.

Lemma default_in_cfs : DEFAULT_CF_NAME ∈ storage_cfs.
Proof. unfold storage_cfs, sg_column_families. rewrite elem_of_list_to_set. by left. Qed.
Lemma default_not_all : ({[DEFAULT_CF_NAME]} : gset string) <> storage_cfs.
Proof. intros E. assert (JELLYFISH_MERKLE_NODE_CF_NAME ∈ storage_cfs) as Hj by (unfold storage_cfs; rewrite elem_of_list_to_set; right; by left). by rewrite <- E, elem_of_singleton in Hj. Qed.
#[local] Opaque storage_cfs.
Lemma hs_iter_set (X : gset string) : list_to_set (hs_iter X) = X.
Proof. apply set_eq. intros x. rewrite elem_of_list_to_set. apply elem_of_hs_iter. Qed.
(** The families that [create_cfs] adds: all of them when it succeeds, not all when it fails. *)
Lemma create_cfs_spec l d r d' : has_current d = true -> NoDup l -> (forall n, n ∈ l -> n ∉ families d) -> create_cfs l d = (r, d') ->
  has_current d' = true /\ no_panic r /\ (readable d -> readable d') /\
  if is_ok r then families d' = list_to_set l ∪ families d else exists n, n ∈ l /\ n ∉ families d'.
Proof.
  revert d. induction l as [|n l IH]; intros d Hc Hnd Hn; cbn [create_cfs].
  { intros [= <- <-]. split_and!; [done..|]. simpl. set_solver. }
  apply NoDup_cons in Hnd as [Hnl Hnd]. unfold mbind, stM_bind, create_cf. destruct (rocks_create_cf n d) as [r1 d1] eqn:E.
  destruct (create_family n d r1 d1 Hc (Hn n ltac:(left)) E) as (Hc1 & Hp1 & Hf1 & Hr1). destruct r1 as [[]|e|e]; simpl in Hf1; [|intros [= <- <-]|done].
  - intros Hrest. destruct (IH d1 Hc1 Hnd) as (Hc' & Hp' & Hr' & Hf'); [rewrite Hf1; set_solver|done|]. split_and!; [done..|tauto|].
    destruct (is_ok r); [rewrite Hf', Hf1; set_solver|]. destruct Hf' as (m & Hm & Hm'). exists m. split; [by right|done].
  - split_and!; [done..|]. simpl. exists n. split; [by left|]. rewrite Hf1. by apply Hn; left.
Qed.
Lemma open_existing d r d' : has_current d = true -> storage_open storage_cfs d = (r, d') ->
  d' = d /\ no_panic r /\ (is_ok r = true -> families d = storage_cfs /\ readable d).
Proof.
  intros Hc. unfold storage_open, mbind, stM_bind, getS. rewrite Hc. intros E. destruct (open_same _ _ _ _ _ Hc E) as (-> & Hp & Hok).
  split_and!; [done..|]. intros Hr. destruct r as [[]| |]; [|done..]. destruct (Hok eq_refl) as [Hf Hre]. by rewrite hs_iter_set in Hf.
Qed.
(** A creation leaves a complete storage, a storage that lacks a family, or none. *)
Lemma open_created d r d' : has_current d = false -> storage_open storage_cfs d = (r, d') ->
  no_panic r /\ if is_ok r then has_current d' = true /\ families d' = storage_cfs /\ readable d' else has_current d' = true -> families d' <> storage_cfs.
Proof.
  intros Hc. unfold storage_open, mbind, stM_bind, getS, lift. rewrite Hc, (bool_decide_eq_true_2 (DEFAULT_CF_NAME ∈ _)) by apply default_in_cfs.
  cbn [ensure]. unfold open_cf. destruct (rocks_open_cf true [DEFAULT_CF_NAME] d) as [r1 d1] eqn:E. destruct (open_new d r1 d1 Hc E) as [Hp1 Hd1].
  destruct r1 as [[]|e|e]; [|intros [= <- <-]; split; [done|]; simpl; intros Hc1; rewrite Hc1 in Hd1; rewrite Hd1; apply default_not_all|done].
  destruct (has_current d1) eqn:Hc1; [|done]. intros Hrest.
  destruct (create_cfs_spec _ _ _ _ Hc1 (NoDup_hs_iter _) ltac:(intros n Hn%elem_of_hs_iter; rewrite Hd1; by apply elem_of_difference in Hn as [_ Hn]) Hrest) as (Hc' & Hp' & Hr' & Hf').
  split; [done|]. destruct (is_ok r).
  - split_and!; [done| |by apply Hr'; eapply open_new_ok]. rewrite Hf', Hd1, hs_iter_set. pose proof default_in_cfs.
    rewrite (comm_L (∪)). symmetry. apply union_difference_singleton_L. done.
  - destruct Hf' as (n & Hn%elem_of_hs_iter & Hn'). intros _ Ef. rewrite Ef in Hn'. apply elem_of_difference in Hn as [Hn _]. exact (Hn' Hn).
Qed.

(** A storage that was created has exactly its column families and can be opened again.  A creation that fails after
    the database was made, with the default family or some of the others, leaves one that can never be opened: every
    later start finds [CURRENT], asks for all families and panics. *)
Theorem storage_reopens d r d' : has_current d = false -> storage_open storage_cfs d = (r, d') ->
  match r with
  | Ok _ => families d' = storage_cfs /\ storage_open storage_cfs d' = (Ok tt, d')
  | Err _ => has_current d' = true -> panics_with (SgStorage_new d') d'
  | Panic _ => False
  end.
Proof.
  intros Hc E. destruct (open_created d r d' Hc E) as [Hp Hr]. destruct r as [[]|e|e]; simpl in Hr; [|intros Hc'; specialize (Hr Hc')|done].
  - destruct Hr as (Hc' & Hf & Hre). split; [done|]. unfold storage_open, mbind, stM_bind, getS. rewrite Hc'.
    apply open_all; [done..|]. by rewrite hs_iter_set.
  - unfold SgStorage_new. destruct (storage_open storage_cfs d') as [r2 d2] eqn:E2. destruct (open_existing _ _ _ Hc' E2) as (-> & Hp2 & Hok).
    destruct r2 as [[]|e2|e2]; [by destruct (Hok eq_refl)|by eexists|done].
Qed.
End storage.

(** ** A directory that fills up *)

(** The families of the database, if there is one, and how many more there is room for. *)
Definition small_dir : RocksDir := {|
  Dir := option (gset string) * nat;
  has_current := fun d => bool_decide (is_Some d.1);
  families := fun d => default ∅ d.1;
  readable := fun _ => True;
  rocks_open_cf := fun c l d =>
    match d with
    | (Some cfs, room) => if bool_decide (list_to_set l = cfs) then (Ok tt, d) else (Err "column families not opened", d)
    | (None, S room) => if c && bool_decide (l = [DEFAULT_CF_NAME]) then (Ok tt, (Some {[DEFAULT_CF_NAME]}, room)) else (Err "does not exist", d)
    | (None, 0) => (Err "no space", d)
    end;
  rocks_create_cf := fun n d =>
    match d with
    | (Some cfs, S room) => (Ok tt, (Some ({[n]} ∪ cfs), room))
    | _ => (Err "no space", d)
    end
|}.
Lemma small_dir_laws : @RocksDirLaws small_dir.
Proof.
  split; unfold Dir, has_current, families, readable; simpl.
  - intros c l [[cfs|] room] Hc _ E; simpl in *; [|done]. by rewrite bool_decide_eq_true_2.
  - intros c l [[cfs|] room] r d' Hc E; simpl in *; [|done]. case_bool_decide; by injection E as <- <-.
  - intros [[cfs|] [|room]] r d' Hc E; simpl in *; try done; by injection E as <- <-.
  - done.
  - intros n [[cfs|] [|room]] r d' Hc Hn E; simpl in *; try done; by injection E as <- <-.
Qed.
(** With room for five families the storage is lost, even when there is room again; with room for all it opens. *)
Lemma storage_lost_example :
  let new := SgStorage_new (RD := small_dir) (H := canonical_order) in
  is_ok (new (None, 5)).1 = false /\ is_ok (new ((new (None, 5)).2.1, 20)).1 = false /\
  is_ok (new (None, 20)).1 = true /\ is_ok (new (new (None, 20)).2).1 = true.
Proof. vm_compute. done. Qed.
