(* ===== verification/Accumulator.v ===== *)
(** * The interface of libra's Merkle accumulators

    The ledger of a channel is authenticated by a Merkle accumulator over its transaction infos, kept
    twice: node by node in the storage ([MerkleAccumulator] over a [HashReader]) and as the frozen
    subtrees of [InMemoryAccumulator].  Both belong to libra and are parameters here.  The laws say that
    the two compute the same root for the same leaves, that appending returns the nodes a reader needs
    for the extended list, and that an accumulator restarts from its frozen subtrees. *)
From S2P Require Import Prelude Codec Libra.

Class Accumulators `{Libra} := {
  Position : Type;
  Position_eq :: EqDecision Position;
  Position_countable :: Countable Position;
  to_postorder_index : Position -> Z;
  from_postorder_index : Z -> Position;
  to_inorder_index : Position -> Z;
  from_inorder_index : Z -> Position;
  AccumulatorProof : Type;
  AccumulatorConsistencyProof : Type;
  (* [MerkleAccumulator<_, hasher>], over a [HashReader] and the number of leaves *)
  acc_append : string -> (Position -> res HashValue) -> Z -> list HashValue ->
    res (HashValue * list (Position * HashValue));
  acc_get_proof : string -> (Position -> res HashValue) -> Z -> Z -> res AccumulatorProof;
  acc_get_consistency_proof : string -> (Position -> res HashValue) -> Z -> Z -> res AccumulatorConsistencyProof;
  acc_get_frozen_subtree_hashes : string -> (Position -> res HashValue) -> Z -> res (list HashValue);
  (* [InMemoryAccumulator<hasher>] *)
  InMemoryAccumulator : Type;
  mem_new : string -> list HashValue -> Z -> res InMemoryAccumulator;
  mem_default : string -> InMemoryAccumulator;
  mem_append : InMemoryAccumulator -> list HashValue -> InMemoryAccumulator;
  mem_root_hash : InMemoryAccumulator -> HashValue;
  mem_num_leaves : InMemoryAccumulator -> Z
}.

Class AccumulatorsLaws `{Accumulators} := {
  (* the root, the frozen subtrees and the stored nodes of a list of leaves *)
  acc_root : string -> list HashValue -> HashValue;
  acc_frozen : string -> list HashValue -> list HashValue;
  acc_nodes : string -> list HashValue -> list (Position * HashValue);
  mem_rep : string -> InMemoryAccumulator -> list HashValue -> Prop;
  postorder_roundtrip p : from_postorder_index (to_postorder_index p) = p;
  postorder_u64 p : in_u64 (to_postorder_index p);
  inorder_roundtrip p : from_inorder_index (to_inorder_index p) = p;
  inorder_u64 p : in_u64 (to_inorder_index p);
  acc_nodes_nil salt : acc_nodes salt [] = [];
  acc_append_spec salt reader ls hs :
    (forall p h, (p, h) ∈ acc_nodes salt ls -> reader p = Ok h) ->
    exists writes, acc_append salt reader (Z.of_nat (length ls)) hs = Ok (acc_root salt (ls ++ hs), writes) /\
      NoDup writes.*1 /\
      forall reader' : Position -> res HashValue,
        (forall p h, (p, h) ∈ writes -> reader' p = Ok h) ->
        (forall p h, p ∉ writes.*1 -> (p, h) ∈ acc_nodes salt ls -> reader' p = Ok h) ->
        forall p h, (p, h) ∈ acc_nodes salt (ls ++ hs) -> reader' p = Ok h;
  acc_frozen_spec salt reader ls :
    (forall p h, (p, h) ∈ acc_nodes salt ls -> reader p = Ok h) ->
    acc_get_frozen_subtree_hashes salt reader (Z.of_nat (length ls)) = Ok (acc_frozen salt ls);
  acc_proof_spec salt reader ls i :
    (forall p h, (p, h) ∈ acc_nodes salt ls -> reader p = Ok h) -> (0 <= i < Z.of_nat (length ls))%Z ->
    exists proof, acc_get_proof salt reader (Z.of_nat (length ls)) i = Ok proof;
  mem_new_spec salt ls : exists a, mem_new salt (acc_frozen salt ls) (Z.of_nat (length ls)) = Ok a /\ mem_rep salt a ls;
  mem_new_empty salt : exists a, mem_new salt [] 0 = Ok a /\ mem_rep salt a [];
  mem_default_spec salt : mem_rep salt (mem_default salt) [];
  mem_append_spec salt a ls hs : mem_rep salt a ls -> mem_rep salt (mem_append a hs) (ls ++ hs);
  mem_root_spec salt a ls : mem_rep salt a ls -> mem_root_hash a = acc_root salt ls;
  mem_num_leaves_spec salt a ls : mem_rep salt a ls -> mem_num_leaves a = Z.of_nat (length ls)
}.
