(* ===== verification/ChannelTypes.v ===== *)
(** * The data of a payment channel

    Models the channel types of [src/sgtypes/src/]: channel transactions, proposals and their signatures
    ([channel_transaction.rs], [channel_transaction_sigs.rs]), pending transactions and their lifecycle
    ([pending_txn.rs]), applied transactions ([applied_channel_txn.rs], [signed_channel_transaction.rs],
    [channel_transaction_to_commit.rs]), and the ledger records ([channel_transaction_info.rs],
    [ledger_info.rs], [startup_info.rs]).  A [u64] is a [Z], a [Duration] its nanoseconds, a [BTreeMap]
    over addresses a finite map. *)
From S2P Require Import Prelude Codec Libra.

(** [WriteSetItem] of [write_set_item.rs] *)
Notation WriteSetItem := (AccessPath * WriteOp)%type.

Section channel_types.
Context `{Libra}.

(** ** [channel_transaction.rs] *)

Inductive ChannelOp :=
| Open
| Execute (package_name script_name : string)
| OpAction (module_address : AccountAddress) (module_name function_name : string)
| Close.
#[global] Instance ChannelOp_eq : EqDecision ChannelOp.
Proof. solve_decision. Defined.

(** [ChannelOp::is_open] *)
Definition is_open (op : ChannelOp) : bool :=
  match op with Open => true | _ => false end.

Record ChannelTransaction := mkChannelTransaction {
  ct_version : Z;
  ct_channel_address : AccountAddress;
  ct_channel_sequence_number : Z;
  ct_operator : ChannelOp;
  ct_args : list TransactionArgument;
  ct_proposer : AccountAddress;
  ct_sequence_number : Z;
  ct_expiration_time : Z
}.
#[global] Instance ChannelTransaction_eq : EqDecision ChannelTransaction.
Proof. solve_decision. Defined.

Record ChannelTransactionProposal := mkProposal {
  channel_txn : ChannelTransaction;
  proposer_public_key : Ed25519PublicKey;
  proposer_signature : Ed25519Signature
}.
#[global] Instance ChannelTransactionProposal_eq : EqDecision ChannelTransactionProposal.
Proof. solve_decision. Defined.

(** ** [channel_transaction_sigs.rs] *)

Record ChannelTransactionSigs := mkSigs {
  sigs_address : AccountAddress;
  sigs_public_key : Ed25519PublicKey;
  channel_payload_signature : Ed25519Signature;
  witness_data_hash : HashValue;
  witness_data_signature : Ed25519Signature;
  travel_output_witness_signature : option Ed25519Signature
}.
#[global] Instance ChannelTransactionSigs_eq : EqDecision ChannelTransactionSigs.
Proof. solve_decision. Defined.

(** ** [pending_txn.rs] *)

Inductive ProposalLifecycle := Created | Negotiating | Agreed | Applying | Traveling.
#[global] Instance ProposalLifecycle_eq : EqDecision ProposalLifecycle.
Proof. solve_decision. Defined.

(** The derived [PartialOrd] compares the discriminants. *)
Definition lifecycle_rank (l : ProposalLifecycle) : Z :=
  match l with Created => 0 | Negotiating => 1 | Agreed => 2 | Applying => 3 | Traveling => 4 end.

Record PendingTransaction := mkPending {
  pt_proposal : ChannelTransactionProposal;
  pt_output : TransactionOutput;
  pt_signatures : gmap AccountAddress ChannelTransactionSigs;
  pt_lifecycle : ProposalLifecycle
}.
#[global] Instance PendingTransaction_eq : EqDecision PendingTransaction.
Proof. solve_decision. Defined.

(** [PendingTransaction::new] *)
Definition PendingTransaction_new (proposal : ChannelTransactionProposal) (output : TransactionOutput)
    (signatures : gmap AccountAddress ChannelTransactionSigs) : PendingTransaction :=
  mkPending proposal output signatures Negotiating.

(** [PendingTransaction::set_lifecycle], [set_applying] and [set_travelling] *)
Definition set_lifecycle (state : ProposalLifecycle) (p : PendingTransaction) : PendingTransaction :=
  mkPending (pt_proposal p) (pt_output p) (pt_signatures p) state.
Definition set_applying (p : PendingTransaction) : PendingTransaction := set_lifecycle Applying p.
Definition set_travelling (p : PendingTransaction) : PendingTransaction := set_lifecycle Traveling p.

(** [PendingTransaction::add_signature] *)
Definition add_signature (sig : ChannelTransactionSigs) (p : PendingTransaction) : PendingTransaction :=
  match pt_signatures p !! sigs_address sig with
  | Some _ => p
  | None => mkPending (pt_proposal p) (pt_output p) (<[sigs_address sig := sig]> (pt_signatures p)) (pt_lifecycle p)
  end.

(** [PendingTransaction::get_signature] *)
Definition get_signature (p : PendingTransaction) (address : AccountAddress) : option ChannelTransactionSigs :=
  pt_signatures p !! address.

(** [PendingTransaction::newer_than] *)
Definition newer_than (p other : PendingTransaction) : bool :=
  bool_decide (lifecycle_rank (pt_lifecycle p) > lifecycle_rank (pt_lifecycle other))%Z.

(** [PendingTransaction::consensus_reached] *)
Definition consensus_reached (p : PendingTransaction) : bool :=
  bool_decide (lifecycle_rank (pt_lifecycle p) >= lifecycle_rank Agreed)%Z.

(** [PendingTransaction::try_reach_consensus] *)
Definition try_reach_consensus (participants : gset AccountAddress) (p : PendingTransaction) : bool * PendingTransaction :=
  let p' :=
    if bool_decide (pt_lifecycle p = Negotiating) && bool_decide (size (pt_signatures p) = size participants) then
      if forallb (fun addr => bool_decide (is_Some (pt_signatures p !! addr))) (bt_sort participants)
      then set_lifecycle Agreed p else p
    else p in
  (consensus_reached p', p').

(** ** [signed_channel_transaction.rs] and [applied_channel_txn.rs] *)

Record SignedChannelTransaction := mkSignedChannelTransaction {
  raw_tx : ChannelTransaction;
  sct_signatures : gmap AccountAddress ChannelTransactionSigs
}.

Inductive AppliedChannelTxn :=
| Offchain (t : SignedChannelTransaction)
| Travel (t : SignedTransaction).

(** A [Travel] transaction whose payload is not a channel payload makes these panic. *)
Definition travel_payload (t : SignedTransaction) : res ChannelTransactionPayload :=
  match channel_payload t with Some d => Ok d | None => Panic "should be channel txn" end.

(** [AppliedChannelTxn::channel_sequence_number] *)
Definition applied_channel_sequence_number (txn : AppliedChannelTxn) : res Z :=
  match txn with
  | Offchain t => Ok (ct_channel_sequence_number (raw_tx t))
  | Travel t => d ← travel_payload t; Ok (payload_channel_sequence_number d)
  end.

(** [AppliedChannelTxn::participant_keys] *)
Definition participant_keys_of (txn : AppliedChannelTxn) : res (list Ed25519PublicKey) :=
  match txn with
  | Offchain t => Ok (sigs_public_key <$> bt_values (sct_signatures t))
  | Travel t => d ← travel_payload t; Ok (payload_public_keys d)
  end.

(** [AppliedChannelTxn::proposer] *)
Definition applied_proposer (txn : AppliedChannelTxn) : res AccountAddress :=
  match txn with
  | Offchain t => Ok (ct_proposer (raw_tx t))
  | Travel t => d ← travel_payload t; Ok (payload_proposer d)
  end.

(** [AppliedChannelTxn::travel] *)
Definition travel (txn : AppliedChannelTxn) : bool :=
  match txn with Travel _ => true | _ => false end.

(** ** [channel_transaction_to_commit.rs] *)

Record ChannelTransactionToCommit := mkToCommit {
  signed_channel_txn : AppliedChannelTxn;
  tc_write_set : WriteSet;
  tc_events : list ContractEvent;
  tc_major_status : StatusCode;
  tc_gas_used : Z
}.

(** ** [channel_transaction_info.rs], [ledger_info.rs], [startup_info.rs] and [write_set_item.rs] *)

Record ChannelTransactionInfo := mkTxnInfo {
  signed_transaction_hash : HashValue;
  write_set_root_hash : HashValue;
  event_root_hash : HashValue;
  ti_major_status : StatusCode;
  ti_travel : bool;
  ti_gas_used : Z
}.

Record LedgerInfo := mkLedgerInfo {
  li_version : Z;
  transaction_accumulator_hash : HashValue;
  li_epoch : Z;
  timestamp_usecs : Z
}.

Record StartupInfo := mkStartupInfo {
  si_ledger_info : LedgerInfo;
  latest_version : Z;
  ledger_frozen_subtree_hashes : list HashValue
}.


(** ** Hashing

    [impl_hash!] hashes the serialized value under the salt of its type. *)
Definition crypto_hash {A} `{Lcs A} (salt : string) (x : A) : HashValue := hasher salt (lcs_to_bytes x).
End channel_types.
