(* ===== verification/ChannelStore.v ===== *)
(** * The store of a channel

    Models [src/sgstorage/src/channel_store.rs] with the stores it is made of
    ([ledger_info_store/mod.rs], [channel_transaction_store/mod.rs], [channel_write_set_store/mod.rs],
    [pending_txn_store/mod.rs]) and their schemas ([schema/]).  The store is generic in the database, as in
    the source: everything here is proved against the trait [SchemaDB].  Its state is the database and
    the caches behind the locks (latest ledger info, latest witness, pending transaction, participant
    keys).

    The theorems relate the store to an abstract ledger (the list of committed transactions, the pending
    transaction, the participants' keys): committing appends to the ledger, every earlier transaction and
    write set is read back, and re-opening the database rebuilds exactly the caches. *)
From S2P Require Import Prelude Codec Libra SchemaDB Accumulator ChannelTypes.

(** Serialization of the stored types, and libradb's codecs for [TransactionByAccountSchema]. *)
Class StoreCodecs {L : Libra} := {
  lcs_txn_info :: Lcs ChannelTransactionInfo;
  lcs_applied_txn :: Lcs AppliedChannelTxn;
  lcs_ledger_info :: Lcs LedgerInfo;
  lcs_write_set_item :: Lcs WriteSetItem;
  lcs_pending_txn :: Lcs PendingTransaction;
  lcs_participant_key :: Lcs (option Ed25519PublicKey);
  lcs_address :: Lcs AccountAddress;
  lcs_string :: Lcs string;
  tba_encode_key : AccountAddress * Z -> bytes;
  tba_decode_key : bytes -> res (AccountAddress * Z);
  tba_encode_value : Z -> bytes;
  tba_decode_value : bytes -> res Z;
  tba_key_ok k : tba_encode_key k <> [] /\ bytes_ok (tba_encode_key k)
}.

Notation TC := ChannelTransactionToCommit.

Section channel_store.
Context {L : Libra} {B : SchemaBatches} {A : Accumulators} {C : StoreCodecs}.
Context {S : Type} `{!SchemaDB S}.

(** ** Schemas *)

Definition LedgerInfoSchema : Schema :=
  mkSchema Z LedgerInfo DEFAULT_CF_NAME encode_u64_key decode_u64_key lcs_to_bytes lcs_from_bytes.
Definition ChannelTransactionInfoSchema : Schema :=
  mkSchema Z ChannelTransactionInfo CHANNEL_TRANSACTION_INFO_CF_NAME
    encode_u64_key decode_u64_key lcs_to_bytes lcs_from_bytes.
Definition AppliedChannelTransactionSchema : Schema :=
  mkSchema Z AppliedChannelTxn APPLIED_CHANNEL_TRANSACTION_CF_NAME
    encode_u64_key decode_u64_key lcs_to_bytes lcs_from_bytes.
Definition ChannelTransactionAccumulatorSchema : Schema :=
  mkSchema Position HashValue CHANNEL_TRANSACTION_ACCUMULATOR_CF_NAME
    (fun p => encode_u64_key (to_postorder_index p))
    (fun data => from_postorder_index <$> decode_u64_key data) hash_to_vec hash_from_slice.
Definition ChannelWriteSetSchema : Schema :=
  mkSchema (Z * Z) WriteSetItem CHANNEL_WRITE_SET_CF_NAME encode_pair_key decode_pair_key lcs_to_bytes lcs_from_bytes.
Definition ChannelWriteSetAccumulatorSchema : Schema :=
  mkSchema (Z * Position) HashValue CHANNEL_WRITE_SET_ACCUMULATOR_CF_NAME
    (fun k => encode_pair_key (k.1, to_inorder_index k.2))
    (fun data => (fun k : Z * Z => (k.1, from_inorder_index k.2)) <$> decode_pair_key data)
    hash_to_vec hash_from_slice.
Definition PendingTransactionSchema : Schema :=
  mkSchema string PendingTransaction PENDING_CHANNEL_TRANSACTION_CF_NAME
    lcs_to_bytes lcs_from_bytes lcs_to_bytes lcs_from_bytes.
Definition ParticipantPublicKeySchema : Schema :=
  mkSchema AccountAddress (option Ed25519PublicKey) PARTICIPANT_PUBLIC_KEY_CF_NAME
    lcs_to_bytes lcs_from_bytes lcs_to_bytes lcs_from_bytes.
Definition TransactionByAccountSchema : Schema :=
  mkSchema (AccountAddress * Z) Z TRANSACTION_BY_ACCOUNT_CF_NAME
    tba_encode_key tba_decode_key tba_encode_value tba_decode_value.

(** ** [LedgerStore] *)

Definition TXN_ACC : string := "ChannelTransactionAccumulator".
Definition WRITE_SET_ACC : string := "WriteSetAccumulator".

(** [HashReader::get] *)
Definition hash_reader (db : S) (position : Position) : res HashValue :=
  o ← sdb_get ChannelTransactionAccumulatorSchema db position;
  ok_or o "position does not exist.".

(** The first item of an iterator, [iter.next().transpose()]. *)
Definition next_item {T} (items : list (res T)) : res (option T) :=
  match items with
  | [] => Ok None
  | Ok x :: _ => Ok (Some x)
  | Err e :: _ => Err e
  | Panic e :: _ => Panic e
  end.

(** The ledger info [LedgerStore::bootstrap] finds. *)
Definition ledger_bootstrap (db : S) : res (option LedgerInfo) :=
  expect_ok ('(_, items) ← sdb_iter LedgerInfoSchema db SeekLast;
             o ← next_item items;
             Ok (option_map snd o)).

(** Collecting the items of an iterator, [collect::<Result<Vec<_>>>()]. *)
Fixpoint collect {T} (items : list (res T)) : res (list T) :=
  match items with
  | [] => Ok []
  | i :: rest => x ← i; xs ← collect rest; Ok (x :: xs)
  end.

(** [LedgerStore::get_latest_ledger_infos_per_epoch] *)
Definition get_latest_ledger_infos_per_epoch (db : S) (start_epoch : Z) : res (list LedgerInfo) :=
  '(_, items) ← sdb_iter LedgerInfoSchema db (Seek (T := LedgerInfoSchema) start_epoch);
  kvs ← collect items;
  Ok kvs.*2.

(** [LedgerStore::get_transaction_info] *)
Definition get_transaction_info (db : S) (version : Z) : res ChannelTransactionInfo :=
  o ← sdb_get ChannelTransactionInfoSchema db version;
  ok_or o "No TransactionInfo at version".

(** [LedgerStore::get_latest_transaction_info_option] and [get_latest_transaction_info] *)
Definition get_latest_transaction_info_option (db : S) : res (option (Z * ChannelTransactionInfo)) :=
  '(_, items) ← sdb_iter ChannelTransactionInfoSchema db SeekLast;
  next_item items.
Definition get_latest_transaction_info (db : S) : res (Z * ChannelTransactionInfo) :=
  o ← get_latest_transaction_info_option db;
  ok_or o "Genesis TransactionInfo.".

(** [LedgerStore::get_transaction_proof] *)
Definition get_transaction_proof (db : S) (version ledger_version : Z) : res AccumulatorProof :=
  n ← add_u64 ledger_version 1;
  acc_get_proof TXN_ACC (hash_reader db) n version.

(** [LedgerStore::get_consistency_proof] *)
Definition get_consistency_proof (db : S) (client_known_version ledger_version : Z) : res AccumulatorConsistencyProof :=
  n ← add_u64 ledger_version 1;
  m ← add_u64 client_known_version 1;
  acc_get_consistency_proof TXN_ACC (hash_reader db) n m.

(** [LedgerStore::get_transaction_info_with_proof] *)
Definition get_transaction_info_with_proof (db : S) (version ledger_version : Z)
    : res (ChannelTransactionInfo * AccumulatorProof) :=
  info ← get_transaction_info db version;
  proof ← get_transaction_proof db version ledger_version;
  Ok (info, proof).

(** [LedgerStore::get_ledger_frozen_subtree_hashes] *)
Definition get_ledger_frozen_subtree_hashes (db : S) (version : Z) : res (list HashValue) :=
  n ← add_u64 version 1;
  acc_get_frozen_subtree_hashes TXN_ACC (hash_reader db) n.

(** [ChannelTransactionInfo::hash] *)
Definition txn_info_hash (info : ChannelTransactionInfo) : HashValue := crypto_hash "ChannelTransactionInfo" info.

(** [LedgerStore::put_tx_info] *)
Definition put_tx_info (db : S) (version : Z) (tx_info : ChannelTransactionInfo) (batch : SchemaBatch)
    : res (HashValue * SchemaBatch) :=
  '(root_hash, writes) ← acc_append TXN_ACC (hash_reader db) version [txn_info_hash tx_info];
  let batch := put ChannelTransactionInfoSchema version tx_info batch in
  let batch := put_all ChannelTransactionAccumulatorSchema fst snd writes batch in
  Ok (root_hash, batch).

(** [LedgerStore::put_ledger_info] *)
Definition put_ledger_info (ledger_info : LedgerInfo) (batch : SchemaBatch) : SchemaBatch :=
  put LedgerInfoSchema (li_epoch ledger_info) ledger_info batch.

(** ** [PendingTxnStore] *)

Definition PENDING_TXN_KEY : string := "pending".
Definition pending_get (db : S) : res (option PendingTransaction) :=
  sdb_get PendingTransactionSchema db PENDING_TXN_KEY.
Definition pending_clear (batch : SchemaBatch) : SchemaBatch := delete PendingTransactionSchema PENDING_TXN_KEY batch.
Definition pending_save (pending_txn : PendingTransaction) (batch : SchemaBatch) : SchemaBatch :=
  put PendingTransactionSchema PENDING_TXN_KEY pending_txn batch.

(** ** [ChannelTransactionStore] *)

(** [lookup_transaction_by_account] *)
Definition lookup_transaction_by_account (db : S) (tx_sender_address : AccountAddress)
    (channel_sequence_number ledger_version : Z) : res (option Z) :=
  o ← sdb_get TransactionByAccountSchema db (tx_sender_address, channel_sequence_number);
  match o with
  | Some version => if bool_decide (version <= ledger_version)%Z then Ok (Some version) else Ok None
  | None => Ok None
  end.
(** [get_transaction] *)
Definition get_transaction (db : S) (version : Z) : res AppliedChannelTxn :=
  o ← sdb_get AppliedChannelTransactionSchema db version;
  ok_or o "Txn not found".
(** [put_transaction] *)
Definition put_transaction (version : Z) (transaction : AppliedChannelTxn) (batch : SchemaBatch) : res SchemaBatch :=
  channel_seq_number ← applied_channel_sequence_number transaction;
  proposer ← applied_proposer transaction;
  let batch := put TransactionByAccountSchema (proposer, channel_seq_number) version batch in
  Ok (put AppliedChannelTransactionSchema version transaction batch).

(** ** [ChannelWriteSetStore] *)

(** [WriteSetItem::hash] *)
Definition write_set_item_hash (item : WriteSetItem) : HashValue := crypto_hash "WriteSetItem" item.

(** [EmptyReader::get] *)
Definition empty_reader (_ : Position) : res HashValue := Panic "unreachable".

(** [put_write_set] *)
Definition put_write_set (version : Z) (write_set : WriteSet) (batch : SchemaBatch) : res (HashValue * SchemaBatch) :=
  let write_set_items_hash := map write_set_item_hash (ws_iter write_set) in
  '(root_hash, writes) ← acc_append WRITE_SET_ACC empty_reader 0 write_set_items_hash;
  let batch := put_all ChannelWriteSetAccumulatorSchema (fun w => (version, w.1)) snd writes batch in
  let batch := put_all ChannelWriteSetSchema (fun e => (version, Z.of_nat e.1)) snd
                 (imap pair (ws_iter write_set)) batch in
  Ok (root_hash, batch).

(** The loop of [get_write_set_by_version]. *)
Fixpoint items_of_version (version : Z) (items : list (res ((Z * Z) * WriteSetItem))) : res (list WriteSetItem) :=
  match items with
  | [] => Ok []
  | i :: rest =>
      '((ver, _), item) ← i;
      if bool_decide (ver <> version) then Ok []
      else xs ← items_of_version version rest; Ok (item :: xs)
  end.

(** [get_write_set_by_version] *)
Definition get_write_set_by_version (db : S) (version : Z) : res WriteSet :=
  '(_, items) ← sdb_iter ChannelWriteSetSchema db (Seek (T := ChannelWriteSetSchema) (version, 0%Z));
  items ← items_of_version version items;
  ws_freeze items.

(** ** [ChannelStore] *)

(** The stores share one database; the caches are the contents of the locks. *)
Record ChannelStore := mkChannelStore {
  cs_db : S;
  latest_ledger_info : option LedgerInfo;
  latest_witness : option Witness;
  cs_pending_txn : option PendingTransaction;
  cs_participant_keys : gmap AccountAddress (option Ed25519PublicKey)
}.
Implicit Types s : ChannelStore.

(** [generate_witness] *)
Definition generate_witness (txn : AppliedChannelTxn) (write_set : WriteSet) : res Witness :=
  let witness_signatures :=
    match txn with
    | Offchain t => witness_data_signature <$> bt_values (sct_signatures t)
    | _ => []
    end in
  n ← applied_channel_sequence_number txn;
  n1 ← add_u64 n 1;
  Ok (Witness_new (WitnessData_new n1 write_set) witness_signatures).

(** [load_public_keys]: the keys it caches *)
Definition load_public_keys (db : S) : res (gmap AccountAddress (option Ed25519PublicKey)) :=
  '(found, items) ← sdb_iter ParticipantPublicKeySchema db SeekFirst;
  if (found : bool) then
    kvs ← collect items;
    Ok (fold_left (fun (m : gmap AccountAddress (option Ed25519PublicKey)) kv => <[kv.1 := kv.2]> m) kvs ∅)
  else Ok ∅.

(** [load_witness]: the witness it caches *)
Definition load_witness (db : S) (ledger_info : option LedgerInfo) : res (option Witness) :=
  match ledger_info with
  | None => Ok None
  | Some info =>
      ws ← get_write_set_by_version db (li_version info);
      txn ← get_transaction db (li_version info);
      w ← generate_witness txn ws;
      Ok (Some w)
  end.

(** [ChannelStore::new], which runs [bootstrap] *)
Definition ChannelStore_new (participants : gset AccountAddress) (db : S) : res ChannelStore :=
  info ← ledger_bootstrap db;
  keys ← expect_ok (load_public_keys db);
  pending ← expect_ok (pending_get db);
  witness ← expect_ok (load_witness db info);
  if bool_decide (keys = ∅) then
    let sb := put_all ParticipantPublicKeySchema (fun addr => addr) (fun _ => None) (bt_sort participants) batch_new in
    db' ← sdb_write_schemas db sb;
    keys' ← load_public_keys db';
    Ok (mkChannelStore db' info witness pending keys')
  else Ok (mkChannelStore db info witness pending keys).

(** [AppliedChannelTxn::hash] *)
Definition applied_txn_hash (txn : AppliedChannelTxn) : HashValue := crypto_hash "AppliedChannelTxn" txn.

(** [save_tx_impl] *)
Definition save_tx_impl (db : S) (tx : ChannelTransactionToCommit) (version : Z) (batch : SchemaBatch)
    : res (HashValue * SchemaBatch) :=
  '(write_set_root, batch) ← put_write_set version (tc_write_set tx) batch;
  let tx_hash := applied_txn_hash (signed_channel_txn tx) in
  batch ← put_transaction version (signed_channel_txn tx) batch;
  let tx_info := mkTxnInfo tx_hash write_set_root HashValue_default (tc_major_status tx)
                   (travel (signed_channel_txn tx)) (tc_gas_used tx) in
  put_tx_info db version tx_info batch.

(** The participants whose key the transaction changes: those of the zipped lists whose old key is not
    the new one. *)
Definition updated_public_keys (old : gmap AccountAddress (option Ed25519PublicKey)) (new_keys : list Ed25519PublicKey)
    : list (AccountAddress * option Ed25519PublicKey) :=
  omap (fun e : (AccountAddress * option Ed25519PublicKey) * Ed25519PublicKey =>
          match e.1.2 with
          | Some o => if bool_decide (o = e.2) then None else Some (e.1.1, Some e.2)
          | None => Some (e.1.1, Some e.2)
          end) (zip (bt_iter old) new_keys).

(** [save_tx] *)
Definition save_tx s (txn_to_commit : ChannelTransactionToCommit) (version : Z) (ledger_info : option LedgerInfo)
    (clear_pending_txn : bool) : res ChannelStore :=
  _ ← match ledger_info with
      | Some x => ensure (bool_decide (li_version x = version)) "Transaction batch not applicable"
      | None => Ok tt
      end;
  witness ← generate_witness (signed_channel_txn txn_to_commit) (tc_write_set txn_to_commit);
  new_keys ← participant_keys_of (signed_channel_txn txn_to_commit);
  let updated := updated_public_keys (cs_participant_keys s) new_keys in
  let batch := put_all ParticipantPublicKeySchema fst snd updated batch_new in
  '(new_ledger_hash, batch) ← save_tx_impl (cs_db s) txn_to_commit version batch;
  batch ← match ledger_info with
          | Some x =>
              _ ← ensure (bool_decide (new_ledger_hash = transaction_accumulator_hash x))
                    "Root hash calculated doesn't match expected.";
              Ok (put_ledger_info x batch)
          | None => Ok batch
          end;
  let batch := if clear_pending_txn then pending_clear batch else batch in
  db' ← sdb_write_schemas (cs_db s) batch;
  Ok (mkChannelStore db'
        (match ledger_info with Some x => Some x | None => latest_ledger_info s end)
        (Some witness)
        (if clear_pending_txn then None else cs_pending_txn s)
        (list_to_map updated ∪ cs_participant_keys s)).

(** [ChannelStore::save_pending_txn] *)
Definition save_pending_txn s (pending_txn : PendingTransaction) (persist : bool) : res ChannelStore :=
  db' ← (if persist then sdb_write_schemas (cs_db s) (pending_save pending_txn batch_new) else Ok (cs_db s));
  Ok (mkChannelStore db' (latest_ledger_info s) (latest_witness s) (Some pending_txn) (cs_participant_keys s)).

(** [ChannelStore::clear_pending_txn] *)
Definition clear_pending_txn s : res ChannelStore :=
  db' ← sdb_write_schemas (cs_db s) (pending_clear batch_new);
  Ok (mkChannelStore db' (latest_ledger_info s) (latest_witness s) None (cs_participant_keys s)).

(** [ChannelStore::get_startup_info] *)
Definition get_startup_info s : res (option StartupInfo) :=
  match latest_ledger_info s with
  | None => Ok None
  | Some ledger_info =>
      '(version, _) ← get_latest_transaction_info (cs_db s);
      frozen ← get_ledger_frozen_subtree_hashes (cs_db s) version;
      Ok (Some (mkStartupInfo ledger_info version frozen))
  end.

(** [ChannelStore::participant_addresses] and [get_participant_keys] *)
Definition participant_addresses s : gset AccountAddress := dom (cs_participant_keys s).
Definition get_participant_keys s : gmap AccountAddress Ed25519PublicKey := omap (fun k => k) (cs_participant_keys s).

(** [SignedChannelTransactionWithProof]; the proof pairs the accumulator proof with the info. *)
Record SignedChannelTransactionWithProof := mkTxnWithProof {
  wp_version : Z;
  wp_signed_transaction : AppliedChannelTxn;
  wp_events : option (list ContractEvent);
  wp_proof : AccumulatorProof * ChannelTransactionInfo
}.

(** [ChannelStore::get_transaction_by_channel_seq_number], with [get_txn_with_proof] *)
Definition get_transaction_by_channel_seq_number s (channel_sequence_number : Z) (fetch_events : bool)
    : res SignedChannelTransactionWithProof :=
  ledger_info ← ok_or (latest_ledger_info s) "Genesis LedgerInfo";
  '(info, acc_proof) ← get_transaction_info_with_proof (cs_db s) channel_sequence_number (li_version ledger_info);
  txn ← get_transaction (cs_db s) channel_sequence_number;
  Ok (mkTxnWithProof channel_sequence_number txn (if fetch_events then None else None) (acc_proof, info)).

(** ** The abstract ledger

    [ledger s txs]: the store [s] holds the committed transactions [txs], each at the version that is its
    position, and its caches say what the database says. *)

Context {AL : AccumulatorsLaws} {SL : SchemaDBLaws S}.

Definition txn_info_of (tx : TC) : ChannelTransactionInfo :=
  mkTxnInfo (applied_txn_hash (signed_channel_txn tx))
    (acc_root WRITE_SET_ACC (map write_set_item_hash (ws_iter (tc_write_set tx)))) HashValue_default
    (tc_major_status tx) (travel (signed_channel_txn tx)) (tc_gas_used tx).
Definition leaves (txs : list TC) : list HashValue := map (fun tx => txn_info_hash (txn_info_of tx)) txs.

Definition witness_sigs (txn : AppliedChannelTxn) : list Ed25519Signature :=
  match txn with Offchain t => witness_data_signature <$> bt_values (sct_signatures t) | _ => [] end.
(** The witness after the last transaction of [txs]. *)
Definition last_witness (txs : list TC) : option Witness :=
  (fun tx => Witness_new (WitnessData_new (Z.of_nat (length txs)) (tc_write_set tx)) (witness_sigs (signed_channel_txn tx)))
    <$> last txs.

Definition version_key (v : nat) : bytes := encode_u64_key (Z.of_nat v).
Definition item_key (v i : nat) : bytes := encode_pair_key (Z.of_nat v, Z.of_nat i).
#[global] Arguments version_key : simpl never.
#[global] Arguments item_key : simpl never.
Definition items_of (txs : list TC) (v : nat) : list WriteSetItem :=
  match txs !! v with Some tx => ws_iter (tc_write_set tx) | None => [] end.

(** Everything is numbered by [u64]s. *)
Definition small (n : nat) : Prop := (Z.of_nat n <= u64_max)%Z.

Record ledger (s : ChannelStore) (txs : list TC) : Prop := {
  lg_ok : sdb_ok (cs_db s);
  lg_small : small (length txs);
  lg_ws_small v : small (length (items_of txs v));
  lg_seq v tx : txs !! v = Some tx -> applied_channel_sequence_number (signed_channel_txn tx) = Ok (Z.of_nat v);
  lg_info v : small v ->
    sdb_view (cs_db s) CHANNEL_TRANSACTION_INFO_CF_NAME (version_key v) = lcs_to_bytes ∘ txn_info_of <$> txs !! v;
  lg_info_keys k : is_Some (sdb_view (cs_db s) CHANNEL_TRANSACTION_INFO_CF_NAME k) ->
    exists v, v < length txs /\ k = version_key v;
  lg_txn v : small v ->
    sdb_view (cs_db s) APPLIED_CHANNEL_TRANSACTION_CF_NAME (version_key v) =
      (fun tx : TC => lcs_to_bytes (signed_channel_txn tx)) <$> txs !! v;
  lg_nodes p h : (p, h) ∈ acc_nodes TXN_ACC (leaves txs) -> hash_reader (cs_db s) p = Ok h;
  lg_item v i : small v -> small i ->
    sdb_view (cs_db s) CHANNEL_WRITE_SET_CF_NAME (item_key v i) = lcs_to_bytes <$> items_of txs v !! i;
  lg_item_keys k : is_Some (sdb_view (cs_db s) CHANNEL_WRITE_SET_CF_NAME k) ->
    exists v i, v < length txs /\ i < length (items_of txs v) /\ k = item_key v i;
  lg_pending : sdb_view (cs_db s) PENDING_CHANNEL_TRANSACTION_CF_NAME (lcs_to_bytes PENDING_TXN_KEY) =
    lcs_to_bytes <$> cs_pending_txn s;
  lg_keys a : sdb_view (cs_db s) PARTICIPANT_PUBLIC_KEY_CF_NAME (lcs_to_bytes a) =
    lcs_to_bytes <$> cs_participant_keys s !! a;
  lg_keys_keys k : is_Some (sdb_view (cs_db s) PARTICIPANT_PUBLIC_KEY_CF_NAME k) -> exists a : AccountAddress, k = lcs_to_bytes a;
  lg_info_latest :
    match latest_ledger_info s with
    | None => txs = [] /\ forall k, sdb_view (cs_db s) DEFAULT_CF_NAME k = None
    | Some li =>
        txs <> [] /\ li_version li = (Z.of_nat (length txs) - 1)%Z /\ in_u64 (li_epoch li) /\
        sdb_view (cs_db s) DEFAULT_CF_NAME (encode_u64_key (li_epoch li)) = Some (lcs_to_bytes li) /\
        forall k, is_Some (sdb_view (cs_db s) DEFAULT_CF_NAME k) ->
          exists e, in_u64 e /\ (e <= li_epoch li)%Z /\ k = encode_u64_key e
    end;
  lg_witness : latest_witness s = last_witness txs
}.

(** ** Lemmas *)
End channel_store.

Section store_lemmas.
Context {L : Libra} {B : SchemaBatches} {A : Accumulators} {C : StoreCodecs}.
Context {LL : LibraLaws} {BL : SchemaBatchesLaws} {AL : AccumulatorsLaws}.
Context {S : Type} {SD : SchemaDB S} {SL : SchemaDBLaws S}.
Implicit Types s : ChannelStore (S := S).

Lemma small_in_u64 n : small n -> in_u64 (Z.of_nat n).
Proof. unfold small, in_u64. lia. Qed.

Lemma small_le n m : n <= m -> small m -> small n.
Proof. unfold small. lia. Qed.

Lemma version_key_inj v w : small v -> small w -> version_key v = version_key w -> v = w.
Proof. intros ?%small_in_u64 ?%small_in_u64 E. apply to_be_bytes_inj in E; [lia|done..]. Qed.

Lemma version_key_le v w : small v -> small w -> bytes_le (version_key v) (version_key w) = true -> v <= w.
Proof. intros ?%small_in_u64 ?%small_in_u64 E. unfold version_key, encode_u64_key in E. rewrite to_be_bytes_le in E by done. lia. Qed.

Lemma decode_version_key v : small v -> decode_u64_key (version_key v) = Ok (Z.of_nat v).
Proof. intros ?%small_in_u64. by apply decode_encode_u64. Qed.

Lemma item_key_inj v i w j : small v -> small i -> small w -> small j -> item_key v i = item_key w j -> v = w /\ i = j.
Proof.
  intros ?%small_in_u64 ?%small_in_u64 ?%small_in_u64 ?%small_in_u64 E. unfold item_key in E.
  apply (f_equal decode_pair_key) in E. rewrite !decode_encode_pair in E by done. injection E. lia.
Qed.

Lemma lcs_inj `{!Lcs T} (x y : T) : lcs_to_bytes x = lcs_to_bytes y -> x = y.
Proof. intros E. apply Ok_inj. by rewrite <-(lcs_roundtrip x), <-(lcs_roundtrip y), E. Qed.

(** *** Reading single keys *)

Ltac solve_cf := by apply (bool_decide_unpack _); vm_compute.

Lemma get_transaction_info_ok s txs v tx : ledger s txs -> txs !! v = Some tx ->
  get_transaction_info (cs_db s) (Z.of_nat v) = Ok (txn_info_of tx).
Proof.
  intros Hl Hv. unfold get_transaction_info. rewrite sdb_get_view by solve_cf. simpl.
  pose proof (lookup_lt_Some _ _ _ Hv). fold (version_key v).
  rewrite (lg_info s txs Hl v) by (apply (small_le _ (length txs)); [lia|apply Hl]).
  rewrite Hv. simpl. by rewrite lcs_roundtrip.
Qed.

Lemma get_transaction_ok s txs v tx : ledger s txs -> txs !! v = Some tx ->
  get_transaction (cs_db s) (Z.of_nat v) = Ok (signed_channel_txn tx).
Proof.
  intros Hl Hv. unfold get_transaction. rewrite sdb_get_view by solve_cf. simpl.
  pose proof (lookup_lt_Some _ _ _ Hv). fold (version_key v).
  rewrite (lg_txn s txs Hl v) by (apply (small_le _ (length txs)); [lia|apply Hl]).
  rewrite Hv. simpl. by rewrite lcs_roundtrip.
Qed.

Lemma pending_get_ok s txs : ledger s txs -> pending_get (cs_db s) = Ok (cs_pending_txn s).
Proof.
  intros Hl. unfold pending_get. rewrite sdb_get_view by solve_cf. simpl. rewrite (lg_pending s txs Hl).
  destruct (cs_pending_txn s); simpl; [by rewrite lcs_roundtrip|done].
Qed.

(** *** The greatest key *)

(** A table whose greatest key is known: [seek_to_last] finds it. *)
Lemma seek_last_found T (db : S) k v : sdb_ok db -> COLUMN_FAMILY_NAME T ∈ sg_column_families ->
  sdb_view db (COLUMN_FAMILY_NAME T) k = Some v ->
  (forall k', is_Some (sdb_view db (COLUMN_FAMILY_NAME T) k') -> bytes_le k' k = true) ->
  exists found rest, sdb_iter T db SeekLast = Ok (found, decode_entry T (k, v) :: rest).
Proof.
  intros Hok Hcf Hk Hmax. destruct (sdb_iter_view T db SeekLast Hok Hcf) as (found & raw & -> & _ & He & _).
  simpl in He. destruct raw as [|[k0 v0] raw].
  { assert ((k, v) ∈ []) as Hin by by apply He. by apply elem_of_nil in Hin. }
  destruct (proj1 (He k0 v0) ltac:(left)) as [Hv0 Hge].
  assert (k0 = k) as -> by (apply bytes_le_antisymm; [apply Hmax; eauto|apply Hge; eauto]).
  assert (v0 = v) as -> by congruence. exists found, (decode_entry T <$> raw). done.
Qed.

Lemma seek_last_empty T (db : S) : sdb_ok db -> COLUMN_FAMILY_NAME T ∈ sg_column_families ->
  (forall k, sdb_view db (COLUMN_FAMILY_NAME T) k = None) ->
  exists found, sdb_iter T db SeekLast = Ok (found, []).
Proof.
  intros Hok Hcf Hn. destruct (sdb_iter_view T db SeekLast Hok Hcf) as (found & raw & -> & _ & He & _).
  exists found. destruct raw as [|[k v] raw]; [done|].
  destruct (proj1 (He k v) ltac:(left)) as [Hv _]. by rewrite Hn in Hv.
Qed.

Lemma decode_entry_ok T k v key val :
  decode_key T k = Ok key -> decode_value T v = Ok val -> decode_entry T (k, v) = Ok (key, val).
Proof. intros Hk Hv. unfold decode_entry. cbn [fst snd]. rewrite Hk. rstep. by rewrite Hv. Qed.

Lemma get_latest_transaction_info_ok s txs tx : ledger s txs -> last txs = Some tx ->
  get_latest_transaction_info (cs_db s) = Ok ((Z.of_nat (length txs) - 1)%Z, txn_info_of tx).
Proof.
  intros Hl Hlast. rewrite last_lookup in Hlast.
  pose proof (lookup_lt_Some _ _ _ Hlast) as Hlen. pose proof (lg_small s txs Hl) as Hsm.
  assert (small (pred (length txs))) as Hsm' by (apply (small_le _ (length txs)); [lia|done]).
  destruct (seek_last_found ChannelTransactionInfoSchema (cs_db s) (version_key (pred (length txs)))
    (lcs_to_bytes (txn_info_of tx))) as (found & rest & E).
  - apply Hl.
  - solve_cf.
  - simpl. rewrite (lg_info s txs Hl) by done. by rewrite Hlast.
  - simpl. intros k' (v & Hv & ->)%(lg_info_keys s txs Hl). unfold version_key, encode_u64_key.
    rewrite to_be_bytes_le; [apply Z.leb_le; lia|apply small_in_u64..]; [|done].
    apply (small_le _ (length txs)); [lia|done].
  - unfold get_latest_transaction_info, get_latest_transaction_info_option. rewrite E. rstep.
    rewrite (decode_entry_ok ChannelTransactionInfoSchema _ _ (Z.of_nat (pred (length txs))) (txn_info_of tx));
      [|by apply decode_version_key|apply lcs_roundtrip].
    simpl. do 2 f_equal. lia.
Qed.

Lemma ledger_bootstrap_ok s txs : ledger s txs -> ledger_bootstrap (cs_db s) = Ok (latest_ledger_info s).
Proof.
  intros Hl. pose proof (lg_info_latest s txs Hl) as Hlat. unfold ledger_bootstrap.
  destruct (latest_ledger_info s) as [li|].
  - destruct Hlat as (_ & _ & Hu & Hv & Hmax).
    destruct (seek_last_found LedgerInfoSchema (cs_db s) (encode_u64_key (li_epoch li)) (lcs_to_bytes li))
      as (found & rest & E); [apply Hl|solve_cf|done| |].
    + intros k' (e & He & Hle & ->)%Hmax. unfold encode_u64_key. rewrite to_be_bytes_le by done. by apply Z.leb_le.
    + rewrite E, (decode_entry_ok LedgerInfoSchema _ _ (li_epoch li) li);
        [done|by apply decode_encode_u64|apply lcs_roundtrip].
  - destruct Hlat as [_ Hn]. destruct (seek_last_empty LedgerInfoSchema (cs_db s)) as [found E];
      [apply Hl|solve_cf|done|]. by rewrite E.
Qed.

(** *** Write sets *)

Definition item_entries (v : nat) (i0 : nat) (items : list WriteSetItem) : list (bytes * bytes) :=
  imap (fun i it => (item_key v (i0 + i), lcs_to_bytes it)) items.

Lemma item_entries_cons v i0 it items :
  item_entries v i0 (it :: items) = (item_key v i0, lcs_to_bytes it) :: item_entries v (Datatypes.S i0) items.
Proof.
  unfold item_entries. simpl. rewrite Nat.add_0_r. f_equal. apply imap_ext. intros i x _. simpl. by rewrite Nat.add_succ_r.
Qed.

Lemma elem_of_item_entries v items k x :
  (k, x) ∈ item_entries v 0 items <-> exists i (it : WriteSetItem), items !! i = Some it /\ k = item_key v i /\ x = lcs_to_bytes it.
Proof.
  unfold item_entries. rewrite elem_of_lookup_imap. simpl. split.
  - intros (i & it & [= -> ->] & ?). eauto.
  - intros (i & it & ? & -> & ->). eauto.
Qed.

Lemma item_key_lt v i j : small i -> small j -> i < j -> bytes_lt (item_key v i) (item_key v j).
Proof.
  intros ?%small_in_u64 ?%small_in_u64 Hij. unfold item_key, encode_pair_key, bytes_lt. cbn [fst snd].
  rewrite bytes_le_app, to_be_bytes_le by done. apply Z.leb_gt. lia.
Qed.

Lemma item_key_lt_version v i w j : small v -> small w -> v < w -> bytes_lt (item_key v i) (item_key w j).
Proof.
  intros ?%small_in_u64 ?%small_in_u64 Hvw. unfold item_key, encode_pair_key. cbn [fst snd].
  apply bytes_le_app_lt; [by rewrite !length_to_be_bytes|]. unfold bytes_lt.
  rewrite to_be_bytes_le by done. apply Z.leb_gt. lia.
Qed.

Lemma item_entries_sorted v i0 items : small (i0 + length items) -> keys_sorted (item_entries v i0 items).
Proof.
  revert i0. induction items as [|it items IH]; intros i0 Hsm; [constructor|]. rewrite item_entries_cons.
  unfold keys_sorted. rewrite fmap_cons. simpl in Hsm. constructor.
  - apply IH. by replace (Datatypes.S i0 + length items) with (i0 + Datatypes.S (length items)) by lia.
  - rewrite Forall_fmap, Forall_forall. intros [k x] Hin. unfold item_entries in Hin.
    apply elem_of_lookup_imap in Hin as (i & y & [= -> ->] & Hi). apply lookup_lt_Some in Hi. simpl.
    apply item_key_lt; [..|lia]; (eapply small_le; [|exact Hsm]); lia.
Qed.

(** Reading stops at the first entry of another version. *)
Lemma items_of_version_app v i0 items rest : small v -> small (i0 + length items) ->
  (forall e, e ∈ rest -> exists w j (it : WriteSetItem), e = (item_key w j, lcs_to_bytes it) /\ small w /\ small j /\ w <> v) ->
  items_of_version (Z.of_nat v) (decode_entry ChannelWriteSetSchema <$> item_entries v i0 items ++ rest) = Ok items.
Proof.
  intros Hv. revert i0. induction items as [|it items IH]; intros i0 Hsm Hrest.
  - simpl. destruct rest as [|e rest]; [done|].
    destruct (Hrest e ltac:(left)) as (w & j & it & -> & Hw & Hj & Hne). rewrite fmap_cons. cbn [items_of_version].
    rewrite (decode_entry_ok ChannelWriteSetSchema _ _ (Z.of_nat w, Z.of_nat j) it);
      [|apply decode_encode_pair; by apply small_in_u64|apply lcs_roundtrip].
    rstep. by rewrite bool_decide_eq_true_2 by lia.
  - rewrite item_entries_cons. cbn [app]. rewrite fmap_cons. cbn [items_of_version]. simpl in Hsm.
    rewrite (decode_entry_ok ChannelWriteSetSchema _ _ (Z.of_nat v, Z.of_nat i0) it);
      [|apply decode_encode_pair; apply small_in_u64; [done|eapply small_le; [|exact Hsm]; lia]|apply lcs_roundtrip].
    rstep. rewrite bool_decide_eq_false_2 by lia. rewrite IH; [done| |done].
    by replace (Datatypes.S i0 + length items) with (i0 + Datatypes.S (length items)) by lia.
Qed.

Definition of_version (v : nat) (e : bytes * bytes) : bool := bool_decide (take 8 e.1 = version_key v).

Lemma of_version_item v w j x : small v -> small w -> of_version v (item_key w j, x) = true <-> w = v.
Proof.
  intros Hv Hw. unfold of_version, item_key, encode_pair_key. cbn [fst snd].
  rewrite take_app_length' by by rewrite length_to_be_bytes. rewrite bool_decide_eq_true. split; [|by intros ->].
  intros E. by apply (version_key_inj w v) in E.
Qed.

(** The form of the entries from version [v] on. *)
Lemma ws_entry_form s txs v e found raw : ledger s txs -> v < length txs ->
  sdb_iter ChannelWriteSetSchema (cs_db s) (Seek (T := ChannelWriteSetSchema) (Z.of_nat v, 0%Z))
    = Ok (found, decode_entry ChannelWriteSetSchema <$> raw) ->
  (forall k x, (k, x) ∈ raw <->
     sdb_view (cs_db s) CHANNEL_WRITE_SET_CF_NAME k = Some x /\ bytes_le (item_key v 0) k = true) ->
  e ∈ raw -> exists w j (it : WriteSetItem), e = (item_key w j, lcs_to_bytes it) /\ v <= w /\ w < length txs /\
    items_of txs w !! j = Some it /\ small w /\ small j.
Proof.
  intros Hl Hv _ He. destruct e as [k x]. intros [Hk Hge]%He.
  destruct (lg_item_keys s txs Hl k) as (w & j & Hw & Hj & ->); [eauto|].
  assert (small j) as Hsj by (eapply small_le; [|apply (lg_ws_small s txs Hl w)]; lia).
  assert (small w) as Hsw by (eapply small_le; [|apply (lg_small s txs Hl)]; lia).
  assert (v <= w) as Hvw.
  { destruct (decide (v <= w)); [done|]. exfalso.
    assert (bytes_lt (item_key w j) (item_key v 0)) as Hlt'; [|unfold bytes_lt in Hlt'; congruence].
    apply item_key_lt_version; [done|eapply small_le; [|apply (lg_small s txs Hl)]; lia|lia]. }
  rewrite (lg_item s txs Hl) in Hk by done. destruct (items_of txs w !! j) as [it|] eqn:Eit; [|done].
  injection Hk as <-. exists w, j, it. done.
Qed.

(** The entries of version [v] come first, in order. *)
Lemma ws_entries_split s txs v raw : ledger s txs -> v < length txs -> keys_sorted raw ->
  (forall k x, (k, x) ∈ raw <->
     sdb_view (cs_db s) CHANNEL_WRITE_SET_CF_NAME k = Some x /\ bytes_le (item_key v 0) k = true) ->
  (forall e, e ∈ raw -> exists w j (it : WriteSetItem), e = (item_key w j, lcs_to_bytes it) /\ v <= w /\
     w < length txs /\ items_of txs w !! j = Some it /\ small w /\ small j) ->
  raw = item_entries v 0 (items_of txs v) ++ List.filter (fun e => negb (of_version v e)) raw.
Proof.
  intros Hl Hv Hs He Hform.
  assert (small v) as Hsv by (eapply small_le; [|apply (lg_small s txs Hl)]; lia).
  pose proof (lg_ws_small s txs Hl v) as Hws.
  apply keys_sorted_unique; [done| |].
  - apply keys_sorted_app; [by apply item_entries_sorted|by apply keys_sorted_filter|].
    intros [k1 x1] e2 (i & it & Hi & -> & ->)%elem_of_item_entries Hin2.
    rewrite list_elem_of_In, filter_In, <-list_elem_of_In, negb_true_iff in Hin2. destruct Hin2 as [Hin2 Hn2].
    destruct (Hform e2 Hin2) as (w & j & it' & -> & Hvw & Hw & _ & Hsw & _). simpl.
    apply item_key_lt_version; [done..|]. destruct (decide (w = v)) as [->|]; [|lia].
    by rewrite (proj2 (of_version_item v v j _ Hsv Hsv) eq_refl) in Hn2.
  - intros k x. rewrite elem_of_app, elem_of_item_entries.
    rewrite (list_elem_of_In (List.filter _ _)), filter_In, <-list_elem_of_In, negb_true_iff. split.
    + intros Hin. destruct (Hform _ Hin) as (w & j & it & [= -> ->] & _ & Hw & Hj & Hsw & _).
      destruct (decide (w = v)) as [->|Hne]; [left; eauto|right]. split; [done|].
      apply not_true_is_false. rewrite of_version_item by done. done.
    + intros [(i & it & Hi & -> & ->)|[Hin _]]; [|done].
      assert (small i) by (apply (small_le _ (length (items_of txs v))); [apply lookup_lt_Some in Hi; lia|done]).
      apply He. rewrite (lg_item s txs Hl v i) by done. rewrite Hi. split; [done|].
      destruct i as [|i]; [apply bytes_le_refl|]. apply bytes_lt_le, item_key_lt; [unfold small; unfold u64_max; lia|done|lia].
Qed.

Lemma get_write_set_ok s txs v tx : ledger s txs -> txs !! v = Some tx ->
  get_write_set_by_version (cs_db s) (Z.of_nat v) = Ok (tc_write_set tx).
Proof.
  intros Hl Hv. pose proof (lookup_lt_Some _ _ _ Hv) as Hlt.
  assert (small v) as Hsv by (eapply small_le; [|apply (lg_small s txs Hl)]; lia).
  unfold get_write_set_by_version.
  destruct (sdb_iter_view ChannelWriteSetSchema (cs_db s) (Seek (T := ChannelWriteSetSchema) (Z.of_nat v, 0%Z)))
    as (found & raw & E & Hs & He & _); [apply Hl|solve_cf|].
  pose proof (fun e => ws_entry_form s txs v e found raw Hl Hlt E He) as Hform. rewrite E. rstep.
  rewrite (ws_entries_split s txs v raw Hl Hlt Hs He Hform).
  rewrite items_of_version_app; [|done|apply (lg_ws_small s txs Hl v)|].
  - rstep. unfold items_of. rewrite Hv. apply ws_iter_freeze.
  - intros e Hin. rewrite list_elem_of_In, filter_In, <-list_elem_of_In, negb_true_iff in Hin.
    destruct Hin as [Hin Hn]. destruct (Hform e Hin) as (w & j & it & -> & _ & Hw & _ & Hsw & Hsj).
    exists w, j, it. split_and!; try done. intros ->.
    by rewrite (proj2 (of_version_item v v j _ Hsv Hsv) eq_refl) in Hn.
Qed.

(** *** Participant keys *)

Lemma collect_Ok {T} (items : list (res T)) (xs : list T) : items = Ok <$> xs -> collect items = Ok xs.
Proof. intros ->. induction xs as [|x xs IH]; [done|]. rewrite fmap_cons. cbn [collect]. rstep. by rewrite IH. Qed.

Lemma fold_insert_lookup {V} (l : list (AccountAddress * V)) (m : gmap AccountAddress V) :
  NoDup l.*1 -> forall a v,
  fold_left (fun (m : gmap AccountAddress V) (kv : AccountAddress * V) => <[kv.1 := kv.2]> m) l m !! a = Some v <->
  (a, v) ∈ l \/ (a ∉ l.*1 /\ m !! a = Some v).
Proof.
  revert m. induction l as [|[b w] l IH]; intros m Hnd a v; simpl; [set_solver|].
  apply NoDup_cons in Hnd as [Hni Hnd]. rewrite (IH _ Hnd), lookup_insert_Some, !elem_of_cons.
  assert ((b, v) ∈ l -> False) as Hb by (intros Hin; apply Hni, list_elem_of_fmap; by exists (b, v)).
  change (list_fmap (AccountAddress * V)%type AccountAddress fst l) with (l.*1) in *.
  destruct (decide (a = b)) as [->|Hne]; [|naive_solver].
  split; [intros [?|[? [[_ ->]|[? _]]]]; naive_solver|]. intros [[[= ->]|?]|[Hn _]]; [|tauto|naive_solver].
  right. split; [done|]. by left.
Qed.

Lemma load_public_keys_ok s txs : ledger s txs -> load_public_keys (cs_db s) = Ok (cs_participant_keys s).
Proof.
  intros Hl. unfold load_public_keys.
  destruct (sdb_iter_view ParticipantPublicKeySchema (cs_db s) SeekFirst) as (found & raw & -> & Hs & He & Hf);
    [apply Hl|solve_cf|]. rstep. simpl in He.
  assert (forall e, e ∈ raw -> exists a k, e = (lcs_to_bytes (a : AccountAddress), lcs_to_bytes k) /\
            cs_participant_keys s !! a = Some k) as Hform.
  { intros [k x] [Hk _]%He. destruct (lg_keys_keys s txs Hl k) as [a ->]; [eauto|].
    rewrite (lg_keys s txs Hl) in Hk. destruct (cs_participant_keys s !! a) as [pk|] eqn:E; [|done].
    exists a, pk. by injection Hk as <-. }
  destruct found.
  2: { rewrite Hf in He by done. f_equal. symmetry. apply map_empty. intros a.
       destruct (cs_participant_keys s !! a) as [pk|] eqn:E; [|done]. exfalso.
       apply (not_elem_of_nil (lcs_to_bytes a, lcs_to_bytes pk)), He. rewrite (lg_keys s txs Hl), E. done. }
  assert (exists kvs, decode_entry ParticipantPublicKeySchema <$> raw = Ok <$> kvs /\
            raw = (fun kv : AccountAddress * option Ed25519PublicKey => (lcs_to_bytes kv.1, lcs_to_bytes kv.2)) <$> kvs)
    as (kvs & Hdec & Hraw).
  { clear He Hf Hs. induction raw as [|e raw IH]; [by exists []|].
    destruct IH as (kvs & E1 & E2); [intros; apply Hform; by right|].
    destruct (Hform e ltac:(left)) as (a & k & -> & _). exists ((a, k) :: kvs).
    rewrite !fmap_cons, E1, <-E2. split; [|done]. f_equal. apply decode_entry_ok; apply lcs_roundtrip. }
  rewrite (collect_Ok _ _ Hdec). rstep. f_equal.
  assert (NoDup kvs.*1) as Hnd.
  { assert (NoDup raw.*1) as Hnd by (apply keys_sorted_NoDup; done). rewrite Hraw, <-list_fmap_compose in Hnd.
    apply (NoDup_fmap_1 lcs_to_bytes). by rewrite <-list_fmap_compose. }
  apply map_eq. intros a. apply option_eq. intros k. rewrite fold_insert_lookup, lookup_empty by done.
  transitivity ((lcs_to_bytes a, lcs_to_bytes k) ∈ raw).
  - rewrite Hraw. split.
    + intros [Hin|[_ ?]]; [|done]. apply list_elem_of_fmap. by exists (a, k).
    + intros ([a' k'] & [= E1%lcs_inj E2%lcs_inj] & Hin)%list_elem_of_fmap. left. by subst.
  - rewrite He, (lg_keys s txs Hl). destruct (cs_participant_keys s !! a) as [k'|]; simpl; [|naive_solver].
    split; [intros [E _]; injection E as E; f_equal; by apply lcs_inj|by intros [= ->]].
Qed.

(** *** Re-opening *)

Lemma generate_witness_ok txn ws n : applied_channel_sequence_number txn = Ok n -> (n < u64_max)%Z ->
  generate_witness txn ws = Ok (Witness_new (WitnessData_new (n + 1) ws) (witness_sigs txn)).
Proof. intros Hn Hlt. unfold generate_witness. rewrite Hn. rstep. by rewrite add_u64_Ok by lia. Qed.

Lemma load_witness_ok s txs : ledger s txs -> load_witness (cs_db s) (latest_ledger_info s) = Ok (latest_witness s).
Proof.
  intros Hl. rewrite (lg_witness s txs Hl). pose proof (lg_info_latest s txs Hl) as Hlat. unfold load_witness, last_witness.
  destruct (latest_ledger_info s) as [li|]; [|by destruct Hlat as [-> _]].
  destruct Hlat as (Hne & Hver & _). destruct (last txs) as [tx|] eqn:Hlast; [|by apply last_None in Hlast].
  rewrite last_lookup in Hlast. pose proof (lookup_lt_Some _ _ _ Hlast) as Hlt. pose proof (lg_small s txs Hl) as Hsm.
  replace (li_version li) with (Z.of_nat (pred (length txs))) by lia.
  rewrite (get_write_set_ok s txs _ tx Hl Hlast). rstep. rewrite (get_transaction_ok s txs _ tx Hl Hlast). rstep.
  rewrite (generate_witness_ok _ _ _ (lg_seq s txs Hl _ _ Hlast)) by (unfold small in Hsm; lia). simpl.
  do 4 f_equal. lia.
Qed.

Lemma reopen_ok s txs participants : ledger s txs -> cs_participant_keys s <> ∅ ->
  ChannelStore_new participants (cs_db s) = Ok s.
Proof.
  intros Hl Hk. unfold ChannelStore_new. rewrite (ledger_bootstrap_ok s txs Hl). rstep.
  rewrite (load_public_keys_ok s txs Hl). simpl. rewrite (pending_get_ok s txs Hl). simpl.
  rewrite (load_witness_ok s txs Hl). simpl. rewrite bool_decide_eq_false_2 by done. by destruct s.
Qed.

Lemma leaves_length txs : length (leaves txs) = length txs.
Proof. apply length_map. Qed.

Lemma get_startup_info_ok s txs li : ledger s txs -> latest_ledger_info s = Some li ->
  get_startup_info s = Ok (Some (mkStartupInfo li (Z.of_nat (length txs) - 1) (acc_frozen TXN_ACC (leaves txs)))).
Proof.
  intros Hl Hli. pose proof (lg_small s txs Hl) as Hsm. unfold small in Hsm. unfold get_startup_info. rewrite Hli. pose proof (lg_info_latest s txs Hl) as Hlat. rewrite Hli in Hlat.
  destruct Hlat as (Hne & _). destruct (last txs) as [tx|] eqn:Hlast; [|by apply last_None in Hlast].
  rewrite (get_latest_transaction_info_ok s txs tx Hl Hlast). rstep. unfold get_ledger_frozen_subtree_hashes.
  rewrite add_u64_Ok by lia. rstep.
  replace (Z.of_nat (length txs) - 1 + 1)%Z with (Z.of_nat (length (leaves txs))) by (rewrite leaves_length; lia).
  rewrite acc_frozen_spec; [done|]. apply Hl.
Qed.

Lemma get_transaction_by_seq_ok s txs v tx fe : ledger s txs -> txs !! v = Some tx ->
  exists proof, get_transaction_by_channel_seq_number s (Z.of_nat v) fe =
    Ok (mkTxnWithProof (Z.of_nat v) (signed_channel_txn tx) None (proof, txn_info_of tx)).
Proof.
  intros Hl Hv. pose proof (lookup_lt_Some _ _ _ Hv) as Hvl. pose proof (lg_small s txs Hl) as Hsm. unfold small in Hsm.
  unfold get_transaction_by_channel_seq_number. pose proof (lg_info_latest s txs Hl) as Hlat.
  destruct (latest_ledger_info s) as [li|]; [|destruct Hlat as [-> _]; simpl in Hvl; lia].
  destruct Hlat as (_ & Hver & _). simpl. unfold get_transaction_info_with_proof, get_transaction_proof.
  rewrite (get_transaction_info_ok s txs v tx Hl Hv). rstep. rewrite add_u64_Ok by lia. rstep.
  replace (li_version li + 1)%Z with (Z.of_nat (length (leaves txs))) by (rewrite leaves_length; lia).
  destruct (acc_proof_spec TXN_ACC (hash_reader (cs_db s)) (leaves txs) (Z.of_nat v)) as [proof ->].
  - apply Hl.
  - rewrite leaves_length. lia.
  - rstep. rewrite (get_transaction_ok s txs v tx Hl Hv). rstep. exists proof. by destruct fe.
Qed.

(** *** Committing *)

#[global] Instance LedgerInfo_storable : StorableSchema LedgerInfoSchema.
Proof. split; [solve_cf|]. intros k. split; [done|apply be_bytes_ok]. Qed.
#[global] Instance TransactionInfo_storable : StorableSchema ChannelTransactionInfoSchema.
Proof. split; [solve_cf|]. intros k. split; [done|apply be_bytes_ok]. Qed.
#[global] Instance AppliedTransaction_storable : StorableSchema AppliedChannelTransactionSchema.
Proof. split; [solve_cf|]. intros k. split; [done|apply be_bytes_ok]. Qed.
#[global] Instance TransactionAccumulator_storable : StorableSchema ChannelTransactionAccumulatorSchema.
Proof. split; [solve_cf|]. intros k. split; [done|apply be_bytes_ok]. Qed.
#[global] Instance WriteSet_storable : StorableSchema ChannelWriteSetSchema.
Proof. split; [solve_cf|]. intros k. split; [done|]. apply Forall_app. split; apply be_bytes_ok. Qed.
#[global] Instance WriteSetAccumulator_storable : StorableSchema ChannelWriteSetAccumulatorSchema.
Proof. split; [solve_cf|]. intros k. split; [done|]. apply Forall_app. split; apply be_bytes_ok. Qed.
#[global] Instance Pending_storable : StorableSchema PendingTransactionSchema.
Proof. split; [solve_cf|]. intros k. split; [apply lcs_nonempty|apply lcs_bytes_ok]. Qed.
#[global] Instance ParticipantKey_storable : StorableSchema ParticipantPublicKeySchema.
Proof. split; [solve_cf|]. intros k. split; [apply lcs_nonempty|apply lcs_bytes_ok]. Qed.
#[global] Instance TransactionByAccount_storable : StorableSchema TransactionByAccountSchema.
Proof. split; [solve_cf|]. apply tba_key_ok. Qed.

(** The batch [save_tx] commits. *)
Definition tx_batch (updated : list (AccountAddress * option Ed25519PublicKey)) (v : Z) (tx : TC)
    (ws_writes acc_writes : list (Position * HashValue)) (proposer : AccountAddress) (n : Z) (li : LedgerInfo)
    : SchemaBatch :=
  delete PendingTransactionSchema PENDING_TXN_KEY
   (put LedgerInfoSchema (li_epoch li) li
    (put_all ChannelTransactionAccumulatorSchema fst snd acc_writes
     (put ChannelTransactionInfoSchema v (txn_info_of tx)
      (put AppliedChannelTransactionSchema v (signed_channel_txn tx)
       (put TransactionByAccountSchema (proposer, n) v
        (put_all ChannelWriteSetSchema (fun e => (v, Z.of_nat e.1)) snd (imap pair (ws_iter (tc_write_set tx)))
         (put_all ChannelWriteSetAccumulatorSchema (fun w => (v, w.1)) snd ws_writes
          (put_all ParticipantPublicKeySchema fst snd updated batch_new)))))))).

Lemma tx_batch_ok updated v tx ws_writes acc_writes proposer n li :
  batch_ok (tx_batch updated v tx ws_writes acc_writes proposer n li).
Proof.
  unfold tx_batch.
  apply batch_ok_delete, batch_ok_put, batch_ok_put_all, batch_ok_put, batch_ok_put, batch_ok_put,
    batch_ok_put_all, batch_ok_put_all, batch_ok_put_all, batch_ok_new; apply _.
Qed.

(** Skip the rows of other tables. *)
Ltac other_tables :=
  repeat first [rewrite row_op_delete_ne by done
               |rewrite row_op_put_all_ne by (left; done)
               |rewrite row_op_put_ne by (left; done)].

Section tx_rows.
Context (updated : list (AccountAddress * option Ed25519PublicKey)) (v : nat) (tx : TC)
  (ws_writes acc_writes : list (Position * HashValue)) (proposer : AccountAddress) (n : Z) (li : LedgerInfo).
Notation tb := (tx_batch updated (Z.of_nat v) tx ws_writes acc_writes proposer n li).

Lemma tx_row_pending k : row_op tb PENDING_CHANNEL_TRANSACTION_CF_NAME k =
  if decide (k = lcs_to_bytes PENDING_TXN_KEY) then Some None else None.
Proof.
  unfold tx_batch. rewrite row_op_delete. simpl. case_decide as Hd.
  - injection Hd as ->. by rewrite decide_True.
  - rewrite (decide_False (P := k = _)) by congruence. other_tables. apply row_op_new.
Qed.

Lemma tx_row_ledger_info k : row_op tb DEFAULT_CF_NAME k =
  if decide (k = encode_u64_key (li_epoch li)) then Some (Some (lcs_to_bytes li)) else None.
Proof.
  unfold tx_batch. rewrite row_op_delete_ne by done. case_decide as Hd.
  - subst. apply (row_op_put_eq LedgerInfoSchema).
  - rewrite row_op_put_ne by by right. other_tables. apply row_op_new.
Qed.

Lemma tx_row_info k : row_op tb CHANNEL_TRANSACTION_INFO_CF_NAME k =
  if decide (k = version_key v) then Some (Some (lcs_to_bytes (txn_info_of tx))) else None.
Proof.
  unfold tx_batch. rewrite row_op_delete_ne, row_op_put_ne, row_op_put_all_ne by (done || by left).
  case_decide as Hd; [subst; apply (row_op_put_eq ChannelTransactionInfoSchema)|].
  rewrite row_op_put_ne by by right. other_tables. apply row_op_new.
Qed.

Lemma tx_row_txn k : row_op tb APPLIED_CHANNEL_TRANSACTION_CF_NAME k =
  if decide (k = version_key v) then Some (Some (lcs_to_bytes (signed_channel_txn tx))) else None.
Proof.
  unfold tx_batch. rewrite row_op_delete_ne, row_op_put_ne, row_op_put_all_ne, row_op_put_ne by (done || by left).
  case_decide as Hd; [subst; apply (row_op_put_eq AppliedChannelTransactionSchema)|].
  rewrite row_op_put_ne by by right. other_tables. apply row_op_new.
Qed.

Lemma tx_row_acc_in p h : NoDup acc_writes.*1 -> (p, h) ∈ acc_writes ->
  row_op tb CHANNEL_TRANSACTION_ACCUMULATOR_CF_NAME (encode_u64_key (to_postorder_index p)) = Some (Some (hash_to_vec h)).
Proof.
  intros Hnd Hin. unfold tx_batch. rewrite row_op_delete_ne, row_op_put_ne by (done || by left).
  apply (row_op_put_all ChannelTransactionAccumulatorSchema fst snd acc_writes _ (p, h)); [|done].
  change (NoDup ((fun p => encode_u64_key (to_postorder_index p)) ∘ fst <$> acc_writes)). rewrite list_fmap_compose.
  apply NoDup_fmap_2; [|done]. intros p1 p2 E. apply to_be_bytes_inj in E; [|apply postorder_u64..].
  by rewrite <-(postorder_roundtrip p1), E, postorder_roundtrip.
Qed.

Lemma tx_row_acc_notin p : p ∉ acc_writes.*1 ->
  row_op tb CHANNEL_TRANSACTION_ACCUMULATOR_CF_NAME (encode_u64_key (to_postorder_index p)) = None.
Proof.
  intros Hni. unfold tx_batch. rewrite row_op_delete_ne, row_op_put_ne, row_op_put_all_ne; try (done || by left).
  - other_tables. apply row_op_new.
  - right. intros w Hw E. apply Hni. apply list_elem_of_fmap. exists w. split; [|done].
    apply to_be_bytes_inj in E; [|apply postorder_u64..].
    by rewrite <-(postorder_roundtrip p), E, postorder_roundtrip.
Qed.

Lemma tx_row_item_in i it : small v -> small (length (ws_iter (tc_write_set tx))) ->
  ws_iter (tc_write_set tx) !! i = Some it ->
  row_op tb CHANNEL_WRITE_SET_CF_NAME (item_key v i) = Some (Some (lcs_to_bytes it)).
Proof.
  intros Hv Hsm Hi. unfold tx_batch. rewrite row_op_delete_ne by done.
  rewrite row_op_put_ne, row_op_put_all_ne, row_op_put_ne, row_op_put_ne, row_op_put_ne by by left.
  apply (row_op_put_all ChannelWriteSetSchema (fun e => (Z.of_nat v, Z.of_nat e.1)) snd _ _ (i, it)).
  - change (NoDup ((fun e : nat * WriteSetItem => item_key v e.1) <$> imap pair (ws_iter (tc_write_set tx)))).
    apply NoDup_fmap_2_strong.
    + intros [i1 x1] [i2 x2] H1 H2 E. apply elem_of_lookup_imap in H1 as (j1 & y1 & [= <- <-] & H1).
      apply elem_of_lookup_imap in H2 as (j2 & y2 & [= <- <-] & H2). simpl in E.
      apply item_key_inj in E as [_ ->]; [congruence|done| |done|]; (eapply small_le; [|exact Hsm]).
      * apply lookup_lt_Some in H1. lia.
      * apply lookup_lt_Some in H2. lia.
    + apply (NoDup_fmap_1 fst). rewrite fmap_imap.
      change (NoDup (imap (fun j _ => id j) (ws_iter (tc_write_set tx)))).
      rewrite imap_seq_0, list_fmap_id. apply NoDup_seq.
  - apply elem_of_lookup_imap. eauto.
Qed.

Lemma tx_row_item_notin k :
  (forall i, i < length (ws_iter (tc_write_set tx)) -> k <> item_key v i) -> row_op tb CHANNEL_WRITE_SET_CF_NAME k = None.
Proof.
  intros Hn. unfold tx_batch. rewrite row_op_delete_ne by done.
  rewrite row_op_put_ne, row_op_put_all_ne, row_op_put_ne, row_op_put_ne, row_op_put_ne by by left.
  rewrite row_op_put_all_ne; [other_tables; apply row_op_new|]. right.
  intros e (i & it & -> & Hi)%elem_of_lookup_imap. apply Hn. by eapply lookup_lt_Some.
Qed.

Lemma tx_row_key_in a pk : NoDup updated.*1 -> (a, pk) ∈ updated ->
  row_op tb PARTICIPANT_PUBLIC_KEY_CF_NAME (lcs_to_bytes a) = Some (Some (lcs_to_bytes pk)).
Proof.
  intros Hnd Hin. unfold tx_batch. rewrite row_op_delete_ne by done.
  rewrite row_op_put_ne, row_op_put_all_ne, row_op_put_ne, row_op_put_ne, row_op_put_ne, row_op_put_all_ne,
    row_op_put_all_ne by by left.
  apply (row_op_put_all ParticipantPublicKeySchema fst snd updated _ (a, pk)); [|done].
  change (NoDup (lcs_to_bytes ∘ fst <$> updated)). rewrite list_fmap_compose. apply NoDup_fmap_2; [|done]. intros a1 a2. apply lcs_inj.
Qed.

Lemma tx_row_key_notin k : (forall a : AccountAddress, a ∈ updated.*1 -> k <> lcs_to_bytes a) ->
  row_op tb PARTICIPANT_PUBLIC_KEY_CF_NAME k = None.
Proof.
  intros Hn. unfold tx_batch. rewrite row_op_delete_ne by done.
  rewrite row_op_put_ne, row_op_put_all_ne, row_op_put_ne, row_op_put_ne, row_op_put_ne, row_op_put_all_ne,
    row_op_put_all_ne by by left.
  rewrite row_op_put_all_ne; [apply row_op_new|]. right. intros [a pk] Hin. apply Hn.
  apply list_elem_of_fmap. by exists (a, pk).
Qed.
End tx_rows.

Lemma items_of_snoc txs tx v :
  items_of (txs ++ [tx]) v = if decide (v = length txs) then ws_iter (tc_write_set tx) else items_of txs v.
Proof.
  unfold items_of. case_decide as Hd; [subst; by rewrite lookup_app_r, Nat.sub_diag by lia|].
  destruct (decide (v < length txs)); [by rewrite lookup_app_l|].
  rewrite lookup_app_r by lia. rewrite (lookup_ge_None_2 txs v) by lia.
  by rewrite lookup_ge_None_2 by (simpl; lia).
Qed.

Lemma lookup_snoc_version {T} (txs : list T) tx v :
  (txs ++ [tx]) !! v = if decide (v = length txs) then Some tx else txs !! v.
Proof.
  case_decide as Hd; [subst; by rewrite lookup_app_r, Nat.sub_diag by lia|].
  destruct (decide (v < length txs)); [by rewrite lookup_app_l|].
  rewrite lookup_app_r by lia. rewrite (lookup_ge_None_2 txs v) by lia. by rewrite lookup_ge_None_2 by (simpl; lia).
Qed.

(** The hash reader of the database after the commit. *)
Lemma hash_reader_commit (db db' : S) updated v tx ws_writes acc_writes proposer n li :
  (forall cf k, sdb_view db' cf k =
     default (sdb_view db cf k) (row_op (tx_batch updated (Z.of_nat v) tx ws_writes acc_writes proposer n li) cf k)) ->
  NoDup acc_writes.*1 ->
  (forall p h, (p, h) ∈ acc_writes -> hash_reader db' p = Ok h) /\
  (forall p, p ∉ acc_writes.*1 -> hash_reader db' p = hash_reader db p).
Proof.
  intros Hv Hnd. split; intros p.
  - intros h Hin. unfold hash_reader. rewrite sdb_get_view by solve_cf. simpl. rewrite Hv.
    rewrite (tx_row_acc_in _ _ _ _ _ _ _ _ p h Hnd Hin). simpl. by rewrite hash_roundtrip.
  - intros Hni. unfold hash_reader. rewrite !sdb_get_view by solve_cf. simpl. rewrite Hv.
    by rewrite tx_row_acc_notin.
Qed.

Lemma version_key_decide {T} v w (x y : T) : small v -> small w ->
  (if decide (version_key v = version_key w) then x else y) = (if decide (v = w) then x else y).
Proof.
  intros Hv Hw. destruct (decide (v = w)) as [->|Hne]; [by rewrite decide_True|].
  rewrite decide_False; [done|]. intros E. by apply version_key_inj in E.
Qed.

(** The tables after the commit of [tx], one table at a time. *)
Section commit.
Context (s : ChannelStore (S := S)) (txs : list ChannelTransactionToCommit) (tx : ChannelTransactionToCommit).
Context (updated : list (AccountAddress * option Ed25519PublicKey)) (ws_writes acc_writes : list (Position * HashValue)).
Context (proposer : AccountAddress) (n : Z) (li : LedgerInfo) (db' : S).
Hypothesis Hl : ledger s txs.
Hypothesis Hlen : small (length txs).
Hypothesis Hws : small (length (ws_iter (tc_write_set tx))).
Hypothesis Hv : forall cf k, sdb_view db' cf k = default (sdb_view (cs_db s) cf k)
  (row_op (tx_batch updated (Z.of_nat (length txs)) tx ws_writes acc_writes proposer n li) cf k).

Lemma commit_item v i : small v -> small i ->
  sdb_view db' CHANNEL_WRITE_SET_CF_NAME (item_key v i) = lcs_to_bytes <$> items_of (txs ++ [tx]) v !! i.
Proof.
  intros Hsv Hsi. rewrite Hv, items_of_snoc. case_decide as Hd.
  - subst v. destruct (ws_iter (tc_write_set tx) !! i) as [it|] eqn:Hi.
    + by rewrite (tx_row_item_in _ _ _ _ _ _ _ _ i it Hlen Hws Hi).
    + rewrite tx_row_item_notin; simpl.
      { rewrite (lg_item s txs Hl) by done. unfold items_of. by rewrite (lookup_ge_None_2 txs (length txs)) by lia. }
      intros j Hj E. apply item_key_inj in E as [_ ->]; [|done..|eapply small_le; [|exact Hws]; lia].
      apply lookup_ge_None in Hi. lia.
  - rewrite tx_row_item_notin; simpl; [by apply Hl|]. intros j Hj E.
    apply item_key_inj in E as [-> _]; [done..|]. eapply small_le; [|exact Hws]. lia.
Qed.

Lemma commit_item_keys k : is_Some (sdb_view db' CHANNEL_WRITE_SET_CF_NAME k) ->
  exists v i, v < length (txs ++ [tx]) /\ i < length (items_of (txs ++ [tx]) v) /\ k = item_key v i.
Proof.
  rewrite Hv, length_app, Nat.add_1_r. intros Hk.
  destruct (row_op _ CHANNEL_WRITE_SET_CF_NAME k) as [op|] eqn:E; simpl in Hk.
  - destruct (decide (k ∈ item_key (length txs) <$> seq 0 (length (ws_iter (tc_write_set tx)))))
      as [(i & -> & Hi%elem_of_seq)%list_elem_of_fmap|Hno].
    + exists (length txs), i. rewrite items_of_snoc, decide_True by done. split_and!; [lia|lia|done].
    + rewrite tx_row_item_notin in E; [done|]. intros i Hi ->. apply Hno, list_elem_of_fmap_2, elem_of_seq. lia.
  - apply (lg_item_keys s txs Hl) in Hk as (v & i & Hvl & Hi & ->). exists v, i.
    rewrite items_of_snoc, decide_False by lia. split_and!; [lia|done..].
Qed.

Lemma commit_key a : NoDup updated.*1 ->
  sdb_view db' PARTICIPANT_PUBLIC_KEY_CF_NAME (lcs_to_bytes a) =
  lcs_to_bytes <$> (list_to_map updated ∪ cs_participant_keys s : gmap AccountAddress (option Ed25519PublicKey)) !! a.
Proof.
  intros Hndu. rewrite Hv.
  destruct ((list_to_map updated : gmap AccountAddress (option Ed25519PublicKey)) !! a) as [pk|] eqn:E.
  - rewrite (lookup_union_Some_l _ _ _ _ E). apply elem_of_list_to_map in E; [|done].
    by rewrite (tx_row_key_in _ _ _ _ _ _ _ _ a pk Hndu E).
  - rewrite lookup_union_r by done. rewrite tx_row_key_notin; simpl; [by apply Hl|].
    intros a' Ha' ->%lcs_inj. by apply not_elem_of_list_to_map_2 in E.
Qed.

Lemma commit_key_keys k : is_Some (sdb_view db' PARTICIPANT_PUBLIC_KEY_CF_NAME k) ->
  exists a : AccountAddress, k = lcs_to_bytes a.
Proof.
  rewrite Hv. intros Hk. destruct (row_op _ PARTICIPANT_PUBLIC_KEY_CF_NAME k) as [op|] eqn:E; simpl in Hk.
  - destruct (decide (k ∈ lcs_to_bytes <$> updated.*1)) as [(a & -> & _)%list_elem_of_fmap|Hno]; [eauto|].
    rewrite tx_row_key_notin in E; [done|]. intros a Ha ->. by apply Hno, list_elem_of_fmap_2.
  - by apply (lg_keys_keys s txs Hl).
Qed.

Lemma commit_ledger_info k : in_u64 (li_epoch li) ->
  (forall li0, latest_ledger_info s = Some li0 -> (li_epoch li0 <= li_epoch li)%Z) ->
  is_Some (sdb_view db' DEFAULT_CF_NAME k) ->
  exists e, in_u64 e /\ (e <= li_epoch li)%Z /\ k = encode_u64_key e.
Proof.
  intros Hep Hmono. rewrite Hv, tx_row_ledger_info. case_decide as Hd; simpl.
  - intros _. exists (li_epoch li). split_and!; [done|lia|done].
  - intros Hk. pose proof (lg_info_latest s txs Hl) as Hlat. destruct (latest_ledger_info s) as [li0|].
    + destruct Hlat as (_ & _ & _ & _ & Hmax). destruct (Hmax k Hk) as (e & ? & ? & ->).
      exists e. split_and!; [done| |done]. specialize (Hmono li0 eq_refl). lia.
    + destruct Hlat as [_ Hn]. rewrite Hn in Hk. by destruct Hk.
Qed.
End commit.

Lemma commit_ledger s txs tx li updated ws_writes acc_writes proposer n db' :
  ledger s txs -> small (Datatypes.S (length txs)) -> small (length (ws_iter (tc_write_set tx))) ->
  applied_channel_sequence_number (signed_channel_txn tx) = Ok (Z.of_nat (length txs)) ->
  in_u64 (li_epoch li) -> (forall li0, latest_ledger_info s = Some li0 -> (li_epoch li0 <= li_epoch li)%Z) ->
  li_version li = Z.of_nat (length txs) -> NoDup updated.*1 -> NoDup acc_writes.*1 ->
  (forall reader' : Position -> res HashValue,
     (forall p h, (p, h) ∈ acc_writes -> reader' p = Ok h) ->
     (forall p h, p ∉ acc_writes.*1 -> (p, h) ∈ acc_nodes TXN_ACC (leaves txs) -> reader' p = Ok h) ->
     forall p h, (p, h) ∈ acc_nodes TXN_ACC (leaves (txs ++ [tx])) -> reader' p = Ok h) ->
  sdb_write_schemas (cs_db s) (tx_batch updated (Z.of_nat (length txs)) tx ws_writes acc_writes proposer n li) = Ok db' ->
  ledger (mkChannelStore db' (Some li) (last_witness (txs ++ [tx])) None (list_to_map updated ∪ cs_participant_keys s))
    (txs ++ [tx]).
Proof.
  intros Hl Hsm Hws Hseq Hep Hmono Hver Hndu Hnda Hacc Hw.
  destruct (sdb_write_view _ _ _ (lg_ok s txs Hl) (tx_batch_ok _ _ _ _ _ _ _ _) Hw) as [Hok Hv].
  destruct (hash_reader_commit _ _ _ _ _ _ _ _ _ _ Hv Hnda) as [Hr1 Hr2].
  assert (small (length txs)) as Hlen by (eapply small_le; [|exact Hsm]; lia).
  split; simpl; try done.
  - rewrite length_app. simpl. by rewrite Nat.add_1_r.
  - intros v. rewrite items_of_snoc. case_decide; [done|apply Hl].
  - intros v tx'. rewrite lookup_snoc_version. case_decide as Hd; [intros [= <-]; by subst|apply Hl].
  - intros v Hsv. rewrite Hv, tx_row_info, lookup_snoc_version, version_key_decide by done.
    case_decide; [done|]. by apply Hl.
  - intros k. rewrite Hv, tx_row_info, length_app. case_decide as Hd; simpl.
    + intros _. exists (length txs). split; [lia|done].
    + intros (v & ? & ->)%(lg_info_keys s txs Hl). exists v. split; [lia|done].
  - intros v Hsv. rewrite Hv, tx_row_txn, lookup_snoc_version, version_key_decide by done.
    case_decide; [done|]. by apply Hl.
  - apply Hacc; [done|]. intros p h Hni Hin. rewrite Hr2 by done. by apply (lg_nodes s txs Hl).
  - by eapply commit_item.
  - by eapply commit_item_keys.
  - by rewrite Hv, tx_row_pending, decide_True.
  - intros a. by eapply commit_key.
  - by eapply commit_key_keys.
  - split_and!; [by destruct txs|rewrite length_app; simpl; lia|done|by rewrite Hv, tx_row_ledger_info, decide_True|].
    intros k. by eapply commit_ledger_info.
Qed.

Lemma NoDup_omap_fst {E X V} (f : E -> option (X * V)) (key : E -> X) (l : list E) :
  (forall e y, f e = Some y -> y.1 = key e) -> NoDup (key <$> l) -> NoDup (omap f l).*1.
Proof.
  intros Hf. induction l as [|e l IH]; intros Hnd; [constructor|]. rewrite fmap_cons in Hnd.
  apply NoDup_cons in Hnd as [Hni Hnd]. simpl. destruct (f e) as [y|] eqn:Ey; [|auto].
  rewrite fmap_cons. constructor; [|auto]. rewrite (Hf _ _ Ey). intros Hin. apply Hni.
  apply list_elem_of_fmap in Hin as (y' & Hy & Hin). apply list_elem_of_omap in Hin as (e' & He' & E').
  apply list_elem_of_fmap. exists e'. split; [|done]. by rewrite Hy, (Hf _ _ E').
Qed.

Lemma NoDup_zip_fst {X Y V} (l : list (X * Y)) (l' : list V) : NoDup l.*1 -> NoDup (fst ∘ fst <$> zip l l').
Proof.
  revert l'. induction l as [|e l IH]; intros [|v l'] Hnd; [constructor..|]. rewrite fmap_cons in Hnd.
  apply NoDup_cons in Hnd as [Hni Hnd]. cbn [zip zip_with]. rewrite fmap_cons. constructor; [|by apply IH].
  intros Hin. apply Hni. apply list_elem_of_fmap in Hin as ([e' v'] & E & Hin). apply elem_of_zip_l in Hin.
  apply list_elem_of_fmap. by exists e'.
Qed.

Lemma NoDup_updated old new_keys : NoDup (updated_public_keys old new_keys).*1.
Proof.
  unfold updated_public_keys. apply (NoDup_omap_fst _ (fst ∘ fst)).
  - intros [[a [o|]] k] y; simpl; [case_bool_decide; [done|]|]; by intros [= <-].
  - apply NoDup_zip_fst. rewrite bt_iter_fst. apply NoDup_bt_sort.
Qed.

(** What a transaction must satisfy to be committed next. *)
Record next_txn s (txs : list TC) (tx : TC) (li : LedgerInfo) : Prop := {
  nt_small : small (Datatypes.S (length txs));
  nt_ws_small : small (length (ws_iter (tc_write_set tx)));
  nt_seq : applied_channel_sequence_number (signed_channel_txn tx) = Ok (Z.of_nat (length txs));
  nt_version : li_version li = Z.of_nat (length txs);
  nt_epoch : in_u64 (li_epoch li);
  nt_epoch_mono li0 : latest_ledger_info s = Some li0 -> (li_epoch li0 <= li_epoch li)%Z
}.

(** A transaction with a sequence number has a channel payload. *)
Lemma applied_total txn n : applied_channel_sequence_number txn = Ok n ->
  (exists ks, participant_keys_of txn = Ok ks) /\ (exists p, applied_proposer txn = Ok p).
Proof.
  destruct txn as [t|t]; simpl; [eauto|]. unfold travel_payload. destruct (channel_payload t); simpl; [eauto|done].
Qed.

Lemma leaves_snoc txs tx : leaves (txs ++ [tx]) = leaves txs ++ [txn_info_hash (txn_info_of tx)].
Proof. unfold leaves. apply map_app. Qed.

Lemma save_tx_ok s txs tx li new_keys : ledger s txs -> next_txn s txs tx li ->
  participant_keys_of (signed_channel_txn tx) = Ok new_keys ->
  transaction_accumulator_hash li = acc_root TXN_ACC (leaves (txs ++ [tx])) ->
  exists batch, batch_ok batch /\
    (forall db', sdb_write_schemas (cs_db s) batch = Ok db' ->
       let s' := mkChannelStore db' (Some li) (last_witness (txs ++ [tx])) None
                   (list_to_map (updated_public_keys (cs_participant_keys s) new_keys) ∪ cs_participant_keys s) in
       ledger s' (txs ++ [tx]) /\ save_tx s tx (Z.of_nat (length txs)) (Some li) true = Ok s') /\
    (forall e, sdb_write_schemas (cs_db s) batch = Err e ->
       save_tx s tx (Z.of_nat (length txs)) (Some li) true = Err e).
Proof.
  intros Hl [Hsm Hws Hseq Hver Hep Hmono] Hkeys Hroot.
  destruct (applied_total _ _ Hseq) as [_ [proposer Hprop]].
  destruct (acc_append_spec WRITE_SET_ACC empty_reader [] (map write_set_item_hash (ws_iter (tc_write_set tx))))
    as (ws_writes & Ews & _ & _); [intros p h; by rewrite acc_nodes_nil, elem_of_nil|].
  destruct (acc_append_spec TXN_ACC (hash_reader (cs_db s)) (leaves txs) [txn_info_hash (txn_info_of tx)])
    as (acc_writes & Eacc & Hnda & Hacc); [apply Hl|].
  rewrite <-leaves_snoc in Eacc, Hacc. rewrite leaves_length in Eacc. simpl in Ews.
  change (Z.of_nat 0) with 0%Z in Ews.
  exists (tx_batch (updated_public_keys (cs_participant_keys s) new_keys) (Z.of_nat (length txs)) tx
            ws_writes acc_writes proposer (Z.of_nat (length txs)) li).
  assert (save_tx s tx (Z.of_nat (length txs)) (Some li) true =
    db' ← sdb_write_schemas (cs_db s) (tx_batch (updated_public_keys (cs_participant_keys s) new_keys)
            (Z.of_nat (length txs)) tx ws_writes acc_writes proposer (Z.of_nat (length txs)) li);
    Ok (mkChannelStore db' (Some li) (last_witness (txs ++ [tx])) None
         (list_to_map (updated_public_keys (cs_participant_keys s) new_keys) ∪ cs_participant_keys s))) as Esave.
  { unfold save_tx. rewrite Hver, bool_decide_eq_true_2 by done. simpl ensure. rstep.
    rewrite (generate_witness_ok _ _ _ Hseq) by (unfold small in Hsm; lia). rstep. rewrite Hkeys. rstep.
    unfold save_tx_impl, put_write_set. rewrite Ews. rstep. unfold put_transaction. rewrite Hseq. rstep.
    rewrite Hprop. rstep. unfold put_tx_info. fold (txn_info_of tx). rewrite Eacc. rstep.
    rewrite bool_decide_eq_true_2 by done. simpl ensure. rstep.
    unfold last_witness. rewrite last_snoc, length_app. simpl.
    replace (Z.of_nat (length txs + 1)) with (Z.of_nat (length txs) + 1)%Z by lia. done. }
  split; [apply tx_batch_ok|]. split.
  - intros db' Hw s'. split; [|by rewrite Esave, Hw].
    eapply commit_ledger; try done. apply NoDup_updated.
  - intros e Hw. by rewrite Esave, Hw.
Qed.

(** *** The pending transaction *)

Definition with_pending s (db' : S) (p : option PendingTransaction) : ChannelStore :=
  mkChannelStore db' (latest_ledger_info s) (latest_witness s) p (cs_participant_keys s).

(** A commit that only changes the pending transaction. *)
Lemma pending_ledger s txs b db' p : ledger s txs -> batch_ok b -> sdb_write_schemas (cs_db s) b = Ok db' ->
  (forall cf k, row_op b cf k =
     if decide ((cf, k) = (PENDING_CHANNEL_TRANSACTION_CF_NAME, lcs_to_bytes PENDING_TXN_KEY))
     then Some (lcs_to_bytes <$> p) else None) ->
  ledger (with_pending s db' p) txs.
Proof.
  intros Hl Hb Hw Hrow. destruct (sdb_write_view _ _ _ (lg_ok s txs Hl) Hb Hw) as [Hok Hv].
  assert (forall cf k, cf <> PENDING_CHANNEL_TRANSACTION_CF_NAME -> sdb_view db' cf k = sdb_view (cs_db s) cf k) as Hsame.
  { intros cf k Hne. by rewrite Hv, Hrow, decide_False by congruence. }
  assert (forall q, hash_reader db' q = hash_reader (cs_db s) q) as Hr.
  { intros q. unfold hash_reader. rewrite !sdb_get_view by solve_cf. by rewrite Hsame. }
  split; cbn [with_pending cs_db latest_ledger_info latest_witness cs_pending_txn cs_participant_keys];
    intros; rewrite ?Hsame, ?Hr by done; try done; try by apply Hl.
  - rewrite Hsame in * by done. by apply (lg_info_keys s txs Hl).
  - rewrite Hsame in * by done. by apply (lg_item_keys s txs Hl).
  - by rewrite Hv, Hrow, decide_True.
  - rewrite Hsame in * by done. by apply (lg_keys_keys s txs Hl).
  - pose proof (lg_info_latest s txs Hl) as Hlat. destruct (latest_ledger_info s) as [li|].
    + destruct Hlat as (? & ? & ? & ? & Hmax). split_and!; [done..|by rewrite Hsame|].
      intros k. rewrite Hsame by done. apply Hmax.
    + destruct Hlat as [? Hn]. split; [done|]. intros k. by rewrite Hsame.
Qed.

Lemma save_pending_txn_ok s txs p : ledger s txs ->
  exists batch, batch_ok batch /\
    (forall db', sdb_write_schemas (cs_db s) batch = Ok db' ->
       ledger (with_pending s db' (Some p)) txs /\ save_pending_txn s p true = Ok (with_pending s db' (Some p))) /\
    (forall e, sdb_write_schemas (cs_db s) batch = Err e -> save_pending_txn s p true = Err e).
Proof.
  intros Hl. exists (pending_save p batch_new).
  assert (batch_ok (pending_save p batch_new)) as Hb by (apply (batch_ok_put PendingTransactionSchema), batch_ok_new).
  split; [done|]. split.
  - intros db' Hw. split; [|unfold save_pending_txn; by rewrite Hw].
    eapply pending_ledger; try done. intros cf k. unfold pending_save. rewrite row_op_put. simpl.
    case_decide; [done|]. apply row_op_new.
  - intros e Hw. unfold save_pending_txn. by rewrite Hw.
Qed.

Lemma clear_pending_txn_ok s txs : ledger s txs ->
  exists batch, batch_ok batch /\
    (forall db', sdb_write_schemas (cs_db s) batch = Ok db' ->
       ledger (with_pending s db' None) txs /\ clear_pending_txn s = Ok (with_pending s db' None)) /\
    (forall e, sdb_write_schemas (cs_db s) batch = Err e -> clear_pending_txn s = Err e).
Proof.
  intros Hl. exists (pending_clear batch_new).
  assert (batch_ok (pending_clear batch_new)) as Hb by (apply (batch_ok_delete PendingTransactionSchema), batch_ok_new).
  split; [done|]. split.
  - intros db' Hw. split; [|unfold clear_pending_txn; by rewrite Hw].
    eapply pending_ledger; try done. intros cf k. unfold pending_clear. rewrite row_op_delete. simpl.
    case_decide; [done|]. apply row_op_new.
  - intros e Hw. unfold clear_pending_txn. by rewrite Hw.
Qed.

(** *** A fresh store *)

Lemma fresh_ledger (db : S) keys : sdb_ok db ->
  (forall cf k, cf <> PARTICIPANT_PUBLIC_KEY_CF_NAME -> sdb_view db cf k = None) ->
  (forall a, sdb_view db PARTICIPANT_PUBLIC_KEY_CF_NAME (lcs_to_bytes a) = lcs_to_bytes <$> keys !! a) ->
  (forall k, is_Some (sdb_view db PARTICIPANT_PUBLIC_KEY_CF_NAME k) -> exists a : AccountAddress, k = lcs_to_bytes a) ->
  ledger (mkChannelStore db None None None keys) [].
Proof.
  intros Hok Hn Hk Hkk. assert (forall cf k, cf <> PARTICIPANT_PUBLIC_KEY_CF_NAME -> ~ is_Some (sdb_view db cf k)) as Hn'.
  { intros cf k Hne. rewrite Hn by done. by intros [? ?]. }
  split; cbn [cs_db latest_ledger_info latest_witness cs_pending_txn cs_participant_keys]; try done; try by auto.
  - intros k H. by apply Hn' in H.
  - intros p h. unfold leaves. simpl. rewrite acc_nodes_nil. by intros ?%elem_of_nil.
  - intros k H. by apply Hn' in H.
Qed.

Lemma new_store_ok db participants : sdb_ok db -> (forall cf k, sdb_view db cf k = None) ->
  exists batch, batch_ok batch /\
    (forall db', sdb_write_schemas db batch = Ok db' ->
       let s := mkChannelStore db' None None None (gset_to_gmap None participants) in
       ledger s [] /\ ChannelStore_new participants db = Ok s) /\
    (forall e, sdb_write_schemas db batch = Err e -> ChannelStore_new participants db = Err e).
Proof.
  intros Hok Hempty.
  set (b := put_all ParticipantPublicKeySchema (fun addr => addr) (fun _ => None) (bt_sort participants) batch_new).
  assert (batch_ok b) as Hb by (apply (batch_ok_put_all ParticipantPublicKeySchema), batch_ok_new).
  assert (ledger (mkChannelStore db None None None ∅) []) as Hl0.
  { apply fresh_ledger; [done|by auto|by intros; rewrite Hempty, lookup_empty|]. intros k [? H]. by rewrite Hempty in H. }
  assert (ChannelStore_new participants db =
    (db' ← sdb_write_schemas db b; keys' ← load_public_keys db'; Ok (mkChannelStore db' None None None keys'))) as E.
  { pose proof (ledger_bootstrap_ok _ _ Hl0) as E1. pose proof (load_public_keys_ok _ _ Hl0) as E2.
    pose proof (pending_get_ok _ _ Hl0) as E3. cbn [cs_db cs_pending_txn cs_participant_keys] in E1, E2, E3.
    unfold ChannelStore_new. rewrite E1. rstep.
    rewrite E2, E3. cbn [expect_ok mbind res_bind load_witness latest_ledger_info].
    by rewrite bool_decide_eq_true_2. }
  exists b. split; [done|]. split; [|intros e Hw; by rewrite E, Hw].
  intros db' Hw s. destruct (sdb_write_view _ _ _ Hok Hb Hw) as [Hok' Hv].
  assert (ledger s []) as Hl.
  { apply fresh_ledger; [done|..].
    - intros cf k Hne. rewrite Hv, Hempty. unfold b. rewrite row_op_put_all_ne by by left. by rewrite row_op_new.
    - intros a. rewrite Hv, Hempty. destruct (decide (a ∈ participants)) as [Ha|Ha].
      + rewrite (proj2 (lookup_gset_to_gmap_Some _ _ _ _)) by done. unfold b.
        change (lcs_to_bytes a) with (encode_key ParticipantPublicKeySchema a).
        change PARTICIPANT_PUBLIC_KEY_CF_NAME with (COLUMN_FAMILY_NAME ParticipantPublicKeySchema).
        rewrite (row_op_put_all ParticipantPublicKeySchema (fun addr => addr) (fun _ => None) _ _ a); [done| |by apply elem_of_bt_sort].
        apply NoDup_fmap_2_strong; [intros ???? ?%lcs_inj; done|apply NoDup_bt_sort].
      + rewrite (proj2 (lookup_gset_to_gmap_None _ _ _)) by done. unfold b. rewrite row_op_put_all_ne, row_op_new; [done|].
        right. intros x Hx E'%lcs_inj. subst. by apply elem_of_bt_sort in Hx.
    - intros k. rewrite Hv, Hempty. destruct (decide (k ∈ lcs_to_bytes <$> bt_sort participants)) as [(a & -> & _)%list_elem_of_fmap|Hno]; [eauto|].
      unfold b. rewrite row_op_put_all_ne, row_op_new; [by intros [? ?]|]. right. intros x Hx ->. by apply Hno, list_elem_of_fmap_2. }
  split; [done|]. rewrite E, Hw. rstep. pose proof (load_public_keys_ok s [] Hl) as Hr. cbn [cs_db s] in Hr. by rewrite Hr.
Qed.
End store_lemmas.
