(* ===== verification/TxApplier.v ===== *)
(** * Applying transactions to a channel

    Models [src/sgwallet/src/tx_applier.rs]: the in-memory accumulator and epoch of a channel, kept beside its
    store.  The database is the trait [SchemaDB], the clock an argument.

    The theorems: a transaction is applied exactly when it carries the next sequence number, and then
    the ledger grows by it; whatever sequence of operations is run, with whatever writes failing,
    re-opening the database rebuilds the ledger, the accumulator, the epoch and the last persisted
    pending transaction. *)
From S2P Require Import Prelude Codec Libra SchemaDB Accumulator ChannelTypes ChannelStore.

Section tx_applier.
Context {L : Libra} {B : SchemaBatches} {A : Accumulators} {C : StoreCodecs}.
Context {S : Type} {SD : SchemaDB S}.

Record AppliedTrees := mkAppliedTrees { at_epoch : Z; tx_accumulator : InMemoryAccumulator }.

Record TxApplier := mkTxApplier { applied_trees : AppliedTrees; ta_store : ChannelStore (S := S) }.
Implicit Types t : TxApplier.

(** [TxApplier::new] *)
Definition TxApplier_new (store : ChannelStore (S := S)) : res TxApplier :=
  startup_info ← expect_ok (get_startup_info store);
  '(frozen, num_leaves, epoch) ←
    match startup_info with
    | Some info =>
        n ← add_u64 (latest_version info) 1;
        Ok (ledger_frozen_subtree_hashes info, n, li_epoch (si_ledger_info info))
    | None => Ok ([], 0%Z, 0%Z)
    end;
  acc ← expect_ok (mem_new TXN_ACC frozen num_leaves);
  Ok (mkTxApplier (mkAppliedTrees epoch acc) store).

(** [get_current_timestamp]; [now] is the system time, in nanoseconds since the epoch. *)
Definition get_current_timestamp (now : Z) : res Z :=
  if bool_decide (0 <= now)%Z then Ok now else Panic "Timestamp generated is before the UNIX_EPOCH!".
(** [Duration::as_micros() as u64] *)
Definition as_micros_u64 (d : Z) : Z := (d / 1000 mod 2 ^ 64)%Z.

(** [TxApplier::apply]; the root of the event tree is not used. *)
Definition apply t (tx_to_commit : ChannelTransactionToCommit) (now : Z) : res TxApplier :=
  channel_seq_number ← applied_channel_sequence_number (signed_channel_txn tx_to_commit);
  _ ← ensure (bool_decide (channel_seq_number = mem_num_leaves (tx_accumulator (applied_trees t))))
        "tx channel seq number mismatched";
  let write_set_tree :=
    mem_append (mem_default WRITE_SET_ACC) (map write_set_item_hash (ws_iter (tc_write_set tx_to_commit))) in
  let is_travel := travel (signed_channel_txn tx_to_commit) in
  let txn_info := mkTxnInfo (applied_txn_hash (signed_channel_txn tx_to_commit)) (mem_root_hash write_set_tree)
                    HashValue_default (tc_major_status tx_to_commit) is_travel (tc_gas_used tx_to_commit) in
  let new_txn_accumulator := mem_append (tx_accumulator (applied_trees t)) [txn_info_hash txn_info] in
  next ← add_u64 channel_seq_number 1;
  _ ← rassert (bool_decide (mem_num_leaves new_txn_accumulator = next)) "debug_assert";
  let new_epoch := if is_travel then channel_seq_number else at_epoch (applied_trees t) in
  ts ← get_current_timestamp now;
  let ledger_info := mkLedgerInfo channel_seq_number (mem_root_hash new_txn_accumulator) new_epoch (as_micros_u64 ts) in
  store' ← save_tx (ta_store t) tx_to_commit channel_seq_number (Some ledger_info) true;
  Ok (mkTxApplier (mkAppliedTrees new_epoch new_txn_accumulator) store').

(** The operations a channel runs on its store; an error leaves the state as it was. *)
Inductive store_op :=
| OpApply (tx : ChannelTransactionToCommit) (now : Z)
| OpSavePending (p : PendingTransaction) (persist : bool)
| OpClearPending.

Definition run_op t (op : store_op) : res TxApplier :=
  match op with
  | OpApply tx now => apply t tx now
  | OpSavePending p persist => s' ← save_pending_txn (ta_store t) p persist; Ok (mkTxApplier (applied_trees t) s')
  | OpClearPending => s' ← clear_pending_txn (ta_store t); Ok (mkTxApplier (applied_trees t) s')
  end.

(** What is in the ledger and in the durable pending transaction, seen from outside: an operation that
    succeeds changes them, one that fails does not. *)
Definition abstract_op (a : list TC * option PendingTransaction) (op : store_op) : list TC * option PendingTransaction :=
  match op with
  | OpApply tx _ => (a.1 ++ [tx], None)
  | OpSavePending p persist => (a.1, if persist then Some p else a.2)
  | OpClearPending => (a.1, None)
  end.

(** Run [ops], skipping those that fail. *)
Fixpoint run_ops t (a : list TC * option PendingTransaction) (ops : list store_op)
    : res (TxApplier * (list TC * option PendingTransaction)) :=
  match ops with
  | [] => Ok (t, a)
  | op :: ops' =>
      match run_op t op with
      | Ok t' => run_ops t' (abstract_op a op) ops'
      | Err _ => run_ops t a ops'
      | Panic e => Panic e
      end
  end.

(** Opening a channel's database: the store, then the applier. *)
Definition open_applier (participants : gset AccountAddress) (db : S) : res TxApplier :=
  s ← ChannelStore_new participants db;
  TxApplier_new s.

(** ** Invariant *)

(** The version of the last travel transaction, 0 when there is none. *)
Definition last_travel (txs : list TC) : Z :=
  (fold_left (fun (a : Z * Z) (tx : TC) => (a.1 + 1, if travel (signed_channel_txn tx) then a.1 else a.2)%Z) txs (0, 0)%Z).2.

Context {AL : AccumulatorsLaws} {SL : SchemaDBLaws S}.

(** The store with the pending transaction that is in the database. *)
Definition durable (s : ChannelStore (S := S)) (p : option PendingTransaction) : ChannelStore :=
  with_pending s (cs_db s) p.

Record applier_inv t (txs : list TC) (p : option PendingTransaction) : Prop := {
  ai_ledger : ledger (durable (ta_store t) p) txs;
  ai_keys : cs_participant_keys (ta_store t) <> ∅;
  ai_rep : mem_rep TXN_ACC (tx_accumulator (applied_trees t)) (leaves txs);
  ai_epoch : at_epoch (applied_trees t) = last_travel txs;
  ai_latest li : latest_ledger_info (ta_store t) = Some li ->
    li_epoch li = last_travel txs /\ transaction_accumulator_hash li = acc_root TXN_ACC (leaves txs)
}.

(** An operation with the clock after 1970 and a channel transaction. *)
Definition op_ok (op : store_op) : Prop :=
  match op with
  | OpApply tx now =>
      (0 <= now)%Z /\ exists n, applied_channel_sequence_number (signed_channel_txn tx) = Ok n
  | _ => True
  end.
End tx_applier.

Section applier_lemmas.
Context {L : Libra} {B : SchemaBatches} {A : Accumulators} {C : StoreCodecs}.
Context {LL : LibraLaws} {BL : SchemaBatchesLaws} {AL : AccumulatorsLaws}.
Context {S : Type} {SD : SchemaDB S} {SL : SchemaDBLaws S}.
Implicit Types t : TxApplier (S := S).

Lemma fold_travel_fst (txs : list TC) a :
  (fold_left (fun (a : Z * Z) (tx : TC) => (a.1 + 1, if travel (signed_channel_txn tx) then a.1 else a.2)%Z) txs a).1
  = (a.1 + Z.of_nat (length txs))%Z.
Proof. revert a. induction txs as [|tx txs IH]; intros a; simpl; [lia|]. rewrite IH. simpl. lia. Qed.

Lemma last_travel_snoc txs tx :
  last_travel (txs ++ [tx]) = if travel (signed_channel_txn tx) then Z.of_nat (length txs) else last_travel txs.
Proof. unfold last_travel. rewrite fold_left_app. simpl. rewrite fold_travel_fst. by case_match. Qed.

Lemma last_travel_bound txs : (0 <= last_travel txs <= Z.of_nat (length txs))%Z.
Proof.
  induction txs as [|tx txs IH] using rev_ind; [done|].
  rewrite last_travel_snoc, length_app. simpl. case_match; lia.
Qed.

Lemma save_tx_durable (s : ChannelStore (S := S)) tx v li p : save_tx s tx v (Some li) true = save_tx (durable s p) tx v (Some li) true.
Proof. done. Qed.

Lemma updated_keys_nonempty (m k : gmap AccountAddress (option Ed25519PublicKey)) : k <> ∅ -> m ∪ k <> ∅.
Proof.
  intros (a & x & Hx)%map_choose E. assert (is_Some ((m ∪ k) !! a)) as [? H] by (apply lookup_union_is_Some; eauto).
  by rewrite E in H.
Qed.

(** The ledger info that [apply] commits. *)
Definition next_ledger_info txs (tx : TC) (now : Z) : LedgerInfo :=
  mkLedgerInfo (Z.of_nat (length txs)) (acc_root TXN_ACC (leaves (txs ++ [tx]))) (last_travel (txs ++ [tx])) (as_micros_u64 now).

Lemma apply_eq t txs p tx now : applier_inv t txs p ->
  small (Datatypes.S (length txs)) -> (0 <= now)%Z ->
  applied_channel_sequence_number (signed_channel_txn tx) = Ok (Z.of_nat (length txs)) ->
  exists acc, mem_rep TXN_ACC acc (leaves (txs ++ [tx])) /\
    apply t tx now =
      (s' ← save_tx (durable (ta_store t) p) tx (Z.of_nat (length txs)) (Some (next_ledger_info txs tx now)) true;
       Ok (mkTxApplier (mkAppliedTrees (last_travel (txs ++ [tx])) acc) s')).
Proof.
  intros [Hl _ Hrep Hep _] Hsm Hnow Hseq.
  set (acc := mem_append (tx_accumulator (applied_trees t)) [txn_info_hash (txn_info_of tx)]).
  assert (mem_rep TXN_ACC acc (leaves (txs ++ [tx]))) as Hrep'.
  { rewrite leaves_snoc. by apply mem_append_spec. }
  exists acc. split; [done|]. unfold apply. rewrite Hseq. rstep.
  rewrite (mem_num_leaves_spec _ _ _ Hrep), leaves_length, bool_decide_eq_true_2 by done. simpl ensure. rstep.
  rewrite (mem_root_spec WRITE_SET_ACC _ ([] ++ map write_set_item_hash (ws_iter (tc_write_set tx))))
    by apply mem_append_spec, mem_default_spec. cbn [app]. fold (txn_info_of tx). fold acc.
  rewrite add_u64_Ok by (unfold small in Hsm; lia). rstep.
  rewrite (mem_num_leaves_spec _ _ _ Hrep'), leaves_length, length_app, bool_decide_eq_true_2 by (simpl; lia).
  simpl rassert. rstep. unfold get_current_timestamp. rewrite bool_decide_eq_true_2 by done. rstep.
  rewrite Hep, (mem_root_spec _ _ _ Hrep'). unfold next_ledger_info. rewrite last_travel_snoc. done.
Qed.

Lemma apply_ok t txs p tx now : applier_inv t txs p ->
  small (Datatypes.S (length txs)) -> (0 <= now)%Z ->
  applied_channel_sequence_number (signed_channel_txn tx) = Ok (Z.of_nat (length txs)) ->
  exists batch, batch_ok batch /\
    (forall db', sdb_write_schemas (cs_db (ta_store t)) batch = Ok db' ->
       exists t', apply t tx now = Ok t' /\ applier_inv t' (txs ++ [tx]) None /\ cs_pending_txn (ta_store t') = None) /\
    (forall e, sdb_write_schemas (cs_db (ta_store t)) batch = Err e -> apply t tx now = Err e).
Proof.
  intros Hinv Hsm Hnow Hseq. destruct (apply_eq t txs p tx now Hinv Hsm Hnow Hseq) as (acc & Hrep & Eq).
  destruct Hinv as [Hl Hk _ Hep Hlat]. destruct (applied_total _ _ Hseq) as [[ks Hks] _].
  pose proof (last_travel_bound txs) as Hb. pose proof (last_travel_bound (txs ++ [tx])) as Hb'.
  rewrite length_app, Nat.add_1_r in Hb'. unfold small in Hsm.
  destruct (save_tx_ok _ txs tx (next_ledger_info txs tx now) ks Hl) as (b & Hbok & Hok & Herr); [|done|done|].
  { split; try done; [apply ws_iter_length|simpl; unfold in_u64; lia|]. intros li0 Hli0. simpl.
    destruct (Hlat li0 Hli0) as [-> _]. rewrite last_travel_snoc. case_match; lia. }
  exists b. split; [done|]. split; [|intros e He; by rewrite Eq, (Herr e He)].
  intros db' Hdb. destruct (Hok db' Hdb) as [Hl' Hs]. rewrite Eq, Hs. rstep. eexists. split; [done|].
  split; [|done]. split; cbn [ta_store applied_trees tx_accumulator at_epoch]; [exact Hl'| |done|done|].
  - by apply updated_keys_nonempty.
  - intros li [= <-]. done.
Qed.

Lemma apply_mismatch t txs p tx now n : applier_inv t txs p ->
  applied_channel_sequence_number (signed_channel_txn tx) = Ok n -> n <> Z.of_nat (length txs) ->
  apply t tx now = Err "tx channel seq number mismatched".
Proof.
  intros [_ _ Hrep _ _] Hseq Hne. unfold apply. rewrite Hseq. rstep.
  by rewrite (mem_num_leaves_spec _ _ _ Hrep), leaves_length, bool_decide_eq_false_2.
Qed.

(** An operation that meets the interface's outcome: it returns, and what it returns is related. *)
Lemma write_cases (db : S) b {T} (m : res T) (P : T -> Prop) : batch_ok b ->
  (forall db', sdb_write_schemas db b = Ok db' -> exists x, m = Ok x /\ P x) ->
  (forall e, sdb_write_schemas db b = Err e -> m = Err e) ->
  no_panic m /\ forall x, m = Ok x -> P x.
Proof.
  intros Hb Hok Herr. pose proof (sdb_write_no_panic db b Hb) as Hnp.
  destruct (sdb_write_schemas db b) as [db'|e|e]; [|by rewrite (Herr e)|done].
  destruct (Hok db' eq_refl) as (x & -> & Hx). split; [done|]. by intros ? [= <-].
Qed.

Lemma pending_inv t txs p db' q cache : applier_inv t txs p ->
  ledger (with_pending (durable (ta_store t) p) db' q) txs ->
  applier_inv (mkTxApplier (applied_trees t) (with_pending (ta_store t) db' cache)) txs q.
Proof. intros [Hl Hk Hrep Hep Hlat] Hl'. by split. Qed.

Lemma run_op_ok t txs p op : applier_inv t txs p -> op_ok op ->
  (forall tx now, op = OpApply tx now -> small (Datatypes.S (length txs))) ->
  no_panic (run_op t op) /\
  forall t', run_op t op = Ok t' -> applier_inv t' (abstract_op (txs, p) op).1 (abstract_op (txs, p) op).2.
Proof.
  intros Hinv Hop Hsm. destruct op as [tx now|q persist|]; simpl.
  - destruct Hop as (Hnow & n & Hseq). destruct (decide (n = Z.of_nat (length txs))) as [->|Hne].
    + destruct (apply_ok t txs p tx now Hinv (Hsm _ _ eq_refl) Hnow Hseq) as (b & Hb & Hok & Herr).
      apply (write_cases (cs_db (ta_store t)) b); [done| |done].
      intros db' Hdb. destruct (Hok db' Hdb) as (t' & -> & Hinv' & _). eauto.
    + by rewrite (apply_mismatch t txs p tx now n).
  - destruct persist.
    + destruct (save_pending_txn_ok _ txs q (ai_ledger _ _ _ Hinv)) as (b & Hb & Hok & Herr).
      apply (write_cases (cs_db (ta_store t)) b); [done| |].
      * intros db' Hdb. destruct (Hok db' Hdb) as [Hl E].
        change (save_pending_txn (ta_store t) q true) with (save_pending_txn (durable (ta_store t) p) q true). rewrite E.
        rstep. eexists. split; [done|]. by apply (pending_inv t txs p).
      * intros e He. change (save_pending_txn (ta_store t) q true) with (save_pending_txn (durable (ta_store t) p) q true).
        by rewrite (Herr e He).
    + split; [done|]. intros t' [= <-]. apply (pending_inv t txs p); [done|apply Hinv].
  - destruct (clear_pending_txn_ok _ txs (ai_ledger _ _ _ Hinv)) as (b & Hb & Hok & Herr).
    apply (write_cases (cs_db (ta_store t)) b); [done| |].
    * intros db' Hdb. destruct (Hok db' Hdb) as [Hl E].
      change (clear_pending_txn (ta_store t)) with (clear_pending_txn (durable (ta_store t) p)). rewrite E.
      rstep. eexists. split; [done|]. by apply (pending_inv t txs p).
    * intros e He. change (clear_pending_txn (ta_store t)) with (clear_pending_txn (durable (ta_store t) p)).
      by rewrite (Herr e He).
Qed.

Lemma run_ops_ok ops t txs p : applier_inv t txs p -> Forall op_ok ops -> small (length txs + length ops) ->
  exists t' txs' p', run_ops t (txs, p) ops = Ok (t', (txs', p')) /\ applier_inv t' txs' p'.
Proof.
  revert t txs p. induction ops as [|op ops IH]; intros t txs p Hinv Hops Hsm; [by exists t, txs, p|].
  apply Forall_cons in Hops as [Hop Hops]. simpl in Hsm. simpl.
  destruct (run_op_ok t txs p op Hinv Hop) as [Hnp Hok]; [intros _ _ _; eapply small_le; [|exact Hsm]; lia|].
  destruct (run_op t op) as [t'|e|e]; [|apply IH; [done..|eapply small_le; [|exact Hsm]; lia]|done].
  rewrite (surjective_pairing (abstract_op (txs, p) op)). apply IH; [by apply Hok|done|].
  eapply small_le; [|exact Hsm]. destruct op; simpl; rewrite ?length_app; simpl; lia.
Qed.

(** Re-opening finds the ledger, the epoch and the durable pending transaction. *)
Lemma open_applier_ok t txs p participants : applier_inv t txs p ->
  exists t', open_applier participants (cs_db (ta_store t)) = Ok t' /\ ta_store t' = durable (ta_store t) p /\
    at_epoch (applied_trees t') = at_epoch (applied_trees t) /\ applier_inv t' txs p.
Proof.
  intros Hinv. destruct (Hinv) as [Hl Hk Hrep Hep Hlat]. unfold open_applier.
  change (cs_db (ta_store t)) with (cs_db (durable (ta_store t) p)). rewrite (reopen_ok _ txs) by done. rstep.
  pose proof (lg_info_latest _ _ Hl) as Hi. unfold TxApplier_new.
  destruct (latest_ledger_info (durable (ta_store t) p)) as [li|] eqn:Hli.
  - rewrite (get_startup_info_ok _ txs li Hl Hli). cbn [expect_ok mbind res_bind latest_version].
    pose proof (lg_small _ _ Hl) as Hsm. unfold small in Hsm. destruct Hi as (Hne & _).
    rewrite add_u64_Ok by lia. rstep. cbn [ledger_frozen_subtree_hashes si_ledger_info].
    replace (Z.of_nat (length txs) - 1 + 1)%Z with (Z.of_nat (length (leaves txs))) by (rewrite leaves_length; lia).
    destruct (mem_new_spec TXN_ACC (leaves txs)) as (acc & -> & Hacc). simpl.
    destruct (Hlat li Hli) as [Hle _]. eexists. split_and!; [done|done|simpl; congruence|]. by split.
  - destruct Hi as [-> _]. unfold get_startup_info. rewrite Hli. simpl.
    destruct (mem_new_empty TXN_ACC) as (acc & -> & Hacc). simpl. eexists. split_and!; [done|done|done|]. by split.
Qed.

(** A new channel: an empty database and its participants. *)
Lemma open_fresh db participants : sdb_ok db -> (forall cf k, sdb_view db cf k = None) -> participants <> ∅ ->
  no_panic (open_applier participants db) /\
  forall t, open_applier participants db = Ok t -> applier_inv t [] None.
Proof.
  intros Hok Hempty Hne. destruct (new_store_ok db participants Hok Hempty) as (b & Hb & Hnew & Herr).
  apply (write_cases db b); [done| |].
  - intros db' Hdb. destruct (Hnew db' Hdb) as [Hl E]. unfold open_applier. rewrite E. rstep.
    unfold TxApplier_new, get_startup_info. simpl. destruct (mem_new_empty TXN_ACC) as (acc & -> & Hacc). simpl.
    eexists. split; [done|]. split; try done. simpl. intros Hg. apply Hne.
    apply (f_equal dom) in Hg. by rewrite dom_gset_to_gmap, dom_empty_L in Hg.
  - intros e He. unfold open_applier. by rewrite (Herr e He).
Qed.

(** ** Properties *)

(** C2: start a channel on an empty database and run any operations on it (applying transactions, saving
    and clearing the pending transaction), with any of the database writes failing.  Nothing panics, and
    at every such point opening the database again (after a crash) gives the same store with the pending
    transaction that was last persisted, the same epoch, and an accumulator of the same ledger. *)
Theorem crash_recovery db participants participants' t ops :
  sdb_ok db -> (forall cf k, sdb_view db cf k = None) -> participants <> ∅ ->
  open_applier participants db = Ok t -> Forall op_ok ops -> small (length ops) ->
  exists t' txs p, run_ops t ([], None) ops = Ok (t', (txs, p)) /\
    exists t'', open_applier participants' (cs_db (ta_store t')) = Ok t'' /\
      ta_store t'' = durable (ta_store t') p /\
      at_epoch (applied_trees t'') = at_epoch (applied_trees t') /\
      mem_rep TXN_ACC (tx_accumulator (applied_trees t')) (leaves txs) /\
      mem_rep TXN_ACC (tx_accumulator (applied_trees t'')) (leaves txs).
Proof.
  intros Hok He Hne Ho Hops Hsm. destruct (open_fresh db participants Hok He Hne) as [_ Hi].
  destruct (run_ops_ok ops t [] None (Hi t Ho) Hops Hsm) as (t' & txs & p & Hr & Hinv).
  exists t', txs, p. split; [done|].
  destruct (open_applier_ok t' txs p participants' Hinv) as (t'' & E & Es & Ee & Hinv'').
  exists t''. split_and!; [done..|apply Hinv|apply Hinv''].
Qed.

(** C6: a transaction is applied only when its channel sequence number is the length of the ledger;
    otherwise [apply] returns the mismatch error.  When it is, [apply] fails only if the database write
    fails, and on success the ledger is the old one with the transaction at its end, no transaction is
    pending, and the epoch is the version of the last travel transaction. *)
Theorem apply_exactly_next t txs p tx now n : applier_inv t txs p ->
  applied_channel_sequence_number (signed_channel_txn tx) = Ok n ->
  (n <> Z.of_nat (length txs) -> apply t tx now = Err "tx channel seq number mismatched") /\
  (n = Z.of_nat (length txs) -> small (Datatypes.S (length txs)) -> (0 <= now)%Z ->
   exists batch, batch_ok batch /\
     (forall e, sdb_write_schemas (cs_db (ta_store t)) batch = Err e -> apply t tx now = Err e) /\
     (forall db', sdb_write_schemas (cs_db (ta_store t)) batch = Ok db' ->
        exists t', apply t tx now = Ok t' /\ applier_inv t' (txs ++ [tx]) None /\
          cs_pending_txn (ta_store t') = None /\
          at_epoch (applied_trees t') =
            (if travel (signed_channel_txn tx) then Z.of_nat (length txs) else at_epoch (applied_trees t)))).
Proof.
  intros Hinv Hseq. split; [by apply (apply_mismatch t txs p)|]. intros -> Hsm Hnow.
  destruct (apply_ok t txs p tx now Hinv Hsm Hnow Hseq) as (b & Hb & Hok & Herr).
  exists b. split_and!; [done..|]. intros db' Hdb. destruct (Hok db' Hdb) as (t' & E & Hinv' & Hp).
  exists t'. split_and!; [done..|]. rewrite (ai_epoch _ _ _ Hinv'), (ai_epoch _ _ _ Hinv). apply last_travel_snoc.
Qed.

(** C9: every transaction that was applied is read back from the store: the transaction of sequence
    number [v] with an accumulator proof of its info against the latest ledger, its write set, and, for
    the last one, the witness that the next transaction builds on. *)
Theorem applied_history_readable t txs p v tx fetch_events : applier_inv t txs p -> txs !! v = Some tx ->
  (exists proof, get_transaction_by_channel_seq_number (ta_store t) (Z.of_nat v) fetch_events =
     Ok (mkTxnWithProof (Z.of_nat v) (signed_channel_txn tx) None (proof, txn_info_of tx))) /\
  get_write_set_by_version (cs_db (ta_store t)) (Z.of_nat v) = Ok (tc_write_set tx) /\
  (length txs = Datatypes.S v ->
   latest_witness (ta_store t) =
     Some (Witness_new (WitnessData_new (Z.of_nat (length txs)) (tc_write_set tx)) (witness_sigs (signed_channel_txn tx)))).
Proof.
  intros [Hl _ _ _ _] Hv. split_and!.
  - apply (get_transaction_by_seq_ok _ txs v tx fetch_events Hl Hv).
  - apply (get_write_set_ok _ txs v tx Hl Hv).
  - intros Hlen. change (latest_witness (ta_store t)) with (latest_witness (durable (ta_store t) p)).
    rewrite (lg_witness _ _ Hl). unfold last_witness. rewrite last_lookup, Hlen. simpl. by rewrite Hv.
Qed.
End applier_lemmas.
