(* ===== verification/Chain.v ===== *)
(** * The chain as a channel sees it

    Models [src/sgtypes/src/account_state.rs] and [channel.rs], the default methods of the trait
    [ChainClient] ([src/sgchain/src/star_chain_client.rs]), [src/sgchain/src/client_state_view.rs],
    [src/sgwallet/src/channel_state_view.rs], [access_local] ([src/sgwallet/src/channel/mod.rs]), the
    script registry ([src/sgwallet/src/scripts.rs], [src/sgtypes/src/script_package.rs]) and the helpers of
    [src/sgwallet/src/wallet.rs] that execute, submit and watch transactions.

    The Move VM, libra's on-chain resources and the transport of the chain client are parameters.  The
    theorems: a view of the chain answers the same whatever was read through it before, and a channel
    reads its own resources from its last write set over the synchronised state. *)
From S2P Require Import Prelude Codec Libra ChannelTypes.

(** ** Parameters *)

(** libra's [TransactionInfo] and [Transaction], as far as they are read. *)
Record TransactionInfo {L : Libra} := mkTransactionInfo { txi_gas_used : Z; txi_major_status : StatusCode }.
Inductive Transaction {L : Libra} :=
| UserTransaction (s : SignedTransaction)
| OtherTransaction.
Record TransactionWithProof {L : Libra} := mkTransactionWithProof {
  twp_version : Z;
  twp_transaction : Transaction;
  twp_events : option (list ContractEvent);
  twp_info : TransactionInfo
}.
Record TransactionListWithProof {L : Libra} := mkTransactionList {
  tl_transactions : list Transaction;
  tl_events : option (list (list ContractEvent));
  tl_infos : list TransactionInfo;
  tl_first_transaction_version : option Z
}.

(** [TransactionStatus] *)
Inductive TransactionStatus {L : Libra} := Discard (major : StatusCode) | Keep (major : StatusCode).

Class Chain {L : Libra} := {
  SparseMerkleProof : Type;
  SparseMerkleProof_empty : SparseMerkleProof;
  (* [BTreeMap::try_from(&AccountStateBlob)] *)
  account_state_blob_map : bytes -> res (gmap bytes bytes);

  (* on-chain resources: their paths and their decoders ([make_resource], [account_resource_ext]) *)
  mirror_path : AccountAddress -> AccessPath;
  channel_path : AccountAddress -> AccessPath;
  locked_by_path : AccountAddress -> AccessPath;
  account_path : AccountAddress -> AccessPath;
  decode_mirror_sequence_number : bytes -> res Z;
  ChannelResource : Type;
  decode_channel_resource : bytes -> res ChannelResource;
  resource_opened : ChannelResource -> bool;
  resource_locked : ChannelResource -> bool;
  resource_closed : ChannelResource -> bool;
  resource_sequence_number : ChannelResource -> Z;
  resource_event_count : ChannelResource -> Z;
  decode_time_lock : bytes -> res Z;
  decode_account_sequence_number : bytes -> res Z;

  (* constants of [account_address] and [account_config] *)
  AccountAddress_default : AccountAddress;
  core_code_address : AccountAddress;
  account_module_name : string;

  (* [MoveVM::execute_block] on one transaction with the off-chain configuration *)
  execute_block : (AccessPath -> res (option bytes)) -> SignedTransaction -> res (list TransactionOutput);
  output_status : TransactionOutput -> TransactionStatus;
  EXECUTED : StatusCode
}.

(** Hashing of channel transactions, [impl_hash!(ChannelTransaction, ..)]. *)
Class ChannelTxnCodec {L : Libra} := lcs_channel_txn :: Lcs ChannelTransaction.

Definition channel_txn_hash {L : Libra} {CC : ChannelTxnCodec} (t : ChannelTransaction) : HashValue :=
  crypto_hash "ChannelTransaction" t.

Section chain.
Context {L : Libra} {K : Chain}.

(** ** [AccountState] and [ChannelState] *)

Record AccountState := mkAccountState {
  as_version : Z;
  as_state : gmap bytes bytes;
  as_proof : SparseMerkleProof
}.

(** [AccountState::new], [from_account_state_blob] and [get] *)
Definition AccountState_new : AccountState := mkAccountState 0 ∅ SparseMerkleProof_empty.
Definition from_account_state_blob (version : Z) (blob : bytes) (proof : SparseMerkleProof) : res AccountState :=
  state ← account_state_blob_map blob;
  Ok (mkAccountState version state proof).
Definition as_get (s : AccountState) (path : bytes) : option bytes := as_state s !! path.

Record ChannelState := mkChannelState { cst_address : AccountAddress; cst_state : AccountState }.

(** [ChannelState::empty] and [ChannelState::version] *)
Definition ChannelState_empty (address : AccountAddress) : ChannelState := mkChannelState address AccountState_new.
Definition cst_version (s : ChannelState) : Z := as_version (cst_state s).

(** ** The trait [ChainClient] *)

(** The required methods that are used, at one moment of the chain. *)
Record ChainClient := mkChainClient {
  get_account_state_with_proof_inner : AccountAddress -> option Z -> res (Z * option bytes * SparseMerkleProof);
  submit_signed_transaction : SignedTransaction -> res unit;
  cc_watch_transaction : AccountAddress -> Z -> res (option TransactionWithProof);
  get_transaction_by_seq_num : AccountAddress -> Z -> res (option TransactionWithProof);
  cc_get_transaction : Z -> Z -> bool -> res TransactionListWithProof
}.
Implicit Types client : ChainClient.

(** [ChainClient::get_account_state_option] *)
Definition get_account_state_option client (account : AccountAddress) (version : option Z) : res (option AccountState) :=
  '(version, state, proof) ← get_account_state_with_proof_inner client account version;
  match state with
  | Some s => a ← from_account_state_blob version s proof; Ok (Some a)
  | None => Ok None
  end.

(** [ChainClient::get_account_state] *)
Definition get_account_state client (account : AccountAddress) (version : option Z) : res AccountState :=
  o ← get_account_state_option client account version;
  match o with Some s => Ok s | None => Err "can not find account by address" end.

(** ** [ClientStateView] *)

Record ClientStateView := mkClientStateView {
  csv_version : option Z;
  csv_client : ChainClient;
  csv_cache : gmap AccountAddress (option AccountState)
}.

(** [ClientStateView::new] and [new_with_account_state] *)
Definition ClientStateView_new (version : option Z) client : ClientStateView := mkClientStateView version client ∅.
Definition new_with_account_state (account : AccountAddress) (account_state : AccountState) client : ClientStateView :=
  mkClientStateView (Some (as_version account_state)) client {[ account := Some account_state ]}.

(** [ClientStateView::get]: the argument of [or_insert] is evaluated whether or not the entry exists. *)
Definition csv_get (v : ClientStateView) (access_path : AccessPath) : res (option bytes) * ClientStateView :=
  let address := path_address access_path in
  match get_account_state_option (csv_client v) address (csv_version v) with
  | Ok fetched =>
      let account_state := default fetched (csv_cache v !! address) in
      (Ok (s ← account_state; as_get s (path_path access_path)),
       mkClientStateView (csv_version v) (csv_client v) (<[address := account_state]> (csv_cache v)))
  | Err e => (Err e, v)
  | Panic e => (Panic e, v)
  end.

(** [ClientStateView::multi_get] *)
Fixpoint csv_multi_get (v : ClientStateView) (access_paths : list AccessPath) : res (list (option bytes)) * ClientStateView :=
  match access_paths with
  | [] => (Ok [], v)
  | path :: rest =>
      match csv_get v path with
      | (Ok x, v1) =>
          match csv_multi_get v1 rest with
          | (Ok xs, v2) => (Ok (x :: xs), v2)
          | r => r
          end
      | (Err e, v1) => (Err e, v1)
      | (Panic e, v1) => (Panic e, v1)
      end
  end.

(** ** [access_local] *)

Definition access_local (latest_write_set : WriteSet) (channel_state : ChannelState) (access_path : AccessPath)
    : res (option bytes) :=
  match ws_get latest_write_set access_path with
  | Some (Value value) => Ok (Some value)
  | Some Deletion => Ok None
  | None =>
      if bool_decide (cst_address channel_state <> path_address access_path) then Err "Unexpected access_path"
      else Ok (as_get (cst_state channel_state) (path_path access_path))
  end.

(** ** [ChannelStateView] *)

Record ChannelStateView := mkChannelStateView {
  sv_channel_state : ChannelState;
  sv_latest_write_set : WriteSet;
  sv_client_state_view : ClientStateView
}.

(** [ChannelStateView::new] *)
Definition ChannelStateView_new (account_address : AccountAddress) (channel_state : ChannelState)
    (latest_write_set : WriteSet) (version : option Z) client : res ChannelStateView :=
  view ← match version with
         | None =>
             account_state ← get_account_state client account_address version;
             Ok (new_with_account_state account_address account_state client)
         | Some v => Ok (ClientStateView_new (Some v) client)
         end;
  Ok (mkChannelStateView channel_state latest_write_set view).

(** [ChannelStateView::version] *)
Definition sv_version (v : ChannelStateView) : res Z :=
  expect (csv_version (sv_client_state_view v)) "client_state_view in ChannelStateView must lock version.".

(** [ChannelStateView::get] of [StateView], with [get_local] *)
Definition sv_get (v : ChannelStateView) (access_path : AccessPath) : res (option bytes) * ChannelStateView :=
  if is_channel_resource access_path then
    (access_local (sv_latest_write_set v) (sv_channel_state v) access_path, v)
  else
    let '(r, view) := csv_get (sv_client_state_view v) access_path in
    (r, mkChannelStateView (sv_channel_state v) (sv_latest_write_set v) view).

(** ** Scripts *)

Record ScriptCode := mkScriptCode { sc_name : string; sc_source_code : string; sc_byte_code : bytes }.
Record ChannelScriptPackage := mkPackage { package_name : string; scripts : list ScriptCode }.

(** [ChannelScriptPackage::get_script] *)
Definition package_get_script (p : ChannelScriptPackage) (name : string) : option ScriptCode :=
  List.find (fun script => bool_decide (sc_name script = name)) (scripts p).

(** [PackageRegistry]; [build] compiles the packages shipped with the wallet. *)
Record PackageRegistry := mkRegistry {
  open_script : ScriptCode;
  packages : gmap string ChannelScriptPackage;
  close_script : ScriptCode
}.

(** [PackageRegistry::get_script] and [install_package] *)
Definition get_script (r : PackageRegistry) (pkg script_name : string) : option ScriptCode :=
  p ← packages r !! pkg; package_get_script p script_name.
Definition install_package (r : PackageRegistry) (package : ChannelScriptPackage) : res PackageRegistry :=
  if bool_decide (is_Some (packages r !! package_name package)) then Err "package with name exist"
  else Ok (mkRegistry (open_script r) (<[package_name package := package]> (packages r)) (close_script r)).

(** ** Transactions ([wallet.rs]) *)

Definition TXN_EXPIRATION : Z := from_secs (24 * 60 * 60).
Definition MAX_GAS_AMOUNT_OFFCHAIN : Z := u64_max.
Definition MAX_GAS_AMOUNT_ONCHAIN : Z := 1000000.
Definition GAS_UNIT_PRICE : Z := 1.

(** [txn_expiration]; [now_secs] is the UTC clock, an [i64] of seconds. *)
Definition txn_expiration (now_secs : Z) : res Z :=
  if bool_decide (now_secs + as_secs TXN_EXPIRATION < 2 ^ 63)%Z
  then Ok (from_secs ((now_secs + as_secs TXN_EXPIRATION) mod 2 ^ 64))
  else Panic "attempt to add with overflow".

(** [execute_transaction] *)
Definition execute_transaction (state_view : AccessPath -> res (option bytes)) (transaction : SignedTransaction)
    : res TransactionOutput :=
  outputs ← execute_block state_view transaction;
  output ← expect (last outputs) "at least return 1 output.";
  match output_status output with
  | Discard _ => Err "transaction execute fail"
  | Keep major => if bool_decide (major = EXECUTED) then Ok output else Err "transaction execute fail"
  end.

(** [submit_transaction] and [watch_transaction] *)
Definition submit_transaction client (signed_transaction : SignedTransaction) : res unit :=
  submit_signed_transaction client signed_transaction.
Definition watch_transaction client (sender : AccountAddress) (seq_number : Z) : res TransactionWithProof :=
  tx_proof ← cc_watch_transaction client sender seq_number;
  ok_or tx_proof "proof not found by address and seq num".

(** ** Lemmas *)

(** The entry that reading an account through the view uses. *)
Definition csv_entry (v : ClientStateView) (a : AccountAddress) : res (option AccountState) :=
  fetched ← get_account_state_option (csv_client v) a (csv_version v);
  Ok (default fetched (csv_cache v !! a)).

Lemma csv_get_entry v p : (csv_get v p).1 =
  (o ← csv_entry v (path_address p); Ok (s ← o; as_get s (path_path p))).
Proof. unfold csv_get, csv_entry. by destruct (get_account_state_option _ _ _). Qed.

Lemma csv_get_client v p : csv_client (csv_get v p).2 = csv_client v /\ csv_version (csv_get v p).2 = csv_version v.
Proof. unfold csv_get. by destruct (get_account_state_option _ _ _). Qed.

Lemma csv_get_keeps_entry v p a : csv_entry (csv_get v p).2 a = csv_entry v a.
Proof.
  destruct (csv_get_client v p) as [Ec Ev]. unfold csv_entry. rewrite Ec, Ev.
  unfold csv_get. destruct (get_account_state_option (csv_client v) (path_address p) (csv_version v)) as [f| |] eqn:E; try done.
  simpl. destruct (decide (a = path_address p)) as [->|Hne].
  - rewrite E, lookup_insert_eq. done.
  - by rewrite lookup_insert_ne.
Qed.

(** Reads through the view do not depend on the reads made before. *)
Lemma csv_reads_stable reads v p :
  (csv_get (fold_left (fun v q => (csv_get v q).2) reads v) p).1 = (csv_get v p).1.
Proof.
  rewrite !csv_get_entry. f_equal. revert v. induction reads as [|q reads IH]; intros v; simpl; [done|].
  rewrite IH. apply csv_get_keeps_entry.
Qed.

Lemma sv_get_keeps v p : sv_channel_state (sv_get v p).2 = sv_channel_state v /\
  sv_latest_write_set (sv_get v p).2 = sv_latest_write_set v /\
  forall a, csv_entry (sv_client_state_view (sv_get v p).2) a = csv_entry (sv_client_state_view v) a.
Proof.
  unfold sv_get. destruct (is_channel_resource p); [done|].
  pose proof (csv_get_keeps_entry (sv_client_state_view v) p) as H.
  destruct (csv_get (sv_client_state_view v) p) as [r w]. done.
Qed.

Lemma sv_get_eq v p : (sv_get v p).1 =
  if is_channel_resource p then access_local (sv_latest_write_set v) (sv_channel_state v) p
  else (o ← csv_entry (sv_client_state_view v) (path_address p); Ok (s ← o; as_get s (path_path p))).
Proof.
  unfold sv_get. destruct (is_channel_resource p); [done|]. rewrite <-csv_get_entry.
  by destruct (csv_get (sv_client_state_view v) p).
Qed.

(** ** Properties *)

(** a view of the state that a channel hands to the VM answers every read as a fresh view would,
    whatever was read through it before: caching account states is not observable.  Paths of channel
    resources are answered from the channel's last write set and, below it, its synchronised state;
    every other path from the chain at the locked version. *)
Theorem state_view_reads_are_stable v reads p :
  (sv_get (fold_left (fun v q => (sv_get v q).2) reads v) p).1 =
  if is_channel_resource p then access_local (sv_latest_write_set v) (sv_channel_state v) p
  else (o ← csv_entry (sv_client_state_view v) (path_address p); Ok (s ← o; as_get s (path_path p))).
Proof.
  revert v. induction reads as [|q reads IH]; intros v; simpl; [apply sv_get_eq|].
  rewrite IH. destruct (sv_get_keeps v q) as (E1 & E2 & E3). rewrite E1, E2. case_match; [done|]. by rewrite E3.
Qed.
End chain.
