(* ===== verification/Compiler.v ===== *)
(** * The compiler of script packages

    Models [src/sgcompiler/src/lib.rs] with its [mock_module_loader.rs], [ChannelScriptPackage::dump_to] of
    [src/sgtypes/src/script_package.rs] and the construction of the registry of [src/sgwallet/src/scripts.rs].  A
    compiler parses a script, loads the modules that it imports through a module loader, hands both to the compiler of
    the Move language, which is libra's and a parameter, and collects the scripts of a directory in a package.  A loader
    has a state, the cache of the view of the chain behind it.

    The theorems: what a package holds that was compiled from a directory, that it does not depend on the order of the
    imports nor on the state of the loader, that a package written to a file is read back, and what the registry of a
    wallet holds. *)
From S2P Require Import Prelude Codec Substream Text NetConfig Libra Chain.
From Stdlib Require Import Ascii.

(** ** Files and directories *)

(** Directories beside the files of [NetConfig]: what [read_dir] lists, in its order; an entry may be unreadable. *)
Record Disk := mkDisk { d_fs : Fs; d_dirs : gmap string (list (res string)) }.
Definition path_str (p : PathBuf) : string := join "/" p.
Definition is_dir (d : Disk) (p : PathBuf) : bool := bool_decide (is_Some (d_dirs d !! path_str p)).
Definition is_file (d : Disk) (p : PathBuf) : bool := bool_decide (is_Some (fs_files (d_fs d) !! path_str p)).
Definition path_exists (d : Disk) (p : PathBuf) : bool := is_dir d p || is_file d p.
Definition io_text (e : IoError) : string :=
  match e with
  | NotFound => "No such file or directory" | InvalidData e => e | AlreadyExists => "File exists" | OtherIo e => e
  end.

(** [std::fs::read], [read_to_string] and [read_dir] *)
Definition disk_read (d : Disk) (p : PathBuf) : res bytes :=
  match fs_read (path_str p) (d_fs d) with inl b => Ok b | inr e => Err (io_text e) end.
Definition read_to_string (d : Disk) (p : PathBuf) : res string :=
  b ← disk_read d p;
  ok_or (from_utf8 b) "stream did not contain valid UTF-8".
Definition read_dir (d : Disk) (p : PathBuf) : res (list (res PathBuf)) :=
  match fs_read_err (d_fs d) (path_str p), d_dirs d !! path_str p with
  | Some e, _ => Err e
  | None, Some es => Ok (map (fun entry => name ← entry; Ok (p ++ [name])) es)
  | None, None => Err "No such file or directory"
  end.

(** [File::create], which empties the file, and [write_all]; both are followed by a panic when they fail. *)
Definition create_and_write (p : PathBuf) (b : bytes) : stM Disk unit := fun d =>
  let put b := mkDisk (set_files (<[path_str p := b]> (fs_files (d_fs d))) (d_fs d)) (d_dirs d) in
  match fs_open_err (d_fs d) (path_str p) with
  | Some _ => (Panic "Unable to open output file", d)
  | None =>
      match fs_room (d_fs d) (path_str p) with
      | Some n => if bool_decide (n < length b) then (Panic "Unable to write to output file", put (take n b)) else (Ok tt, put b)
      | None => (Ok tt, put b)
      end
  end.

(** [serde_json] on packages *)
Class PackageJson := { json_to_vec : ChannelScriptPackage -> res bytes; json_from_slice : bytes -> res ChannelScriptPackage }.
Class PackageJsonLaws `{PackageJson} : Prop := json_roundtrip p b : json_to_vec p = Ok b -> json_from_slice b = Ok p.

(** [ChannelScriptPackage::dump_to] *)
Definition dump_to `{PackageJson} (p : ChannelScriptPackage) (path : PathBuf) : stM Disk unit := fun d =>
  match json_to_vec p with
  | Ok csp_bytes => create_and_write path csp_bytes d
  | Err _ | Panic _ => (Panic "Unable to serialize program", d)
  end.

(** ** The Move compiler *)

Notation ModuleId := (AccountAddress * string)%type.

(** [ModuleIdent] of an import: [Transaction.Module] or a module with its address *)
Inductive ModuleIdent {L : Libra} := IdentTransaction (name : string) | IdentQualified (address : AccountAddress) (name : string).

(** [ir_to_bytecode], [bytecode_verifier], [vm] and [stdlib] *)
Class IrCompiler {L : Libra} := {
  AstScript : Type;
  AstModule : Type;
  AstProgram : Type;
  CompiledScript : Type;
  CompiledModule : Type;
  VerifiedModule : Type;
  parse_script : string -> res AstScript;
  parse_module : string -> res AstModule;
  parse_program : string -> res AstProgram;
  script_imports : AstScript -> list ModuleIdent;
  script_external_deps : AstScript -> list ModuleId;
  module_external_deps : AstModule -> list ModuleId;
  program_script : AstProgram -> AstScript;
  program_modules : AstProgram -> list AstModule;
  ir_compile_script : AccountAddress -> AstScript -> list VerifiedModule -> res CompiledScript;
  ir_compile_module : AccountAddress -> AstModule -> list VerifiedModule -> res CompiledModule;
  ir_compile_program : AccountAddress -> AstProgram -> list VerifiedModule -> res (list CompiledModule * CompiledScript);
  script_serialize : CompiledScript -> res bytes;
  module_serialize : CompiledModule -> res bytes;
  module_deserialize : bytes -> res CompiledModule;
  VerifiedModule_new : CompiledModule -> res VerifiedModule;
  self_id : VerifiedModule -> ModuleId;
  stdlib_modules : list VerifiedModule;
  code_access_path : ModuleId -> AccessPath
}.

(** The compiler finds a dependency by its id: their order does not matter. *)
Class IrCompilerLaws {L : Libra} {IR : IrCompiler} : Prop :=
  ir_deps_perm a s deps deps' : deps ≡ₚ deps' -> ir_compile_script a s deps = ir_compile_script a s deps'.

(** ** [ScriptFile] *)

Record ScriptFile := mkScriptFile { sf_path : PathBuf; sf_contents : string }.
Definition script_name (f : ScriptFile) : res string := expect (file_stem (sf_path f)) "get file name should success.".
Definition sf_extension (f : ScriptFile) : string := default EmptyString (extension (sf_path f)).

Section compiler.
Context {L : Libra} {K : Chain} {HO : HashOrder} {IR : IrCompiler}.

(** ** Module loaders *)

(** The trait [ModuleLoader]: its required method, over the state of the loader *)
Definition ModuleLoader (S : Type) : Type := ModuleId -> stM S (option bytes).

(** [EmptyModuleLoader], [StateViewModuleLoader] over the view of the chain, and [MockModuleLoader] over its table *)
Definition EmptyModuleLoader : ModuleLoader unit := fun _ => mret None.
Definition StateViewModuleLoader : ModuleLoader ClientStateView := fun module_id state_view => csv_get state_view (code_access_path module_id).
Definition MockModuleLoader : ModuleLoader (gmap ModuleId bytes) := fun module_id => modules ← getS; mret (modules !! module_id).

(** [MockModuleLoader::mock_empty_module]; [template] is [EMPTY_MODULE_TPL] with the name put in. *)
Definition mock_empty_module (template : string -> string) (module_id : ModuleId) : stM (gmap ModuleId bytes) unit :=
  module ← lift (parse_module (template module_id.2));
  compiled_module ← lift (ir_compile_module module_id.1 module stdlib_modules);
  byte_code ← lift (module_serialize compiled_module);
  modifyS (insert module_id byte_code).

Section loader.
Context {S : Type} (load_module : ModuleLoader S) (address : AccountAddress).
Notation M := (stM S).

Definition load_compiled_module (module_id : ModuleId) : M (option CompiledModule) :=
  value ← load_module module_id;
  match value with
  | Some value => m ← lift (module_deserialize value); mret (Some m)
  | None => mret None
  end.
Definition load_verified_module (module_id : ModuleId) : M (option VerifiedModule) :=
  let std := if bool_decide (module_id.1 = AccountAddress_default)
             then List.find (fun module => bool_decide (self_id module = module_id)) stdlib_modules else None in
  match std with
  | Some module => mret (Some module)
  | None =>
      module ← load_compiled_module module_id;
      match module with
      | Some module => v ← lift (match VerifiedModule_new module with Err _ => Err "Verified module error" | r => r end); mret (Some v)
      | None => mret None
      end
  end.

(** ** [Compiler], at [address] and with the loader *)

(** [load_deps]: [collect] stops at the first error. *)
Fixpoint load_deps (dep_ids : list ModuleId) : M (list VerifiedModule) :=
  match dep_ids with
  | [] => mret []
  | module_id :: dep_ids =>
      found ← load_verified_module module_id;
      module ← lift (ok_or found "Can not find module");
      modules ← load_deps dep_ids;
      mret (module :: modules)
  end.

(** [get_deps]: the imports as a [HashSet], in its order *)
Definition import_id (dep : ModuleIdent) : ModuleId :=
  match dep with IdentTransaction module_name => (address, module_name) | IdentQualified a name => (a, name) end.
Definition get_deps (imports : list ModuleIdent) : list ModuleId := hs_iter (list_to_set (import_id <$> imports) : gset ModuleId).

Definition compile_script (script_str : string) : M bytes :=
  ast_script ← lift (parse_script script_str);
  deps ← load_deps (get_deps (script_imports ast_script));
  compiled_script ← lift (ir_compile_script address ast_script deps);
  lift (script_serialize compiled_script).
Definition compile_module (module_str : string) : M bytes :=
  ast_module ← lift (parse_module module_str);
  deps ← load_deps (module_external_deps ast_module);
  compiled_module ← lift (ir_compile_module address ast_module deps);
  lift (module_serialize compiled_module).

(** [compile_program]: the modules and the script, one after the other *)
Fixpoint serialize_modules (modules : list CompiledModule) (byte_code : bytes) : res bytes :=
  match modules with
  | [] => Ok byte_code
  | module :: modules => b ← module_serialize module; serialize_modules modules (byte_code ++ b)
  end.
Definition compile_program (program_str : string) : M bytes :=
  ast_program ← lift (parse_program program_str);
  deps_module ← load_deps (script_external_deps (program_script ast_program) ++ concat (module_external_deps <$> program_modules ast_program));
  compiled ← lift (ir_compile_program address ast_program deps_module);
  byte_code ← lift (serialize_modules compiled.1 []);
  script ← lift (script_serialize compiled.2);
  mret (byte_code ++ script).

(** [compile_package_with_files]: files that are not [.mvir] are passed over. *)
Fixpoint compile_files (script_files : list ScriptFile) : M (list ScriptCode) :=
  match script_files with
  | [] => mret []
  | file :: script_files =>
      if bool_decide (sf_extension file <> "mvir") then compile_files script_files
      else
        script_name ← lift (script_name file);
        script ← compile_script (sf_contents file);
        scripts ← compile_files script_files;
        mret (mkScriptCode script_name (sf_contents file) script :: scripts)
  end.
Definition compile_package_with_files (package_name : string) (script_files : list ScriptFile) : M ChannelScriptPackage :=
  scripts ← compile_files script_files;
  mret (mkPackage package_name scripts).

(** [compile_package]: the files of a directory, without those of its directories *)
Fixpoint read_scripts (d : Disk) (entries : list (res PathBuf)) : res (list ScriptFile) :=
  match entries with
  | [] => Ok []
  | entry :: entries =>
      path ← entry;
      if is_dir d path then read_scripts d entries
      else
        contents ← read_to_string d path;
        files ← read_scripts d entries;
        Ok (mkScriptFile path contents :: files)
  end.
Definition compile_package (d : Disk) (dir_path : PathBuf) : M ChannelScriptPackage :=
  if negb (path_exists d dir_path) || negb (is_dir d dir_path) then lift (Err "Dir is not a dir or not exists")
  else
    package_name ← lift (expect (file_name dir_path) "Get dir file name should success");
    entries ← lift (read_dir d dir_path);
    script_files ← lift (read_scripts d entries);
    compile_package_with_files package_name script_files.

(** [compile_package_with_output]: an error of the compilation is a panic. *)
Definition compile_package_with_output `{PackageJson} (path output : PathBuf) : stM (S * Disk) ChannelScriptPackage := fun '(s, d) =>
  match compile_package d path s with
  | (Ok csp, s) => let '(r, d) := dump_to csp output d in (_ ← r; Ok csp, (s, d))
  | (Err _, s) => (Panic "Unable to open file", (s, d))
  | (Panic e, s) => (Panic e, (s, d))
  end.
End loader.

(** ** The registry of a wallet *)

(** [compile] and [ENABLE_CHANNEL_TXN]: the script that enables channels, compiled against the standard library *)
Definition compile_body (body : AstScript) : res bytes :=
  compiled_script ← expect_ok (ir_compile_script AccountAddress_default body stdlib_modules);
  expect_ok (script_serialize compiled_script).
Definition ENABLE_CHANNEL_TXN (enable_channel_script : string) : res bytes :=
  body ← expect_ok (parse_script enable_channel_script);
  compile_body body.

(** The scripts that the build includes: the files of the directory and its directories, with the path of each *)
Record IncludedDir := mkIncludedDir { id_files : list (string * bytes); id_dirs : list (string * list (string * bytes)) }.
Definition get_file_contents (scripts_dir : IncludedDir) (path : string) : res string :=
  ok_or (file ← List.find (fun file => bool_decide (file.1 = path)) (id_files scripts_dir); from_utf8 file.2) "Can not find script by path".

Fixpoint build_packages (dirs : list (string * list (string * bytes))) (packages : gmap string ChannelScriptPackage)
    : stM unit (gmap string ChannelScriptPackage) :=
  match dirs with
  | [] => mret packages
  | (package_path, files) :: dirs =>
      script_files ← lift (foldM (fun fs (file : string * bytes) =>
        contents ← expect (from_utf8 file.2) "script contents must is string";
        Ok (fs ++ [mkScriptFile (path_new file.1) contents])) [] files);
      package ← compile_package_with_files EmptyModuleLoader AccountAddress_default package_path script_files;
      build_packages dirs (<[package_name package := package]> packages)
  end.

(** [PackageRegistry::build]; the names are those of [ChannelOp::Open] and [Close]. *)
Definition registry_build (scripts_dir : IncludedDir) : stM unit PackageRegistry :=
  let compile := compile_script EmptyModuleLoader AccountAddress_default in
  open_script_source ← lift (get_file_contents scripts_dir "open.mvir");
  open_script ← compile open_script_source;
  close_script_source ← lift (get_file_contents scripts_dir "close.mvir");
  close_script ← compile close_script_source;
  packages ← build_packages (id_dirs scripts_dir) ∅;
  mret (mkRegistry (mkScriptCode "open" open_script_source open_script) packages
    (mkScriptCode "close" close_script_source close_script)).

(** ** Loaders and their states *)

(** What a loader answers: [f], in every state that satisfies [I] *)
Definition answers {S} (load : ModuleLoader S) (I : S -> Prop) (f : ModuleId -> res (option bytes)) : Prop :=
  forall id s, I s -> (load id s).1 = f id /\ I (load id s).2.

(** The same computation over a state and over none *)
Definition stateless {S A} (I : S -> Prop) (m : stM S A) (m' : stM unit A) : Prop := forall s, I s -> (m s).1 = (m' tt).1 /\ I (m s).2.
Definition pure_loader (f : ModuleId -> res (option bytes)) : ModuleLoader unit := fun id _ => (f id, tt).

Lemma stateless_bind {S A B} (I : S -> Prop) (m : stM S A) m' (k : A -> stM S B) k' :
  stateless I m m' -> (forall a, stateless I (k a) (k' a)) -> stateless I (m ≫= k) (m' ≫= k').
Proof.
  intros Hm Hk s Hs. unfold mbind, stM_bind. destruct (Hm s Hs) as [E Hs'].
  destruct (m s) as [r s1], (m' tt) as [r' []]; simpl in *. subst r'. destruct r as [a|e|e]; [|done..]. by apply Hk.
Qed.
Lemma stateless_lift {S A} (I : S -> Prop) (r : res A) : stateless I (lift r) (lift r).
Proof. done. Qed.
Lemma stateless_ret {S A} (I : S -> Prop) (a : A) : stateless I (mret a) (mret a).
Proof. done. Qed.
#[local] Hint Resolve stateless_lift stateless_ret stateless_bind : core.

Section stateless.
Context {S : Type} (load : ModuleLoader S) (I : S -> Prop) (f : ModuleId -> res (option bytes)).
Hypothesis Hload : answers load I f.

Lemma load_verified_stateless id : stateless I (load_verified_module load id) (load_verified_module (pure_loader f) id).
Proof.
  unfold load_verified_module. case_match; [done|]. apply stateless_bind.
  - unfold load_compiled_module. apply stateless_bind; [intros s Hs; by apply Hload|]. intros [v|]; auto.
  - intros [v|]; auto.
Qed.
Lemma load_deps_stateless ids : stateless I (load_deps load ids) (load_deps (pure_loader f) ids).
Proof. induction ids as [|id ids IH]; simpl; eauto 10 using load_verified_stateless. Qed.
Lemma compile_script_stateless a src : stateless I (compile_script load a src) (compile_script (pure_loader f) a src).
Proof. unfold compile_script. eauto 10 using load_deps_stateless. Qed.
Lemma compile_module_stateless a src : stateless I (compile_module load a src) (compile_module (pure_loader f) a src).
Proof. unfold compile_module. eauto 10 using load_deps_stateless. Qed.
Lemma compile_files_stateless a files : stateless I (compile_files load a files) (compile_files (pure_loader f) a files).
Proof.
  induction files as [|file files IH]; simpl; [done|]. case_bool_decide; [done|]. eauto 10 using compile_script_stateless.
Qed.
Lemma compile_package_stateless a d p : stateless I (compile_package load a d p) (compile_package (pure_loader f) a d p).
Proof.
  unfold compile_package, compile_package_with_files. case_match; [done|]. eauto 10 using compile_files_stateless.
Qed.
End stateless.

(** The loader over a view of the chain answers from the state of the accounts that the view sees. *)
Definition view_module (v : ClientStateView) (id : ModuleId) : res (option bytes) :=
  o ← csv_entry v (path_address (code_access_path id)); Ok (s ← o; as_get s (path_path (code_access_path id))).
Lemma state_view_answers v : answers StateViewModuleLoader (fun w => forall a, csv_entry w a = csv_entry v a) (view_module v).
Proof.
  intros id w Hw. unfold StateViewModuleLoader, view_module. rewrite csv_get_entry, Hw. split; [done|].
  intros a. by rewrite csv_get_keeps_entry.
Qed.
Lemma empty_answers : answers EmptyModuleLoader (fun _ => True) (fun _ => Ok None).
Proof. done. Qed.
Lemma mock_answers modules : answers MockModuleLoader (eq modules) (fun id => Ok (modules !! id)).
Proof. by intros id s <-. Qed.

(** ** What a package holds *)

Section package.
Context (f : ModuleId -> res (option bytes)) (a : AccountAddress).

(** The code of a script, with modules as [f] says *)
Definition script_code (src : string) : res bytes := (compile_script (pure_loader f) a src tt).1.
Definition compiles (file : ScriptFile) (c : ScriptCode) : Prop :=
  script_name file = Ok (sc_name c) /\ sc_source_code c = sf_contents file /\ script_code (sf_contents file) = Ok (sc_byte_code c).

Lemma unit_bind_Ok {A B} (m : stM unit A) (k : A -> stM unit B) b : ((m ≫= k) tt).1 = Ok b <-> exists x, (m tt).1 = Ok x /\ (k x tt).1 = Ok b.
Proof.
  unfold mbind, stM_bind. destruct (m tt) as [[x|e|e] []]; simpl; [|naive_solver..].
  split; [by exists x|]. by intros (? & [= <-] & ?).
Qed.
Lemma compile_files_Ok files cs : (compile_files (pure_loader f) a files tt).1 = Ok cs <->
  Forall2 compiles (filter (fun file => sf_extension file = "mvir") files) cs.
Proof.
  revert cs. induction files as [|file files IH]; intros cs.
  - change (Ok [] = Ok cs <-> Forall2 compiles [] cs). split; [intros [= <-]; constructor|by intros ->%Forall2_nil_inv_l].
  - simpl compile_files. destruct (decide (sf_extension file = "mvir")) as [E|E].
    + rewrite filter_cons_True by done. rewrite bool_decide_eq_false_2 by naive_solver. split.
      * intros (n & En & (b & Eb & (cs' & Ecs & [= <-])%unit_bind_Ok)%unit_bind_Ok)%unit_bind_Ok. constructor; [by split_and!|]. by apply IH.
      * intros (c & cs' & (En & Es & Eb) & Hcs & ->)%Forall2_cons_inv_l. apply unit_bind_Ok. exists (sc_name c). split; [done|].
        apply unit_bind_Ok. exists (sc_byte_code c). split; [done|]. apply unit_bind_Ok. exists cs'. rewrite <-Es. destruct c. split; [by apply IH|done].
    + rewrite filter_cons_False by done. by rewrite bool_decide_eq_true_2.
Qed.
Lemma read_scripts_Ok d paths files : read_scripts d (Ok <$> paths) = Ok files <->
  Forall2 (fun p file => sf_path file = p /\ read_to_string d p = Ok (sf_contents file)) (filter (fun p => is_dir d p = false) paths) files.
Proof.
  revert files. induction paths as [|p paths IH]; intros files.
  - change (Ok [] = Ok files <-> Forall2 (fun p file => sf_path file = p /\ read_to_string d p = Ok (sf_contents file)) [] files).
    split; [intros [= <-]; constructor|by intros ->%Forall2_nil_inv_l].
  - simpl. destruct (is_dir d p) eqn:E; [by rewrite filter_cons_False by congruence|].
    rewrite filter_cons_True by done. split.
    + intros (src & Es & (fs & Ef & [= <-])%bind_Ok_iff)%bind_Ok_iff. constructor; [done|]. by apply IH.
    + intros (file & fs & (Ep & Es) & Hfs & ->)%Forall2_cons_inv_l. apply bind_Ok_iff. exists (sf_contents file). split; [done|].
      apply bind_Ok_iff. exists fs. split; [by apply IH|]. destruct file; simpl in *; by subst.
Qed.

Lemma find_name (cs : list ScriptCode) name c : NoDup (sc_name <$> cs) ->
  List.find (fun script => bool_decide (sc_name script = name)) cs = Some c <-> c ∈ cs /\ sc_name c = name.
Proof.
  intros Hnd. split.
  - intros [Hin E]%find_some. apply list_elem_of_In in Hin. by apply bool_decide_eq_true in E.
  - intros [Hin <-]. destruct (List.find _ cs) as [c'|] eqn:E.
    + apply find_some in E as [Hin' E]. apply bool_decide_eq_true in E. apply list_elem_of_In in Hin'. f_equal.
      apply list_elem_of_lookup in Hin as [i Hi], Hin' as [j Hj].
      assert (i = j) as ->; [|congruence]. eapply NoDup_lookup; [exact Hnd| |]; rewrite list_lookup_fmap; [by rewrite Hi|by rewrite Hj, <-E].
    + exfalso. apply find_none with (x := c) in E; [|by apply list_elem_of_In]. by rewrite bool_decide_eq_true_2 in E.
Qed.

(** The script [name] of the directory [p] that lists [names] *)
Definition script_in_dir (d : Disk) (p : PathBuf) (names : list string) (name : string) (c : ScriptCode) : Prop :=
  let entry := name +:+ String "."%char "mvir" in
  entry ∈ names /\ is_dir d (p ++ [entry]) = false /\ name <> EmptyString /\ sc_name c = name /\
  read_to_string d (p ++ [entry]) = Ok (sc_source_code c) /\ script_code (sc_source_code c) = Ok (sc_byte_code c).

Lemma compile_package_Ok d p names pkg : d_dirs d !! path_str p = Some (Ok <$> names) ->
  (compile_package (pure_loader f) a d p tt).1 = Ok pkg -> file_name p = Some (package_name pkg) /\
  exists files, read_scripts d (Ok <$> ((fun name => p ++ [name]) <$> names)) = Ok files /\
    Forall2 compiles (filter (fun file => sf_extension file = "mvir") files) (scripts pkg).
Proof.
  intros Hd. unfold compile_package. case_match; [done|]. intros (n & En & (es & Ees & (files & Ef & H0)%unit_bind_Ok)%unit_bind_Ok)%unit_bind_Ok.
  apply unit_bind_Ok in H0 as (cs & Ecs & [= <-]). simpl in *. split; [by destruct (file_name p); simplify_eq/=|]. exists files.
  unfold read_dir in Ees. rewrite Hd in Ees. destruct (fs_read_err _ _); [done|]. injection Ees as <-.
  split; [|by apply compile_files_Ok]. rewrite <-Ef. f_equal. rewrite <-!list_fmap_compose. done.
Qed.
Lemma sf_extension_mvir file : sf_extension file = "mvir" <-> extension (sf_path file) = Some "mvir".
Proof. unfold sf_extension. destruct (extension _); simpl; naive_solver. Qed.
Lemma Forall2_elem_r {A B} (R : A -> B -> Prop) l k y : Forall2 R l k -> y ∈ k -> exists x, x ∈ l /\ R x y.
Proof. intros HF [i Hi]%list_elem_of_lookup. destruct (Forall2_lookup_r _ _ _ _ _ HF Hi) as (x & Hx & HR). exists x. split; [by eapply list_elem_of_lookup_2|done]. Qed.
Lemma Forall2_elem_l {A B} (R : A -> B -> Prop) l k x : Forall2 R l k -> x ∈ l -> exists y, y ∈ k /\ R x y.
Proof. intros HF [i Hi]%list_elem_of_lookup. destruct (Forall2_lookup_l _ _ _ _ _ HF Hi) as (y & Hy & HR). exists y. split; [by eapply list_elem_of_lookup_2|done]. Qed.

Lemma package_script_file d p names files cs : read_scripts d (Ok <$> ((fun name => p ++ [name]) <$> names)) = Ok files ->
  Forall2 compiles (filter (fun file => sf_extension file = "mvir") files) cs -> forall c, c ∈ cs <-> script_in_dir d p names (sc_name c) c.
Proof.
  intros Hr%read_scripts_Ok Hc c. unfold script_in_dir. split.
  - intros (file & [Hx Hin]%list_elem_of_filter & (En & Es & Eb))%(Forall2_elem_r _ _ _ _ Hc).
    destruct (Forall2_elem_r _ _ _ _ Hr Hin) as (path & [Hd (e & -> & He)%list_elem_of_fmap]%list_elem_of_filter & Ep & Er).
    apply sf_extension_mvir in Hx. rewrite Ep in Hx. unfold script_name in En. rewrite Ep in En. destruct (file_stem _) as [stem|] eqn:Est; simplify_eq/=.
    assert (e = sc_name c +:+ String "."%char "mvir") as <- by by eapply name_of_stem_extension. rewrite Es. split_and!; try done.
    intros E0. pose proof (name_of_stem_extension _ _ _ _ Est Hx) as ->. rewrite E0 in Hx. unfold extension in Hx. rewrite file_name_snoc in Hx by done. done.
  - intros (He & Hd & Hne & _ & Er & Eb). destruct (stem_and_extension p (sc_name c) "mvir" Hne eq_refl ltac:(done)) as [Est Ex].
    destruct (Forall2_elem_l _ _ _ (p ++ [sc_name c +:+ String "."%char "mvir"]) Hr) as (file & Hin & Ep & Er').
    { apply list_elem_of_filter. split; [done|]. apply list_elem_of_fmap. by eexists. }
    destruct (Forall2_elem_l _ _ _ file Hc) as (c' & Hin' & En & Es & Eb').
    { apply list_elem_of_filter. split; [|done]. apply sf_extension_mvir. by rewrite Ep. }
    unfold script_name in En. rewrite Ep, Est in En. simplify_eq/=. assert (c' = c) as <-; [|done].
    destruct c, c'; simpl in *; congruence.
Qed.
Lemma package_names_NoDup d p names files cs : NoDup names -> read_scripts d (Ok <$> ((fun name => p ++ [name]) <$> names)) = Ok files ->
  Forall2 compiles (filter (fun file => sf_extension file = "mvir") files) cs -> NoDup (sc_name <$> cs).
Proof.
  intros Hnd Hr%read_scripts_Ok Hc. set (mvir := fun n => p ++ [n +:+ String "."%char "mvir"]).
  assert (Hf : NoDup (sf_path <$> files)).
  { replace (sf_path <$> files) with (filter (fun p => is_dir d p = false) ((fun name => p ++ [name]) <$> names)).
    - apply NoDup_filter, NoDup_fmap_2; [|done]. intros x y E. by simplify_list_eq.
    - symmetry. apply list_eq_Forall2, Forall2_fmap_l. eapply Forall2_impl; [by apply Forall2_flip|]. by intros ? ? []. }
  apply (NoDup_fmap_1 mvir). replace (mvir <$> (sc_name <$> cs)) with (sf_path <$> filter (fun file => sf_extension file = "mvir") files).
  { eapply sublist_NoDup; [exact Hf|]. apply fmap_sublist, sublist_filter. }
  rewrite <-list_fmap_compose. apply list_eq_Forall2, Forall2_fmap. apply Forall2_same_length_lookup. split; [by eapply Forall2_length|].
  intros i file c Hi Hj. destruct (Forall2_lookup_lr _ _ _ _ _ _ Hc Hi Hj) as (En & _ & _).
  apply list_elem_of_lookup_2, list_elem_of_filter in Hi as [Hx Hin]. destruct (Forall2_elem_r _ _ _ _ Hr Hin) as (path & [_ (e & -> & _)%list_elem_of_fmap]%list_elem_of_filter & Ep & _).
  apply sf_extension_mvir in Hx. unfold script_name in En. rewrite Ep in *. destruct (file_stem _) as [stem|] eqn:Est; simplify_eq/=.
  unfold mvir. simpl. by rewrite (name_of_stem_extension _ _ _ _ Est Hx).
Qed.
End package.
End compiler.

(** ** The order of the imports *)

Section orders.
Context {L : Libra} {K : Chain} {IR : IrCompiler} {IRL : IrCompilerLaws} (HO HO' : HashOrder).
Context (f : ModuleId -> res (option bytes)) (a : AccountAddress).

Lemma load_deps_Ok ids vs : (load_deps (pure_loader f) ids tt).1 = Ok vs <->
  Forall2 (fun id v => (load_verified_module (pure_loader f) id tt).1 = Ok (Some v)) ids vs.
Proof.
  revert vs. induction ids as [|id ids IH]; intros vs.
  - split; [intros [= <-]; constructor|by intros ->%Forall2_nil_inv_l].
  - split.
    + intros (o & Eo & (v & Ev & (vs' & Evs & [= <-])%unit_bind_Ok)%unit_bind_Ok)%unit_bind_Ok. destruct o as [w|]; simplify_eq/=.
      constructor; [done|]. by apply IH.
    + intros (v & vs' & Ev & Hvs & ->)%Forall2_cons_inv_l. apply unit_bind_Ok. exists (Some v). split; [done|].
      apply unit_bind_Ok. exists v. split; [done|]. apply unit_bind_Ok. exists vs'. split; [by apply IH|done].
Qed.
Lemma get_deps_perm imports : @get_deps L HO a imports ≡ₚ @get_deps L HO' a imports.
Proof. unfold get_deps. by rewrite !hs_iter_perm. Qed.

Lemma script_code_order src code : @script_code L K HO IR f a src = Ok code -> @script_code L K HO' IR f a src = Ok code.
Proof.
  intros (ast & Ea & (deps & Ed & (cs & Ec & Es)%unit_bind_Ok)%unit_bind_Ok)%unit_bind_Ok. apply unit_bind_Ok. exists ast. split; [done|].
  apply load_deps_Ok in Ed. destruct (Permutation_Forall2 (get_deps_perm (script_imports ast)) Ed) as (deps' & Hp & Ed').
  apply unit_bind_Ok. exists deps'. split; [by apply load_deps_Ok|]. apply unit_bind_Ok. exists cs. split; [|done].
  simpl in *. by rewrite <-(ir_deps_perm _ _ _ _ Hp).
Qed.
Lemma compile_package_order d p pkg : (@compile_package L K HO IR unit (pure_loader f) a d p tt).1 = Ok pkg ->
  (@compile_package L K HO' IR unit (pure_loader f) a d p tt).1 = Ok pkg.
Proof.
  unfold compile_package. case_match; [done|]. intros (n & En & (es & Ees & (fs & Ef & H0)%unit_bind_Ok)%unit_bind_Ok)%unit_bind_Ok.
  apply unit_bind_Ok. exists n. split; [done|]. apply unit_bind_Ok. exists es. split; [done|]. apply unit_bind_Ok. exists fs. split; [done|].
  apply unit_bind_Ok in H0 as (cs & Ecs & [= <-]). apply unit_bind_Ok. exists cs. split; [|done].
  apply compile_files_Ok in Ecs. apply compile_files_Ok. eapply Forall2_impl; [exact Ecs|].
  intros file c (En' & Es & Eb). split_and!; [done..|]. by apply script_code_order.
Qed.
End orders.

(** ** Properties *)

Section properties.
Context {L : Libra} {K : Chain} {IR : IrCompiler} {IRL : IrCompilerLaws}.

(** C33: a package that was compiled from a directory has the name of the directory and exactly one script for each of
    its files [<name>.mvir], with that name, the text of the file and the code that the text compiles to.  Compiling
    again, with the imports in another order and with another loader, in any state, that answers the same, gives the
    same package. *)
Theorem compiled_package_is_directory {S S'} (HO HO' : HashOrder) (load : ModuleLoader S) (load' : ModuleLoader S') I I' f a d p names s s' pkg :
  answers load I f -> answers load' I' f -> I s -> I' s' ->
  d_dirs d !! path_str p = Some (Ok <$> names) -> NoDup names ->
  (@compile_package L K HO IR S load a d p s).1 = Ok pkg ->
  file_name p = Some (package_name pkg) /\
  (forall name c, package_get_script pkg name = Some c <-> @script_in_dir L K HO IR f a d p names name c) /\
  (@compile_package L K HO' IR S' load' a d p s').1 = Ok pkg.
Proof.
  intros Hl Hl' Hs Hs' Hd Hnd H. rewrite (proj1 (compile_package_stateless load I f Hl a d p s Hs)) in H. split; [|split].
  - by apply (compile_package_Ok f a d p names pkg Hd) in H as [? _].
  - destruct (compile_package_Ok f a d p names pkg Hd H) as (_ & files & Hr & Hc). intros name c. unfold package_get_script.
    rewrite find_name by exact (package_names_NoDup f a d p names files _ Hnd Hr Hc). rewrite (package_script_file f a d p names files _ Hr Hc).
    split; [by intros [? <-]|]. intros H0. by destruct H0 as (? & ? & ? & <- & ?).
  - rewrite (proj1 (compile_package_stateless load' I' f Hl' a d p s' Hs')). by apply (compile_package_order HO HO').
Qed.

(** *** The registry of a wallet *)

Section registry.
Context {HO : HashOrder}.
Definition shipped_package (n : string) (files : list (string * bytes)) (pkg : ChannelScriptPackage) : Prop :=
  package_name pkg = n /\ exists texts, Forall2 (fun file text => from_utf8 file.2 = Some text) files texts /\
  Forall2 (compiles (fun _ => Ok None) AccountAddress_default)
    (filter (fun file => sf_extension file = "mvir") (zip_with mkScriptFile (path_new <$> files.*1) texts)) (scripts pkg).

Lemma read_included_Ok files acc sfs : foldM (fun fs (file : string * bytes) =>
    contents ← expect (from_utf8 file.2) "script contents must is string"; Ok (fs ++ [mkScriptFile (path_new file.1) contents])) acc files = Ok sfs ->
  exists texts, Forall2 (fun file text => from_utf8 file.2 = Some text) files texts /\ sfs = acc ++ zip_with mkScriptFile (path_new <$> files.*1) texts.
Proof.
  revert acc. induction files as [|[n b] files IH]; intros acc; simpl.
  - intros [= <-]. exists []. by rewrite app_nil_r.
  - intros (acc' & Ea & Hr)%bind_Ok_iff. simpl in Ea. destruct (from_utf8 b) as [t|] eqn:Et; simplify_eq/=.
    destruct (IH _ Hr) as (texts & Ht & ->). exists (t :: texts). split; [by constructor|]. by rewrite <-(assoc_L (++)).
Qed.
Lemma build_packages_Ok dirs ps ps' : (build_packages dirs ps tt).1 = Ok ps' ->
  (forall n, is_Some (ps' !! n) <-> n ∈ dirs.*1 \/ is_Some (ps !! n)) /\
  (forall n pkg, ps' !! n = Some pkg -> (exists files, (n, files) ∈ dirs /\ shipped_package n files pkg) \/ ps !! n = Some pkg).
Proof.
  revert ps. induction dirs as [|[m files] dirs IH]; intros ps.
  - intros [= <-]. split; set_solver.
  - intros (sfs & Er & (pk & Ep & Hb)%unit_bind_Ok)%unit_bind_Ok. apply unit_bind_Ok in Ep as (cs & Ec & [= <-]). simpl in *.
    destruct (IH _ Hb) as [Hdom Hpk]. split; intros n.
    + rewrite Hdom, lookup_insert_is_Some, elem_of_cons. destruct (decide (n = m)); naive_solver.
    + intros pkg [(fs & Hin & Hs)|Hi]%Hpk; [left; exists fs; set_solver|]. apply lookup_insert_Some in Hi as [[<- <-]|[_ Hi]]; [left|by right].
      exists files. split; [by left|]. destruct (read_included_Ok _ _ _ Er) as (texts & Ht & ->). split; [done|]. exists texts.
      split; [done|]. apply compile_files_Ok. by rewrite <-(proj1 (compile_files_stateless _ _ _ empty_answers _ _ tt I)).
Qed.

(** The registry of a wallet has a package for each directory of the scripts that are shipped, with its scripts, and
    the scripts that open and close channels. *)
Lemma registry_build_Ok sd r : (registry_build sd tt).1 = Ok r ->
  (forall n, is_Some (packages r !! n) <-> n ∈ (id_dirs sd).*1) /\
  (forall n pkg, packages r !! n = Some pkg -> exists files, (n, files) ∈ id_dirs sd /\ shipped_package n files pkg) /\
  get_file_contents sd "open.mvir" = Ok (sc_source_code (open_script r)) /\
  get_file_contents sd "close.mvir" = Ok (sc_source_code (close_script r)) /\
  script_code (fun _ => Ok None) AccountAddress_default (sc_source_code (open_script r)) = Ok (sc_byte_code (open_script r)) /\
  script_code (fun _ => Ok None) AccountAddress_default (sc_source_code (close_script r)) = Ok (sc_byte_code (close_script r)).
Proof.
  intros (os & Eos & (oc & Eoc & (cs & Ecs & (cc & Ecc & (ps & Eps & [= <-])%unit_bind_Ok)%unit_bind_Ok)%unit_bind_Ok)%unit_bind_Ok)%unit_bind_Ok.
  apply build_packages_Ok in Eps as [Hdom Hpk]. pose proof (fun src => proj1 (compile_script_stateless _ _ _ empty_answers AccountAddress_default src tt I)) as Hc.
  rewrite Hc in Eoc, Ecc.
  simpl. split_and!; try done.
  - intros n. rewrite Hdom, lookup_empty. split; [intros [?|[? ?]]; done|by left].
  - by intros n pkg [?|?]%Hpk.
Qed.
End registry.

(** [compile_package_with_output] either panics or returns the package that [compile_package] returns; then the
    output file holds it, reading that file gives the package back, and no other file has changed.  It never returns an
    error: a script that does not compile is a panic. *)
Theorem package_file_roundtrip {S} {HO : HashOrder} {PJ : PackageJson} {PJL : PackageJsonLaws} (load : ModuleLoader S) a path output s d :
  let '(r, (s', d')) := compile_package_with_output load a path output (s, d) in
  (forall e, r <> Err e) /\ (forall csp, r = Ok csp ->
    compile_package load a d path s = (Ok csp, s') /\
    (fs_read_err (d_fs d) (path_str output) = None -> (disk_read d' output ≫= json_from_slice) = Ok csp) /\
    d_dirs d' = d_dirs d /\ forall q, q <> path_str output -> fs_files (d_fs d') !! q = fs_files (d_fs d) !! q).
Proof.
  unfold compile_package_with_output. destruct (compile_package load a d path s) as [[csp|e|e] s1]; [|by split|by split].
  unfold dump_to. destruct (json_to_vec csp) as [b|e|e] eqn:Ej; [|by split|by split]. unfold create_and_write.
  assert (Hput : let d' := mkDisk (set_files (<[path_str output := b]> (fs_files (d_fs d))) (d_fs d)) (d_dirs d) in
    (fs_read_err (d_fs d) (path_str output) = None -> (disk_read d' output ≫= json_from_slice) = Ok csp) /\
    d_dirs d' = d_dirs d /\ forall q, q <> path_str output -> fs_files (d_fs d') !! q = fs_files (d_fs d) !! q).
  { split_and!; [|done|intros q Hq; simpl; by rewrite lookup_insert_ne]. intros Hr. unfold disk_read, fs_read. simpl.
    rewrite Hr, lookup_insert_eq. by apply json_roundtrip. }
  repeat case_match; simplify_eq/=; split; try done; intros ? [= <-]; by split.
Qed.
End properties.
