(* ===== verification/ChainRpc.v ===== *)
(** * The client of the chain

    Models the provided methods of the trait [ChainClient] ([src/sgchain/src/star_chain_client.rs]): each
    builds one request for the ledger, sends it over the transport and takes its answer apart.  The two
    required methods, submitting a transaction and asking for the ledger, are the transport, a parameter;
    both implementations of the trait answer the asynchronous form of the second with the synchronous one.
    The methods that the channels use make a [ChainClient] of [Chain].

    The theorem: watching for a transaction ends after at most a hundred questions, with the answer of the
    first that found it. *)
From S2P Require Import Prelude Codec Libra ChannelTypes Chain.

(** What the modelled code reads of libra's events, and the state that its resources keep. *)
Class ChainEvents {L : Libra} {K : Chain} := {
  StructTag : Type;
  StructTag_eq :: EqDecision StructTag;
  event_sequence_number : ContractEvent -> Z;
  (* [type_tag] when it is [TypeTag::Struct] *)
  event_struct_tag : ContractEvent -> option StructTag;
  event_data : ContractEvent -> bytes;
  channel_event_struct_tag : StructTag;
  ChannelEvent : Type;
  (* [ChannelEvent::make_from] and its accessors *)
  decode_channel_event : bytes -> res ChannelEvent;
  ce_channel_address : ChannelEvent -> AccountAddress;
  ce_stage : ChannelEvent -> Z;
  ce_balances : ChannelEvent -> list Z;
  resource_participants : ChannelResource -> list AccountAddress;
  (* [DataPath::onchain_resource_path(..).to_vec()] of the channel and the block meta resource *)
  channel_data_path : bytes;
  block_meta_data_path : bytes;
  decode_block_meta_height : bytes -> res Z;
  association_address : AccountAddress;
  new_for_channel_global_event : AccessPath;
  new_for_channel_event : AccountAddress -> AccessPath
}.

Section rpc.
Context {L : Libra} {K : Chain} {CE : ChainEvents}.

(** ** Requests and answers *)

Inductive RequestItem :=
| GetAccountState (address : AccountAddress)
| GetAccountStateByVersion (address : AccountAddress) (version : Z)
| GetAccountTransactionBySequenceNumber (account : AccountAddress) (sequence_number : Z) (fetch_events : bool)
| GetEventsByEventAccessPath (access_path : AccessPath) (start_event_seq_num : Z) (ascending : bool) (limit : Z)
| GetTransactions (start_version limit : Z) (fetch_events : bool).
Record UpdateToLatestLedgerRequest := mkUpdateRequest {
  client_known_version : Z;
  requested_items : list RequestItem
}.
(** [asp_proof] is [transaction_info_to_account_proof]. *)
Record AccountStateWithProof := mkAccountStateWithProof {
  asp_version : Z;
  asp_blob : option bytes;
  asp_proof : SparseMerkleProof
}.
Record EventWithProof := mkEventWithProof {
  ewp_transaction_version : Z;
  ewp_event : ContractEvent
}.
Inductive ResponseItem :=
| AccountStateResponse (s : AccountStateWithProof)
| AccountTxnBySeqNumResponse (t : option TransactionWithProof) (s : option AccountStateWithProof)
| EventsResponse (events : list EventWithProof) (s : AccountStateWithProof)
| TransactionsResponse (l : TransactionListWithProof).

(** The items of a response are protobuf messages: each converts into a [ResponseItem] or fails to. *)
Definition UpdateToLatestLedgerResponse : Type := list (res ResponseItem).

(** The transport at one moment.  The status that a submission is answered with is not read. *)
Record Transport := mkTransport {
  tr_submit_transaction : SignedTransaction -> res unit;
  update_to_latest_ledger : UpdateToLatestLedgerRequest -> res UpdateToLatestLedgerResponse
}.
Implicit Types t : Transport.

Definition into_get_account_state_response (r : ResponseItem) : res AccountStateWithProof :=
  match r with AccountStateResponse s => Ok s | _ => Err "Not ResponseItem::GetAccountState" end.
Definition into_get_account_txn_by_seq_num_response (r : ResponseItem)
    : res (option TransactionWithProof * option AccountStateWithProof) :=
  match r with AccountTxnBySeqNumResponse t s => Ok (t, s) | _ => Err "Not ResponseItem::GetAccountTransactionBySequenceNumber" end.
Definition into_get_events_by_access_path_response (r : ResponseItem) : res (list EventWithProof * AccountStateWithProof) :=
  match r with EventsResponse l s => Ok (l, s) | _ => Err "Not ResponseItem::GetEventsByEventAccessPath" end.
Definition into_get_transactions_response (r : ResponseItem) : res TransactionListWithProof :=
  match r with TransactionsResponse l => Ok l | _ => Err "Not ResponseItem::GetTransactions" end.

(** [build_request] and [parse_response] *)
Definition build_request (req : RequestItem) (ver : option Z) : UpdateToLatestLedgerRequest :=
  mkUpdateRequest (default 0%Z ver) [req].
Definition parse_response (resp : UpdateToLatestLedgerResponse) : res ResponseItem :=
  item ← expect (head resp) "removal index";
  expect_ok item.

(** ** The trait [ChainClient] *)

Definition do_request t (req : UpdateToLatestLedgerRequest) : res UpdateToLatestLedgerResponse :=
  expect_ok (update_to_latest_ledger t req).

(** [get_account_state_with_proof_inner], its asynchronous form, which returns the errors of the transport, and
    [get_account_state_with_proof] *)
Definition account_state_request (account_address : AccountAddress) (version : option Z) : RequestItem :=
  match version with
  | Some v => GetAccountStateByVersion account_address v
  | None => GetAccountState account_address
  end.
Definition account_state_answer (resp : UpdateToLatestLedgerResponse) : res (Z * option bytes * SparseMerkleProof) :=
  item ← parse_response resp;
  resp ← into_get_account_state_response item;
  Ok (asp_version resp, asp_blob resp, asp_proof resp).
Definition rpc_account_state t (account_address : AccountAddress) (version : option Z) : res (Z * option bytes * SparseMerkleProof) :=
  resp ← do_request t (build_request (account_state_request account_address version) None);
  account_state_answer resp.
Definition get_account_state_with_proof_inner_async t (account_address : AccountAddress) (version : option Z)
    : res (Z * option bytes * SparseMerkleProof) :=
  resp ← update_to_latest_ledger t (build_request (account_state_request account_address version) None);
  account_state_answer resp.

(** [submit_signed_transaction] *)
Definition rpc_submit_signed_transaction t (signed_transaction : SignedTransaction) : res unit :=
  _ ← expect_ok (tr_submit_transaction t signed_transaction);
  Ok tt.

(** [get_transaction_by_seq_num] and its asynchronous form *)
Definition seq_num_request (account_address : AccountAddress) (seq_num : Z) : UpdateToLatestLedgerRequest :=
  build_request (GetAccountTransactionBySequenceNumber account_address seq_num false) None.
Definition rpc_transaction_by_seq_num t (account_address : AccountAddress) (seq_num : Z)
    : res (option TransactionWithProof * option AccountStateWithProof) :=
  resp ← do_request t (seq_num_request account_address seq_num);
  item ← parse_response resp;
  into_get_account_txn_by_seq_num_response item.
Definition get_transaction_by_seq_num_async t (account_address : AccountAddress) (seq_num : Z)
    : res (option TransactionWithProof * option AccountStateWithProof) :=
  resp ← update_to_latest_ledger t (seq_num_request account_address seq_num);
  item ← parse_response resp;
  into_get_account_txn_by_seq_num_response item.

(** [account_exist] and [account_sequence_number]; [blob_sequence_number] decodes the account resource of a blob. *)
Definition account_exist t (account_address : AccountAddress) (version : option Z) : res bool :=
  a ← expect_ok (rpc_account_state t account_address version);
  Ok (bool_decide (is_Some a.1.2)).
Definition account_sequence_number (blob_sequence_number : gmap bytes bytes -> res Z) t (account_address : AccountAddress)
    : res (option Z) :=
  a ← expect_ok (rpc_account_state t account_address None);
  match a.1.2 with
  | Some blob =>
      account_btree ← expect_ok (account_state_blob_map blob);
      n ← expect_ok (blob_sequence_number account_btree);
      Ok (Some n)
  | None => Ok None
  end.

(** [get_events], [get_transaction] and [get_transaction_async] *)
Definition get_events t (access_path : AccessPath) (start_event_seq_num : Z) (ascending : bool) (limit : Z)
    : res (list EventWithProof * AccountStateWithProof) :=
  resp ← do_request t (build_request (GetEventsByEventAccessPath access_path start_event_seq_num ascending limit) None);
  item ← parse_response resp;
  into_get_events_by_access_path_response item.
Definition rpc_get_transaction t (start_version limit : Z) (fetch_events : bool) : res TransactionListWithProof :=
  resp ← update_to_latest_ledger t (build_request (GetTransactions start_version limit fetch_events) None);
  item ← parse_response resp;
  into_get_transactions_response item.
Definition get_transaction_async t (start_version limit : Z) (fetch_events : bool) : res TransactionListWithProof :=
  resp ← update_to_latest_ledger t (build_request (GetTransactions start_version limit fetch_events) None);
  item ← parse_response resp;
  into_get_transactions_response item.

(** *** [watch_transaction]

    [turns] gives, for each turn of the loop, the time at its start and the transport after its delay of a
    second; [start] is the time of the call.  [None] is a loop that is still waiting after [fuel] turns. *)
Definition millis (n : Z) : Z := n * 10 ^ 6.
Fixpoint rpc_watch_loop (fuel : nat) (turns : nat -> Z * Transport) (k : nat) (end_time : Z) (address : AccountAddress) (seq : Z)
    : option (res (option TransactionWithProof * option AccountStateWithProof)) :=
  match fuel with
  | 0 => None
  | S fuel =>
      let timeout_time := ((turns k).1 + millis 1000)%Z in
      match rpc_transaction_by_seq_num (turns k).2 address seq with
      | Ok (None, account_proof) =>
          if bool_decide (end_time <= timeout_time)%Z then Some (Ok (None, account_proof))
          else rpc_watch_loop fuel turns (S k) end_time address seq
      | Ok (Some t, account_proof) => Some (Ok (Some t, account_proof))
      | Err e => Some (Err e)
      | Panic e => Some (Panic e)
      end
  end.
Definition rpc_watch_transaction (fuel : nat) (start : Z) (turns : nat -> Z * Transport) (address : AccountAddress) (seq : Z)
    : option (res (option TransactionWithProof * option AccountStateWithProof)) :=
  rpc_watch_loop fuel turns 0 (start + millis (50000 * 2))%Z address seq.

(** ** The client of a channel *)

(** The required methods of [Chain.ChainClient]: one moment of the chain, and the turns of a watch that starts then. *)
Definition client_of (start : Z) (turns : nat -> Z * Transport) t : ChainClient :=
  mkChainClient (rpc_account_state t) (rpc_submit_signed_transaction t)
    (fun address seq => match rpc_watch_transaction 100 start turns address seq with
                        | Some r => p ← r; Ok p.1
                        | None => Err "still waiting"
                        end)
    (fun address seq => p ← rpc_transaction_by_seq_num t address seq; Ok p.1)
    (rpc_get_transaction t).

(** ** Lemmas *)

(** Every turn takes a second at least. *)
Definition clock_ok (start : Z) (turns : nat -> Z * Transport) : Prop :=
  (start <= (turns 0%nat).1)%Z /\ forall k, ((turns k).1 + millis 1000 <= (turns (S k)).1)%Z.
Lemma clock_ok_at start turns k : clock_ok start turns -> (start + Z.of_nat k * millis 1000 <= (turns k).1)%Z.
Proof. intros [H0 HS]. induction k as [|k IH]; [lia|]. specialize (HS k). lia. Qed.

(** A turn that does not end the watch. *)
Definition keeps_waiting (turns : nat -> Z * Transport) (end_time : Z) (address : AccountAddress) (seq : Z) (k : nat) : Prop :=
  (exists s, rpc_transaction_by_seq_num (turns k).2 address seq = Ok (None, s)) /\ ((turns k).1 + millis 1000 < end_time)%Z.
Lemma rpc_watch_loop_spec fuel turns k end_time address seq :
  match rpc_watch_loop fuel turns k end_time address seq with
  | Some r => exists j, k <= j < k + fuel /\ (forall i, k <= i < j -> keeps_waiting turns end_time address seq i) /\
      r = rpc_transaction_by_seq_num (turns j).2 address seq /\ ~ keeps_waiting turns end_time address seq j
  | None => forall i, k <= i < k + fuel -> keeps_waiting turns end_time address seq i
  end.
Proof.
  revert k. induction fuel as [|fuel IH]; intros k; simpl; [intros; lia|].
  destruct (rpc_transaction_by_seq_num (turns k).2 address seq) as [[[x|] s]|e|e] eqn:Hq; [|case_bool_decide as Hend|..].
  3: { assert (keeps_waiting turns end_time address seq k) as Hk by (split; [eauto|lia]).
       specialize (IH (S k)). destruct (rpc_watch_loop _ _ _ _ _ _) as [r|].
       - destruct IH as (j & Hj & Hi & Hr & Hn). exists j. split; [lia|]. split; [|done].
         intros i Hik. destruct (decide (i = k)) as [->|]; [done|]. apply Hi. lia.
       - intros i Hik. destruct (decide (i = k)) as [->|]; [done|]. apply IH. lia. }
  all: exists k; split; [lia|]; split; [intros; lia|]; split; [done|]; intros [[s' Hs] Hlt]; rewrite Hq in Hs; first [naive_solver|lia].
Qed.

(** ** Properties *)

(** C31: a wallet that watches for a transaction gets an answer, after a hundred questions to the chain at
    most, if every turn of the loop takes the second that it waits.  The answer is that of the first
    question that did not fail to find the transaction; it says that there is none only if that was still
    so ninety nine seconds after the start. *)
Theorem watch_transaction_ends start turns address seq : clock_ok start turns ->
  exists j r, j < 100 /\ rpc_watch_transaction 100 start turns address seq = Some r /\
    r = rpc_transaction_by_seq_num (turns j).2 address seq /\
    (forall i, i < j -> exists s, rpc_transaction_by_seq_num (turns i).2 address seq = Ok (None, s)) /\
    (forall s, r = Ok (None, s) -> (start + millis 99000 <= (turns j).1)%Z).
Proof.
  intros Hc. unfold rpc_watch_transaction.
  pose proof (rpc_watch_loop_spec 100 turns 0 (start + millis (50000 * 2)) address seq) as H.
  destruct (rpc_watch_loop 100 _ _ _ _ _) as [r|].
  - destruct H as (j & Hj & Hi & -> & Hn). exists j, (rpc_transaction_by_seq_num (turns j).2 address seq). split; [lia|]. split; [done|].
    split; [done|]. split; [intros i Hij; by apply Hi; lia|].
    intros s Hs. apply Z.nlt_ge. intros Hlt. apply Hn. split; [eauto|]. unfold millis in *. lia.
  - destruct (H 99) as [_ Hlt]; [lia|]. pose proof (clock_ok_at start turns 99 Hc). unfold millis in *. lia.
Qed.
End rpc.
