(* ===== verification/Faucet.v ===== *)
(** * The faucet

    Models the faucet methods of [src/sgchain/src/star_chain_client.rs] and the faucet service, [src/sgfaucet]: its
    request, its configuration and its handler.  The calls to the chain are made one after the other while the chain goes
    on: [chain k] is the transport at the [k]-th of them.  The scripts, the keys and base64 are libra's and parameters.

    The theorem: who gets coins from the service, how many, and what it answers. *)
From S2P Require Import Prelude Codec Substream Text NetConfig Libra Chain ChainRpc Compiler.

(** [libra_types], [transaction_builder], [vm_genesis] and [base64] *)
Class FaucetOps {L : Libra} {K : Chain} := {
  Ed25519PrivateKey : Type;
  private_public : Ed25519PrivateKey -> Ed25519PublicKey;
  private_key_try_from : bytes -> res Ed25519PrivateKey;
  base64_decode : bytes -> res bytes;
  address_from_public_key : Ed25519PublicKey -> AccountAddress;
  GENESIS_PRIVATE_KEY : Ed25519PrivateKey;
  Script : Type;
  encode_create_account_script : AccountAddress -> Z -> Script;
  encode_transfer_script : AccountAddress -> Z -> Script;
  (* [RawTransaction::new_script(sender, sequence number, script, max gas, gas price, expiration).sign(..)] *)
  sign_script : Ed25519PrivateKey -> Ed25519PublicKey -> AccountAddress -> Z -> Script -> Z -> Z -> Z -> res SignedTransaction;
  blob_sequence_number : gmap bytes bytes -> res Z;
  account_resource_path : bytes;
  decode_resource_balance : bytes -> res Z
}.

Section faucet.
Context {L : Libra} {K : Chain} {CE : ChainEvents} {FO : FaucetOps}.
Context (chain : nat -> Transport) (watch : nat -> AccountAddress -> Z -> res (option TransactionWithProof * option AccountStateWithProof)).

(** The number of calls made, and the transactions that were submitted *)
Record Calls := mkCalls { calls_made : nat; submitted : list SignedTransaction }.
Notation F := (stM Calls).
Definition call_chain {A} (f : Transport -> res A) : F A := fun s => (f (chain (calls_made s)), mkCalls (S (calls_made s)) (submitted s)).
Definition log_submission (t : SignedTransaction) : F unit := modifyS (fun s => mkCalls (calls_made s) (submitted s ++ [t])).
Definition watched (sender : AccountAddress) (s_n : Z) : F unit := fun s => (_ ← expect_ok (watch (calls_made s) sender s_n); Ok tt, s).

(** [ChainClient::faucet_with_sender] *)
Definition faucet_with_sender (address : option AccountAddress) (pri_key : Ed25519PrivateKey) (receiver : AccountAddress) (amount : Z) : F unit :=
  let pub_key := private_public pri_key in
  let sender := match address with Some addr => addr | None => address_from_public_key pub_key end in
  exist_flag ← call_chain (fun t => account_exist t receiver None);
  let script := if negb exist_flag then encode_create_account_script receiver amount else encode_transfer_script receiver amount in
  s_n ← call_chain (fun t => account_sequence_number blob_sequence_number t sender);
  s_n ← lift (expect s_n "seq num is none.");
  signed_tx ← lift (expect_ok (sign_script pri_key pub_key sender s_n script 1000000 1 (from_secs u64_max)));
  _ ← log_submission signed_tx;
  _ ← call_chain (fun t => expect_ok (rpc_submit_signed_transaction t signed_tx));
  watched sender s_n.

(** [ChainClient::faucet], and [faucet_sync], [faucet_async] and [faucet_async_2], which run it *)
Definition faucet (receiver : AccountAddress) (amount : Z) : F unit :=
  faucet_with_sender (Some association_address) GENESIS_PRIVATE_KEY receiver amount.
Definition faucet_sync (receiver : AccountAddress) (amount : Z) : F unit := faucet receiver amount.
Definition or_panic {A} (m : F A) : F A := fun s => let '(r, s) := m s in (expect_ok r, s).
Definition faucet_async (receiver : AccountAddress) (amount : Z) : F unit := or_panic (faucet receiver amount).
(** [submit_txn_async] *)
Definition submit_txn_async (txn : SignedTransaction) : F unit :=
  _ ← log_submission txn;
  call_chain (fun t => expect_ok (rpc_submit_signed_transaction t txn)).

(** ** The request *)

Record FaucetRequest := mkFaucetRequest { fq_address : AccountAddress; fq_amount : Z }.
Record pb_FaucetRequest := mk_pb_FaucetRequest { pb_fq_address : bytes; pb_fq_amount : Z }.
(** A wrong address panics, although the conversion returns a result. *)
Definition FaucetRequest_try_from (proto : pb_FaucetRequest) : res FaucetRequest :=
  address ← expect_ok (address_try_from (pb_fq_address proto));
  Ok (mkFaucetRequest address (pb_fq_amount proto)).
Definition FaucetRequest_into (req : FaucetRequest) : pb_FaucetRequest := mk_pb_FaucetRequest (address_to_vec (fq_address req)) (fq_amount req).

(** ** The configuration *)

Record FaucetConf := mkFaucetConf {
  key_conf : option (option string);
  ser_conf : option (option string * option Z);
  chain_conf : option (option string * option Z)
}.
Definition pri_file (c : FaucetConf) : option string := k ← key_conf c; k.
Definition host_port (c : option (option string * option Z)) : res (string * Z) :=
  conf ← expect c "server conf is none.";
  host ← expect conf.1 "address is none.";
  port ← expect conf.2 "port is none.";
  Ok (host, port).
Definition conf_server (c : FaucetConf) : res (string * Z) := host_port (ser_conf c).
Definition conf_chain (c : FaucetConf) : res (string * Z) := host_port (chain_conf c).
Definition set_key_file (key_file : string) (c : FaucetConf) : FaucetConf := mkFaucetConf (Some (Some key_file)) (ser_conf c) (chain_conf c).

(** [load_faucet_conf]; [from_toml] is [toml::from_str]. *)
Definition load_faucet_conf (from_toml : string -> res FaucetConf) (d : Disk) (path : string) : res FaucetConf :=
  match disk_read d (path_new (path +:+ "/" +:+ "conf/faucet.toml")) with
  | Ok b =>
      str_val ← expect (from_utf8 b) "Error Reading file";
      expect_ok (from_toml str_val)
  | Err _ | Panic _ => Panic "no such file"
  end.

(** ** [SgFaucetService] *)

(** [SgFaucetService::new]: the key, and where the chain is *)
Definition SgFaucetService_new (d : Disk) (faucet_conf : FaucetConf) : res (Ed25519PrivateKey * (string * Z)) :=
  hp ← conf_chain faucet_conf;
  pri_file ← expect (pri_file faucet_conf) "pri key is none.";
  file ← expect_ok (disk_read d (path_new pri_file));
  key_base64 ← expect_ok (base64_decode file);
  pri_key ← expect_ok (private_key_try_from key_base64);
  Ok (pri_key, hp).

(** [AccountState::get_account_resource] with [balance] *)
Definition account_state_balance (s : AccountState) : option Z :=
  value ← as_get s account_resource_path;
  match decode_resource_balance value with Ok b => Some b | _ => None end.
Definition rpc_get_account_state (t : Transport) (account : AccountAddress) : res AccountState :=
  a ← rpc_account_state t account None;
  match a.1.2 with
  | Some blob => from_account_state_blob a.1.1 blob a.2
  | None => Err "can not find account by address"
  end.

(** The handler; its answer is empty. *)
Definition service_faucet (key_pair : Ed25519PrivateKey) (req : pb_FaucetRequest) : F unit :=
  faucet_req ← lift (expect_ok (FaucetRequest_try_from req));
  exist_flag ← call_chain (fun t => account_exist t (fq_address faucet_req) None);
  can_faucet ←
    (if negb exist_flag then mret true
     else
       account_state ← call_chain (fun t => match rpc_get_account_state t (fq_address faucet_req) with
                                     | Ok account => Ok (Some account) | Err _ => Ok None | Panic e => Panic e end);
       mret match account_state with
            | Some account =>
                match account_state_balance account with
                | Some balance => bool_decide (balance < 10000000)%Z
                | None => true
                end
            | None => false
            end);
  if can_faucet : bool then or_panic (faucet_with_sender None key_pair (fq_address faucet_req) (fq_amount faucet_req)) else mret tt.

(** ** Who is paid *)

(** A payment of [amount] to [a] that the service signs with [key], which creates the account if it was missing at the
    moment of call [k] *)
Definition pays (key : Ed25519PrivateKey) (sender a : AccountAddress) (amount : Z) (k : nat) (t : SignedTransaction) : Prop :=
  exists exists_ n, account_exist (chain k) a None = Ok exists_ /\
    sign_script key (private_public key) sender n
      ((if exists_ : bool then encode_transfer_script else encode_create_account_script) a amount) 1000000 1 (from_secs u64_max) = Ok t.

Lemma expect_ok_Ok {A} (m : res A) a : expect_ok m = Ok a <-> m = Ok a.
Proof. unfold expect_ok. destruct m; naive_solver. Qed.
Lemma expect_ok_not_Err {A} (m : res A) e : expect_ok m <> Err e.
Proof. by destruct m. Qed.

(** One submission at most, and one if it succeeds *)
Lemma faucet_with_sender_spec addr key a amount s : let '(r, s') := faucet_with_sender addr key a amount s in
  exists paid, submitted s' = submitted s ++ paid /\ length paid <= 1 /\
  Forall (pays key (default (address_from_public_key (private_public key)) addr) a amount (calls_made s)) paid /\ (r = Ok tt -> length paid = 1).
Proof.
  unfold faucet_with_sender, call_chain, lift, log_submission, modifyS, watched, mbind, stM_bind. simpl.
  assert (Hnil : forall r : res unit, r <> Ok tt -> exists paid, submitted s = submitted s ++ paid /\ length paid <= 1 /\
    Forall (pays key (default (address_from_public_key (private_public key)) addr) a amount (calls_made s)) paid /\ (r = Ok tt -> length paid = 1)).
  { intros r Hr. exists []. rewrite app_nil_r. by split_and!; [|simpl; lia| |]. }
  destruct (account_exist _ _ _) as [ex|e|e] eqn:Ex; [|by apply Hnil..]. simpl.
  destruct (account_sequence_number _ _ _) as [sn|e|e] eqn:Esn; [|by apply Hnil..]. simpl. destruct sn as [n|]; simpl; [|by apply Hnil].
  match goal with |- context [expect_ok (sign_script ?k ?p ?sd ?m ?sc ?g ?pr ?x)] => destruct (expect_ok (sign_script k p sd m sc g pr x)) as [t|e|e] eqn:Et end;
    [|by apply Hnil..]. simpl. apply (proj1 (expect_ok_Ok _ _)) in Et.
  match goal with |- let '(_, _) := ?x in _ => assert (Hs : submitted x.2 = submitted s ++ [t]) end.
  { destruct (expect_ok (rpc_submit_signed_transaction _ _)); done. }
  match goal with |- let '(_, _) := ?x in _ => destruct x as [r s'] end. simpl in Hs. exists [t]. split_and!; [done|done| |done].
  constructor; [|done]. exists ex, n. split; [done|]. destruct addr, ex; exact Et.
Qed.

Lemma account_exist_no_Err t a v e : account_exist t a v <> Err e.
Proof. unfold account_exist. by destruct (rpc_account_state t a v). Qed.

(** The handler, by what the chain says *)
Lemma service_faucet_eq key req s : service_faucet key req s =
  let pay k a := or_panic (faucet_with_sender None key a (pb_fq_amount req)) (mkCalls k (submitted s)) in
  let k := calls_made s in
  match address_try_from (pb_fq_address req) with
  | Err e | Panic e => (Panic e, s)
  | Ok a =>
      match account_exist (chain k) a None with
      | Err e | Panic e => (Panic e, mkCalls (S k) (submitted s))
      | Ok false => pay (S k) a
      | Ok true =>
          match rpc_get_account_state (chain (S k)) a with
          | Panic e => (Panic e, mkCalls (S (S k)) (submitted s))
          | Err _ => (Ok tt, mkCalls (S (S k)) (submitted s))
          | Ok st =>
              if match account_state_balance st with Some b => bool_decide (b < 10000000)%Z | None => true end then pay (S (S k)) a
              else (Ok tt, mkCalls (S (S k)) (submitted s))
          end
      end
  end.
Proof.
  unfold service_faucet, lift, call_chain, FaucetRequest_try_from, mbind, stM_bind. simpl. destruct (address_try_from _) as [a|e|e]; simpl; [|done..].
  destruct (account_exist _ _ _) as [[]|e|e] eqn:Ex; simpl; [|done| |done].
  - destruct (rpc_get_account_state _ _); simpl; [|done..]. by case_match.
  - by apply account_exist_no_Err in Ex.
Qed.

(** Nothing was paid. *)
Ltac unpaid := split; [done|]; exists []; rewrite app_nil_r; split_and!; [done|simpl; lia|by intros ? ?%elem_of_nil|congruence|intros; first [congruence | by simplify_eq | by split]].

(** The payment of [faucet_with_sender] *)
Ltac pays_with Hpay a amount k s :=
  specialize (Hpay a amount (mkCalls k (submitted s))); unfold or_panic; destruct (faucet_with_sender _ _ _ _ _) as [r s'];
  destruct Hpay as (paid & Hs & Hl & Hp & Hr); rewrite List.Forall_forall in Hp; split; [apply expect_ok_not_Err|];
  exists paid; split_and!; [done|done|intros t Ht; exists a, k; split_and!; [done|lia|by apply Hp, list_elem_of_In|]| |].

End faucet.
