(* ===== verification/StateAccess.v ===== *)
(** * Shared access to the state of the chain

    Models [src/sgwallet/src/chain_state_access/mod.rs]: an actor that answers questions for one path of
    an account's state.  A question that the cache does not answer starts a task that asks the chain, or
    waits for the one that runs already; the result of a task goes to the cache and to all that wait.

    The theorem: every answer is what the chain said about that account and version, no question is
    answered twice, and one whose task is still there or has returned is answered; but a task that panics,
    as the client of the chain does when the transport fails, leaves its questions unanswered for good. *)
From S2P Require Import Prelude Codec Libra ChannelTypes Chain.

Section access.
Context {L : Libra} {K : Chain}.

Notation StateKey := (AccountAddress * option Z)%type.
(** The result of [remote_access], and of a question. *)
Definition Fetched : Type := res (Z * option AccountState).
Definition StateAnswer : Type := res (option bytes).

(** A oneshot channel is a number: [sa_sent] holds what was sent on it, [sa_gone] lists the dropped
    receivers.  [sa_tasks] are the running tasks and [sa_results] the messages they sent to the actor. *)
Record ChainStateAccessor := mkAccessor {
  sa_cache : gmap AccountAddress (gmap Z (option AccountState));
  ongoing_requests : gset StateKey;
  waiting_list : gmap StateKey (list (bytes * nat));
  sa_next : nat;
  sa_sent : gmap nat StateAnswer;
  sa_gone : gset nat;
  sa_tasks : list StateKey;
  sa_results : list (StateKey * Fetched)
}.
Implicit Types s : ChainStateAccessor.
Implicit Types client : ChainClient.

Definition ChainStateAccessor_new : ChainStateAccessor := mkAccessor ∅ ∅ ∅ 0 ∅ ∅ [] [].

Definition remote_access client (account_address : AccountAddress) (version : option Z) : Fetched :=
  '(version, state, proof) ← get_account_state_with_proof_inner client account_address version;
  match state with
  | Some b => account_state ← from_account_state_blob version b proof; Ok (version, Some account_state)
  | None => Ok (version, None)
  end.

Definition add_to_waiting_list (key : StateKey) (data_path : bytes) (tx : nat) s : ChainStateAccessor :=
  let waiting := default [] (waiting_list s !! key) ++ [(data_path, tx)] in
  mkAccessor (sa_cache s) (ongoing_requests s) (<[key := waiting]> (waiting_list s)) (sa_next s) (sa_sent s) (sa_gone s)
    (sa_tasks s) (sa_results s).
Definition add_to_cache (account : AccountAddress) (version : Z) (state : option AccountState) s : ChainStateAccessor :=
  let versions := <[version := state]> (default ∅ (sa_cache s !! account)) in
  mkAccessor (<[account := versions]> (sa_cache s)) (ongoing_requests s) (waiting_list s) (sa_next s) (sa_sent s) (sa_gone s)
    (sa_tasks s) (sa_results s).
Definition get_from_cache (account : AccountAddress) (version : Z) (data_path : bytes) s : option (option bytes) :=
  versions ← sa_cache s !! account;
  state ← versions !! version;
  Some (t ← state; as_get t data_path).

(** [oneshot::channel()] and [Sender::send], which fails when the receiver is gone *)
Definition oneshot_new s : nat * ChainStateAccessor :=
  (sa_next s, mkAccessor (sa_cache s) (ongoing_requests s) (waiting_list s) (S (sa_next s)) (sa_sent s) (sa_gone s)
                (sa_tasks s) (sa_results s)).
Definition oneshot_send (tx : nat) (a : StateAnswer) s : ChainStateAccessor :=
  if bool_decide (tx ∈ sa_gone s) then s
  else mkAccessor (sa_cache s) (ongoing_requests s) (waiting_list s) (sa_next s) (<[tx := a]> (sa_sent s)) (sa_gone s)
         (sa_tasks s) (sa_results s).

(** Handler of [AccessState] *)
Definition spawn_access (key : StateKey) s : ChainStateAccessor :=
  mkAccessor (sa_cache s) ({[key]} ∪ ongoing_requests s) (waiting_list s) (sa_next s) (sa_sent s) (sa_gone s)
    (sa_tasks s ++ [key]) (sa_results s).
Definition handle_access_state (version : option Z) (account : AccountAddress) (data_path : bytes) s : nat * ChainStateAccessor :=
  let blob := v ← version; get_from_cache account v data_path s in
  let '(tx, s) := oneshot_new s in
  match blob with
  | Some t => (tx, oneshot_send tx (Ok t) s)
  | None =>
      let key := (account, version) in
      if bool_decide (key ∈ ongoing_requests s) then (tx, add_to_waiting_list key data_path tx s)
      else (tx, add_to_waiting_list key data_path tx (spawn_access key s))
  end.

(** Handler of [RemoteAccessResult] *)
Definition finish_request (key : StateKey) s : ChainStateAccessor :=
  mkAccessor (sa_cache s) (ongoing_requests s ∖ {[key]}) (base.delete key (waiting_list s)) (sa_next s) (sa_sent s) (sa_gone s)
    (sa_tasks s) (sa_results s).
Definition answer_waiting (account : AccountAddress) (cached_version : res Z) s (w : bytes * nat) : res ChainStateAccessor :=
  match cached_version with
  | Ok v => b ← expect (get_from_cache account v w.1 s) "cache should contain this"; Ok (oneshot_send w.2 (Ok b) s)
  | Err _ => Ok (oneshot_send w.2 (Err "fail to get remote data") s)
  | Panic e => Panic e
  end.
Definition handle_remote_access_result (key : StateKey) (result : Fetched) s : res ChainStateAccessor :=
  let waitings := waiting_list s !! key in
  let s := finish_request key s in
  let cached := v ← result; Ok v.1 in
  let s := match result with Ok (version, state) => add_to_cache key.1 version state s | _ => s end in
  match waitings with
  | None => Ok s
  | Some waitings => foldM (answer_waiting key.1 cached) s waitings
  end.

(** ** Histories *)

(** A question; a task gets its turn, and its client answers, or panics and ends it; the actor takes one of
    the results; a receiver is dropped. *)
Inductive access_event :=
| EAccess (version : option Z) (account : AccountAddress) (data_path : bytes)
| EFetch (key : StateKey) (client : ChainClient)
| EResult (i : nat)
| EForget (tx : nat).

Definition run_fetch (key : StateKey) client s : ChainStateAccessor :=
  match list_find (key =.) (sa_tasks s) with
  | None => s
  | Some (i, _) =>
      let result := remote_access client key.1 key.2 in
      mkAccessor (sa_cache s) (ongoing_requests s) (waiting_list s) (sa_next s) (sa_sent s) (sa_gone s) (base.delete i (sa_tasks s))
        (sa_results s ++ match result with Panic _ => [] | _ => [(key, result)] end)
  end.
Definition take_result (i : nat) s : ChainStateAccessor :=
  mkAccessor (sa_cache s) (ongoing_requests s) (waiting_list s) (sa_next s) (sa_sent s) (sa_gone s) (sa_tasks s)
    (base.delete i (sa_results s)).
Definition forget (tx : nat) s : ChainStateAccessor :=
  mkAccessor (sa_cache s) (ongoing_requests s) (waiting_list s) (sa_next s) (sa_sent s) ({[tx]} ∪ sa_gone s) (sa_tasks s) (sa_results s).
Definition access_step s (e : access_event) : res ChainStateAccessor :=
  match e with
  | EAccess version account data_path => Ok (handle_access_state version account data_path s).2
  | EFetch key client => Ok (run_fetch key client s)
  | EResult i =>
      match sa_results s !! i with
      | Some (key, result) => handle_remote_access_result key result (take_result i s)
      | None => Ok s
      end
  | EForget tx => Ok (forget tx s)
  end.
Definition run_access (l : list access_event) : res ChainStateAccessor := foldM access_step ChainStateAccessor_new l.

(** The [i]-th question of a history, and what the chain was asked. *)
Definition questions (l : list access_event) : list (StateKey * bytes) :=
  omap (fun e => match e with EAccess v a p => Some ((a, v), p) | _ => None end) l.
Definition fetches (l : list access_event) : list (StateKey * ChainClient) :=
  omap (fun e => match e with EFetch k c => Some (k, c) | _ => None end) l.
(** The chain gave [st] as the state of [account] at [version]. *)
Definition chain_said (l : list access_event) (account : AccountAddress) (requested : option Z) (version : Z) (st : option AccountState) : Prop :=
  exists client, ((account, requested), client) ∈ fetches l /\ remote_access client account requested = Ok (version, st).
(** An answer that the history justifies. *)
Definition justified (l : list access_event) (i : nat) (a : StateAnswer) : Prop :=
  exists k p, questions l !! i = Some (k, p) /\
  match a with
  | Ok o => exists requested v st, chain_said l k.1 requested v st /\ (requested = k.2 \/ k.2 = Some v) /\ o = (t ← st; as_get t p)
  | Err _ => exists client e, (k, client) ∈ fetches l /\ remote_access client k.1 k.2 = Err e
  | Panic _ => False
  end.

(** ** Invariant *)

Record access_inv (l : list access_event) s : Prop := {
  ai_next : sa_next s = length (questions l);
  ai_cache a vs v st : sa_cache s !! a = Some vs -> vs !! v = Some st -> exists requested, chain_said l a requested v st;
  ai_results k r : (k, r) ∈ sa_results s -> no_panic r /\ exists client, (k, client) ∈ fetches l /\ r = remote_access client k.1 k.2;
  ai_waiting k ws p i : waiting_list s !! k = Some ws -> (p, i) ∈ ws ->
    questions l !! i = Some (k, p) /\ sa_sent s !! i = None /\ k ∈ ongoing_requests s;
  ai_nodup k ws : waiting_list s !! k = Some ws -> NoDup ws.*2;
  ai_sent i a : sa_sent s !! i = Some a -> justified l i a;
  ai_all i : i < sa_next s -> i ∈ sa_gone s \/ is_Some (sa_sent s !! i) \/
    exists k ws p, waiting_list s !! k = Some ws /\ (p, i) ∈ ws;
  ai_ongoing k : k ∈ ongoing_requests s -> k ∈ sa_tasks s \/ k ∈ (sa_results s).*1 \/
    exists client e, (k, client) ∈ fetches l /\ remote_access client k.1 k.2 = Panic e
}.

Lemma questions_app l l' : questions (l ++ l') = questions l ++ questions l'.
Proof. apply omap_app. Qed.
Lemma fetches_app l l' : fetches (l ++ l') = fetches l ++ fetches l'.
Proof. apply omap_app. Qed.
Lemma chain_said_app l l' a r v st : chain_said l a r v st -> chain_said (l ++ l') a r v st.
Proof. intros (c & Hc & E). exists c. split; [|done]. rewrite fetches_app. set_solver. Qed.
Lemma justified_app l l' i a : justified l i a -> justified (l ++ l') i a.
Proof.
  intros (k & p & Hq & Ha). exists k, p. split; [by rewrite questions_app; apply lookup_app_l_Some|].
  destruct a as [o|e|e]; [|rewrite fetches_app; set_solver|done].
  destruct Ha as (r & v & st & Hs & ?). exists r, v, st. split; [by apply chain_said_app|done].
Qed.

(** The history grows by an event that is no question. *)
Lemma access_inv_app l l' s : access_inv l s -> questions l' = [] -> access_inv (l ++ l') s.
Proof.
  intros [] Hq. assert (questions (l ++ l') = questions l) as E by by rewrite questions_app, Hq, app_nil_r.
  split; rewrite ?E; try done.
  - intros. edestruct ai_cache0 as [r Hr]; eauto using chain_said_app.
  - intros k r Hr. destruct (ai_results0 k r Hr) as (? & c & ? & ?). rewrite fetches_app. set_solver.
  - intros. by apply justified_app, ai_sent0.
  - intros k Hk. rewrite fetches_app. destruct (ai_ongoing0 k Hk) as [?|[?|(c & e & ? & ?)]]; [by left|by right; left|right; right; set_solver].
Qed.

Lemma get_from_cache_add a v st p s : get_from_cache a v p (add_to_cache a v st s) = Some (t ← st; as_get t p).
Proof. unfold get_from_cache, add_to_cache. simpl. rewrite lookup_insert_eq. simpl. by rewrite lookup_insert_eq. Qed.
Lemma get_from_cache_Some a v p s o : get_from_cache a v p s = Some o ->
  exists vs st, sa_cache s !! a = Some vs /\ vs !! v = Some st /\ o = (t ← st; as_get t p).
Proof.
  unfold get_from_cache. destruct (sa_cache s !! a) as [vs|] eqn:E1; [|done]. simpl.
  destruct (vs !! v) as [st|] eqn:E2; [|done]. simpl. intros [= <-]. eauto.
Qed.
(** *** Sending to all that wait *)

Definition set_sent (m : gmap nat StateAnswer) s : ChainStateAccessor :=
  mkAccessor (sa_cache s) (ongoing_requests s) (waiting_list s) (sa_next s) m (sa_gone s) (sa_tasks s) (sa_results s).
Definition cached_answer (account : AccountAddress) (cached : res Z) s (p : bytes) : StateAnswer :=
  match cached with
  | Ok v => Ok (default None (get_from_cache account v p s))
  | _ => Err "fail to get remote data"
  end.
Lemma answer_waiting_eq account cached s w : no_panic cached ->
  (forall v p, cached = Ok v -> is_Some (get_from_cache account v p s)) ->
  answer_waiting account cached s w = Ok (oneshot_send w.2 (cached_answer account cached s w.1) s).
Proof.
  intros Hn Hc. unfold answer_waiting, cached_answer. destruct cached as [v|e|e]; [|done..].
  destruct (Hc v w.1 eq_refl) as [o Ho]. by rewrite Ho.
Qed.
Lemma oneshot_send_eq i a s :
  oneshot_send i a s = set_sent (if bool_decide (i ∈ sa_gone s) then sa_sent s else <[i := a]> (sa_sent s)) s.
Proof. unfold oneshot_send. case_bool_decide; by destruct s. Qed.

Lemma answer_all account cached ws s : no_panic cached ->
  (forall v p, cached = Ok v -> is_Some (get_from_cache account v p s)) -> NoDup ws.*2 ->
  exists m, foldM (answer_waiting account cached) s ws = Ok (set_sent m s) /\
    (forall i, (i ∉ ws.*2 \/ i ∈ sa_gone s) -> m !! i = sa_sent s !! i) /\
    (forall p i, (p, i) ∈ ws -> i ∉ sa_gone s -> m !! i = Some (cached_answer account cached s p)).
Proof.
  intros Hn. revert s. induction ws as [|[p i] ws IH]; intros s Hc Hnd; simpl.
  { exists (sa_sent s). split; [by destruct s|]. split; [done|set_solver]. }
  apply NoDup_cons in Hnd as [Hi Hnd]. simpl in Hi.
  rewrite answer_waiting_eq by done. simpl. rewrite oneshot_send_eq.
  destruct (IH (set_sent (if bool_decide (i ∈ sa_gone s) then sa_sent s else <[i:=cached_answer account cached s p]> (sa_sent s)) s))
    as (m & E & H1 & H2); [done..|].
  exists m. split; [done|]. simpl in *. split.
  - intros j Hj. rewrite H1 by set_solver. case_bool_decide; [done|]. apply lookup_insert_ne. set_solver.
  - intros q j [[= -> ->]|Hj]%elem_of_cons Hg.
    + rewrite H1 by auto. rewrite bool_decide_eq_false_2 by done. by rewrite lookup_insert_eq.
    + by rewrite (H2 q j).
Qed.

(** *** The operations keep the invariant *)

Section asking.
Context (l : list access_event) (s : ChainStateAccessor) (v : option Z) (a : AccountAddress) (p : bytes).
Hypothesis I : access_inv l s.
Notation l' := (l ++ [EAccess v a p]).

Lemma asked_new : questions l' !! sa_next s = Some ((a, v), p).
Proof. rewrite questions_app, (ai_next _ _ I). by apply list_lookup_middle. Qed.
Lemma asked_old i x : questions l !! i = Some x -> questions l' !! i = Some x.
Proof. intros. rewrite questions_app. by apply lookup_app_l_Some. Qed.
Lemma asked_fetches : fetches l' = fetches l.
Proof. rewrite fetches_app. apply app_nil_r. Qed.
Lemma asked_next : S (sa_next s) = length (questions l').
Proof. rewrite questions_app, length_app, (ai_next _ _ I). simpl. lia. Qed.
Lemma waiting_lt k ws q i : waiting_list s !! k = Some ws -> (q, i) ∈ ws -> i < sa_next s.
Proof.
  intros Hw Hi. destruct (ai_waiting _ _ I k ws q i Hw Hi) as [Hq%lookup_lt_Some _]. by rewrite (ai_next _ _ I).
Qed.
Lemma sent_fresh : sa_sent s !! sa_next s = None.
Proof.
  apply eq_None_not_Some. intros [x E]. destruct (ai_sent _ _ I _ _ E) as (k & q & Hq%lookup_lt_Some & _).
  rewrite <-(ai_next _ _ I) in Hq. lia.
Qed.

(** The cache answers the question. *)
Lemma ask_hit o : (w ← v; get_from_cache a w p s) = Some o -> access_inv l' (oneshot_send (sa_next s) (Ok o) (oneshot_new s).2).
Proof.
  intros Hb. destruct v as [w|] eqn:Ev; [|done]. simpl in Hb. apply get_from_cache_Some in Hb as (vs & st & E1 & E2 & ->).
  rewrite oneshot_send_eq. rewrite <-Ev. split; simpl.
  - apply asked_next.
  - intros b vs' w' st' H1 H2. edestruct (ai_cache _ _ I) as [r Hr]; eauto using chain_said_app.
  - rewrite asked_fetches. apply I.
  - intros k ws q i Hw Hi. destruct (ai_waiting _ _ I k ws q i Hw Hi) as (? & ? & ?). split; [by apply asked_old|]. split; [|done].
    case_bool_decide; [done|]. rewrite lookup_insert_ne; [done|]. pose proof (waiting_lt k ws q i Hw Hi). lia.
  - apply I.
  - intros i x Hx. case_bool_decide; [by apply justified_app, (ai_sent _ _ I)|]. apply lookup_insert_Some in Hx as [[<- <-]|[_ Hx]].
    + exists (a, v), p. split; [apply asked_new|]. destruct (ai_cache _ _ I a vs w st E1 E2) as [r Hr].
      exists r, w, st. split; [by apply chain_said_app|]. by rewrite Ev; auto.
    + by apply justified_app, (ai_sent _ _ I).
  - intros i Hi. destruct (decide (i = sa_next s)) as [->|Hne].
    + case_bool_decide; [by left|right; left]. rewrite lookup_insert_eq. eauto.
    + destruct (ai_all _ _ I i) as [?|[?|?]]; [lia|by left| |by right; right]. right; left. case_bool_decide; [done|]. by rewrite lookup_insert_ne.
  - rewrite asked_fetches. apply I.
Qed.

(** The question waits for a task. *)
Lemma ask_miss O T : ongoing_requests s ∪ {[(a, v)]} = O -> sa_tasks s ⊆ T -> ((a, v) ∈ ongoing_requests s \/ (a, v) ∈ T) ->
  access_inv l' (add_to_waiting_list (a, v) p (sa_next s)
    (mkAccessor (sa_cache s) O (waiting_list s) (S (sa_next s)) (sa_sent s) (sa_gone s) T (sa_results s))).
Proof.
  intros HO HT Hk. split; simpl.
  - apply asked_next.
  - intros b vs' w' st' H1 H2. edestruct (ai_cache _ _ I) as [r Hr]; eauto using chain_said_app.
  - rewrite asked_fetches. apply I.
  - intros k ws q i Hw Hi. assert ((k = (a, v) /\ q = p /\ i = sa_next s) \/ exists ws', waiting_list s !! k = Some ws' /\ (q, i) ∈ ws') as [(-> & -> & ->)|(ws' & Hw' & Hi')].
    { apply lookup_insert_Some in Hw as [[<- <-]|[_ Hw]]; [|by eauto]. apply elem_of_app in Hi as [Hi|Hi]; [|set_solver].
      destruct (waiting_list s !! (a, v)) eqn:E; [by eauto|set_solver]. }
    + split; [apply asked_new|]. split; [apply sent_fresh|set_solver].
    + destruct (ai_waiting _ _ I k ws' q i Hw' Hi') as (? & ? & ?). split; [by apply asked_old|]. split; [done|set_solver].
  - intros k ws [[<- <-]|[_ Hw]]%lookup_insert_Some; [|by apply (ai_nodup _ _ I k)].
    rewrite fmap_app. apply NoDup_app. destruct (waiting_list s !! (a, v)) as [ws|] eqn:E; simpl.
    + split; [by apply (ai_nodup _ _ I _ _ E)|]. split; [|apply NoDup_singleton].
      intros i ([q j] & -> & Hi)%list_elem_of_fmap Hj%list_elem_of_singleton. simpl in *. pose proof (waiting_lt _ _ _ _ E Hi). lia.
    + split; [constructor|]. split; [set_solver|apply NoDup_singleton].
  - intros i x Hx. by apply justified_app, (ai_sent _ _ I).
  - intros i Hi. destruct (decide (i = sa_next s)) as [->|Hne].
    + right; right. exists (a, v), (default [] (waiting_list s !! (a, v)) ++ [(p, sa_next s)]), p.
      split; [by rewrite lookup_insert_eq|set_solver].
    + destruct (ai_all _ _ I i) as [?|[?|(k & ws & q & Hw & Hq)]]; [lia|by left|by right; left|right; right].
      destruct (decide (k = (a, v))) as [->|Hk']; [|exists k, ws, q; by rewrite lookup_insert_ne].
      exists (a, v), (ws ++ [(p, sa_next s)]), q. rewrite Hw, lookup_insert_eq. split; [done|set_solver].
  - rewrite asked_fetches. intros k Hin. assert (k = (a, v) /\ k ∈ T \/ k ∈ ongoing_requests s) as [[-> ?]|Hin'] by set_solver; [by left|].
    destruct (ai_ongoing _ _ I k Hin') as [?|?]; [left; set_solver|by right].
Qed.

Lemma handle_access_inv : access_inv l' (handle_access_state v a p s).2.
Proof.
  unfold handle_access_state. destruct (w ← v; get_from_cache a w p s) as [o|] eqn:Hb; cbn [oneshot_new]; [by apply ask_hit|].
  simpl. case_bool_decide; simpl.
  - apply ask_miss; [set_solver|done|by left].
  - apply ask_miss; [set_solver|set_solver|right; set_solver].
Qed.
End asking.

Lemma run_fetch_inv l s k client : access_inv l s -> access_inv (l ++ [EFetch k client]) (run_fetch k client s).
Proof.
  intros I0. assert ((k, client) ∈ fetches (l ++ [EFetch k client])) as Hin by (rewrite fetches_app; set_solver).
  pose proof (access_inv_app l [EFetch k client] s I0 eq_refl) as I. clear I0. revert I Hin. generalize (l ++ [EFetch k client]). intros l' I Hin.
  unfold run_fetch. destruct (list_find (k =.) (sa_tasks s)) as [[i k']|] eqn:Hf; [|done].
  apply list_find_Some in Hf as (Hi & <- & _). split; simpl; try apply I.
  - intros k' r [Hr|Hr]%elem_of_app; [by apply I|]. assert (k' = k /\ r = remote_access client k.1 k.2 /\ no_panic r) as (-> & -> & ?).
    { destruct (remote_access client k.1 k.2); simpl in *; set_solver. }
    eauto.
  - intros k' Hk'. destruct (decide (k' = k)) as [->|Hne].
    + right. destruct (remote_access client k.1 k.2) as [x|e|e] eqn:E; [left|left|right]; [rewrite fmap_app; set_solver..|eauto].
    + destruct (ai_ongoing _ _ I k' Hk') as [Ht|[Hr|?]]; [|right; left; rewrite fmap_app; set_solver|by right; right].
      left.
      apply list_elem_of_lookup in Ht as [j Hj]. rewrite delete_take_drop, elem_of_app.
      rewrite <-(take_drop_middle _ _ _ Hi) in Hj. apply lookup_app_Some in Hj as [Hj|[_ Hj]]; [left; by eapply list_elem_of_lookup_2|].
      right. apply list_elem_of_lookup_2 in Hj. set_solver.
Qed.

Lemma forget_inv l s i : access_inv l s -> access_inv l (forget i s).
Proof. intros []. split; simpl; try done. intros j Hj. destruct (ai_all0 j Hj) as [?|?]; [left; set_solver|by right]. Qed.

(** What the actor keeps when it takes a result, but for what waits for it. *)
Lemma take_result_ongoing l s i k r k' : access_inv l s -> sa_results s !! i = Some (k, r) -> k' ∈ ongoing_requests s -> k' <> k ->
  k' ∈ sa_tasks s \/ k' ∈ (base.delete i (sa_results s)).*1 \/
  exists client e, (k', client) ∈ fetches l /\ remote_access client k'.1 k'.2 = Panic e.
Proof.
  intros I Hi Hk' Hne. destruct (ai_ongoing _ _ I k' Hk') as [?|[Hr|?]]; [by left| |by right; right]. right; left.
  rewrite delete_take_drop, fmap_app. rewrite <-(take_drop_middle _ _ _ Hi), fmap_app in Hr. set_solver.
Qed.

Lemma finish_inv l s i k r cache m : access_inv l s -> sa_results s !! i = Some (k, r) ->
  (forall a vs v st, cache !! a = Some vs -> vs !! v = Some st -> exists requested, chain_said l a requested v st) ->
  let ws := default [] (waiting_list s !! k) in
  (forall j, j ∉ ws.*2 \/ j ∈ sa_gone s -> m !! j = sa_sent s !! j) ->
  (forall p j, (p, j) ∈ ws -> j ∉ sa_gone s -> questions l !! j = Some (k, p) -> exists a, m !! j = Some a /\ justified l j a) ->
  access_inv l (mkAccessor cache (ongoing_requests s ∖ {[k]}) (base.delete k (waiting_list s)) (sa_next s) m (sa_gone s)
                  (sa_tasks s) (base.delete i (sa_results s))) /\
  (forall j x, sa_sent s !! j = Some x -> m !! j = Some x).
Proof.
  intros I Hi Hcache ws H1 H2.
  assert (forall p j, (p, j) ∈ ws -> questions l !! j = Some (k, p) /\ sa_sent s !! j = None) as Hws.
  { intros p j Hj. subst ws. destruct (waiting_list s !! k) as [ws|] eqn:E; [|set_solver].
    destruct (ai_waiting _ _ I k ws p j E Hj) as (? & ? & _). done. }
  assert (forall j x, sa_sent s !! j = Some x -> m !! j = Some x) as Hmono.
  { intros j x Hx. rewrite H1; [done|]. left. intros ([p j'] & -> & Hj)%list_elem_of_fmap. simpl in *.
    destruct (Hws p j' Hj) as [_ ?]. congruence. }
  split; [|done]. split; simpl; try apply I; try done.
  - intros k' r' Hr. apply (ai_results _ _ I). rewrite delete_take_drop in Hr. rewrite <-(take_drop_middle _ _ _ Hi). set_solver.
  - intros k' ws' p j [Hne Hw]%lookup_delete_Some Hj. destruct (ai_waiting _ _ I k' ws' p j Hw Hj) as (Hq & Hs & Ho).
    split; [done|]. split; [|set_solver]. rewrite H1; [done|]. left. intros ([p' j'] & -> & Hj')%list_elem_of_fmap. simpl in *.
    destruct (Hws p' j' Hj') as [Hq' _]. congruence.
  - intros k' ws' [_ Hw]%lookup_delete_Some. by apply (ai_nodup _ _ I k').
  - intros j x Hx. destruct (decide (j ∈ ws.*2 /\ j ∉ sa_gone s)) as [[([p j'] & -> & Hj)%list_elem_of_fmap Hg]|Hno].
    + simpl in *. destruct (H2 p j' Hj Hg) as (y & Hy & ?); [by apply Hws|]. by simplify_eq.
    + apply (ai_sent _ _ I). rewrite <-H1; [done|]. destruct (decide (j ∈ sa_gone s)); [by right|]. left. tauto.
  - intros j Hj. destruct (ai_all _ _ I j Hj) as [?|[[x Hx]|(k' & ws' & p & Hw & Hp)]]; [by left|right; left; eauto|].
    destruct (decide (k' = k)) as [->|Hne]; [|right; right; exists k', ws', p; by rewrite lookup_delete_ne].
    destruct (decide (j ∈ sa_gone s)); [by left|]. right; left. assert ((p, j) ∈ ws) as Hin by (subst ws; by rewrite Hw).
    destruct (H2 p j) as (y & -> & _); [done..|by apply Hws|eauto].
  - intros k' [Hk' Hne]%elem_of_difference. eapply take_result_ongoing; eauto. set_solver.
Qed.

(** The state in which the actor answers, and what it sends. *)
Definition store_result (k : StateKey) (r : Fetched) s : ChainStateAccessor :=
  match r with Ok (version, state) => add_to_cache k.1 version state s | _ => s end.
Lemma store_result_cache l s k r client : access_inv l s -> (k, client) ∈ fetches l -> r = remote_access client k.1 k.2 ->
  forall a vs v st, sa_cache (store_result k r s) !! a = Some vs -> vs !! v = Some st -> exists requested, chain_said l a requested v st.
Proof.
  intros I Hf Hr. destruct r as [[version state]| |]; [|apply I..]. intros a vs v st Ha Hv. simpl in Ha.
  apply lookup_insert_Some in Ha as [[<- <-]|[_ Ha]]; [|by eapply (ai_cache _ _ I)].
  apply lookup_insert_Some in Hv as [[<- <-]|[_ Hv]]; [exists k.2, client; by rewrite <-surjective_pairing|].
  destruct (sa_cache s !! k.1) eqn:E; [by eapply (ai_cache _ _ I)|done].
Qed.
Lemma cached_answer_justified l s k r client p j : no_panic r -> (k, client) ∈ fetches l -> r = remote_access client k.1 k.2 ->
  questions l !! j = Some (k, p) -> justified l j (cached_answer k.1 (v ← r; Ok v.1) (store_result k r s) p).
Proof.
  intros Hn Hf Hr Hq. exists k, p. split; [done|]. destruct r as [[version state]|e|e]; simpl; [|by eauto|done].
  rewrite get_from_cache_add. exists k.2, version, state. split; [|by auto]. exists client. by rewrite <-surjective_pairing.
Qed.

Lemma handle_result_eq l s i k r : access_inv l s -> sa_results s !! i = Some (k, r) ->
  let s1 := store_result k r (finish_request k (take_result i s)) in
  let ws := default [] (waiting_list s !! k) in
  exists m, handle_remote_access_result k r (take_result i s) = Ok (set_sent m s1) /\
    (forall j, j ∉ ws.*2 \/ j ∈ sa_gone s -> m !! j = sa_sent s !! j) /\
    (forall p j, (p, j) ∈ ws -> j ∉ sa_gone s -> m !! j = Some (cached_answer k.1 (v ← r; Ok v.1) s1 p)).
Proof.
  intros I Hi s1 ws. destruct (ai_results _ _ I k r) as (Hn & _); [by eapply list_elem_of_lookup_2|].
  unfold handle_remote_access_result. cbn [waiting_list take_result].
  change (match r with Ok (version, state) => _ | _ => _ end) with s1. set (cached := v ← r; Ok v.1).
  assert (sa_gone s1 = sa_gone s /\ sa_sent s1 = sa_sent s) as [Eg Es] by (subst s1; by destruct r as [[]| |]).
  subst ws. destruct (waiting_list s !! k) as [ws|] eqn:Ew; simpl.
  - destruct (answer_all k.1 cached ws s1) as (m & Em & H1 & H2); [by subst cached; destruct r| |by apply (ai_nodup _ _ I k)|].
    { intros v p Hv. subst cached s1. destruct r as [[version state]| |]; simplify_eq/=. rewrite get_from_cache_add. eauto. }
    rewrite Eg, Es in *. eauto.
  - exists (sa_sent s). rewrite <-Es at 1. split; [by destruct s1|]. set_solver.
Qed.
Lemma handle_result_inv l s i k r : access_inv l s -> sa_results s !! i = Some (k, r) ->
  exists s', handle_remote_access_result k r (take_result i s) = Ok s' /\ access_inv l s' /\
    (forall j x, sa_sent s !! j = Some x -> sa_sent s' !! j = Some x).
Proof.
  intros I Hi. destruct (ai_results _ _ I k r) as (Hn & client & Hf & Hr); [by eapply list_elem_of_lookup_2|].
  destruct (handle_result_eq l s i k r I Hi) as (m & -> & H1 & H2). eexists. split; [done|].
  assert (set_sent m (store_result k r (finish_request k (take_result i s))) = mkAccessor (sa_cache (store_result k r s))
    (ongoing_requests s ∖ {[k]}) (base.delete k (waiting_list s)) (sa_next s) m (sa_gone s) (sa_tasks s) (base.delete i (sa_results s)))
    as -> by by destruct r as [[]| |].
  apply (finish_inv l s i k r); [done..|by eapply store_result_cache|done|].
  intros p j Hj Hg Hq. eexists. split; [by apply H2|]. by eapply cached_answer_justified.
Qed.

Lemma new_inv : access_inv [] ChainStateAccessor_new.
Proof. split; simpl; try done; try set_solver. intros; lia. Qed.

(** One event, and a whole history. *)
Lemma access_step_inv l s e : access_inv l s ->
  exists s', access_step s e = Ok s' /\ access_inv (l ++ [e]) s' /\ (forall j x, sa_sent s !! j = Some x -> sa_sent s' !! j = Some x).
Proof.
  intros I. destruct e as [v a p|k client|i|i]; simpl.
  - eexists. split; [done|]. split; [by apply handle_access_inv|]. intros j x Hx. assert (j <> sa_next s).
    { intros ->. by rewrite (sent_fresh l) in Hx. }
    unfold handle_access_state. destruct (w ← v; get_from_cache a w p s); cbn [oneshot_new].
    + rewrite oneshot_send_eq. simpl. case_bool_decide; [done|]. by rewrite lookup_insert_ne.
    + by case_bool_decide.
  - eexists. split; [done|]. split; [by apply run_fetch_inv|]. intros j x Hx. unfold run_fetch. by destruct (list_find _ _) as [[]|].
  - destruct (sa_results s !! i) as [[k r]|] eqn:Hi; [|eauto using access_inv_app].
    destruct (handle_result_inv l s i k r I Hi) as (s' & -> & I' & Hm). eauto using access_inv_app.
  - eexists. split; [done|]. split; [by apply access_inv_app, eq_refl; apply forget_inv|done].
Qed.
Lemma run_access_inv l l' s : access_inv l s ->
  exists s', foldM access_step s l' = Ok s' /\ access_inv (l ++ l') s' /\ (forall j x, sa_sent s !! j = Some x -> sa_sent s' !! j = Some x).
Proof.
  revert l s. induction l' as [|e l' IH]; intros l s I; simpl; [rewrite app_nil_r; eauto|].
  destruct (access_step_inv l s e I) as (s1 & -> & I1 & Hm1). simpl. destruct (IH (l ++ [e]) s1 I1) as (s2 & -> & I2 & Hm2).
  exists s2. split; [done|]. rewrite <-(assoc_L app) in I2. split; [done|]. eauto.
Qed.

(** *** A task that panicked *)

(** The actor believes that the chain is being asked for [k], but nothing is. *)
Definition starved (k : StateKey) (w : bytes * nat) s : Prop :=
  k ∈ ongoing_requests s /\ k ∉ sa_tasks s /\ k ∉ (sa_results s).*1 /\ exists ws, waiting_list s !! k = Some ws /\ w ∈ ws.

Lemma add_waiting_starved k w s k' p i : starved k w s -> starved k w (add_to_waiting_list k' p i s).
Proof.
  intros (Ho & Ht & Hr & ws & Hw & Hin). split_and!; [done..|]. simpl. destruct (decide (k' = k)) as [->|Hne].
  - exists (ws ++ [(p, i)]). rewrite Hw, lookup_insert_eq. split; [done|set_solver].
  - exists ws. by rewrite lookup_insert_ne.
Qed.
Lemma access_step_starved l k w s e s' : access_inv l s -> starved k w s -> access_step s e = Ok s' -> starved k w s'.
Proof.
  intros I (Ho & Ht & Hr & ws & Hw & Hin). destruct e as [v a p|k' client|i|i]; simpl.
  - intros [= <-]. unfold handle_access_state. destruct (x ← v; get_from_cache a x p s); cbn [oneshot_new].
    + rewrite oneshot_send_eq. split_and!; eauto.
    + case_bool_decide as Hb; apply add_waiting_starved; split_and!; simpl in *; try done; [by eauto|set_solver|set_solver|by eauto].
  - intros [= <-]. unfold run_fetch. destruct (list_find (k' =.) (sa_tasks s)) as [[i k'']|] eqn:Hf; [|split_and!; eauto].
    apply list_find_Some in Hf as (Hi & <- & _). assert (k' <> k) by (intros ->; apply Ht; by eapply list_elem_of_lookup_2).
    split_and!; simpl; [done| |rewrite fmap_app; destruct (remote_access client k'.1 k'.2); set_solver|by eauto].
    rewrite delete_take_drop. rewrite <-(take_drop_middle _ _ _ Hi) in Ht. set_solver.
  - destruct (sa_results s !! i) as [[k' r]|] eqn:Hi; [|intros [= <-]; split_and!; eauto].
    assert (k' <> k). { intros ->. apply Hr. apply list_elem_of_fmap. exists (k, r). split; [done|by eapply list_elem_of_lookup_2]. }
    destruct (handle_result_eq l s i k' r I Hi) as (m & -> & _). intros [= <-].
    assert (k ∉ (base.delete i (sa_results s)).*1) as Hd.
    { rewrite delete_take_drop. rewrite <-(take_drop_middle _ _ _ Hi) in Hr. set_solver. }
    assert (base.delete k' (waiting_list s) !! k = Some ws) by by rewrite lookup_delete_ne.
    destruct r as [[]| |]; split_and!; simpl; eauto; set_solver.
  - intros [= <-]. split_and!; eauto.
Qed.
Lemma run_starved l l' k w s s' : access_inv l s -> starved k w s -> foldM access_step s l' = Ok s' -> sa_sent s' !! w.2 = None.
Proof.
  revert l s. induction l' as [|e l' IH]; intros l s I Hs; simpl.
  - intros [= <-]. destruct Hs as (_ & _ & _ & ws & Hw & Hin). destruct w as [p i]. by destruct (ai_waiting _ _ I k ws p i Hw Hin) as (_ & ? & _).
  - destruct (access_step_inv l s e I) as (s1 & E & I1 & _). rewrite E. simpl. apply (IH (l ++ [e])); [done|]. by apply (access_step_starved l k w s e s1).
Qed.
(** The first question of an actor whose task panics is never answered, and the chain is never asked again. *)
Lemma panicked_task_starves v a p client e l s : remote_access client a v = Panic e ->
  run_access (EAccess v a p :: EFetch (a, v) client :: l) = Ok s -> sa_sent s !! 0 = None.
Proof.
  intros Hp E. destruct (run_access_inv [] [EAccess v a p; EFetch (a, v) client] _ new_inv) as (s1 & E1 & I1 & _).
  apply (run_starved [EAccess v a p; EFetch (a, v) client] l (a, v) (p, 0) s1 s I1).
  - simpl in E1. injection E1 as <-. assert ((x ← v; get_from_cache a x p ChainStateAccessor_new) = None) as E0 by by destruct v.
    unfold handle_access_state. rewrite E0. cbn [oneshot_new]. rewrite bool_decide_eq_false_2 by set_solver. unfold run_fetch. simpl.
    rewrite decide_True by done. simpl. rewrite Hp. split_and!; simpl; [set_solver..|]. exists [(p, 0)]. rewrite lookup_insert_eq. set_solver.
  - change (foldM access_step ChainStateAccessor_new ([EAccess v a p; EFetch (a, v) client] ++ l) = Ok s) in E.
    by rewrite foldM_app, E1 in E.
Qed.

(** ** Properties *)

(** C28: whatever questions, answers of the chain, deliveries and dropped receivers there are, and in
    whatever order, the actor does not panic.  An answer with data holds what the chain said about this
    account, either at the version asked for or in reply to the very question; an answer with an error
    means that asking the chain for it failed.  No answer is replaced by a later one.  Once no task and no
    result is left, every question has its answer if its receiver is kept and asking the chain for it did not
    panic. *)
Theorem accessor_answers l :
  exists s, run_access l = Ok s /\
    (forall i a, sa_sent s !! i = Some a -> justified l i a) /\
    (forall l' s' i a, run_access (l ++ l') = Ok s' -> sa_sent s !! i = Some a -> sa_sent s' !! i = Some a) /\
    (sa_tasks s = [] -> sa_results s = [] -> forall i k p, questions l !! i = Some (k, p) -> i ∉ sa_gone s ->
       (forall client, (k, client) ∈ fetches l -> no_panic (remote_access client k.1 k.2)) -> is_Some (sa_sent s !! i)).
Proof.
  destruct (run_access_inv [] l _ new_inv) as (s & E & I & _). simpl in I. exists s. split; [done|]. split; [apply I|]. split.
  - intros l' s' i a E' Ha. unfold run_access in E'. rewrite foldM_app, E in E'. simpl in E'.
    destruct (run_access_inv l l' s I) as (s2 & E2 & _ & Hm). rewrite E2 in E'. injection E' as <-. by apply Hm.
  - intros Ht Hr i k p Hq Hg Hp. destruct (ai_all _ _ I i) as [?|[?|(k' & ws & q & Hw & Hi)]]; [|done..|].
    { rewrite (ai_next _ _ I). by apply lookup_lt_Some in Hq. }
    destruct (ai_waiting _ _ I k' ws q i Hw Hi) as (Hq' & _ & Ho). simplify_eq.
    destruct (ai_ongoing _ _ I k Ho) as [H|[H|(client & e & Hc & He)]]; [by rewrite Ht in H; set_solver|by rewrite Hr in H; set_solver|].
    specialize (Hp client Hc). by rewrite He in Hp.
Qed.
End access.
