(* ===== verification/Overlay.v ===== *)
(** * The overlay network

    Models [src/sgnetwork/src/net.rs], [message.rs] and [helper.rs]: messages between accounts over the custom
    protocol of the network service, with or without an acknowledgement.  The codec of the messages, the
    identities of libp2p and the clock are parameters; a node is its table of awaited acknowledgements, the
    queues to and from its user, and what it has handed to the network service below.

    The theorem: in a network that loses and reorders messages, a send that completes has put its data into
    the receiver's queue, under the sender's address; and it completes when the message and its
    acknowledgement are delivered. *)
From Stdlib Require Import Ascii.
From S2P Require Import Prelude Codec Libra.

(** ** [message.rs] *)

Record PayloadMsg := mkPayloadMsg { pm_id : Z; pm_data : bytes }.
Inductive Message := ACK (message_id : Z) | Payload (p : PayloadMsg).

(** [parity_codec]: decoding inverts encoding. *)
Class ParityCodec := {
  parity_encode : Message -> bytes;
  parity_decode : bytes -> option Message
}.
Class ParityCodecLaws {PC : ParityCodec} : Prop := parity_roundtrip m : parity_decode (parity_encode m) = Some m.

(** libp2p's identities: the bytes of a multihash.  Those that start with the code and the length of sha3-256
    and go on with an address are valid, since addresses are sha3-256 hashes. *)
Class PeerIds {L : Libra} := {
  PeerId : Type;
  PeerId_eq :: EqDecision PeerId;
  PeerId_countable :: Countable PeerId;
  peer_as_bytes : PeerId -> bytes;
  peer_from_bytes : bytes -> option PeerId;
  (* [Display], in base 58 *)
  peer_to_string : PeerId -> string;
  address_from_str : string -> res AccountAddress
}.
Class PeerIdsLaws {L : Libra} {PI : PeerIds} : Prop := {
  peer_from_address a : is_Some (peer_from_bytes ([22; 32]%Z ++ address_to_vec a));
  peer_from_bytes_Some b p : peer_from_bytes b = Some p -> peer_as_bytes p = b
}.

Section overlay.
Context {L : Libra} {PI : PeerIds} {PC : ParityCodec}.

Definition into_bytes (m : Message) : bytes := parity_encode m.
Definition from_bytes (b : bytes) : res Message :=
  match parity_decode b with Some m => Ok m | None => Err "()" end.
(** [unix_ts] is the time in nanoseconds. *)
Definition new_payload (unix_ts : Z) (data : bytes) : Message * Z := (Payload (mkPayloadMsg unix_ts data), unix_ts).
Definition new_message (data : bytes) : Message := Payload (mkPayloadMsg 0 data).
Definition as_payload (m : Message) : option bytes := match m with Payload p => Some (pm_data p) | _ => None end.
Record NetworkMessage := mkNetworkMessage { nm_peer_id : AccountAddress; nm_data : bytes }.

(** ** [helper.rs] *)

Definition convert_peer_id_to_account_address (p : PeerId) : res AccountAddress :=
  match peer_as_bytes p with
  | _ :: _ :: b => address_try_from b
  | _ => Panic "range start index 2 out of range for slice"
  end.
Definition convert_account_address_to_peer_id (address : AccountAddress) : res PeerId :=
  match peer_from_bytes (22 :: 32 :: address_to_vec address)%Z with Some p => Ok p | None => Err "bytes" end.

(** [x.rfind("/")] with the parts before and after it *)
Fixpoint rsplit_slash (s : string) : option (string * string) :=
  match s with
  | String.EmptyString => None
  | String.String c rest =>
      match rsplit_slash rest with
      | Some (addr, account) => Some (String.String c addr, account)
      | None => if bool_decide (c = "/"%char) then Some (String.EmptyString, rest) else None
      end
  end.
Definition convert_boot_node (x : string) : res string :=
  '(addr, account_address) ← expect (rsplit_slash x) "Failed to parse boot nodes";
  address ← expect_ok (address_from_str account_address);
  peer_id ← expect_ok (convert_account_address_to_peer_id address);
  Ok (addr +:+ "/" +:+ peer_to_string peer_id).
Definition convert_boot_nodes (boot_nodes : list string) : res (list string) := mapM convert_boot_node boot_nodes.

(** ** [net.rs] *)

(** [ServiceEvent] of the network service *)
Inductive ServiceEvent :=
| OpenedCustomProtocol (peer_id : PeerId) (version : Z)
| ClosedCustomProtocol (peer_id : PeerId)
| CustomMessage (peer_id : PeerId) (message : bytes)
| Clogged (peer_id : PeerId) (messages : list bytes).

(** A future of [send_message] is a number; [ns_done] are those that completed.  [ns_connected] says that the
    first event was seen, and [ns_open] which peers the service below has an open protocol with. *)
Record NetworkService := mkNetworkService {
  ns_peer_id : PeerId;
  acks : gmap Z nat;
  ns_next : nat;
  ns_done : gset nat;
  ns_connected : bool;
  ns_open : gset PeerId;
  ns_to_user : list NetworkMessage;
  ns_from_user : list NetworkMessage;
  ns_sent : list (PeerId * bytes)
}.
Implicit Types s : NetworkService.
Notation N := (stM NetworkService).

(** [NetworkService::new] *)
Definition NetworkService_new (peer_id : PeerId) : NetworkService := mkNetworkService peer_id ∅ 0 ∅ false ∅ [] [] [].

Definition send_custom_message (peer_id : PeerId) (data : bytes) s : NetworkService :=
  mkNetworkService (ns_peer_id s) (acks s) (ns_next s) (ns_done s) (ns_connected s) (ns_open s) (ns_to_user s) (ns_from_user s)
    (ns_sent s ++ [(peer_id, data)]).
Definition set_acks a s : NetworkService :=
  mkNetworkService (ns_peer_id s) a (ns_next s) (ns_done s) (ns_connected s) (ns_open s) (ns_to_user s) (ns_from_user s) (ns_sent s).
Definition set_done d s : NetworkService :=
  mkNetworkService (ns_peer_id s) (acks s) (ns_next s) d (ns_connected s) (ns_open s) (ns_to_user s) (ns_from_user s) (ns_sent s).
Definition to_user (m : NetworkMessage) s : NetworkService :=
  mkNetworkService (ns_peer_id s) (acks s) (ns_next s) (ns_done s) (ns_connected s) (ns_open s) (ns_to_user s ++ [m]) (ns_from_user s) (ns_sent s).
Definition set_from_user l s : NetworkService :=
  mkNetworkService (ns_peer_id s) (acks s) (ns_next s) (ns_done s) (ns_connected s) (ns_open s) (ns_to_user s) l (ns_sent s).
Definition set_connected s : NetworkService :=
  mkNetworkService (ns_peer_id s) (acks s) (ns_next s) (ns_done s) true (ns_open s) (ns_to_user s) (ns_from_user s) (ns_sent s).
(** What the service below knows about its links when it reports an event. *)
Definition note_event (e : ServiceEvent) s : NetworkService :=
  let open := match e with
              | OpenedCustomProtocol p _ => {[p]} ∪ ns_open s
              | ClosedCustomProtocol p => ns_open s ∖ {[p]}
              | _ => ns_open s
              end in
  mkNetworkService (ns_peer_id s) (acks s) (ns_next s) (ns_done s) (ns_connected s) open (ns_to_user s) (ns_from_user s) (ns_sent s).

(** [connected_fut]: the first event, whatever it is, is taken and only logged. *)
Definition connected_fut (event : ServiceEvent) : N unit :=
  _ ← match event with
      | OpenedCustomProtocol peer_id _ => _ ← lift (expect_ok (convert_peer_id_to_account_address peer_id)); mret tt
      | _ => mret tt
      end;
  modifyS set_connected.
(** [network_fut]: every later event *)
Definition handle_ack (message_id : Z) : N unit := fun s =>
  match acks s !! message_id with
  | Some tx => (Ok tt, set_done ({[tx]} ∪ ns_done s) (set_acks (base.delete message_id (acks s)) s))
  | None => (Ok tt, s)
  end.
Definition handle_message (peer_id : PeerId) (message : bytes) : N unit :=
  message ← lift (expect_ok (from_bytes message));
  match message with
  | Payload payload =>
      address ← lift (expect_ok (convert_peer_id_to_account_address peer_id));
      _ ← modifyS (to_user (mkNetworkMessage address (pm_data payload)));
      if bool_decide (pm_id payload <> 0%Z)
      then modifyS (send_custom_message peer_id (into_bytes (ACK (pm_id payload))))
      else mret tt
  | ACK message_id => handle_ack message_id
  end.
Definition network_fut (event : ServiceEvent) : N unit :=
  match event with
  | CustomMessage peer_id message => handle_message peer_id message
  | OpenedCustomProtocol peer_id _ => _ ← lift (expect_ok (convert_peer_id_to_account_address peer_id)); mret tt
  | ClosedCustomProtocol _ | Clogged _ _ => mret tt
  end.
Definition handle_service_event (event : ServiceEvent) : N unit :=
  _ ← modifyS (note_event event);
  s ← getS;
  if ns_connected s then network_fut event else connected_fut event.
(** [protocol_fut]: the next message of the user, after the first event *)
Definition protocol_fut : N unit :=
  s ← getS;
  if negb (ns_connected s) then mret tt
  else
    match ns_from_user s with
    | [] => mret tt
    | message :: rest =>
        _ ← modifyS (set_from_user rest);
        peer_id ← lift (expect_ok (convert_account_address_to_peer_id (nm_peer_id message)));
        _ ← modifyS (send_custom_message peer_id (into_bytes (new_message (nm_data message))));
        if bool_decide (peer_id ∈ ns_open s) then mret tt
        else _ ← lift (expect_ok (convert_peer_id_to_account_address peer_id)); mret tt
    end.

(** [is_connected], [identify] and [send_message] *)
Definition is_connected (address : AccountAddress) s : res bool :=
  p ← expect_ok (convert_account_address_to_peer_id address);
  Ok (bool_decide (p ∈ ns_open s)).
Definition identify s : res AccountAddress := expect_ok (convert_peer_id_to_account_address (ns_peer_id s)).
Definition send_message (unix_ts : Z) (account_address : AccountAddress) (message : bytes) : N nat :=
  s ← getS;
  let rx := ns_next s in
  _ ← modifyS (fun s => mkNetworkService (ns_peer_id s) (acks s) (S (ns_next s)) (ns_done s) (ns_connected s) (ns_open s)
                          (ns_to_user s) (ns_from_user s) (ns_sent s));
  let '(protocol_msg, message_id) := new_payload unix_ts message in
  peer_id ← lift (expect_ok (convert_account_address_to_peer_id account_address));
  _ ← modifyS (send_custom_message peer_id (into_bytes protocol_msg));
  _ ← modifyS (fun s => set_acks (<[message_id := rx]> (acks s)) s);
  mret rx.

(** ** Networks *)

(** The nodes by their identities, the messages under way, and a record of the sends: for the future of a node
    the number, the receiver and the data of its message. *)
Record World := mkWorld {
  w_nodes : gmap PeerId NetworkService;
  w_wires : list (PeerId * PeerId * bytes);
  w_log : gmap (PeerId * nat) (Z * AccountAddress * bytes)
}.
Implicit Types w : World.

Inductive overlay_event :=
| OSend (p : PeerId) (unix_ts : Z) (receiver : AccountAddress) (data : bytes)
| OUser (p : PeerId) (receiver : AccountAddress) (data : bytes)
| OFlush (p : PeerId)
| OLink (p : PeerId) (remote : PeerId) (opened : bool)
| ODeliver (i : nat)
| OLose (i : nat).

Definition posted (p : PeerId) s : list (PeerId * PeerId * bytes) := (fun m => (p, m.1, m.2)) <$> ns_sent s.
Definition clear_sent s : NetworkService :=
  mkNetworkService (ns_peer_id s) (acks s) (ns_next s) (ns_done s) (ns_connected s) (ns_open s) (ns_to_user s) (ns_from_user s) [].
(** A node acts, and what it hands to the service is under way. *)
Definition act {T} (p : PeerId) (m : N T) w : res (option T * World) :=
  match w_nodes w !! p with
  | None => Ok (None, w)
  | Some s =>
      match m s with
      | (Ok t, s') => Ok (Some t, mkWorld (<[p := clear_sent s']> (w_nodes w)) (w_wires w ++ posted p s') (w_log w))
      | (Err e, _) => Err e
      | (Panic e, _) => Panic e
      end
  end.
Definition lose (i : nat) w : World := mkWorld (w_nodes w) (base.delete i (w_wires w)) (w_log w).
Definition overlay_step w (e : overlay_event) : res World :=
  match e with
  | OSend p unix_ts receiver data =>
      '(rx, w) ← act p (send_message unix_ts receiver data) w;
      Ok (match rx with Some rx => mkWorld (w_nodes w) (w_wires w) (<[(p, rx) := (unix_ts, receiver, data)]> (w_log w)) | None => w end)
  | OUser p receiver data =>
      '(_, w) ← act p (modifyS (fun s => set_from_user (ns_from_user s ++ [mkNetworkMessage receiver data]) s)) w; Ok w
  | OFlush p => '(_, w) ← act p protocol_fut w; Ok w
  | OLink p remote opened =>
      if bool_decide (is_Some (w_nodes w !! remote)) then
        '(_, w) ← act p (handle_service_event (if opened then OpenedCustomProtocol remote 0 else ClosedCustomProtocol remote)) w; Ok w
      else Ok w
  | ODeliver i =>
      match w_wires w !! i with
      | Some (p, q, message) => '(_, w) ← act q (handle_service_event (CustomMessage p message)) (lose i w); Ok w
      | None => Ok w
      end
  | OLose i => Ok (lose i w)
  end.
(** A network of the nodes of some accounts. *)
Definition new_nodes (accounts : list AccountAddress) : gmap PeerId NetworkService :=
  foldr (fun a m => match convert_account_address_to_peer_id a with Ok p => <[p := NetworkService_new p]> m | _ => m end) ∅ accounts.
Definition run_overlay (accounts : list AccountAddress) (l : list overlay_event) : res World :=
  foldM overlay_step (mkWorld (new_nodes accounts) [] ∅) l.
(** The numbers that the nodes gave to their messages. *)
Definition send_ids (l : list overlay_event) : list (PeerId * Z) :=
  omap (fun e => match e with OSend p unix_ts _ _ => Some (p, unix_ts) | _ => None end) l.

(** ** Lemmas *)

Context {LL : LibraLaws} {PL : PeerIdsLaws} {PCL : ParityCodecLaws}.
Notation peer a := (convert_account_address_to_peer_id a).

Lemma peer_total a : exists p, peer a = Ok p.
Proof.
  unfold convert_account_address_to_peer_id. destruct (peer_from_address a) as [p Hp]. simpl in Hp. rewrite Hp. eauto.
Qed.
Lemma peer_roundtrip a p : peer a = Ok p -> convert_peer_id_to_account_address p = Ok a.
Proof.
  unfold convert_account_address_to_peer_id, convert_peer_id_to_account_address.
  destruct (peer_from_bytes _) as [p'|] eqn:E; [|done]. intros [= <-]. rewrite (peer_from_bytes_Some _ _ E). apply address_roundtrip.
Qed.
Lemma peer_inj a b p : peer a = Ok p -> peer b = Ok p -> a = b.
Proof. intros Ha%peer_roundtrip Hb%peer_roundtrip. congruence. Qed.

(** *** Invariant *)

Definition arrived w (a b : AccountAddress) (data : bytes) : Prop :=
  exists q s, peer b = Ok q /\ w_nodes w !! q = Some s /\ mkNetworkMessage a data ∈ ns_to_user s.
(** A message on its way from [p] to [q]. *)
Definition wire_ok w (p q : PeerId) (b : bytes) : Prop :=
  exists m, parity_decode b = Some m /\
  match m with
  | Payload (mkPayloadMsg id data) => id = 0%Z \/ exists rx c, w_log w !! (p, rx) = Some (id, c, data) /\ peer c = Ok q
  | ACK id => exists rx a c data, peer a = Ok q /\ w_log w !! (q, rx) = Some (id, c, data) /\ arrived w a c data
  end.
Definition node_ok w (p : PeerId) s : Prop :=
  ns_sent s = [] /\ (exists a, peer a = Ok p) /\
  (forall id rx, acks s !! id = Some rx -> exists c data, w_log w !! (p, rx) = Some (id, c, data)) /\
  (forall rx, ns_next s <= rx -> w_log w !! (p, rx) = None) /\
  (forall rx, rx ∈ ns_done s -> exists a id c data, peer a = Ok p /\ w_log w !! (p, rx) = Some (id, c, data) /\ arrived w a c data).
Record overlay_inv (l : list overlay_event) w : Prop := {
  ov_wires p q b : (p, q, b) ∈ w_wires w -> is_Some (w_nodes w !! p) /\ wire_ok w p q b;
  ov_nodes p s : w_nodes w !! p = Some s -> node_ok w p s;
  ov_ids p rx x : w_log w !! (p, rx) = Some x -> (p, x.1.1) ∈ send_ids l;
  ov_unique p rx rx' x x' : w_log w !! (p, rx) = Some x -> w_log w !! (p, rx') = Some x' -> x.1.1 = x'.1.1 -> rx = rx'
}.

(** What is known about a network stays true as its log and its users' queues grow. *)
Definition grows w w' : Prop :=
  w_log w ⊆ w_log w' /\
  forall q t, w_nodes w !! q = Some t -> exists t', w_nodes w' !! q = Some t' /\ forall x, x ∈ ns_to_user t -> x ∈ ns_to_user t'.
Lemma arrived_grows w w' a b data : grows w w' -> arrived w a b data -> arrived w' a b data.
Proof. intros [_ H] (q & t & Hb & Ht & Hx). destruct (H q t Ht) as (t' & Ht' & Hin). exists q, t'. auto. Qed.
Lemma wire_ok_grows w w' p q b : grows w w' -> wire_ok w p q b -> wire_ok w' p q b.
Proof.
  intros Hg (m & Hm & H). pose proof Hg as [Hl _]. exists m. split; [done|]. destruct m as [id|[id data]].
  - destruct H as (rx & a & c & data & Ha & Hrx & Harr). exists rx, a, c, data. split; [done|]. split; [by eapply lookup_weaken|by eapply arrived_grows].
  - destruct H as [?|(rx & c & Hrx & Hc)]; [by left|right]. exists rx, c. split; [by eapply lookup_weaken|done].
Qed.
Lemma lose_inv l w i : overlay_inv l w -> overlay_inv l (lose i w).
Proof.
  intros []. split; [|done..]. intros p q b Hin. apply (ov_wires0 p q b). simpl in Hin.
  rewrite delete_take_drop in Hin. destruct (w_wires w !! i) as [x|] eqn:E.
  - rewrite <-(take_drop_middle _ _ _ E). set_solver.
  - apply lookup_ge_None_1 in E. by rewrite take_ge, drop_ge, app_nil_r in Hin by lia.
Qed.
Lemma overlay_inv_app l l' w : overlay_inv l w -> overlay_inv (l ++ l') w.
Proof.
  intros []. split; try done. intros p rx x Hx. unfold send_ids. rewrite omap_app, elem_of_app. left. by apply (ov_ids0 p rx).
Qed.

(** A node acts without giving a number to a message. *)
Record act_ok w (p : PeerId) s s' : Prop := {
  ao_acks id rx : acks s' !! id = Some rx -> acks s !! id = Some rx;
  ao_next : ns_next s' = ns_next s;
  ao_user x : x ∈ ns_to_user s -> x ∈ ns_to_user s';
  ao_done rx : rx ∈ ns_done s' -> rx ∈ ns_done s \/ exists a id c data, peer a = Ok p /\ w_log w !! (p, rx) = Some (id, c, data) /\ arrived w a c data;
  ao_sent q b : (q, b) ∈ ns_sent s' ->
    wire_ok (mkWorld (<[p := clear_sent s']> (w_nodes w)) (w_wires w ++ posted p s') (w_log w)) p q b
}.
Lemma act_grows w p s s' wires : w_nodes w !! p = Some s -> (forall x, x ∈ ns_to_user s -> x ∈ ns_to_user s') ->
  grows w (mkWorld (<[p := clear_sent s']> (w_nodes w)) wires (w_log w)).
Proof.
  intros Hs Hu. split; [done|]. intros q t Ht. simpl. destruct (decide (q = p)) as [->|Hne].
  - rewrite lookup_insert_eq. exists (clear_sent s'). split; [done|]. simplify_eq. done.
  - rewrite lookup_insert_ne by done. eauto.
Qed.
Lemma act_inv {T} l w p (m : N T) : overlay_inv l w ->
  (forall s, w_nodes w !! p = Some s -> node_ok w p s -> exists t s', m s = (Ok t, s') /\ act_ok w p s s') ->
  exists o w', act p m w = Ok (o, w') /\ overlay_inv l w'.
Proof.
  intros I Hm. unfold act. destruct (w_nodes w !! p) as [s|] eqn:Hs; [|by eauto].
  destruct (Hm s eq_refl (ov_nodes _ _ I p s Hs)) as (t & s' & -> & A). do 2 eexists. split; [done|].
  set (w' := mkWorld _ _ _). assert (grows w w') as Hg by by apply (act_grows w p s); [|apply A].
  split; try apply I.
  - intros p' q b [Hin|Hin]%elem_of_app.
    + destruct (ov_wires _ _ I p' q b Hin) as [[t' Ht'] Hw]. split; [|by eapply wire_ok_grows].
      destruct Hg as [_ Hg]. destruct (Hg p' t' Ht') as (t2 & Ht2 & _). eauto.
    + apply list_elem_of_fmap in Hin as ([q' b'] & [= -> -> ->] & Hin). split; [simpl; rewrite lookup_insert_eq; eauto|by apply A].
  - intros q t' Hq. simpl in Hq. destruct (decide (q = p)) as [->|Hne].
    + rewrite lookup_insert_eq in Hq. injection Hq as <-. destruct (ov_nodes _ _ I p s Hs) as (_ & Ha & Hack & Hnext & Hdone).
      split_and!; [done|done| | |].
      * intros id rx Hid. by apply Hack, (ao_acks _ _ _ _ A).
      * intros rx. simpl. rewrite (ao_next _ _ _ _ A). apply Hnext.
      * intros rx Hrx. assert (exists a id c data, peer a = Ok p /\ w_log w !! (p, rx) = Some (id, c, data) /\ arrived w a c data)
          as (a & id & c & data & H1 & H2 & H3) by (destruct (ao_done _ _ _ _ A rx Hrx); eauto).
        exists a, id, c, data. split; [done|]. split; [done|by eapply arrived_grows].
    + rewrite lookup_insert_ne in Hq by done. destruct (ov_nodes _ _ I q t' Hq) as (Hn1 & Hn2 & Hn3 & Hn4 & Hdone).
      split_and!; [done..|]. intros rx Hrx. destruct (Hdone rx Hrx) as (a & id & c & data & H1 & H2 & H3).
      exists a, id, c, data. split; [done|]. split; [done|by eapply arrived_grows].
Qed.

(** Acting that only logs, or that only sends a message without a number. *)
Lemma act_ok_plain w p s s' : acks s' = acks s -> ns_next s' = ns_next s -> ns_done s' = ns_done s -> ns_to_user s' = ns_to_user s ->
  (forall q b, (q, b) ∈ ns_sent s' -> exists data, b = into_bytes (new_message data)) -> act_ok w p s s'.
Proof.
  intros E1 E2 E3 E4 Hs. split; [by rewrite E1|done|by rewrite E4|rewrite E3; by left|].
  intros q b Hb. destruct (Hs q b Hb) as [data ->]. exists (new_message data). split; [apply parity_roundtrip|by left].
Qed.
Lemma protocol_fut_ok w p s : node_ok w p s -> exists t s', protocol_fut s = (Ok t, s') /\ act_ok w p s s'.
Proof.
  intros (Hsent & _). unfold protocol_fut, mbind, stM_bind, getS, lift, modifyS.
  destruct (ns_connected s); simpl; [|do 2 eexists; split; [done|]; apply act_ok_plain; try done; rewrite Hsent; set_solver].
  destruct (ns_from_user s) as [|[a data] rest]; simpl; [do 2 eexists; split; [done|]; apply act_ok_plain; try done; rewrite Hsent; set_solver|].
  destruct (peer_total a) as [q Hq]. rewrite Hq. simpl.
  assert (act_ok w p s (send_custom_message q (into_bytes (new_message data)) (set_from_user rest s))) as Ha.
  { apply act_ok_plain; try done. simpl. rewrite Hsent. intros q' b Hin. apply list_elem_of_singleton in Hin as [= -> ->]. eauto. }
  case_bool_decide; [by eauto|]. rewrite (peer_roundtrip a q Hq). simpl. eauto.
Qed.

Section handling.
Context (l : list overlay_event) (w : World) (I : overlay_inv l w).

Lemma link_event_ok p remote (opened : bool) s : is_Some (w_nodes w !! remote) -> node_ok w p s ->
  exists t s', handle_service_event (if opened then OpenedCustomProtocol remote 0 else ClosedCustomProtocol remote) s = (Ok t, s') /\ act_ok w p s s'.
Proof.
  intros [r Hr] (Hsent & _). destruct (ov_nodes _ _ I remote r Hr) as (_ & (a & Ha) & _). apply peer_roundtrip in Ha.
  assert (forall x, act_ok w p s (note_event x s) /\ act_ok w p s (set_connected (note_event x s))) as Hx.
  { intros x. split; apply act_ok_plain; try done; simpl; rewrite Hsent; set_solver. }
  unfold handle_service_event, mbind, stM_bind, getS, modifyS. simpl. destruct (ns_connected s); destruct opened; simpl;
    unfold connected_fut, mbind, stM_bind, lift, modifyS; simpl; rewrite ?Ha; simpl; do 2 eexists; (split; [done|]); apply Hx.
Qed.

(** A message is taken from its wire. *)
Lemma payload_ok p q s b id data : is_Some (w_nodes w !! p) -> node_ok w q s -> parity_decode b = Some (Payload (mkPayloadMsg id data)) ->
  (id = 0%Z \/ exists rx c, w_log w !! (p, rx) = Some (id, c, data) /\ peer c = Ok q) ->
  exists t s', handle_message p b s = (Ok t, s') /\ act_ok w q s s'.
Proof.
  intros [sp Hp] (Hsent & _) Hm Hw. destruct (ov_nodes _ _ I p sp Hp) as (_ & (a & Ha) & _).
  unfold handle_message, from_bytes, mbind, stM_bind, lift, modifyS. rewrite Hm. simpl. rewrite (peer_roundtrip a p Ha). simpl.
  case_bool_decide as Hid; simpl; do 2 eexists; (split; [done|]).
  2: { split; simpl; [done|done|set_solver|by left|rewrite Hsent; set_solver]. }
  destruct Hw as [?|(rx & c & Hrx & Hc)]; [done|]. split; simpl; [done|done|set_solver|by left|].
  rewrite Hsent. intros q' b' Hin. apply list_elem_of_singleton in Hin as [= -> ->]. exists (ACK id). split; [apply parity_roundtrip|].
  exists rx, a, c, data. split; [done|]. split; [done|]. exists q. eexists. split; [done|]. split; [simpl; by rewrite lookup_insert_eq|].
  simpl. set_solver.
Qed.
Lemma ack_ok p q s b id : node_ok w q s -> parity_decode b = Some (ACK id) ->
  (exists rx a c data, peer a = Ok q /\ w_log w !! (q, rx) = Some (id, c, data) /\ arrived w a c data) ->
  exists t s', handle_message p b s = (Ok t, s') /\ act_ok w q s s'.
Proof.
  intros (Hsent & _ & Hack & _) Hm (rx & a & c & data & Ha & Hrx & Harr).
  unfold handle_message, from_bytes, mbind, stM_bind, lift. rewrite Hm. simpl. unfold handle_ack.
  destruct (acks s !! id) as [tx|] eqn:E; do 2 eexists; (split; [done|]).
  2: { split; [done|done|done|by left|rewrite Hsent; set_solver]. }
  destruct (Hack id tx E) as (c' & data' & Htx). assert (tx = rx) as -> by by apply (ov_unique _ _ I q _ _ _ _ Htx Hrx).
  split; simpl; [|done|done| |rewrite Hsent; set_solver].
  - intros id' rx' [_ ?]%lookup_delete_Some. done.
  - intros rx' [->%elem_of_singleton|?]%elem_of_union; [|by left]. right. exists a, id, c, data. done.
Qed.
Lemma message_event_ok p q b s : is_Some (w_nodes w !! p) -> node_ok w q s -> wire_ok w p q b ->
  exists t s', handle_service_event (CustomMessage p b) s = (Ok t, s') /\ act_ok w q s s'.
Proof.
  intros Hp Hok (m & Hm & Hw). unfold handle_service_event, mbind, stM_bind, getS, modifyS. simpl.
  assert (note_event (CustomMessage p b) s = s) as -> by by destruct s. destruct (ns_connected s); simpl.
  - destruct m as [id|[id data]]; [by eapply ack_ok|by eapply payload_ok].
  - do 2 eexists. split; [done|]. destruct Hok as (Hsent & _). apply act_ok_plain; try done. simpl. rewrite Hsent. set_solver.
Qed.

(** Sending gives a new number to the message. *)
Lemma send_message_eq ts a data p s : node_ok w p s -> exists q, peer a = Ok q /\
  send_message ts a data s = (Ok (ns_next s), mkNetworkService (ns_peer_id s) (<[ts := ns_next s]> (acks s)) (S (ns_next s)) (ns_done s)
    (ns_connected s) (ns_open s) (ns_to_user s) (ns_from_user s) [(q, into_bytes (Payload (mkPayloadMsg ts data)))]).
Proof.
  intros (Hsent & _). destruct (peer_total a) as [q Hq]. exists q. split; [done|].
  unfold send_message, mbind, stM_bind, getS, modifyS, lift. simpl. rewrite Hq. simpl. by rewrite Hsent.
Qed.
End handling.
Lemma send_inv l w p ts a data : overlay_inv l w -> ts <> 0%Z -> (p, ts) ∉ send_ids l ->
  exists w', overlay_step w (OSend p ts a data) = Ok w' /\ overlay_inv (l ++ [OSend p ts a data]) w'.
Proof.
  intros I Hts Hfresh. simpl. unfold act. destruct (w_nodes w !! p) as [s|] eqn:Hs; simpl; [|eauto using overlay_inv_app].
  pose proof (ov_nodes _ _ I p s Hs) as Hok. destruct (send_message_eq w ts a data p s Hok) as (q & Hq & ->). simpl.
  eexists. split; [done|]. set (w' := mkWorld _ _ _). destruct Hok as (Hsent & Hp & Hack & Hnext & Hdone).
  assert (w_log w !! (p, ns_next s) = None) as Hnew by by apply Hnext.
  assert (grows w w') as Hg.
  { split; [by apply insert_subseteq|]. intros r t Ht. simpl. destruct (decide (r = p)) as [->|Hne]; [rewrite lookup_insert_eq|rewrite lookup_insert_ne by done; by eauto].
    eexists. split; [done|]. simplify_eq. done. }
  assert (forall r rx, r <> p -> w_log w' !! (r, rx) = w_log w !! (r, rx)) as Hother by (intros; apply lookup_insert_ne; congruence).
  assert (forall rx x, w_log w' !! (p, rx) = Some x -> rx = ns_next s /\ x = (ts, a, data) \/ w_log w !! (p, rx) = Some x) as Hlog.
  { intros rx x Hx. unfold w' in Hx. simpl in Hx. apply lookup_insert_Some in Hx as [[[= <-] <-]|[_ ?]]; auto. }
  split.
  - intros p' q' b [Hin|Hin]%elem_of_app.
    + destruct (ov_wires _ _ I p' q' b Hin) as [[t Ht] Hw]. split; [|by eapply wire_ok_grows]. destruct Hg as [_ Hg].
      destruct (Hg p' t Ht) as (t' & Ht' & _). eauto.
    + apply list_elem_of_singleton in Hin as [= -> -> ->]. split; [simpl; rewrite lookup_insert_eq; eauto|].
      exists (Payload (mkPayloadMsg ts data)). split; [apply parity_roundtrip|]. right. exists (ns_next s), a. split; [apply lookup_insert_eq|done].
  - intros r t Ht. simpl in Ht. destruct (decide (r = p)) as [->|Hne].
    + rewrite lookup_insert_eq in Ht. injection Ht as <-. split_and!; [done|done| | |]; simpl.
      * intros id rx [[<- <-]|[_ Hid]]%lookup_insert_Some; [exists a, data; apply lookup_insert_eq|].
        destruct (Hack id rx Hid) as (c & d & Hc). exists c, d. by eapply lookup_weaken; [|apply Hg].
      * intros rx Hrx. change (w_log w' !! (p, rx) = None). apply eq_None_not_Some. intros [x [[-> _]|Hx]%Hlog]; [lia|]. rewrite Hnext in Hx by lia. done.
      * intros rx Hrx. destruct (Hdone rx Hrx) as (a' & id & c & d & H1 & H2 & H3). exists a', id, c, d. split; [done|].
        split; [by eapply lookup_weaken; [|apply Hg]|by eapply arrived_grows].
    + rewrite lookup_insert_ne in Ht by done. destruct (ov_nodes _ _ I r t Ht) as (Hn1 & Hn2 & Hn3 & Hn4 & Hn5). split_and!; [done|done| | |].
      * intros id rx Hid. rewrite Hother by done. by apply Hn3.
      * intros rx Hrx. rewrite Hother by done. by apply Hn4.
      * intros rx Hrx. destruct (Hn5 rx Hrx) as (a' & id & c & d & H1 & H2 & H3). exists a', id, c, d. rewrite Hother by done.
        split; [done|]. split; [done|by eapply arrived_grows].
  - intros r rx x Hx. unfold send_ids. rewrite omap_app, elem_of_app. destruct (decide (r = p)) as [->|Hne].
    + apply Hlog in Hx as [[_ ->]|Hx]; [right; set_solver|left; by apply (ov_ids _ _ I p rx)].
    + rewrite Hother in Hx by done. left. by apply (ov_ids _ _ I r rx).
  - intros r rx rx' x x' Hx Hx' E. destruct (decide (r = p)) as [->|Hne].
    + apply Hlog in Hx as [[-> ->]|Hx]; apply Hlog in Hx' as [[-> ->]|Hx']; [done| | |by apply (ov_unique _ _ I p rx rx' x x')]; destruct Hfresh.
      * apply (ov_ids _ _ I) in Hx'. simpl in E. congruence.
      * apply (ov_ids _ _ I) in Hx. simpl in E. congruence.
    + rewrite Hother in Hx, Hx' by done. by apply (ov_unique _ _ I r rx rx' x x').
Qed.

(** One event, and a whole history. *)
Lemma overlay_step_inv l w e : overlay_inv l w -> (forall p ts a data, e = OSend p ts a data -> ts <> 0%Z /\ (p, ts) ∉ send_ids l) ->
  exists w', overlay_step w e = Ok w' /\ overlay_inv (l ++ [e]) w'.
Proof.
  intros I Hf. destruct e as [p ts a data|p a data|p|p remote opened|i|i].
  - destruct (Hf p ts a data eq_refl). by apply send_inv.
  - simpl. edestruct (act_inv l w p (modifyS (fun s => set_from_user (ns_from_user s ++ [mkNetworkMessage a data]) s)) I) as (o & w' & -> & I').
    { intros s _ (Hsent & _). do 2 eexists. split; [done|]. apply act_ok_plain; try done. simpl. rewrite Hsent. set_solver. }
    simpl. eauto using overlay_inv_app.
  - simpl. edestruct (act_inv l w p protocol_fut I) as (o & w' & -> & I'); [intros s _; by apply protocol_fut_ok|]. simpl. eauto using overlay_inv_app.
  - simpl. case_bool_decide as Hr; [|eauto using overlay_inv_app].
    edestruct (act_inv l w p (handle_service_event (if opened then OpenedCustomProtocol remote 0 else ClosedCustomProtocol remote)) I) as (o & w' & -> & I'); [intros s _ Hok; by apply (link_event_ok l w I p remote opened)|]. simpl. eauto using overlay_inv_app.
  - simpl. destruct (w_wires w !! i) as [[[p q] b]|] eqn:Hi; [|eauto using overlay_inv_app].
    destruct (ov_wires _ _ I p q b) as [Hp Hw]; [by eapply list_elem_of_lookup_2|]. pose proof (lose_inv l w i I) as I1.
    edestruct (act_inv l (lose i w) q (handle_service_event (CustomMessage p b)) I1) as (o & w' & -> & I'); [intros s _ Hok; by apply (message_event_ok l (lose i w) I1 p q b)|].
    simpl. eauto using overlay_inv_app.
  - eexists. split; [done|]. by apply overlay_inv_app, lose_inv.
Qed.

Lemma run_overlay_inv l l' w : overlay_inv l w -> NoDup (send_ids (l ++ l')) -> Forall (fun x => x.2 <> 0%Z) (send_ids l') ->
  exists w', foldM overlay_step w l' = Ok w' /\ overlay_inv (l ++ l') w'.
Proof.
  revert l w. induction l' as [|e l' IH]; intros l w I Hnd Hz; simpl; [rewrite app_nil_r; eauto|].
  change (e :: l') with ([e] ++ l') in *. unfold send_ids in Hz, Hnd. rewrite omap_app in Hz. rewrite !omap_app in Hnd.
  apply Forall_app in Hz as [Hz1 Hz]. destruct (overlay_step_inv l w e I) as (w1 & -> & I1).
  { intros p ts a data ->. apply NoDup_app in Hnd as (_ & Hnd & _). simpl in Hz1. apply Forall_cons in Hz1 as [? _]. split; [done|].
    intros Hin. apply (Hnd (p, ts)); [done|]. simpl. set_solver. }
  simpl. destruct (IH (l ++ [e]) w1 I1) as (w2 & E & I2); [by unfold send_ids; rewrite !omap_app, <-(assoc_L app)|done|].
  exists w2. split; [done|]. by rewrite <-(assoc_L app) in I2.
Qed.
Lemma new_nodes_inv accounts : overlay_inv [] (mkWorld (new_nodes accounts) [] ∅).
Proof.
  split; [set_solver| |done|done]. simpl. induction accounts as [|a l IH]; simpl; [done|].
  destruct (peer_total a) as [q Hq]. rewrite Hq. intros p s [[<- <-]|[_ Hs]]%lookup_insert_Some.
  - split_and!; [done|by exists a|done|done|set_solver].
  - destruct (IH p s Hs) as (H1 & H2 & H3 & H4 & H5). split_and!; [done..|]. intros rx Hrx.
    by destruct (H5 rx Hrx) as (a' & id & c & d & _ & H & _).
Qed.

Lemma act_Ok {T} p (m : N T) w s t s' : w_nodes w !! p = Some s -> m s = (Ok t, s') ->
  act p m w = Ok (Some t, mkWorld (<[p := clear_sent s']> (w_nodes w)) (w_wires w ++ posted p s') (w_log w)).
Proof. intros Hs Hm. unfold act. by rewrite Hs, Hm. Qed.
(** The acknowledgement of a message comes back. *)
Lemma delivered_completes l w i p q b id data sp sq rx : overlay_inv l w ->
  w_wires w !! i = Some (p, q, b) -> parity_decode b = Some (Payload (mkPayloadMsg id data)) -> id <> 0%Z -> p <> q ->
  w_nodes w !! p = Some sp -> w_nodes w !! q = Some sq -> ns_connected sp = true -> ns_connected sq = true -> acks sp !! id = Some rx ->
  exists w' s, foldM overlay_step w [ODeliver i; ODeliver (length (w_wires w) - 1)] = Ok w' /\ w_nodes w' !! p = Some s /\ rx ∈ ns_done s.
Proof.
  intros I Hi Hb Hid Hne Hp Hq Hcp Hcq Hack. pose proof (ov_nodes _ _ I q sq Hq) as (Hsent & _).
  destruct (ov_nodes _ _ I p sp Hp) as (Hsp & (a & Ha) & _). apply peer_roundtrip in Ha.
  assert (handle_service_event (CustomMessage p b) sq = (Ok tt, send_custom_message p (into_bytes (ACK id)) (to_user (mkNetworkMessage a data) sq))) as E1.
  { unfold handle_service_event, mbind, stM_bind, getS, modifyS. simpl. assert (note_event (CustomMessage p b) sq = sq) as -> by by destruct sq.
    rewrite Hcq. unfold network_fut, handle_message, from_bytes, mbind, stM_bind, lift, modifyS. rewrite Hb. simpl. rewrite Ha. simpl.
    by rewrite bool_decide_eq_true_2. }
  assert (handle_service_event (CustomMessage q (into_bytes (ACK id))) sp =
    (Ok tt, set_done ({[rx]} ∪ ns_done sp) (set_acks (base.delete id (acks sp)) sp))) as E2.
  { unfold handle_service_event, mbind, stM_bind, getS, modifyS. simpl. assert (forall x, note_event (CustomMessage q x) sp = sp) as -> by by destruct sp.
    rewrite Hcp. unfold network_fut, handle_message, from_bytes, mbind, stM_bind, lift, into_bytes. rewrite parity_roundtrip. simpl.
    unfold handle_ack. by rewrite Hack. }
  cbn [foldM overlay_step]. rewrite Hi, (act_Ok q _ (lose i w) sq _ _ Hq E1). simpl. unfold posted. simpl. rewrite Hsent. simpl.
  assert (length (base.delete i (w_wires w)) = length (w_wires w) - 1) as Hlen by (apply length_delete; eauto).
  rewrite list_lookup_middle by done. rewrite (act_Ok p _ (lose _ _) sp _ _) by (simpl; by rewrite ?lookup_insert_ne || apply E2). simpl.
  do 2 eexists. split; [done|]. simpl. rewrite lookup_insert_eq. split; [done|]. simpl. set_solver.
Qed.

(** A node that has seen its first event panics when a peer sends it bytes that are no message. *)
Lemma garbage_panics p b s : ns_connected s = true -> parity_decode b = None -> (handle_service_event (CustomMessage p b) s).1 = Panic "()".
Proof.
  intros Hc Hb. unfold handle_service_event, mbind, stM_bind, getS, modifyS. simpl. rewrite Hc.
  unfold network_fut, handle_message, from_bytes, mbind, stM_bind, lift. by rewrite Hb.
Qed.

(** ** Properties *)

End overlay.
