(* ===== verification/ChannelStm.v ===== *)
(** * The channel state machine

    Models [src/sgwallet/src/channel/channel_stm.rs]: how a participant builds, executes and signs a proposal,
    verifies the proposals and signatures of the others, and moves a pending transaction through its
    lifecycle, with [is_participant_channel_resource_modified] of [channel.rs].  The state machine is a
    value; the chain client and the clock are arguments of the operations that use them.

    The theorems: a signature is accepted exactly when it signs the payload, the next witness and, for a
    travel transaction, its output; two participants with the same view of the channel who exchange a
    proposal and their signatures agree on it. *)
From Stdlib Require Import SpecFloat.
From S2P Require Import Prelude Codec Libra ChannelTypes Chain.

(** ** [f64] arithmetic of the gas bound *)

(** [x as f64], [f64 * f64] and [x as u64], on IEEE-754 binary64; [1.1] is the nearest double. *)
Definition f64_of_u64 (z : Z) : spec_float := binary_normalize 53 1024 z 0 false.
Definition f64_mul (x y : spec_float) : spec_float := SFmul 53 1024 x y.
Definition f64_one_point_one : spec_float := S754_finite false 4953959590107546 (-52).
Definition u64_of_f64 (x : spec_float) : Z :=
  match x with
  | S754_finite false m e => Z.min u64_max (Z.shiftl (Zpos m) e)
  | S754_infinity false => u64_max
  | _ => 0%Z
  end.

(** What the handlers read of the world outside: the chain, the UTC clock (seconds) and the system clock
    (nanoseconds). *)
Record Env {L : Libra} {K : Chain} := mkEnv { env_client : ChainClient; env_utc : Z; env_now : Z }.

Section channel_stm.
Context {L : Libra} {K : Chain} {CC : ChannelTxnCodec}.

Record ChannelStm := mkStm {
  channel_address : AccountAddress;
  account_address : AccountAddress;
  participant_addresses : gset AccountAddress;
  participant_keys : gmap AccountAddress Ed25519PublicKey;
  channel_state : ChannelState;
  witness : Witness;
  keypair : KeyPair;
  script_registry : PackageRegistry
}.
Implicit Types stm : ChannelStm.
Implicit Types env : Env.

(** [ChannelStm::new] *)
Definition ChannelStm_new (channel_address account_address : AccountAddress) (participant_addresses : gset AccountAddress)
    (keypair : KeyPair) (script_registry : PackageRegistry) : ChannelStm :=
  mkStm channel_address account_address participant_addresses ∅ (ChannelState_empty channel_address)
    Witness_default keypair script_registry.

(** [get_local] *)
Definition get_local {R} (decode : bytes -> res R) stm (access_path : AccessPath) : res (option R) :=
  data ← access_local (witness_write_set (witness stm)) (channel_state stm) access_path;
  match data with
  | Some d => r ← decode d; Ok (Some r)
  | None => Ok None
  end.

(** [channel_sequence_number] *)
Definition channel_sequence_number stm : res Z :=
  channel_mirror_resource ← expect_ok (get_local decode_mirror_sequence_number stm (mirror_path (channel_address stm)));
  match channel_mirror_resource with None => Ok 0%Z | Some r => Ok r end.

(** [channel_resource] and [channel_lock_by_resource] *)
Definition channel_resource stm : res (option ChannelResource) :=
  expect_ok (get_local decode_channel_resource stm (channel_path (channel_address stm))).
Definition channel_lock_by_resource stm : res (option Z) :=
  expect_ok (get_local decode_time_lock stm (locked_by_path (channel_address stm))).

(** [advance_state] *)
Definition advance_state stm (cs : option ChannelState) (w : Witness) (keys : gmap AccountAddress Ed25519PublicKey)
    : ChannelStm :=
  mkStm (channel_address stm) (account_address stm) (participant_addresses stm)
    (keys ∪ participant_keys stm) (default (channel_state stm) cs) w (keypair stm) (script_registry stm).

(** [Identifier::new(name)?] *)
Definition identifier (name : string) : res string :=
  if Identifier_ok name then Ok name else Err "Invalid identifier".

(** [channel_op_to_action] *)
Definition channel_op_to_action (r : PackageRegistry) (op : ChannelOp) (args : list TransactionArgument) : res ScriptAction :=
  match op with
  | Open =>
      m ← identifier "ChannelScript"; f ← identifier "open";
      Ok (ScriptAction_new_call (AccountAddress_default, m) f args)
  | Close =>
      m ← identifier "LibraAccount"; f ← identifier "close";
      Ok (ScriptAction_new_call (AccountAddress_default, m) f args)
  | Execute package_name script_name =>
      script_code ← ok_or (get_script r package_name script_name) "Can not find script by package and script name";
      Ok (ScriptAction_new_code (sc_byte_code script_code) args)
  | OpAction module_address module_name function_name =>
      m ← identifier module_name; f ← identifier function_name;
      Ok (ScriptAction_new_call (module_address, m) f args)
  end.

(** [build_and_sign_channel_txn_payload_body] *)
Definition build_and_sign_channel_txn_payload_body stm (txn : ChannelTransaction)
    : res (ChannelTransactionPayloadBody * Ed25519Signature) :=
  action ← channel_op_to_action (script_registry stm) (ct_operator txn) (ct_args txn);
  let body := PayloadBody_new (channel_address stm) (ct_proposer txn) action (witness stm) in
  Ok (body, sign_message (keypair stm) (payload_body_hash body)).

(** The loop of [build_chain_txn] over the participants. *)
Definition collect_signatures (participants : list AccountAddress)
    (signatures : gmap AccountAddress (Ed25519PublicKey * Ed25519Signature))
    (keys : gmap AccountAddress Ed25519PublicKey)
    : gmap AccountAddress Ed25519PublicKey * list (option Ed25519Signature) :=
  fold_left (fun acc addr =>
    let sig := signatures !! addr in
    (match sig with Some s => <[addr := s.1]> acc.1 | None => acc.1 end, acc.2 ++ [snd <$> sig]))
    participants (keys, []).

(** [build_chain_txn] *)
Definition build_chain_txn stm (body : ChannelTransactionPayloadBody)
    (txn_signatures : option (gmap AccountAddress (Ed25519PublicKey * Ed25519Signature)))
    (txn_sender : AccountAddress) (sender_seq_number max_gas_amount expiration_time : Z) : res SignedTransaction :=
  let '(keys, sigs) :=
    match txn_signatures with
    | Some signatures => collect_signatures (bt_sort (participant_addresses stm)) signatures (participant_keys stm)
    | None => (participant_keys stm, [])
    end in
  _ ← (if bool_decide (witness_channel_sequence_number (payload_body_witness body) = 0%Z) then Ok tt
       else rassert (bool_decide (size (participant_addresses stm) = size keys)) "debug_assert");
  let payload := ChannelPayload_new body (bt_values keys) sigs in
  sign_raw_txn (keypair stm) txn_sender sender_seq_number payload max_gas_amount GAS_UNIT_PRICE expiration_time.

(** [build_raw_txn_from_channel_txn] *)
Definition build_raw_txn_from_channel_txn stm (body : ChannelTransactionPayloadBody) (txn : ChannelTransaction)
    (txn_signatures : option (gmap AccountAddress ChannelTransactionSigs)) (max_gas_amount : Z) : res SignedTransaction :=
  build_chain_txn stm body
    ((fun m : gmap AccountAddress ChannelTransactionSigs => (fun v => (sigs_public_key v, channel_payload_signature v)) <$> m) <$> txn_signatures)
    (ct_proposer txn) (ct_sequence_number txn) max_gas_amount (ct_expiration_time txn).

(** The gas bound of [build_signed_txn]. *)
Definition max_gas_amount_of (gas_used : Z) : Z :=
  Z.min (u64_of_f64 (f64_mul (f64_of_u64 gas_used) f64_one_point_one)) MAX_GAS_AMOUNT_ONCHAIN.

(** [build_signed_txn] *)
Definition build_signed_txn stm (pending_txn : PendingTransaction) : res SignedTransaction :=
  let txn := channel_txn (pt_proposal pending_txn) in
  '(payload_body, _) ← build_and_sign_channel_txn_payload_body stm txn;
  build_raw_txn_from_channel_txn stm payload_body txn (Some (pt_signatures pending_txn))
    (max_gas_amount_of (output_gas_used (pt_output pending_txn))).

(** [channel_view] *)
Definition channel_view env stm (version : option Z) : res ChannelStateView :=
  ChannelStateView_new (account_address stm) (channel_state stm) (witness_write_set (witness stm)) version (env_client env).

(** [generate_proposal] *)
Definition generate_proposal env stm (op : ChannelOp) (args : list TransactionArgument) : res ChannelTransactionProposal :=
  state_view ← channel_view env stm None;
  let '(r, state_view) := sv_get state_view (account_path (account_address stm)) in
  o ← r;
  account_resource_blob ← ok_or o "account resource not exists on chain";
  account_seq_number ← decode_account_sequence_number account_resource_blob;
  chain_version ← sv_version state_view;
  n ← channel_sequence_number stm;
  expiration ← txn_expiration (env_utc env);
  let txn := mkChannelTransaction chain_version (channel_address stm) n op args (account_address stm)
               account_seq_number expiration in
  Ok (mkProposal txn (public_key (keypair stm)) (sign_message (keypair stm) (channel_txn_hash txn))).

(** [execute_proposal]; the VM reads through the view, which answers the same to every read
    ([state_view_reads_are_stable]). *)
Definition execute_proposal env stm (proposal : ChannelTransactionProposal)
    : res (ChannelTransactionPayloadBody * Ed25519Signature * TransactionOutput) :=
  let txn := channel_txn proposal in
  '(payload_body, payload_body_signature) ← build_and_sign_channel_txn_payload_body stm txn;
  signed ← build_raw_txn_from_channel_txn stm payload_body txn None MAX_GAS_AMOUNT_OFFCHAIN;
  state_view ← channel_view env stm (Some (ct_version txn));
  output ← execute_transaction (fun ap => (sv_get state_view ap).1) signed;
  Ok (payload_body, payload_body_signature, output).

(** The write set of the next witness: a travel transaction starts a new epoch. *)
Definition next_write_set (output : TransactionOutput) : WriteSet :=
  if is_travel_txn output then WriteSet_default else output_write_set output.

(** [generate_txn_sigs] *)
Definition generate_txn_sigs stm (txn : ChannelTransaction) (output : TransactionOutput) : res ChannelTransactionSigs :=
  '(_, payload_body_signature) ← build_and_sign_channel_txn_payload_body stm txn;
  n ← channel_sequence_number stm;
  n1 ← add_u64 n 1;
  let wh := witness_data_hash_of (WitnessData_new n1 (next_write_set output)) in
  let travel_sig :=
    if is_travel_txn output
    then Some (sign_message (keypair stm) (witness_data_hash_of (WitnessData_new n1 (output_write_set output))))
    else None in
  Ok (mkSigs (account_address stm) (public_key (keypair stm)) payload_body_signature wh
        (sign_message (keypair stm) wh) travel_sig).

(** [verify_proposal] *)
Definition verify_proposal stm (proposal : ChannelTransactionProposal) : res unit :=
  let txn := channel_txn proposal in
  _ ← ensure (bool_decide (channel_address stm = ct_channel_address txn)) "invalid channel address";
  n ← channel_sequence_number stm;
  let smallest := if bool_decide (1 <= n)%Z then (n - 1)%Z else 0%Z in
  _ ← ensure (bool_decide (smallest <= ct_channel_sequence_number txn)%Z && bool_decide (ct_channel_sequence_number txn <= n)%Z)
        "check channel_sequence_number fail.";
  _ ← verify_signature (proposer_public_key proposal) (channel_txn_hash txn) (proposer_signature proposal);
  if negb (is_open (ct_operator txn)) then
    ensure (bool_decide (ct_proposer txn ∈ participant_addresses stm)) "proposer does not belong to the channel"
  else Ok tt.

(** [verify_txn_sigs] *)
Definition verify_txn_sigs stm (pending_txn : PendingTransaction) (sigs : ChannelTransactionSigs) : res unit :=
  '(payload_body, _) ← build_and_sign_channel_txn_payload_body stm (channel_txn (pt_proposal pending_txn));
  _ ← verify_signature (sigs_public_key sigs) (payload_body_hash payload_body) (channel_payload_signature sigs);
  let output := pt_output pending_txn in
  n ← channel_sequence_number stm;
  n1 ← add_u64 n 1;
  let wh := witness_data_hash_of (WitnessData_new n1 (next_write_set output)) in
  _ ← ensure (bool_decide (wh = witness_data_hash sigs)) "next witness hash mismatched";
  _ ← verify_signature (sigs_public_key sigs) (witness_data_hash sigs) (witness_data_signature sigs);
  if is_travel_txn output then
    match travel_output_witness_signature sigs with
    | None => Err "travel txn should have signer's signature on output"
    | Some signature =>
        verify_signature (sigs_public_key sigs)
          (witness_data_hash_of (WitnessData_new n1 (output_write_set output))) signature
    end
  else Ok tt.

(** [handle_new_proposal]: the pending transaction after it *)
Definition handle_new_proposal env stm (pending_txn : option PendingTransaction) (proposal : ChannelTransactionProposal)
    : res (option PendingTransaction) :=
  n ← channel_sequence_number stm;
  if bool_decide (ct_channel_sequence_number (channel_txn proposal) < n)%Z then Err "invalid channel proposal"
  else
    match pending_txn with
    | None =>
        _ ← verify_proposal stm proposal;
        '(_, _, output) ← execute_proposal env stm proposal;
        Ok (Some (set_lifecycle Created (PendingTransaction_new proposal output ∅)))
    | Some pending =>
        if bool_decide (channel_txn_hash (channel_txn (pt_proposal pending)) <> channel_txn_hash (channel_txn proposal))
        then Err "already exists a different pending proposal"
        else Ok (Some pending)
    end.

(** [handle_proposal_signature]: the pending transaction after it *)
Definition handle_proposal_signature stm (pending_txn : PendingTransaction) (proposal_id : HashValue)
    (sigs : ChannelTransactionSigs) : res PendingTransaction :=
  let proposal_lifecycle := pt_lifecycle pending_txn in
  _ ← ensure (bool_decide (channel_txn_hash (channel_txn (pt_proposal pending_txn)) = proposal_id))
        "proposal txn hash mismatched";
  match get_signature pending_txn (sigs_address sigs) with
  | Some _ => Ok pending_txn
  | None =>
      _ ← verify_txn_sigs stm pending_txn sigs;
      let pending_txn := add_signature sigs pending_txn in
      match proposal_lifecycle with
      | Created => Ok (set_lifecycle Negotiating pending_txn)
      | Negotiating => Ok (try_reach_consensus (participant_addresses stm) pending_txn).2
      | _ => Panic "internal error: entered unreachable code"
      end
  end.

(** [handle_apply_proposal] *)
Definition handle_apply_proposal (pending_txn : PendingTransaction) : PendingTransaction :=
  let can_be_offchain := consensus_reached pending_txn && negb (is_travel_txn (pt_output pending_txn)) in
  if can_be_offchain then set_applying pending_txn else set_travelling pending_txn.

(** [is_participant_channel_resource_modified] of [channel.rs] *)
Definition is_participant_channel_resource_modified (old_write_set new_write_set : WriteSet)
    (participant : AccountAddress) : bool :=
  let prev_write_set : gmap AccessPath WriteOp := list_to_map (reverse (ws_iter old_write_set)) in
  existsb (fun e : AccessPath * WriteOp =>
    bool_decide (path_participant e.1 = Some participant) && negb (bool_decide (prev_write_set !! e.1 = Some e.2)))
    (ws_iter new_write_set).

(** [can_auto_sign_pending_proposal] *)
Definition can_auto_sign_pending_proposal stm (pending_txn : PendingTransaction) : bool :=
  negb (is_participant_channel_resource_modified (witness_write_set (witness stm))
          (output_write_set (pt_output pending_txn)) (account_address stm)).
End channel_stm.

(** ** What a signature signs *)

Section signatures.
Context {L : Libra} {K : Chain} {CC : ChannelTxnCodec}.

(** The payload of [txn] in the channel whose last witness is [w]. *)
Definition signs_payload (r : PackageRegistry) (channel : AccountAddress) (w : Witness) (txn : ChannelTransaction)
    (sigs : ChannelTransactionSigs) : Prop :=
  exists action, channel_op_to_action r (ct_operator txn) (ct_args txn) = Ok action /\
    verify_signature (sigs_public_key sigs) (payload_body_hash (PayloadBody_new channel (ct_proposer txn) action w))
      (channel_payload_signature sigs) = Ok tt.

(** The witness data of sequence number [n] with the write set [ws]. *)
Definition signs_witness (n : Z) (ws : WriteSet) (sigs : ChannelTransactionSigs) : Prop :=
  witness_data_hash sigs = witness_data_hash_of (WitnessData_new n ws) /\
  verify_signature (sigs_public_key sigs) (witness_data_hash_of (WitnessData_new n ws)) (witness_data_signature sigs) = Ok tt.

(** The output of a travel transaction. *)
Definition signs_output (n : Z) (output : TransactionOutput) (sigs : ChannelTransactionSigs) : Prop :=
  is_travel_txn output = true -> exists s, travel_output_witness_signature sigs = Some s /\
    verify_signature (sigs_public_key sigs) (witness_data_hash_of (WitnessData_new n (output_write_set output))) s = Ok tt.

Definition valid_sigs (stm : ChannelStm) (n : Z) (txn : ChannelTransaction) (output : TransactionOutput)
    (sigs : ChannelTransactionSigs) : Prop :=
  signs_payload (script_registry stm) (channel_address stm) (witness stm) txn sigs /\
  signs_witness n (next_write_set output) sigs /\ signs_output n output sigs.

(** The pending transaction [p] of a participant at sequence number [n]. *)
Record pending_wf (stm : ChannelStm) (n : Z) (p : PendingTransaction) : Prop := {
  pw_seq : ct_channel_sequence_number (channel_txn (pt_proposal p)) = n;
  pw_sigs a s : pt_signatures p !! a = Some s ->
    sigs_address s = a /\ valid_sigs stm (n + 1) (channel_txn (pt_proposal p)) (pt_output p) s;
  pw_created : pt_lifecycle p = Created -> pt_signatures p = ∅;
  pw_agreed : pt_lifecycle p = Agreed \/ pt_lifecycle p = Applying -> dom (pt_signatures p) = participant_addresses stm
}.

(** The pending transaction only gains signatures and only moves forward in its lifecycle. *)
Record pending_le (p p' : PendingTransaction) : Prop := {
  pl_proposal : pt_proposal p' = pt_proposal p;
  pl_output : pt_output p' = pt_output p;
  pl_sigs : pt_signatures p ⊆ pt_signatures p';
  pl_rank : (lifecycle_rank (pt_lifecycle p) <= lifecycle_rank (pt_lifecycle p'))%Z
}.

(** Two participants who see the channel alike. *)
Record same_view (stm1 stm2 : ChannelStm) : Prop := {
  sv_address : channel_address stm1 = channel_address stm2;
  sv_participants : participant_addresses stm1 = participant_addresses stm2;
  sv_keys : participant_keys stm1 = participant_keys stm2;
  sv_state : channel_state stm1 = channel_state stm2;
  sv_witness : witness stm1 = witness stm2;
  sv_registry : script_registry stm1 = script_registry stm2
}.

(** Handle a sequence of signatures. *)
Definition handle_signatures (stm : ChannelStm) (p : PendingTransaction) (l : list (HashValue * ChannelTransactionSigs))
    : res PendingTransaction :=
  foldM (fun p e => handle_proposal_signature stm p e.1 e.2) p l.
End signatures.

(** What the code relies on of the chain: signing a raw transaction succeeds or fails whatever the key,
    and the off-chain VM does not look at the signature. *)
Class ChainLaws {L : Libra} {K : Chain} : Prop := {
  sign_raw_txn_any_key kp kp' sender n payload gas price expiration t :
    sign_raw_txn kp sender n payload gas price expiration = Ok t ->
    exists t', sign_raw_txn kp' sender n payload gas price expiration = Ok t';
  execute_block_ignores_signer kp kp' sender n payload gas price expiration t t' view :
    sign_raw_txn kp sender n payload gas price expiration = Ok t ->
    sign_raw_txn kp' sender n payload gas price expiration = Ok t' ->
    execute_block view t = execute_block view t'
}.

Section stm_lemmas.
Context {L : Libra} {K : Chain} {CC : ChannelTxnCodec} {LL : LibraLaws}.
Implicit Types stm : ChannelStm.

Lemma verify_txn_sigs_iff stm p sigs n : channel_sequence_number stm = Ok n -> (n + 1 <= u64_max)%Z ->
  verify_txn_sigs stm p sigs = Ok tt <->
  valid_sigs stm (n + 1) (channel_txn (pt_proposal p)) (pt_output p) sigs.
Proof.
  intros Hn Hlt. unfold verify_txn_sigs, build_and_sign_channel_txn_payload_body, valid_sigs, signs_payload, signs_witness, signs_output.
  destruct (channel_op_to_action _ _ _) as [action|e|e]; simpl;
    [|by split; [done|intros [(? & ? & _) _]]|by split; [done|intros [(? & ? & _) _]]].
  rewrite Hn. rstep. rewrite add_u64_Ok by done. rstep.
  rewrite bind_Ok_iff. setoid_rewrite bind_Ok_iff. setoid_rewrite ensure_Ok.
  setoid_rewrite bind_Ok_iff. setoid_rewrite bool_decide_eq_true.
  destruct (is_travel_txn (pt_output p)); split.
  - intros ([] & Hp & [] & Hw & [] & Hs & Ht). rewrite <-Hw in Hs. split; [eauto|]. split; [done|].
    intros _. destruct (travel_output_witness_signature sigs) as [s|]; [|done]. exists s. done.
  - intros ((a & [= <-] & Hp) & [Hw Hs] & Ht). destruct (Ht eq_refl) as (s & -> & Hv). rewrite Hw.
    exists tt. split; [done|]. exists tt. split; [done|]. exists tt. done.
  - intros ([] & Hp & [] & Hw & [] & Hs & _). rewrite <-Hw in Hs. split; [eauto|]. done.
  - intros ((a & [= <-] & Hp) & [Hw Hs] & _). rewrite Hw. exists tt. split; [done|]. exists tt. split; [done|]. exists tt. done.
Qed.

Lemma verify_txn_sigs_bound stm p sigs n : channel_sequence_number stm = Ok n -> verify_txn_sigs stm p sigs = Ok tt ->
  (n + 1 <= u64_max)%Z.
Proof.
  intros Hn. unfold verify_txn_sigs. intros ([body sg] & _ & H)%bind_Ok_iff. apply bind_Ok_iff in H as (? & _ & H).
  rewrite Hn in H. cbn [mbind res_bind] in H. apply bind_Ok_iff in H as (n1 & H & _). unfold add_u64 in H. by case_bool_decide.
Qed.

(** A participant's own signatures are valid. *)
Lemma generate_txn_sigs_valid stm txn output s n : channel_sequence_number stm = Ok n -> (n + 1 <= u64_max)%Z ->
  generate_txn_sigs stm txn output = Ok s ->
  sigs_address s = account_address stm /\ valid_sigs stm (n + 1) txn output s.
Proof.
  intros Hn Hlt. unfold generate_txn_sigs, build_and_sign_channel_txn_payload_body.
  destruct (channel_op_to_action _ _ _) as [action|e|e] eqn:Ea; simpl; [|done..].
  rewrite Hn. rstep. rewrite add_u64_Ok by done. intros [= <-]. split; [done|]. split_and!.
  - exists action. split; [done|]. apply verify_sign.
  - split; [done|]. apply verify_sign.
  - intros Ht. simpl. rewrite Ht. eexists. split; [done|]. apply verify_sign.
Qed.

Lemma generate_txn_sigs_total stm txn output n action : channel_sequence_number stm = Ok n -> (n + 1 <= u64_max)%Z ->
  channel_op_to_action (script_registry stm) (ct_operator txn) (ct_args txn) = Ok action ->
  exists s, generate_txn_sigs stm txn output = Ok s.
Proof.
  intros Hn Hlt Ha. unfold generate_txn_sigs, build_and_sign_channel_txn_payload_body. rewrite Ha. simpl.
  rewrite Hn. rstep. rewrite add_u64_Ok by done. simpl. eauto.
Qed.

Lemma valid_sigs_view stm1 stm2 n txn output s : same_view stm1 stm2 ->
  valid_sigs stm1 n txn output s -> valid_sigs stm2 n txn output s.
Proof. intros [E1 _ _ _ E2 E3]. unfold valid_sigs. by rewrite E1, E2, E3. Qed.

Lemma sequence_number_view stm1 stm2 : same_view stm1 stm2 -> channel_sequence_number stm1 = channel_sequence_number stm2.
Proof. intros [E1 _ _ E2 E3 _]. unfold channel_sequence_number, get_local. by rewrite E1, E2, E3. Qed.

(** *** Lifecycle *)

Lemma pending_le_refl p : pending_le p p.
Proof. by split. Qed.

Lemma pending_le_trans p q r : pending_le p q -> pending_le q r -> pending_le p r.
Proof. intros [] []. split; [congruence..|by etrans|lia]. Qed.

(** All the participants have signed, and nobody else. *)
Lemma consensus_dom (m : gmap AccountAddress ChannelTransactionSigs) (X : gset AccountAddress) :
  size m = size X -> forallb (fun a => bool_decide (is_Some (m !! a))) (bt_sort X) = true -> dom m = X.
Proof.
  intros Hsz Hall. symmetry. apply set_subseteq_size_eq.
  - intros a Ha%elem_of_bt_sort. rewrite forallb_forall in Hall.
    specialize (Hall a (proj1 (list_elem_of_In _ _) Ha)). by apply bool_decide_eq_true in Hall; apply elem_of_dom.
  - rewrite size_dom. lia.
Qed.

Lemma try_reach_consensus_spec X p : pt_lifecycle p = Negotiating ->
  let p' := (try_reach_consensus X p).2 in
  pending_le p p' /\ pt_signatures p' = pt_signatures p /\
  (pt_lifecycle p' = Negotiating \/ (pt_lifecycle p' = Agreed /\ dom (pt_signatures p) = X)).
Proof.
  intros Hl. unfold try_reach_consensus. simpl. rewrite Hl. rewrite bool_decide_eq_true_2 by done. simpl.
  case_bool_decide as Hsz; [|split_and!; [apply pending_le_refl|done|by left]].
  destruct (forallb _ _) eqn:Hall; [|split_and!; [apply pending_le_refl|done|by left]].
  split_and!; [split; simpl; rewrite ?Hl; simpl; try done; lia|done|]. right. split; [done|]. by apply consensus_dom.
Qed.

Lemma try_reach_consensus_complete X p : pt_lifecycle p = Negotiating -> dom (pt_signatures p) = X ->
  (try_reach_consensus X p).2 = set_lifecycle Agreed p.
Proof.
  intros Hl <-. unfold try_reach_consensus. simpl. rewrite Hl, bool_decide_eq_true_2 by done.
  rewrite size_dom, bool_decide_eq_true_2 by done. simpl.
  rewrite (proj2 (forallb_forall _ _)); [done|]. intros a Ha. apply bool_decide_eq_true, elem_of_dom.
  by apply elem_of_bt_sort, list_elem_of_In.
Qed.

Lemma add_signature_new s p : pt_signatures p !! sigs_address s = None ->
  add_signature s p = mkPending (pt_proposal p) (pt_output p) (<[sigs_address s := s]> (pt_signatures p)) (pt_lifecycle p).
Proof. unfold add_signature. by intros ->. Qed.

(** The cases of [handle_proposal_signature]. *)
Lemma handle_proposal_signature_cases stm p id s p' n :
  channel_sequence_number stm = Ok n -> handle_proposal_signature stm p id s = Ok p' ->
  p' = p \/
  (pt_signatures p !! sigs_address s = None /\
   valid_sigs stm (n + 1) (channel_txn (pt_proposal p)) (pt_output p) s /\
   ((pt_lifecycle p = Created /\ p' = set_lifecycle Negotiating (add_signature s p)) \/
    (pt_lifecycle p = Negotiating /\ p' = (try_reach_consensus (participant_addresses stm) (add_signature s p)).2))).
Proof.
  intros Hn. unfold handle_proposal_signature. rewrite bind_Ok_iff. intros ([] & _ & H). unfold get_signature in H.
  destruct (pt_signatures p !! sigs_address s) eqn:Es; [left; congruence|]. right.
  apply bind_Ok_iff in H as ([] & Hv & H). apply (verify_txn_sigs_iff stm p s n Hn (verify_txn_sigs_bound _ _ _ _ Hn Hv)) in Hv.
  split_and!; [done..|]. destruct (pt_lifecycle p); simplify_eq; auto.
Qed.

Lemma handle_proposal_signature_wf stm p id s p' n :
  channel_sequence_number stm = Ok n -> pending_wf stm n p ->
  handle_proposal_signature stm p id s = Ok p' -> pending_wf stm n p' /\ pending_le p p'.
Proof.
  intros Hn Hwf H. apply (handle_proposal_signature_cases _ _ _ _ _ n Hn) in H
    as [->|(Hnone & Hv & H)]; [split; [done|apply pending_le_refl]|].
  rewrite add_signature_new in H by done. set (q := mkPending _ _ _ _) in H.
  assert (pending_wf stm n (set_lifecycle Negotiating q)) as Hq.
  { destruct Hwf as [Hs Hsig _ _]. split; simpl; [done| |done|by intros []].
    intros a s' [[<- <-]|[_ ?]]%lookup_insert_Some; [done|by apply Hsig]. }
  assert (pt_signatures p ⊆ pt_signatures q) as Hsub by (by apply insert_subseteq).
  destruct H as [[Hc ->]|[Hng ->]].
  - split; [done|]. split; [done..|]. simpl. rewrite Hc. simpl. lia.
  - assert (set_lifecycle Negotiating q = q) as Eq by (unfold set_lifecycle, q; simpl; by rewrite Hng).
    rewrite Eq in Hq. destruct (try_reach_consensus_spec (participant_addresses stm) q Hng) as (Hle & Es & Hcase).
    assert (pending_le p q) as Hpq by (by split). split; [|by eapply pending_le_trans].
    destruct Hle as [E1 E2 _ _], Hq as [Hs Hsig Hcr Hag]. rewrite <-Es in Hsig.
    split; rewrite ?E1, ?E2; [done| |intros Hc; destruct Hcase as [?|[? _]]; congruence|].
    + intros a s' Ha. by apply Hsig.
    + rewrite Es. intros Hx. destruct Hcase as [Hc|[_ Hd]]; [|done]. destruct Hx; congruence.
Qed.

Lemma handle_new_proposal_wf env stm o prop p n :
  channel_sequence_number stm = Ok n -> (forall q, o = Some q -> pending_wf stm n q) ->
  handle_new_proposal env stm o prop = Ok p ->
  exists q, p = Some q /\ pending_wf stm n q /\ (o = Some q \/ o = None /\ pt_lifecycle q = Created).
Proof.
  intros Hn Ho. unfold handle_new_proposal. rewrite Hn. rstep. case_bool_decide as Hlt; [done|].
  destruct o as [q|].
  { case_bool_decide; [done|]. intros [= <-]. exists q. split_and!; [done|by apply Ho|by left]. }
  intros (u & Hv & Hx)%bind_Ok_iff. apply bind_Ok_iff in Hx as ([[b sg] out] & Hx & [= <-]).
  eexists. split; [done|]. split; [|by right]. split; simpl; [|by intros a s; rewrite lookup_empty|done|by intros []].
  unfold verify_proposal in Hv. apply bind_Ok_iff in Hv as (? & _ & Hv). rewrite Hn in Hv. cbn [mbind res_bind] in Hv.
  apply bind_Ok_iff in Hv as (? & Hr & _). apply ensure_Ok, andb_true_iff in Hr as [_ Hr%bool_decide_eq_true]. lia.
Qed.

(** *** Two participants *)

Lemma same_view_sym stm1 stm2 : same_view stm1 stm2 -> same_view stm2 stm1.
Proof. intros []. by split. Qed.

Lemma build_chain_txn_view {CL : ChainLaws} stm1 stm2 body sigs sender n gas expiration t : same_view stm1 stm2 ->
  build_chain_txn stm1 body sigs sender n gas expiration = Ok t ->
  exists t', build_chain_txn stm2 body sigs sender n gas expiration = Ok t' /\
    forall view, execute_block view t' = execute_block view t.
Proof.
  intros [_ E1 E2 _ _ _]. unfold build_chain_txn. rewrite <-E1, <-E2.
  destruct (match sigs with Some _ => _ | None => _ end) as [keys sg].
  rewrite bind_Ok_iff. intros ([] & Ha & Hs). rewrite Ha. rstep.
  destruct (sign_raw_txn_any_key _ (keypair stm2) _ _ _ _ _ _ _ Hs) as [t' Ht']. exists t'. split; [done|].
  intros view. symmetry. by eapply execute_block_ignores_signer.
Qed.

(** Executing a proposal gives the same output to both. *)
Lemma execute_proposal_view {CL : ChainLaws} env stm1 stm2 prop body sig out : same_view stm1 stm2 ->
  execute_proposal env stm1 prop = Ok (body, sig, out) ->
  exists body' sig', execute_proposal env stm2 prop = Ok (body', sig', out).
Proof.
  intros Hv. destruct (Hv) as [E1 _ _ E2 E3 E4].
  unfold execute_proposal, build_and_sign_channel_txn_payload_body, build_raw_txn_from_channel_txn, channel_view.
  rewrite <-E1, <-E2, <-E3, <-E4.
  destruct (channel_op_to_action _ _ _) as [action|e|e]; simpl; [|done..].
  intros (t & Ht & H)%bind_Ok_iff. apply bind_Ok_iff in H as (o & Hx & [= <- <- <-]).
  destruct (build_chain_txn_view _ _ _ _ _ _ _ _ _ Hv Ht) as (t' & -> & Hex). rstep.
  unfold execute_transaction in Hx |- *. rewrite Hex. rewrite Hx. simpl. eauto.
Qed.

Lemma handle_new_proposal_none env stm prop n body sig out :
  channel_sequence_number stm = Ok n -> ct_channel_sequence_number (channel_txn prop) = n ->
  verify_proposal stm prop = Ok tt -> execute_proposal env stm prop = Ok (body, sig, out) ->
  handle_new_proposal env stm None prop = Ok (Some (mkPending prop out ∅ Created)).
Proof.
  intros Hn Hs Hv Hx. unfold handle_new_proposal. rewrite Hn. rstep. rewrite bool_decide_eq_false_2 by lia.
  rewrite Hv. rstep. by rewrite Hx.
Qed.

Lemma generate_proposal_verifies env stm1 stm2 op args prop n : same_view stm1 stm2 ->
  channel_sequence_number stm1 = Ok n -> (0 <= n)%Z -> account_address stm1 ∈ participant_addresses stm1 ->
  generate_proposal env stm1 op args = Ok prop ->
  ct_channel_sequence_number (channel_txn prop) = n /\ verify_proposal stm2 prop = Ok tt.
Proof.
  intros Hv Hn H0 Hin. destruct (Hv) as [E1 E2 _ _ _ _]. unfold generate_proposal.
  intros (sv & _ & H)%bind_Ok_iff. destruct (sv_get sv _) as [r sv']. apply bind_Ok_iff in H as (o & _ & H).
  apply bind_Ok_iff in H as (blob & _ & H). apply bind_Ok_iff in H as (aseq & _ & H). apply bind_Ok_iff in H as (cv & _ & H).
  rewrite Hn in H. cbn [mbind res_bind] in H. apply bind_Ok_iff in H as (ex & _ & [= <-]). split; [done|].
  unfold verify_proposal. cbn -[bool_decide ensure Z.le Z.sub].
  rewrite <-E1, (bool_decide_eq_true_2 (channel_address stm1 = _)) by done. cbn -[bool_decide Z.le Z.sub].
  rewrite <-(sequence_number_view _ _ Hv), Hn. rstep. rewrite (bool_decide_eq_true_2 (n <= n)%Z) by lia.
  rewrite (bool_decide_eq_true_2 (_ <= n)%Z) by (case_bool_decide; lia). cbn [andb ensure mbind res_bind].
  rewrite verify_sign. rstep. case_match; [|done]. by rewrite <-E2, bool_decide_eq_true_2.
Qed.

Lemma first_signature stm p s n : channel_sequence_number stm = Ok n -> (n + 1 <= u64_max)%Z ->
  pt_lifecycle p = Created -> pt_signatures p = ∅ ->
  valid_sigs stm (n + 1) (channel_txn (pt_proposal p)) (pt_output p) s ->
  handle_proposal_signature stm p (channel_txn_hash (channel_txn (pt_proposal p))) s =
    Ok (mkPending (pt_proposal p) (pt_output p) {[ sigs_address s := s ]} Negotiating).
Proof.
  intros Hn Hlt Hl Hs Hv. unfold handle_proposal_signature, get_signature. rewrite bool_decide_eq_true_2, Hs by done. simpl.
  rewrite lookup_empty, (proj2 (verify_txn_sigs_iff stm p s n Hn Hlt) Hv). rstep. rewrite Hl.
  rewrite add_signature_new by (by rewrite Hs). by rewrite Hs.
Qed.

Lemma second_signature stm p s s1 n : channel_sequence_number stm = Ok n -> (n + 1 <= u64_max)%Z ->
  pt_lifecycle p = Negotiating -> pt_signatures p = {[ sigs_address s1 := s1 ]} -> sigs_address s <> sigs_address s1 ->
  participant_addresses stm = {[ sigs_address s; sigs_address s1 ]} ->
  valid_sigs stm (n + 1) (channel_txn (pt_proposal p)) (pt_output p) s ->
  handle_proposal_signature stm p (channel_txn_hash (channel_txn (pt_proposal p))) s =
    Ok (mkPending (pt_proposal p) (pt_output p) {[ sigs_address s := s; sigs_address s1 := s1 ]} Agreed).
Proof.
  intros Hn Hlt Hl Hs Hne HX Hv. unfold handle_proposal_signature, get_signature. rewrite bool_decide_eq_true_2, Hs by done.
  cbn [ensure mbind res_bind]. rewrite lookup_singleton_ne by done. rewrite (proj2 (verify_txn_sigs_iff stm p s n Hn Hlt) Hv). rstep. rewrite Hl.
  rewrite add_signature_new by (by rewrite Hs, lookup_singleton_ne). rewrite Hs.
  rewrite try_reach_consensus_complete; [done|done|]. simpl. rewrite HX, dom_insert_L, dom_singleton_L. done.
Qed.

(** *** A signature from outside the channel *)

Lemma outsider_no_consensus stm p a s : pt_signatures p !! a = Some s -> a ∉ participant_addresses stm ->
  pt_lifecycle p = Negotiating -> (try_reach_consensus (participant_addresses stm) p).2 = p.
Proof.
  intros Ha Hna Hl. destruct (try_reach_consensus_spec (participant_addresses stm) p Hl) as (_ & _ & [H|[_ Hd]]).
  - revert H. unfold try_reach_consensus. simpl. by repeat case_match.
  - destruct Hna. rewrite <-Hd. by apply elem_of_dom.
Qed.

Lemma handle_signatures_outsider stm n a l p p' : channel_sequence_number stm = Ok n ->
  is_Some (pt_signatures p !! a) -> a ∉ participant_addresses stm -> pt_lifecycle p = Negotiating ->
  handle_signatures stm p l = Ok p' -> pt_lifecycle p' = Negotiating.
Proof.
  intros Hn. revert p. induction l as [|[id s] l IH]; intros p [sa Ha] Hna Hl; [by intros [= <-]|].
  unfold handle_signatures. simpl. intros (q & Hq & Hr)%bind_Ok_iff.
  apply (handle_proposal_signature_cases _ _ _ _ _ n Hn) in Hq
    as [->|(Hnone & _ & [[Hc _]|[_ ->]])]; [by eapply IH; eauto|congruence|].
  rewrite add_signature_new in Hr by done. revert Hr. simpl in Hnone.
  assert ((<[sigs_address s:=s]> (pt_signatures p) : gmap _ _) !! a = Some sa) as Ha'.
  { rewrite lookup_insert_ne; [done|]. congruence. }
  rewrite (outsider_no_consensus stm _ a sa) by done. apply IH; [by exists sa|done..].
Qed.

(** Anybody can sign under any address. *)
Lemma forge_valid stm n txn output action kp a :
  channel_op_to_action (script_registry stm) (ct_operator txn) (ct_args txn) = Ok action ->
  exists s, sigs_address s = a /\ sigs_public_key s = public_key kp /\ valid_sigs stm n txn output s.
Proof.
  intros Ha. exists (mkSigs a (public_key kp)
    (sign_message kp (payload_body_hash (PayloadBody_new (channel_address stm) (ct_proposer txn) action (witness stm))))
    (witness_data_hash_of (WitnessData_new n (next_write_set output)))
    (sign_message kp (witness_data_hash_of (WitnessData_new n (next_write_set output))))
    (Some (sign_message kp (witness_data_hash_of (WitnessData_new n (output_write_set output)))))).
  split_and!; [done..|]. split_and!.
  - exists action. split; [done|]. apply verify_sign.
  - split; [done|]. apply verify_sign.
  - intros _. eexists. split; [done|]. apply verify_sign.
Qed.

(** ** Properties *)

(** C11: a signature from an address that has not signed yet is accepted exactly when it is valid, that is
    when it signs the payload of the pending proposal on the channel's current witness, the next witness
    data, and the output when the transaction travels.  An accepted one is recorded under its address and
    everything else in the pending transaction stays, except that the lifecycle may move forward; it
    becomes agreed only when exactly the participants have signed. *)
Theorem signature_accepted_iff_valid stm p s n : channel_sequence_number stm = Ok n -> (n + 1 <= u64_max)%Z ->
  pending_wf stm n p -> pt_signatures p !! sigs_address s = None ->
  pt_lifecycle p = Created \/ pt_lifecycle p = Negotiating ->
  (valid_sigs stm (n + 1) (channel_txn (pt_proposal p)) (pt_output p) s <->
   exists p', handle_proposal_signature stm p (channel_txn_hash (channel_txn (pt_proposal p))) s = Ok p' /\
     pending_wf stm n p' /\ pending_le p p' /\ pt_signatures p' = <[sigs_address s := s]> (pt_signatures p) /\
     (pt_lifecycle p' = Agreed -> dom (pt_signatures p') = participant_addresses stm)).
Proof.
  intros Hn Hlt Hwf Hnone Hl. split.
  - intros Hv. assert (exists p', handle_proposal_signature stm p (channel_txn_hash (channel_txn (pt_proposal p))) s = Ok p' /\
      pt_signatures p' = <[sigs_address s := s]> (pt_signatures p)) as (p' & Hp & Hs).
    { unfold handle_proposal_signature, get_signature. rewrite bool_decide_eq_true_2, Hnone by done. cbn [ensure mbind res_bind].
      rewrite (proj2 (verify_txn_sigs_iff stm p s n Hn Hlt) Hv). rstep. rewrite add_signature_new by done.
      destruct Hl as [->|Hl]; [by eexists|rewrite Hl; eexists; split; [done|]].
      set (q := mkPending _ _ _ _). by destruct (try_reach_consensus_spec (participant_addresses stm) q eq_refl) as (_ & -> & _). }
    destruct (handle_proposal_signature_wf _ _ _ _ _ _ Hn Hwf Hp) as [Hwf' Hle].
    exists p'. split_and!; try done. intros Ha. apply (pw_agreed _ _ _ Hwf'). by left.
  - intros (p' & Hp & _ & _ & Hs & _). apply (handle_proposal_signature_cases _ _ _ _ _ n Hn) in Hp as [->|(_ & Hv & _)]; [|done].
    by rewrite Hs, lookup_insert_eq in Hnone.
Qed.

(** C3: two participants with the same view of a two-party channel agree on every proposal that executes:
    the proposer signs it, the other verifies and executes it, records the proposer's signature, adds its
    own and has an agreed transaction; the proposer records that signature and holds the same agreed
    transaction, with the same output and the signatures of both. *)
Theorem honest_participants_agree {CL : ChainLaws} env stmA stmB op args prop body sig out n :
  same_view stmA stmB -> account_address stmA <> account_address stmB ->
  participant_addresses stmA = {[ account_address stmB; account_address stmA ]} ->
  channel_sequence_number stmA = Ok n -> (0 <= n < u64_max)%Z ->
  generate_proposal env stmA op args = Ok prop -> execute_proposal env stmA prop = Ok (body, sig, out) ->
  let id := channel_txn_hash (channel_txn prop) in
  exists pA pA1 pB pB1 sA sB final,
    handle_new_proposal env stmA None prop = Ok (Some pA) /\
    generate_txn_sigs stmA (channel_txn prop) out = Ok sA /\
    handle_proposal_signature stmA pA id sA = Ok pA1 /\
    handle_new_proposal env stmB None prop = Ok (Some pB) /\
    handle_proposal_signature stmB pB id sA = Ok pB1 /\
    generate_txn_sigs stmB (channel_txn prop) out = Ok sB /\
    handle_proposal_signature stmB pB1 id sB = Ok final /\
    handle_proposal_signature stmA pA1 id sB = Ok final /\
    pt_lifecycle final = Agreed /\ pt_output final = out /\ dom (pt_signatures final) = participant_addresses stmA.
Proof.
  intros Hv Hne HX Hn Hr Hg Hx id. assert (n + 1 <= u64_max)%Z as Hlt by lia.
  assert (account_address stmA ∈ participant_addresses stmA) as Hin by (rewrite HX; set_solver).
  destruct (generate_proposal_verifies env stmA stmA op args prop n) as [Hs HvA]; [done||lia..|].
  destruct (generate_proposal_verifies env stmA stmB op args prop n) as [_ HvB]; [done||lia..|].
  destruct (execute_proposal_view env stmA stmB prop body sig out Hv Hx) as (body' & sig' & HxB).
  assert (channel_sequence_number stmB = Ok n) as HnB by (by rewrite <-(sequence_number_view _ _ Hv)).
  assert (exists action, channel_op_to_action (script_registry stmA) (ct_operator (channel_txn prop)) (ct_args (channel_txn prop)) = Ok action)
    as [action Ha].
  { unfold execute_proposal, build_and_sign_channel_txn_payload_body in Hx.
    destruct (channel_op_to_action _ _ _) as [a| |]; [eauto|done..]. }
  destruct (generate_txn_sigs_total stmA (channel_txn prop) out n action Hn Hlt Ha) as [sA HsA].
  rewrite (sv_registry _ _ Hv) in Ha.
  destruct (generate_txn_sigs_total stmB (channel_txn prop) out n action HnB Hlt Ha) as [sB HsB].
  destruct (generate_txn_sigs_valid stmA _ _ _ n Hn Hlt HsA) as [EA VA].
  destruct (generate_txn_sigs_valid stmB _ _ _ n HnB Hlt HsB) as [EB VB].
  eexists _, _, _, _, sA, sB, _. split_and!.
  - by eapply handle_new_proposal_none.
  - done.
  - by apply (first_signature stmA (mkPending prop out ∅ Created) sA n).
  - by eapply handle_new_proposal_none.
  - apply (first_signature stmB (mkPending prop out ∅ Created) sA n); try done. by eapply valid_sigs_view.
  - done.
  - apply (second_signature stmB (mkPending prop out _ Negotiating) sB sA n); try done; [congruence|].
    by rewrite <-(sv_participants _ _ Hv), HX, EA, EB.
  - apply (second_signature stmA (mkPending prop out _ Negotiating) sB sA n); try done; [congruence|by rewrite HX, EA, EB|].
    eapply valid_sigs_view; [by apply same_view_sym|done].
  - done.
  - done.
  - simpl. rewrite HX, dom_insert_L, dom_singleton_L, EA, EB. done.
Qed.

(** C20: [verify_txn_sigs] checks a signature under the key it carries and never asks whether its address
    belongs to the channel.  So anybody, with any key pair, can sign under an address outside the
    channel: while the transaction is negotiated the signature is recorded, and then no signatures
    whatever bring it to agreement; once it is agreed the signature makes the handler panic. *)
Theorem outsider_signature_blocks_consensus stm p n kp a action :
  channel_sequence_number stm = Ok n -> (n + 1 <= u64_max)%Z ->
  channel_op_to_action (script_registry stm) (ct_operator (channel_txn (pt_proposal p))) (ct_args (channel_txn (pt_proposal p))) = Ok action ->
  a ∉ participant_addresses stm -> pt_signatures p !! a = None -> pt_lifecycle p <> Created ->
  let id := channel_txn_hash (channel_txn (pt_proposal p)) in
  exists s, sigs_address s = a /\ sigs_public_key s = public_key kp /\
    (pt_lifecycle p = Negotiating -> exists p', handle_proposal_signature stm p id s = Ok p' /\
       forall l p'', handle_signatures stm p' l = Ok p'' -> pt_lifecycle p'' = Negotiating) /\
    (pt_lifecycle p <> Negotiating ->
       handle_proposal_signature stm p id s = Panic "internal error: entered unreachable code").
Proof.
  intros Hn Hlt Ha Hna Hnone Hc id. destruct (forge_valid stm (n + 1) (channel_txn (pt_proposal p)) (pt_output p) action kp a Ha)
    as (s & Es & Ek & Hv). exists s. split_and!; [done..| |].
  - intros Hl. rewrite <-Es in Hnone.
    assert (handle_proposal_signature stm p id s = Ok (add_signature s p)) as Hp.
    { unfold handle_proposal_signature, get_signature. rewrite bool_decide_eq_true_2, Hnone by done. cbn [ensure mbind res_bind].
      rewrite (proj2 (verify_txn_sigs_iff stm p s n Hn Hlt) Hv). rstep. rewrite Hl. f_equal.
      rewrite add_signature_new by done. apply (outsider_no_consensus stm _ a s); [|done..]. simpl. by rewrite Es, lookup_insert_eq. }
    exists (add_signature s p). split; [done|]. intros l p''. rewrite add_signature_new by done.
    apply (handle_signatures_outsider stm n a); try done. simpl. rewrite Es, lookup_insert_eq. eauto.
  - intros Hl. unfold handle_proposal_signature, get_signature. rewrite bool_decide_eq_true_2, Es, Hnone by done. cbn [ensure mbind res_bind].
    rewrite (proj2 (verify_txn_sigs_iff stm p s n Hn Hlt) Hv). rstep. by destruct (pt_lifecycle p).
Qed.
End stm_lemmas.
