(* ===== verification/Channel.v ===== *)
(** * The channel actor

    Models [src/sgwallet/src/channel/channel.rs] and [mod.rs]: the actor of one channel, one operation per
    message handler, whole.  Its state is the applier with the store they share, the state machine, and
    what it leaves in its context (its status, the transactions it submitted, the messages it sent to
    itself, the subscriptions it made).  A handler is a stateful operation that may fail part way.

    The theorems: whatever messages arrive, in whatever order, with the chain and the storage failing at
    will, every off-chain transaction of the ledger carries the signatures of exactly the participants,
    each on the transaction's payload, on the witness it extends and on the witness it creates; the
    ledger only grows; the pending transaction only moves forward. *)
From S2P Require Import Prelude Codec Libra SchemaDB Accumulator ChannelTypes ChannelStore TxApplier Chain ChannelStm.

Section channel.
Context {L : Libra} {B : SchemaBatches} {A : Accumulators} {C : StoreCodecs} {K : Chain} {CC : ChannelTxnCodec}.
Context {S : Type} {SD : SchemaDB S}.

(** The effects outside the channel's own state. *)
Record Ctx := mkCtx {
  stopping : bool;
  submitted : list SignedTransaction;
  mailbox : list (AccountAddress * Z);
  event_streams : list Z;
  lock_watches : list Z
}.
Definition Ctx_new : Ctx := mkCtx false [] [] [] [].

(** [Channel]: the applier holds the store, which the channel's own handle shares. *)
Record Channel := mkChannel {
  tx_applier : TxApplier (S := S);
  stm : ChannelStm;
  ctx : Ctx
}.
Implicit Types env : Env.
Notation store c := (ta_store (tx_applier c)).
Notation H := (stM Channel).

Definition set_applier (t : TxApplier) (c : Channel) : Channel := mkChannel t (stm c) (ctx c).
Definition set_store (s : ChannelStore) (c : Channel) : Channel :=
  mkChannel (mkTxApplier (applied_trees (tx_applier c)) s) (stm c) (ctx c).
Definition set_stm (s : ChannelStm) (c : Channel) : Channel := mkChannel (tx_applier c) s (ctx c).
Definition set_ctx (f : Ctx -> Ctx) (c : Channel) : Channel := mkChannel (tx_applier c) (stm c) (f (ctx c)).

(** [ctx.set_status(ActorStatus::Stopping)], submitting, notifying itself, and subscribing *)
Definition set_stopping : H unit :=
  modifyS (set_ctx (fun x => mkCtx true (submitted x) (mailbox x) (event_streams x) (lock_watches x))).
Definition record_submitted (t : SignedTransaction) : H unit :=
  modifyS (set_ctx (fun x => mkCtx (stopping x) (submitted x ++ [t]) (mailbox x) (event_streams x) (lock_watches x))).
Definition notify_watch (sender : AccountAddress) (seq_number : Z) : H unit :=
  modifyS (set_ctx (fun x => mkCtx (stopping x) (submitted x) (mailbox x ++ [(sender, seq_number)]) (event_streams x) (lock_watches x))).
Definition spawn_event_loop (start : Z) : H unit :=
  modifyS (set_ctx (fun x => mkCtx (stopping x) (submitted x) (mailbox x) (event_streams x ++ [start]) (lock_watches x))).
Definition spawn_lock_watch (time_lock : Z) : H unit :=
  modifyS (set_ctx (fun x => mkCtx (stopping x) (submitted x) (mailbox x) (event_streams x) (lock_watches x ++ [time_lock]))).

(** [pending_txn], [get_latest_witness().unwrap_or_default()] *)
Definition pending_txn (c : Channel) : option PendingTransaction := cs_pending_txn (store c).
Definition latest_witness_or_default (c : Channel) : Witness := default Witness_default (latest_witness (store c)).

(** [check_applied] *)
Definition check_applied (c : Channel) (channel_sequence_number : Z) : res (option SignedChannelTransactionWithProof) :=
  startup_info ← get_startup_info (store c);
  match startup_info with
  | Some info =>
      if bool_decide (latest_version info < channel_sequence_number)%Z then Ok None
      else
        t ← get_transaction_by_channel_seq_number (store c) channel_sequence_number false;
        _ ← rassert (bool_decide (wp_version t = channel_sequence_number)) "debug_assert_eq";
        Ok (Some t)
  | None => Ok None
  end.

(** [Channel::save_pending_txn] *)
Definition ch_save_pending_txn (p : PendingTransaction) : H unit :=
  c ← getS;
  match cs_pending_txn (store c) with
  | Some cur =>
      if bool_decide (cur = p) then mret tt
      else if newer_than cur p then lift (Err "cannot save pending txn, state invalid")
      else s ← lift (save_pending_txn (store c) p true); modifyS (set_store s)
  | None => s ← lift (save_pending_txn (store c) p true); modifyS (set_store s)
  end.

(** [Channel::clear_pending_txn] *)
Definition ch_clear_pending_txn : H unit :=
  c ← getS; s ← lift (clear_pending_txn (store c)); modifyS (set_store s).

(** The end of [apply] and [apply_travel]: the state machine follows the store. *)
Definition update_stm (cs : option ChannelState) : H unit :=
  c ← getS;
  modifyS (set_stm (advance_state (stm c) cs (latest_witness_or_default c) (get_participant_keys (store c)))).

(** [Channel::apply] *)
Definition ch_apply env (txn : ChannelTransaction) (output : TransactionOutput)
    (signatures : gmap AccountAddress ChannelTransactionSigs) : H unit :=
  let txn_to_commit := mkToCommit (Offchain (mkSignedChannelTransaction txn signatures)) (output_write_set output)
                         (output_events output) (output_major_status output) (output_gas_used output) in
  c ← getS;
  t ← lift (apply (tx_applier c) txn_to_commit (env_now env));
  _ ← modifyS (set_applier t);
  update_stm None.

(** [Channel::apply_travel] *)
Definition apply_travel env (version : Z) (signed_txn : SignedTransaction) (txn_info : TransactionInfo)
    (events : list ContractEvent) : H unit :=
  let txn_to_commit := mkToCommit (Travel signed_txn) WriteSet_default events (txi_major_status txn_info) (txi_gas_used txn_info) in
  c ← getS;
  state ← lift (get_account_state (env_client env) (channel_address (stm c)) (Some version));
  t ← lift (apply (tx_applier c) txn_to_commit (env_now env));
  _ ← modifyS (set_applier t);
  update_stm (Some (mkChannelState (channel_address (stm c)) state)).

(** Handler of [Execute] *)
Definition handle_execute env (op : ChannelOp) (args : list TransactionArgument)
    : H (ChannelTransactionProposal * ChannelTransactionSigs * TransactionOutput) :=
  c ← getS;
  proposal ← lift (generate_proposal env (stm c) op args);
  o ← lift (handle_new_proposal env (stm c) (pending_txn c) proposal);
  p ← lift (expect o "debug_assert");
  my_signature ← lift (generate_txn_sigs (stm c) (channel_txn (pt_proposal p)) (pt_output p));
  p ← lift (handle_proposal_signature (stm c) p (channel_txn_hash (channel_txn (pt_proposal p))) my_signature);
  _ ← ch_save_pending_txn p;
  mret (pt_proposal p, my_signature, pt_output p).

(** Handler of [CollectProposalWithSigs] *)
Definition handle_collect env (proposal : ChannelTransactionProposal) (sigs : ChannelTransactionSigs)
    : H (option ChannelTransactionSigs) :=
  c ← getS;
  _ ← lift (rassert (bool_decide (account_address (stm c) <> sigs_address sigs)) "debug_assert_ne");
  applied ← lift (check_applied c (ct_channel_sequence_number (channel_txn proposal)));
  match applied with
  | Some signed_txn =>
      match wp_signed_transaction signed_txn with
      | Travel _ => lift (Err "proposal is already commited onchain")
      | Offchain t =>
          if bool_decide (channel_txn_hash (channel_txn proposal) <> channel_txn_hash (raw_tx t))
          then lift (Err "invalid proposal, channel already applied a different proposal with same channel seq number")
          else
            signature ← lift (expect (sct_signatures t !! account_address (stm c)) "applied txn should have user signature");
            mret (Some signature)
      end
  | None =>
      o ← lift (handle_new_proposal env (stm c) (pending_txn c) proposal);
      p ← lift (expect o "debug_assert");
      p ← lift (handle_proposal_signature (stm c) p (channel_txn_hash (channel_txn (pt_proposal p))) sigs);
      p ← (if bool_decide (pt_signatures p !! account_address (stm c) = None) && can_auto_sign_pending_proposal (stm c) p then
             my_signature ← lift (generate_txn_sigs (stm c) (channel_txn (pt_proposal p)) (pt_output p));
             lift (handle_proposal_signature (stm c) p (channel_txn_hash (channel_txn (pt_proposal p))) my_signature)
           else mret p);
      _ ← ch_save_pending_txn p;
      mret (get_signature p (account_address (stm c)))
  end.

(** Handler of [GrantProposal] *)
Definition handle_grant (channel_txn_id : HashValue) : H ChannelTransactionSigs :=
  c ← getS;
  p ← lift (ok_or (pending_txn c) "has no pending txn");
  _ ← lift (ensure (bool_decide (channel_txn_id = channel_txn_hash (channel_txn (pt_proposal p))))
              "channel_txn_id conflict with local pending txn");
  _ ← lift (ensure (negb (consensus_reached p)) "pending txn is already consensus_reached");
  my_signature ← lift (generate_txn_sigs (stm c) (channel_txn (pt_proposal p)) (pt_output p));
  p ← lift (handle_proposal_signature (stm c) p (channel_txn_hash (channel_txn (pt_proposal p))) my_signature);
  _ ← ch_save_pending_txn p;
  mret my_signature.

(** Handler of [CancelPendingTxn] *)
Definition handle_cancel (channel_txn_id : HashValue) : H unit :=
  c ← getS;
  p ← lift (ok_or (pending_txn c) "no pending txn");
  _ ← lift (ensure (bool_decide (channel_txn_id = channel_txn_hash (channel_txn (pt_proposal p))))
              "channel_txn_id conflict with local pending txn");
  _ ← lift (ensure (negb (consensus_reached p)) "pending txn is already consensus_reached");
  _ ← ch_clear_pending_txn;
  if is_open (ct_operator (channel_txn (pt_proposal p))) then set_stopping else mret tt.

(** Handler of [ApplyPendingTxn] *)
Definition handle_apply_pending env : H (option (AccountAddress * Z)) :=
  c ← getS;
  p ← lift (ok_or (pending_txn c) "should have txn to apply");
  _ ← lift (ensure (bool_decide (pt_lifecycle p = Negotiating) || bool_decide (pt_lifecycle p = Agreed))
              "cannot apply pending txn which is already applying or traveling");
  let p := handle_apply_proposal p in
  match pt_lifecycle p with
  | Applying => _ ← ch_apply env (channel_txn (pt_proposal p)) (pt_output p) (pt_signatures p); mret None
  | Traveling =>
      let txn := channel_txn (pt_proposal p) in
      _ ← (if bool_decide (account_address (stm c) = ct_proposer txn) then
             signed_txn ← lift (build_signed_txn (stm c) p);
             _ ← lift (submit_transaction (env_client env) signed_txn);
             record_submitted signed_txn
           else mret tt);
      _ ← ch_save_pending_txn p;
      mret (Some (ct_proposer txn, ct_sequence_number txn))
  | _ => lift (Panic "internal error: entered unreachable code")
  end.

(** Handlers of [AccessingResource] and [GetPendingTxn] *)
Definition handle_accessing_resource (path : AccessPath) : H (option bytes) :=
  c ← getS; lift (access_local (witness_write_set (witness (stm c))) (channel_state (stm c)) path).
Definition handle_get_pending_txn : H (option PendingTransaction) := c ← getS; mret (pending_txn c).

(** [solo_action]; the actor is running, so the notification is delivered. *)
Definition solo_action env (op : ChannelOp) (args : list TransactionArgument) : H unit :=
  _ ← handle_execute env op args;
  o ← handle_apply_pending env;
  w ← lift (ok_or o "expect solo channel txn not applying");
  notify_watch w.1 w.2.

(** The [ChannelOp::Action] that the actor submits on its own. *)
Definition contract_action (function_name : string) : ChannelOp := OpAction core_code_address account_module_name function_name.

(** The checks that [ApplyCoSignedTxn] and [ApplySoloTxn] begin with: the transaction, its payload, and
    its and the local sequence number. *)
Definition check_channel_txn (c : Channel) (txn : Transaction) (authorized : bool)
    : res (SignedTransaction * ChannelTransactionPayload * Z * Z) :=
  signed_txn ← match txn with UserTransaction s => Ok s | _ => Err "should be user txn" end;
  payload ← ok_or (channel_payload signed_txn) "should be channel txn";
  _ ← rassert (bool_decide (txn_sender signed_txn ∈ participant_addresses (stm c))) "debug_assert";
  _ ← rassert (bool_decide (channel_address (stm c) = payload_channel_address payload)) "debug_assert";
  _ ← rassert (Bool.eqb (payload_is_authorized payload) authorized) "debug_assert";
  let txn_channel_seq_number := witness_channel_sequence_number (payload_witness payload) in
  local_channel_seq_number ← channel_sequence_number (stm c);
  _ ← rassert (bool_decide (txn_channel_seq_number <= local_channel_seq_number)%Z)
        "Local state is stale, there must be some bugs";
  Ok (signed_txn, payload, txn_channel_seq_number, local_channel_seq_number).

(** Handler of [ApplyCoSignedTxn] *)
Definition handle_apply_cosigned env (txn : Transaction) (txn_info : TransactionInfo) (version : Z)
    (events : list ContractEvent) : H Z :=
  c ← getS;
  '(signed_txn, _, txn_seq, local_seq) ← lift (check_channel_txn c txn true);
  if bool_decide (txn_seq < local_seq)%Z then
    o ← lift (check_applied c txn_seq);
    applied_txn ← lift (expect o "debug_assert");
    match wp_signed_transaction applied_txn with
    | Travel s =>
        if bool_decide (raw_txn_hash s = raw_txn_hash signed_txn)
        then mret (ti_gas_used (wp_proof applied_txn).2)
        else lift (Panic "not implemented")
    | Offchain _ => lift (Panic "not implemented")
    end
  else
    _ ← apply_travel env version signed_txn txn_info events;
    c ← getS;
    o ← lift (channel_resource (stm c));
    resource ← lift (ok_or o "channel resource should exists in local");
    _ ← lift (rassert (negb (resource_locked resource)) "debug_assert");
    _ ← (if resource_opened resource then
           if bool_decide (resource_sequence_number resource = 1%Z) then spawn_event_loop (resource_event_count resource)
           else mret tt
         else if resource_closed resource then set_stopping else mret tt);
    mret (txi_gas_used txn_info).

(** [watch_channel_lock_timeout]; [interest] is the answer of the chain watcher. *)
Definition watch_channel_lock_timeout (interest : res unit) : H unit :=
  c ← getS;
  o ← lift (channel_lock_by_resource (stm c));
  time_lock ← lift (expect o "expect lock_by resource exists");
  _ ← lift interest;
  spawn_lock_watch time_lock.

(** Handler of [ApplySoloTxn] *)
Definition handle_apply_solo env (interest : res unit) (txn : Transaction) (txn_info : TransactionInfo) (version : Z)
    (events : list ContractEvent) : H Z :=
  c ← getS;
  '(signed_txn, payload, txn_seq, local_seq) ← lift (check_channel_txn c txn false);
  if bool_decide (txn_seq < local_seq)%Z then
    o ← lift (check_applied c (payload_channel_sequence_number payload));
    applied_txn ← lift (expect o "debug_assert");
    match wp_signed_transaction applied_txn with
    | Travel s =>
        if bool_decide (raw_txn_hash s = raw_txn_hash signed_txn)
        then mret (ti_gas_used (wp_proof applied_txn).2)
        else lift (Panic "not implemented")
    | Offchain _ =>
        if bool_decide (account_address (stm c) = txn_sender signed_txn) then lift (Panic "not implemented")
        else _ ← solo_action env (contract_action "challenge") []; mret 0%Z
    end
  else
    _ ← apply_travel env version signed_txn txn_info events;
    c ← getS;
    o ← lift (channel_resource (stm c));
    resource ← lift (ok_or o "channel resource should exists in local");
    _ ← (if resource_locked resource then
           if bool_decide (account_address (stm c) = txn_sender signed_txn) then
             o ← lift (channel_lock_by_resource (stm c));
             _ ← lift (expect o "called `Option::unwrap()` on a `None` value");
             watch_channel_lock_timeout interest
           else solo_action env (contract_action "resolve") []
         else if resource_closed resource then set_stopping else mret tt);
    mret (txi_gas_used txn_info).

(** Handler of [WatchAndApplyTravelTxn] *)
Definition handle_watch_and_apply env (interest : res unit) (sender : AccountAddress) (seq_number : Z) : H Z :=
  t ← lift (watch_transaction (env_client env) sender seq_number);
  let events := default [] (twp_events t) in
  signed ← lift (match twp_transaction t with UserTransaction s => Ok s | _ => Err "not a user transaction" end);
  payload ← lift (ok_or (channel_payload signed) "invalid channel travel txn");
  _ ← (if negb (payload_is_authorized payload)
       then handle_apply_solo env interest (twp_transaction t) (twp_info t) (twp_version t) events
       else handle_apply_cosigned env (twp_transaction t) (twp_info t) (twp_version t) events);
  mret (txi_gas_used (twp_info t)).

(** Handler of [ChannelLockTimeout] *)
Definition handle_lock_timeout env (block_height time_lock : Z) : H unit :=
  _ ← lift (ensure (bool_decide (time_lock < block_height)%Z) "invalid lock timeout msg");
  c ← getS;
  o ← lift (channel_lock_by_resource (stm c));
  match o with
  | None => mret tt
  | Some _ =>
      ps ← lift (expect (head (bt_sort (participant_addresses (stm c) ∖ {[account_address (stm c)]})))
                   "should contain at least 1 participants");
      solo_action env (contract_action "close") [TransactionArgument_Address ps]
  end.

(** Handler of [ChannelStageChange]; [Vec::remove(0)] panics on an empty vector. *)
Definition handle_stage_change env (interest : res unit) (version : Z) : H unit :=
  c ← getS;
  if bool_decide (version <= cst_version (channel_state (stm c)))%Z then mret tt
  else
    l ← lift (cc_get_transaction (env_client env) version 1 true);
    match tl_first_transaction_version l with
    | None => lift (Err "get_transaction return empty txn for version")
    | Some v =>
        _ ← lift (rassert (bool_decide (v = version)) "debug_assert_eq");
        txn ← lift (expect (head (tl_transactions l)) "removal index");
        txn_info ← lift (expect (head (tl_infos l)) "removal index");
        evs ← lift (expect (tl_events l) "called `Option::unwrap()` on a `None` value");
        events ← lift (expect (head evs) "removal index");
        signed ← lift (match txn with UserTransaction s => Ok s | _ => Panic "not a user transaction" end);
        payload ← lift (expect (channel_payload signed) "debug_assert");
        if negb (payload_is_authorized payload) && bool_decide (account_address (stm c) <> txn_sender signed)
        then _ ← handle_apply_solo env interest txn txn_info version events; mret tt
        else mret tt
    end.

(** [Channel::bootstrap] *)
Definition bootstrap env : H unit :=
  c ← getS;
  o ← lift (get_startup_info (store c));
  match o with
  | None => mret tt
  | Some startup_info =>
      applied_txn ← lift (get_transaction_by_channel_seq_number (store c) (li_epoch (si_ledger_info startup_info)) false);
      _ ← lift (rassert (travel (wp_signed_transaction applied_txn)) "assertion failed");
      match wp_signed_transaction applied_txn with
      | Offchain _ => lift (Err "invalid state")
      | Travel txn =>
          o ← lift (get_transaction_by_seq_num (env_client env) (txn_sender txn) (txn_sequence_number txn));
          t ← lift (expect o "debug_assert");
          '(version, blob, proof) ←
            lift (get_account_state_with_proof_inner (env_client env) (channel_address (stm c)) (Some (twp_version t)));
          blob ← lift (ok_or blob "channel state should exists");
          state ← lift (from_account_state_blob version blob proof);
          update_stm (Some (mkChannelState (channel_address (stm c)) state))
      end
  end.

(** [Channel::load] *)
Definition load (address account : AccountAddress) (initial_participants : option (gset AccountAddress)) (db : S)
    (kp : KeyPair) (registry : PackageRegistry) : res Channel :=
  s ← expect_ok (ChannelStore_new (default ∅ initial_participants) db);
  let ps := ChannelStore.participant_addresses s in
  _ ← rassert (negb (bool_decide (ps = ∅))) "debug_assert";
  t ← TxApplier_new s;
  Ok (mkChannel t (ChannelStm_new address account ps kp registry) Ctx_new).

(** An error of a handler that [started] runs stops the actor. *)
Definition or_stop {T} (m : H T) : H (option T) := fun c =>
  match m c with
  | (Ok a, c') => (Ok (Some a), c')
  | (Err _, c') => (set_stopping ≫= fun _ => mret None) c'
  | (Panic e, c') => (Panic e, c')
  end.

(** [Actor::started] *)
Definition started env (interest : res unit) : H unit :=
  c ← getS;
  _ ← match pending_txn c with
      | Some p =>
          match pt_lifecycle p with
          | Agreed =>
              o ← or_stop (handle_apply_pending env);
              match o with
              | Some (Some (sender, seq_number)) =>
                  _ ← or_stop (handle_watch_and_apply env interest sender seq_number); mret tt
              | _ => mret tt
              end
          | Traveling =>
              let txn := channel_txn (pt_proposal p) in
              _ ← or_stop (handle_watch_and_apply env interest (ct_proposer txn) (ct_sequence_number txn)); mret tt
          | _ => mret tt
          end
      | None => mret tt
      end;
  c ← getS;
  r ← lift (channel_resource (stm c));
  match r with
  | Some resource => spawn_event_loop (resource_event_count resource)
  | None => mret tt
  end.

(** A package installed in the registry, which the wallet and its channels share. *)
Definition handle_install (package : ChannelScriptPackage) : H unit :=
  c ← getS;
  r ← lift (install_package (script_registry (stm c)) package);
  modifyS (fun c => set_stm (mkStm (channel_address (stm c)) (account_address (stm c)) (participant_addresses (stm c))
    (participant_keys (stm c)) (channel_state (stm c)) (witness (stm c)) (keypair (stm c)) r) c).

(** ** Running a channel *)

Inductive message :=
| Started
| MExecute (op : ChannelOp) (args : list TransactionArgument)
| Collect (proposal : ChannelTransactionProposal) (sigs : ChannelTransactionSigs)
| Grant (channel_txn_id : HashValue)
| Cancel (channel_txn_id : HashValue)
| ApplyPending
| WatchAndApply (sender : AccountAddress) (seq_number : Z)
| LockTimeout (block_height time_lock : Z)
| StageChange (version : Z)
| Install (package : ChannelScriptPackage).

(** The answer is dropped here. *)
Definition handle env (interest : res unit) (m : message) : H unit :=
  match m with
  | Started => started env interest
  | MExecute op args => _ ← handle_execute env op args; mret tt
  | Collect proposal sigs => _ ← handle_collect env proposal sigs; mret tt
  | Grant id => _ ← handle_grant id; mret tt
  | Cancel id => handle_cancel id
  | ApplyPending => _ ← handle_apply_pending env; mret tt
  | WatchAndApply sender n => _ ← handle_watch_and_apply env interest sender n; mret tt
  | LockTimeout h t => handle_lock_timeout env h t
  | StageChange v => handle_stage_change env interest v
  | Install p => handle_install p
  end.

(** ** Invariant *)

(** The transaction at version [v] of the ledger was agreed off chain by exactly the participants. *)
Definition cosigned (m : ChannelStm) (txs : list TC) (v : nat) (tx : TC) (t : SignedChannelTransaction) : Prop :=
  dom (sct_signatures t) = participant_addresses m /\
  forall a s, sct_signatures t !! a = Some s ->
    sigs_address s = a /\
    signs_payload (script_registry m) (channel_address m) (default Witness_default (last_witness (take v txs))) (raw_tx t) s /\
    signs_witness (Z.of_nat v + 1) (tc_write_set tx) s.

Context {AL : AccumulatorsLaws} {SL : SchemaDBLaws S}.

Record channel_inv (c : Channel) (txs : list TC) : Prop := {
  ci_applier : applier_inv (tx_applier c) txs (pending_txn c);
  ci_witness : witness (stm c) = default Witness_default (last_witness txs);
  ci_pending p : pending_txn c = Some p ->
    exists n, channel_sequence_number (stm c) = Ok n /\ pending_wf (stm c) n p;
  ci_cosigned v tx t : txs !! v = Some tx -> signed_channel_txn tx = Offchain t -> cosigned (stm c) txs v tx t;
  ci_participants : participant_addresses (stm c) = ChannelStore.participant_addresses (store c)
}.

(** The identity of the channel, which no handler changes. *)
Definition ids (m : ChannelStm) : AccountAddress * AccountAddress * gset AccountAddress * KeyPair :=
  (channel_address m, account_address m, participant_addresses m, keypair m).

(** The identity with the registry, which only the installation of a package changes. *)
Definition who (m : ChannelStm) : AccountAddress * AccountAddress * gset AccountAddress * KeyPair * PackageRegistry :=
  (ids m, script_registry m).

(** [later m0 txs0 o0 c]: [c] comes from the channel [m0] with ledger [txs0] and pending transaction [o0];
    its ledger extends [txs0] and, as long as the ledger is the same, its pending transaction extends
    [o0]. *)
Definition later (m0 : ChannelStm) (txs0 : list TC) (o0 : option PendingTransaction) (c : Channel) : Prop :=
  exists txs, channel_inv c txs /\ txs0 `prefix_of` txs /\ who (stm c) = who m0 /\
    (txs = txs0 -> forall p, o0 = Some p -> exists p', pending_txn c = Some p' /\ pending_le p p').

(** The channel after a sequence of messages, each with the world it met. *)
Definition run_channel (c : Channel) (l : list (Env * res unit * message)) : Channel :=
  fold_left (fun c e => (handle e.1.1 e.1.2 e.2 c).2) l c.
End channel.

Section channel_lemmas.
Context {L : Libra} {B : SchemaBatches} {A : Accumulators} {C : StoreCodecs} {K : Chain} {CC : ChannelTxnCodec}.
Context {LL : LibraLaws} {BL : SchemaBatchesLaws} {AL : AccumulatorsLaws}.
Context {S : Type} {SD : SchemaDB S} {SL : SchemaDBLaws S}.
Implicit Types c : Channel (S := S).
Notation store c := (ta_store (tx_applier c)).

(** Applying changes keys of participants, not the participants. *)
Lemma updated_participants keys new_keys :
  dom (list_to_map (updated_public_keys keys new_keys) ∪ keys : gmap AccountAddress (option Ed25519PublicKey)) = dom keys.
Proof.
  rewrite dom_union_L, dom_list_to_map_L. enough (list_to_set (updated_public_keys keys new_keys).*1 ⊆ dom keys) by set_solver.
  intros a. rewrite elem_of_list_to_set, list_elem_of_fmap. intros ([a' k] & -> & Hin). simpl.
  unfold updated_public_keys in Hin. apply list_elem_of_omap in Hin as ([[b o] nk] & Hz & Hf).
  assert (b = a') as -> by (simpl in Hf; destruct o; [case_bool_decide|]; naive_solver).
  apply elem_of_zip_l in Hz. apply elem_of_bt_iter in Hz. by apply elem_of_dom_2 in Hz.
Qed.

Lemma apply_participants (t : TxApplier (S := S)) tx now t' : apply t tx now = Ok t' ->
  ChannelStore.participant_addresses (ta_store t') = ChannelStore.participant_addresses (ta_store t).
Proof.
  unfold apply. intros (? & _ & (? & _ & (? & _ & (? & _ & (? & _ & (s & Hs & [= <-])%bind_Ok_iff)%bind_Ok_iff)%bind_Ok_iff)%bind_Ok_iff)%bind_Ok_iff)%bind_Ok_iff.
  simpl. unfold save_tx in Hs. apply bind_Ok_iff in Hs as (? & _ & Hs). apply bind_Ok_iff in Hs as (? & _ & Hs).
  apply bind_Ok_iff in Hs as (ks & _ & Hs). apply bind_Ok_iff in Hs as ([h b] & _ & Hs).
  apply bind_Ok_iff in Hs as (? & _ & Hs). apply bind_Ok_iff in Hs as (db' & _ & [= <-]).
  apply updated_participants.
Qed.

(** What applying tells: the transaction was the next one. *)
Lemma apply_Ok_inv t txs p tx now t' : applier_inv t txs p -> apply t tx now = Ok t' ->
  applied_channel_sequence_number (signed_channel_txn tx) = Ok (Z.of_nat (length txs)) /\
  applier_inv t' (txs ++ [tx]) None /\ cs_pending_txn (ta_store t') = None /\
  ChannelStore.participant_addresses (ta_store t') = ChannelStore.participant_addresses (ta_store t).
Proof.
  intros Hinv Happ. assert (exists n, applied_channel_sequence_number (signed_channel_txn tx) = Ok n /\ (n + 1 <= u64_max)%Z /\ (0 <= now)%Z)
    as (n & Hseq & Hb & Hnow).
  { unfold apply in Happ. apply bind_Ok_iff in Happ as (n & Hseq & Happ). exists n. split; [done|].
    apply bind_Ok_iff in Happ as (? & _ & Happ). apply bind_Ok_iff in Happ as (n1 & Hn1 & Happ).
    apply bind_Ok_iff in Happ as (? & _ & Happ). apply bind_Ok_iff in Happ as (ts & Hts & _).
    unfold add_u64 in Hn1. unfold get_current_timestamp in Hts. by repeat case_bool_decide. }
  destruct (decide (n = Z.of_nat (length txs))) as [->|Hne]; [|by rewrite (apply_mismatch t txs p tx now n) in Happ].
  split; [done|]. enough (applier_inv t' (txs ++ [tx]) None /\ cs_pending_txn (ta_store t') = None) as [? ?].
  { split_and!; [done..|by eapply apply_participants]. }
  destruct (apply_ok t txs p tx now Hinv) as (b & Hbk & Hok & Herr); [unfold small; lia|done..|].
  destruct (write_cases (cs_db (ta_store t)) b (apply t tx now)
    (fun t' => applier_inv t' (txs ++ [tx]) None /\ cs_pending_txn (ta_store t') = None) Hbk) as [_ HP]; [|done|by apply HP].
  intros db' Hdb. destruct (Hok db' Hdb) as (t2 & -> & H1 & H2). eauto.
Qed.

Lemma cosigned_app m txs tx' v tx t : v < length txs -> cosigned m txs v tx t -> cosigned m (txs ++ [tx']) v tx t.
Proof. intros Hv. unfold cosigned. by rewrite take_app_le by lia. Qed.

Lemma channel_sequence_number_same m m' : channel_address m = channel_address m' -> witness m = witness m' ->
  channel_state m = channel_state m' -> channel_sequence_number m = channel_sequence_number m'.
Proof. intros E1 E2 E3. unfold channel_sequence_number, get_local. by rewrite E1, E2, E3. Qed.

Section later.
Context (m0 : ChannelStm) (txs0 : list TC) (o0 : option PendingTransaction).
Notation I := (later m0 txs0 o0).

(** Replacing the context changes nothing. *)
Lemma later_ctx c f : I c -> I (set_ctx f c).
Proof. intros (txs & [H1 H2 H3 H4 H5] & H). exists txs. split; [by split|done]. Qed.

Lemma later_save c p n : I c -> channel_sequence_number (stm c) = Ok n -> pending_wf (stm c) n p ->
  (forall p0, pending_txn c = Some p0 -> pending_le p0 p) ->
  hoare I (eq c) (ch_save_pending_txn p) (fun _ => I).
Proof.
  intros Hc Hn Hwf Hle. apply hoare_get. intros ? <-.
  assert (forall s, save_pending_txn (store c) p true = Ok s -> I (set_store s c)) as Hsave.
  { intros s Hs. destruct Hc as (txs & Hinv & Hpre & Hids & Hp). destruct (Hinv) as [Ha Hw _ Hco Hpa].
    destruct (run_op_ok (tx_applier c) txs (pending_txn c) (OpSavePending p true) Ha) as [_ Hr]; [done..|].
    simpl in Hr. rewrite Hs in Hr. specialize (Hr _ eq_refl).
    assert (cs_pending_txn s = Some p /\ cs_participant_keys s = cs_participant_keys (store c)) as [Ep Ek].
    { unfold save_pending_txn in Hs. apply bind_Ok_iff in Hs as (? & _ & [= <-]). done. }
    exists txs. split_and!; [|done..|].
    - split; simpl; [unfold pending_txn; simpl; by rewrite Ep|done| |done|].
      + unfold pending_txn. simpl. rewrite Ep. intros ? [= <-]. by exists n.
      + unfold ChannelStore.participant_addresses. by rewrite Ek.
    - intros E q Hq. unfold pending_txn. simpl. rewrite Ep. exists p. split; [done|].
      destruct (Hp E q Hq) as (p' & Hp' & ?). eapply pending_le_trans; [done|by apply Hle]. }
  assert (hoare I (eq c) (s ← lift (save_pending_txn (store c) p true); modifyS (set_store s)) (fun _ => I)) as Hs.
  { apply hoare_lift; [done|]. intros s Hs. apply hoare_modify. intros ? <-. by apply Hsave. }
  destruct (cs_pending_txn (store c)) as [cur|]; [|done].
  case_bool_decide; [by apply hoare_ret; intros ? <-|]. case_match; [|done]. by apply hoare_lift_last.
Qed.

(** After a commit: the ledger is [txs ++ [tx]], nothing is pending, and the state machine follows. *)
Lemma later_commit c txs tx t' cs : channel_inv c txs -> txs0 `prefix_of` txs -> who (stm c) = who m0 ->
  applier_inv t' (txs ++ [tx]) None -> cs_pending_txn (ta_store t') = None ->
  ChannelStore.participant_addresses (ta_store t') = ChannelStore.participant_addresses (store c) ->
  (forall t, signed_channel_txn tx = Offchain t -> cosigned (stm c) (txs ++ [tx]) (length txs) tx t) ->
  hoare I (eq (set_applier t' c)) (update_stm cs) (fun _ => I).
Proof.
  intros Hinv Hpre Hids Ht Hnone Hpa Hnew. apply hoare_get. intros ? <-. apply hoare_modify. intros ? <-.
  assert (latest_witness_or_default (set_applier t' c) = default Witness_default (last_witness (txs ++ [tx]))) as Ew.
  { unfold latest_witness_or_default. simpl. f_equal. apply (lg_witness _ _ (ai_ledger _ _ _ Ht)). }
  exists (txs ++ [tx]). split_and!.
  - split; simpl.
    + unfold pending_txn. simpl. by rewrite Hnone.
    + done.
    + unfold pending_txn. simpl. by rewrite Hnone.
    + intros v tx' t Hv Hoff. rewrite lookup_snoc_version in Hv. case_decide as Hd.
      * simplify_eq. by apply Hnew.
      * apply cosigned_app; [by eapply lookup_lt_Some|]. by apply (ci_cosigned c txs Hinv).
    + rewrite Hpa. apply (ci_participants c txs Hinv).
  - by apply prefix_app_r.
  - done.
  - intros E. rewrite <-E in Hpre. destruct Hpre as [l Hl]. apply (f_equal length) in Hl. rewrite !length_app in Hl. simpl in Hl. lia.
Qed.

(** Applying an agreed transaction. *)
Lemma later_apply c env p : I c -> pending_txn c = Some p -> pt_lifecycle p = Agreed -> is_travel_txn (pt_output p) = false ->
  hoare I (eq c) (ch_apply env (channel_txn (pt_proposal p)) (pt_output p) (pt_signatures p)) (fun _ => I).
Proof.
  intros Hc Hp Hag Htr. destruct (Hc) as (txs & Hinv & Hpre & Hids & _). apply hoare_get. intros ? <-.
  apply hoare_lift; [done|]. intros t' Ht. apply hoare_modify_bind.
  destruct (apply_Ok_inv _ _ _ _ _ _ (ci_applier c txs Hinv) Ht) as (Hseq & Hinv' & Hnone & Hpa).
  simpl in Hseq. injection Hseq as Hseq. eapply later_commit; try done. intros t [= <-].
  destruct (ci_pending c txs Hinv p Hp) as (n & Hn & Hwf). split; [apply (pw_agreed _ _ _ Hwf); by left|]. simpl.
  intros a s Ha. destruct (pw_sigs _ _ _ Hwf a s Ha) as (Ea & H1 & H2 & _). split_and!; [done| |].
  - rewrite take_app_le, take_ge by lia. by rewrite <-(ci_witness c txs Hinv).
  - rewrite (pw_seq _ _ _ Hwf) in Hseq. rewrite <-Hseq. unfold next_write_set in H2. by rewrite Htr in H2.
Qed.

Lemma later_apply_travel c env version s info events : I c ->
  hoare I (eq c) (apply_travel env version s info events) (fun _ => I).
Proof.
  intros Hc. destruct (Hc) as (txs & Hinv & Hpre & Hids & _). apply hoare_get. intros ? <-.
  apply hoare_lift; [done|]. intros state _. apply hoare_lift; [done|]. intros t' Ht. apply hoare_modify_bind.
  destruct (apply_Ok_inv _ _ _ _ _ _ (ci_applier c txs Hinv) Ht) as (_ & Hinv' & Hnone & Hpa).
  by eapply later_commit.
Qed.

(** A new or repeated proposal, then a signature, from the pending transaction of [c]. *)
Lemma later_new_proposal c env prop o p : I c ->
  handle_new_proposal env (stm c) (pending_txn c) prop = Ok o -> o = Some p ->
  exists n, channel_sequence_number (stm c) = Ok n /\ pending_wf (stm c) n p /\
    (forall p0, pending_txn c = Some p0 -> pending_le p0 p).
Proof.
  intros (txs & Hinv & _) Hh ->. assert (exists n, channel_sequence_number (stm c) = Ok n) as [n Hn].
  { unfold handle_new_proposal in Hh. apply bind_Ok_iff in Hh as (n & Hn & _). eauto. }
  destruct (handle_new_proposal_wf env (stm c) (pending_txn c) prop (Some p) n Hn) as (q & [= <-] & Hwf & Hcase); [|done|].
  - intros q Hq. destruct (ci_pending c txs Hinv q Hq) as (n' & Hn' & Hwf). congruence.
  - exists n. split_and!; [done..|]. intros p0 Hp0. destruct Hcase as [E|[E _]]; [|congruence].
    rewrite E in Hp0. injection Hp0 as ->. apply pending_le_refl.
Qed.

Lemma later_signature c p n id s p' : channel_sequence_number (stm c) = Ok n -> pending_wf (stm c) n p ->
  (forall p0, pending_txn c = Some p0 -> pending_le p0 p) ->
  handle_proposal_signature (stm c) p id s = Ok p' ->
  pending_wf (stm c) n p' /\ (forall p0, pending_txn c = Some p0 -> pending_le p0 p').
Proof.
  intros Hn Hwf Hle Hs. destruct (handle_proposal_signature_wf _ _ _ _ _ _ Hn Hwf Hs) as [Hwf' Hle'].
  split; [done|]. intros p0 Hp0. eapply pending_le_trans; [by apply Hle|done].
Qed.

(** Symbolic execution of a handler from a state where [I] holds. *)
Ltac hstep :=
  first
    [ apply hoare_get; intros ? <-
    | apply hoare_lift; [done|]; intros ? ?
    | apply hoare_ret; intros ? <-; done
    | apply hoare_lift_last; [done|]; intros; done ].

Lemma hoare_then {T U} (m : stM (Channel (S := S)) T) (f : T -> stM (Channel (S := S)) U) c :
  hoare I (eq c) m (fun _ => I) -> (forall a c, I c -> hoare I (eq c) (f a) (fun _ => I)) ->
  hoare I (eq c) (m ≫= f) (fun _ => I).
Proof. intros Hm Hf. eapply hoare_bind; [done|]. intros a. apply hoare_eq. by apply Hf. Qed.

Lemma later_modify_ctx c f : I c -> hoare I (eq c) (modifyS (set_ctx f)) (fun _ => I).
Proof. intros Hc. apply hoare_modify. intros ? <-. by apply later_ctx. Qed.

Lemma later_execute c env op args : I c -> hoare I (eq c) (handle_execute env op args) (fun _ => I).
Proof.
  intros Hc. unfold handle_execute. do 2 hstep. apply hoare_lift; [done|]. intros o Ho. apply hoare_lift; [done|]. intros p Hp.
  destruct o as [q|]; [|done]. injection Hp as ->. destruct (later_new_proposal c env _ _ p Hc Ho eq_refl) as (n & Hn & Hwf & Hle).
  hstep. apply hoare_lift; [done|]. intros p' Hp'. destruct (later_signature c p n _ _ p' Hn Hwf Hle Hp') as [Hwf' Hle'].
  apply hoare_then; [by eapply later_save|]. intros _ c' Hc'. hstep.
Qed.

Lemma later_collect c env prop sigs : I c -> hoare I (eq c) (handle_collect env prop sigs) (fun _ => I).
Proof.
  intros Hc. unfold handle_collect. do 2 hstep. apply hoare_lift; [done|]. intros [signed|] _.
  { destruct (wp_signed_transaction signed); [|hstep]. destruct (bool_decide (channel_txn_hash _ <> _)); [hstep|]. hstep. hstep. }
  apply hoare_lift; [done|]. intros o Ho. apply hoare_lift; [done|]. intros p Hp.
  destruct o as [q|]; [|done]. injection Hp as ->. destruct (later_new_proposal c env _ _ p Hc Ho eq_refl) as (n & Hn & Hwf & Hle).
  apply hoare_lift; [done|]. intros p1 Hp1. destruct (later_signature c p n _ _ p1 Hn Hwf Hle Hp1) as [Hwf1 Hle1].
  apply (hoare_bind I _ _ (fun p2 c' => c' = c /\ pending_wf (stm c) n p2 /\ (forall p0, pending_txn c = Some p0 -> pending_le p0 p2))).
  - case_match; [|apply hoare_ret; intros ? <-; by split_and!]. hstep. apply hoare_lift_last; [done|]. intros p2 Hp2.
    split; [done|]. by eapply later_signature.
  - intros p2. apply hoare_eq. intros ? (-> & Hwf2 & Hle2). apply hoare_then; [by eapply later_save|]. intros _ c' Hc'. hstep.
Qed.

Lemma later_current c p : I c -> pending_txn c = Some p ->
  exists n, channel_sequence_number (stm c) = Ok n /\ pending_wf (stm c) n p /\ (forall p0, pending_txn c = Some p0 -> pending_le p0 p).
Proof.
  intros (txs & Hinv & _) Hp. destruct (ci_pending c txs Hinv p Hp) as (n & Hn & Hwf). exists n. split_and!; [done..|].
  rewrite Hp. intros ? [= <-]. apply pending_le_refl.
Qed.

Lemma later_grant c id : I c -> hoare I (eq c) (handle_grant id) (fun _ => I).
Proof.
  intros Hc. unfold handle_grant. hstep. apply hoare_lift; [done|]. intros p Hp.
  assert (pending_txn c = Some p) as Hpt by (destruct (pending_txn c); simpl in Hp; congruence).
  destruct (later_current c p Hc Hpt) as (n & Hn & Hwf & Hle). do 3 hstep. apply hoare_lift; [done|]. intros p' Hp'.
  destruct (later_signature c p n _ _ p' Hn Hwf Hle Hp') as [Hwf' Hle'].
  apply hoare_then; [by eapply later_save|]. intros _ c' Hc'. hstep.
Qed.

Lemma travelling_wf m n p : pending_wf m n p -> pending_wf m n (set_travelling p) /\ pending_le p (set_travelling p).
Proof.
  intros [H1 H2 H3 H4]. split; split; try done; simpl; [by intros []|]. by destruct (pt_lifecycle p).
Qed.

Lemma later_apply_pending c env : I c -> hoare I (eq c) (handle_apply_pending env) (fun _ => I).
Proof.
  intros Hc. unfold handle_apply_pending. hstep. apply hoare_lift; [done|]. intros p Hp.
  assert (pending_txn c = Some p) as Hpt by (destruct (pending_txn c); simpl in Hp; congruence).
  apply hoare_lift; [done|]. intros ? Hl%ensure_Ok. unfold handle_apply_proposal.
  destruct (consensus_reached p && negb (is_travel_txn (pt_output p))) eqn:Hoff; simpl.
  - apply andb_true_iff in Hoff as [Hcr Htr%negb_true_iff]. apply hoare_then; [|intros ? c' ?; hstep].
    apply later_apply; try done. unfold consensus_reached in Hcr. apply bool_decide_eq_true in Hcr.
    apply orb_true_iff in Hl as [Hl|Hl]; apply bool_decide_eq_true in Hl; [|done]. rewrite Hl in Hcr. simpl in Hcr. lia.
  - destruct (later_current c p Hc Hpt) as (n & Hn & Hwf & Hle). destruct (travelling_wf (stm c) n p Hwf) as [Hwf' Hle'].
    apply (hoare_bind I _ _ (fun _ c' => exists f, c' = set_ctx f c)).
    + case_match; [|apply hoare_ret; intros ? <-; exists (fun x => x); by destruct c]. do 2 hstep.
      apply hoare_modify. intros ? <-. eexists. done.
    + intros _. apply hoare_eq. intros ? [f ->]. apply hoare_then; [|intros ? c' ?; hstep].
      eapply (later_save (set_ctx f c)); [by apply later_ctx|done|done|].
      intros p0 Hp0. eapply pending_le_trans; [by apply Hle|done].
Qed.

Lemma later_solo_action c env op args : I c -> hoare I (eq c) (solo_action env op args) (fun _ => I).
Proof.
  intros Hc. unfold solo_action. apply hoare_then; [by apply later_execute|]. intros _ c1 H1.
  apply hoare_then; [by apply later_apply_pending|]. intros o c2 H2. hstep. by apply later_modify_ctx.
Qed.

Lemma later_apply_cosigned c env txn info version events : I c ->
  hoare I (eq c) (handle_apply_cosigned env txn info version events) (fun _ => I).
Proof.
  intros Hc. unfold handle_apply_cosigned. hstep. apply hoare_lift; [done|]. intros [[[signed payload] txn_seq] local_seq] _.
  destruct (bool_decide (txn_seq < local_seq)%Z).
  { do 2 hstep. destruct (wp_signed_transaction _) as [?|s]; [hstep|]. destruct (bool_decide (raw_txn_hash s = _)); hstep. }
  apply hoare_then; [by apply later_apply_travel|]. intros _ c1 H1. do 4 hstep.
  apply hoare_then; [|intros ? c2 ?; hstep].
  destruct (resource_opened _); [destruct (bool_decide _); [by apply later_modify_ctx|hstep]|].
  destruct (resource_closed _); [by apply later_modify_ctx|hstep].
Qed.

Lemma later_watch_lock c interest : I c -> hoare I (eq c) (watch_channel_lock_timeout interest) (fun _ => I).
Proof. intros Hc. unfold watch_channel_lock_timeout. do 4 hstep. by apply later_modify_ctx. Qed.

Lemma later_apply_solo c env interest txn info version events : I c ->
  hoare I (eq c) (handle_apply_solo env interest txn info version events) (fun _ => I).
Proof.
  intros Hc. unfold handle_apply_solo. hstep. apply hoare_lift; [done|]. intros [[[signed payload] txn_seq] local_seq] _.
  destruct (bool_decide (txn_seq < local_seq)%Z).
  { do 2 hstep. destruct (wp_signed_transaction _) as [?|s].
    - destruct (bool_decide _); [hstep|]. apply hoare_then; [by apply later_solo_action|]. intros ? c2 ?. hstep.
    - destruct (bool_decide (raw_txn_hash s = _)); hstep. }
  apply hoare_then; [by apply later_apply_travel|]. intros _ c1 H1. do 3 hstep.
  apply hoare_then; [|intros ? c2 ?; hstep]. destruct (resource_locked _).
  - destruct (bool_decide _); [do 2 hstep; by apply later_watch_lock|by apply later_solo_action].
  - destruct (resource_closed _); [by apply later_modify_ctx|hstep].
Qed.

Lemma later_watch_and_apply c env interest sender n : I c ->
  hoare I (eq c) (handle_watch_and_apply env interest sender n) (fun _ => I).
Proof.
  intros Hc. unfold handle_watch_and_apply. do 3 hstep. apply hoare_then; [|intros ? c2 ?; hstep].
  destruct (negb _); [by apply later_apply_solo|by apply later_apply_cosigned].
Qed.

Lemma later_stage_change c env interest v : I c -> hoare I (eq c) (handle_stage_change env interest v) (fun _ => I).
Proof.
  intros Hc. unfold handle_stage_change. hstep. destruct (bool_decide (v <= _)%Z); [hstep|]. hstep.
  destruct (tl_first_transaction_version _); [|hstep]. do 7 hstep. destruct (_ && _); [|hstep].
  apply hoare_then; [by apply later_apply_solo|]. intros ? c2 ?. hstep.
Qed.

Lemma later_lock_timeout c env h t : I c -> hoare I (eq c) (handle_lock_timeout env h t) (fun _ => I).
Proof.
  intros Hc. unfold handle_lock_timeout. do 2 hstep. apply hoare_lift; [done|]. intros [?|] _; [|hstep]. hstep.
  by apply later_solo_action.
Qed.

Lemma later_or_stop {T} c (m : stM (Channel (S := S)) T) : I c -> hoare I (eq c) m (fun _ => I) ->
  hoare I (eq c) (or_stop m) (fun _ => I).
Proof.
  intros Hc Hm ? <-. specialize (Hm c eq_refl). unfold or_stop. destruct (m c) as [[a|e|e] c']; [done| |done].
  by apply later_ctx.
Qed.

Lemma later_started c env interest : I c -> hoare I (eq c) (started env interest) (fun _ => I).
Proof.
  intros Hc. unfold started. hstep. apply hoare_then.
  - destruct (pending_txn c) as [p|]; [|hstep]. destruct (pt_lifecycle p); try hstep.
    + apply hoare_then; [apply later_or_stop; [done|by apply later_apply_pending]|]. intros [[[sender n]|]|] c1 H1; [|hstep..].
      apply hoare_then; [apply later_or_stop; [done|by apply later_watch_and_apply]|]. intros ? c2 ?. hstep.
    + apply hoare_then; [apply later_or_stop; [done|by apply later_watch_and_apply]|]. intros ? c2 ?. hstep.
  - intros _ c1 H1. hstep. apply hoare_lift; [done|]. intros [r|] _; [by apply later_modify_ctx|hstep].
Qed.

(** *** Installing a package *)

Lemma install_mono r pkg r' op args action : install_package r pkg = Ok r' ->
  channel_op_to_action r op args = Ok action -> channel_op_to_action r' op args = Ok action.
Proof.
  unfold install_package. case_bool_decide as Hn; [done|]. intros [= <-]. destruct op as [|p n|? ? ?|]; simpl; try done.
  unfold get_script. simpl. destruct (decide (package_name pkg = p)) as [<-|Hne].
  - destruct (packages r !! package_name pkg) eqn:E; [by destruct Hn|]. done.
  - by rewrite lookup_insert_ne.
Qed.

Lemma signs_payload_mono r pkg r' channel w txn s : install_package r pkg = Ok r' ->
  signs_payload r channel w txn s -> signs_payload r' channel w txn s.
Proof. intros Hi (action & Ha & Hv). exists action. split; [by eapply install_mono|done]. Qed.

(** Every message but [Cancel] and [Install]. *)
Lemma later_handle c env interest m : I c -> (forall id, m <> Cancel id) -> (forall pkg, m <> Install pkg) ->
  I (handle env interest m c).2.
Proof.
  intros Hc Hm Hi. assert (hoare I (eq c) (handle env interest m) (fun _ => I)) as Hh.
  { destruct m as [|op args|prop sigs|id|id| |sender n|h t|v|pkg]; unfold handle.
    - by apply later_started.
    - apply hoare_then; [by apply later_execute|intros ? c' ?; hstep].
    - apply hoare_then; [by apply later_collect|intros ? c' ?; hstep].
    - apply hoare_then; [by apply later_grant|intros ? c' ?; hstep].
    - by destruct (Hm id).
    - apply hoare_then; [by apply later_apply_pending|intros ? c' ?; hstep].
    - apply hoare_then; [by apply later_watch_and_apply|intros ? c' ?; hstep].
    - by apply later_lock_timeout.
    - by apply later_stage_change.
    - by destruct (Hi pkg). }
  specialize (Hh c eq_refl). by destruct (handle env interest m c) as [[[]|e|e] c'].
Qed.
End later.

Lemma later_refl c txs : channel_inv c txs -> later (stm c) txs (pending_txn c) c.
Proof. intros Hinv. exists txs. split_and!; [done..|]. intros _ p Hp. exists p. split; [done|apply pending_le_refl]. Qed.

(** Cancelling: the pending transaction was not agreed, and is gone. *)
Lemma cancel_inv c txs id : channel_inv c txs ->
  let c' := (handle_cancel id c).2 in
  channel_inv c' txs /\ who (stm c') = who (stm c) /\
  (pending_txn c' = pending_txn c \/
   (pending_txn c' = None /\ exists p, pending_txn c = Some p /\ consensus_reached p = false)).
Proof.
  intros Hinv c'. unfold c', handle_cancel, mbind, stM_bind, getS, lift, ch_clear_pending_txn. simpl.
  destruct (pending_txn c) as [p|] eqn:Hp; simpl; [|by rewrite Hp; auto].
  destruct (bool_decide _); simpl; [|by rewrite Hp; auto].
  destruct (consensus_reached p) eqn:Hcr; simpl; [by rewrite Hp; auto|]. unfold mbind, stM_bind, modifyS. simpl.
  destruct (clear_pending_txn (store c)) as [s|e|e] eqn:Hs; simpl; [|by rewrite Hp; auto|by rewrite Hp; auto].
  destruct (run_op_ok (tx_applier c) txs (pending_txn c) OpClearPending (ci_applier c txs Hinv)) as [_ Hr]; [done..|].
  simpl in Hr. rewrite Hs in Hr. specialize (Hr _ eq_refl). simpl in Hr.
  assert (cs_pending_txn s = None /\ cs_participant_keys s = cs_participant_keys (store c)) as [Es Ek].
  { unfold clear_pending_txn in Hs. apply bind_Ok_iff in Hs as (? & _ & [= <-]). done. }
  assert (channel_inv (set_store s c) txs) as Hinv'.
  { destruct Hinv as [_ H2 _ H4 H5]. split; unfold pending_txn; simpl; rewrite ?Es; try done.
    unfold ChannelStore.participant_addresses. by rewrite Ek. }
  split; [|split; [by destruct (is_open _)|right; split; [|eauto]]].
  - destruct (is_open _); [|done]. destruct Hinv' as [H1 H2 H3 H4 H5]. by split.
  - destruct (is_open _); simpl; unfold pending_txn; simpl; done.
Qed.

(** Installing a package. *)
Lemma install_inv c txs pkg : channel_inv c txs ->
  let c' := (handle_install pkg c).2 in
  channel_inv c' txs /\ ids (stm c') = ids (stm c) /\ tx_applier c' = tx_applier c /\ ctx c' = ctx c /\
  script_registry (stm c') = match install_package (script_registry (stm c)) pkg with Ok r => r | _ => script_registry (stm c) end.
Proof.
  intros Hinv c'. unfold c', handle_install, mbind, stM_bind, getS, lift. simpl.
  destruct (install_package (script_registry (stm c)) pkg) as [r|e|e] eqn:Hr; simpl; [|done..].
  split_and!; [|done..]. destruct Hinv as [H1 H2 H3 H4 H5]. split; [done..| | |done].
  - intros p Hpt. destruct (H3 p Hpt) as (n & Hn & [W1 W2 W3 W4]). exists n. split; [done|]. split; [done| |done..].
    intros a s Ha. destruct (W2 a s Ha) as (Ea & V1 & V2). split; [done|]. split; [by eapply signs_payload_mono|done].
  - intros v tx t Hv Ht. destruct (H4 v tx t Hv Ht) as [D1 D2]. split; [done|]. intros a s Ha.
    destruct (D2 a s Ha) as (E1 & E2 & E3). split_and!; [done|by eapply signs_payload_mono|done].
Qed.

(** One message. *)
Lemma handle_inv c txs env interest m : channel_inv c txs ->
  let c' := (handle env interest m c).2 in
  exists txs', channel_inv c' txs' /\ txs `prefix_of` txs' /\ ids (stm c') = ids (stm c) /\
    (txs' = txs -> forall p, pending_txn c = Some p ->
       (exists p', pending_txn c' = Some p' /\ pending_le p p') \/
       (pending_txn c' = None /\ consensus_reached p = false /\ exists id, m = Cancel id)).
Proof.
  intros Hinv c'. assert (((forall id, m <> Cancel id) /\ forall pkg, m <> Install pkg) \/ (exists id, m = Cancel id) \/
    exists pkg, m = Install pkg) as [[Hm Hi]|[[id ->]|[pkg ->]]].
  { destruct m; eauto; left; done. }
  - destruct (later_handle (stm c) txs (pending_txn c) c env interest m (later_refl c txs Hinv) Hm Hi) as (txs' & H1 & H2 & H3 & H4).
    exists txs'. apply (f_equal fst) in H3. split_and!; [done..|]. intros E p Hp. left. by apply H4.
  - destruct (cancel_inv c txs id Hinv) as (H1 & H2 & H3). exists txs. apply (f_equal fst) in H2. split_and!; [done..|]. intros _ p Hp.
    destruct H3 as [E|(E & q & Hq & Hcr)].
    + left. exists p. split; [by rewrite <-Hp|apply pending_le_refl].
    + right. split_and!; [done|congruence|eauto].
  - destruct (install_inv c txs pkg Hinv) as (H1 & H2 & H3 & _). exists txs. split_and!; [done..|]. intros _ p Hp. left.
    exists p. split; [|apply pending_le_refl]. unfold pending_txn, c' in *. cbn [handle]. by rewrite H3.
Qed.

Lemma handle_who c txs env interest m : channel_inv c txs -> (forall pkg, m <> Install pkg) ->
  who (stm (handle env interest m c).2) = who (stm c).
Proof.
  intros Hinv Hi. assert ((forall id, m <> Cancel id) \/ exists id, m = Cancel id) as [Hm|[id ->]].
  { destruct m; eauto; left; done. }
  - by destruct (later_handle (stm c) txs (pending_txn c) c env interest m (later_refl c txs Hinv) Hm Hi) as (? & _ & _ & ? & _).
  - apply (cancel_inv c txs id Hinv).
Qed.

Lemma run_channel_inv l c txs : channel_inv c txs ->
  exists txs', channel_inv (run_channel c l) txs' /\ txs `prefix_of` txs' /\ ids (stm (run_channel c l)) = ids (stm c).
Proof.
  revert c txs. induction l as [|[[env interest] m] l IH]; intros c txs Hinv; [by exists txs|].
  destruct (handle_inv c txs env interest m Hinv) as (txs1 & H1 & P1 & E1 & _).
  destruct (IH _ _ H1) as (txs2 & H2 & P2 & E2). exists txs2. simpl. split_and!; [done|by etrans|by rewrite E2].
Qed.

(** *** Starting *)

Lemma load_fresh address account participants db kp registry c :
  sdb_ok db -> (forall cf k, sdb_view db cf k = None) -> participants <> ∅ ->
  load address account (Some participants) db kp registry = Ok c ->
  channel_inv c [] /\ ids (stm c) = (address, account, participants, kp) /\ latest_ledger_info (store c) = None /\
  script_registry (stm c) = registry /\ pending_txn c = None.
Proof.
  intros Hok He Hne. unfold load. simpl. destruct (new_store_ok db participants Hok He) as (b & Hb & Hnew & Herr).
  pose proof (sdb_write_no_panic db b Hb) as Hnp. destruct (open_fresh db participants Hok He Hne) as [_ Hopen].
  destruct (sdb_write_schemas db b) as [db'|e|e]; [|by rewrite (Herr e eq_refl)|done].
  destruct (Hnew db' eq_refl) as [Hl Hs]. rewrite Hs. unfold open_applier in Hopen. rewrite Hs in Hopen. cbn [mbind res_bind expect_ok] in *.
  unfold ChannelStore.participant_addresses. simpl. rewrite dom_gset_to_gmap, bool_decide_eq_false_2 by done. simpl.
  intros (t & Ht & [= <-])%bind_Ok_iff. specialize (Hopen t Ht).
  assert (ta_store t = mkChannelStore db' None None None (gset_to_gmap None participants)) as Est.
  { unfold TxApplier_new, get_startup_info in Ht. simpl in Ht. apply bind_Ok_iff in Ht as (acc & _ & [= <-]). done. }
  split_and!; [|done|simpl; by rewrite Est|done|unfold pending_txn; simpl; by rewrite Est].
  split; simpl; unfold pending_txn; simpl; rewrite ?Est; try done.
  unfold ChannelStore.participant_addresses. simpl. by rewrite dom_gset_to_gmap.
Qed.

Lemma bootstrap_fresh env c : latest_ledger_info (store c) = None -> bootstrap env c = (Ok tt, c).
Proof.
  intros Hn. unfold bootstrap, mbind, stM_bind, getS, lift, get_startup_info. simpl. by rewrite Hn.
Qed.

Lemma channel_ledger c txs : channel_inv c txs -> ledger (store c) txs.
Proof. intros [[Hl _ _ _ _] _ _ _]. unfold pending_txn, durable, with_pending in Hl. by destruct (store c). Qed.

(** Loading the database of a channel gives its store and its pending transaction. *)
Lemma load_again c txs ips : channel_inv c txs ->
  exists t, load (channel_address (stm c)) (account_address (stm c)) ips (cs_db (store c)) (keypair (stm c)) (script_registry (stm c)) =
    Ok (mkChannel t (ChannelStm_new (channel_address (stm c)) (account_address (stm c)) (participant_addresses (stm c))
          (keypair (stm c)) (script_registry (stm c))) Ctx_new) /\
    ta_store t = store c /\ applier_inv t txs (pending_txn c).
Proof.
  intros Hinv. destruct (open_applier_ok (tx_applier c) txs (pending_txn c) (default ∅ ips) (ci_applier c txs Hinv))
    as (t & Ho & Es & _ & Ht).
  assert (ta_store t = store c) as E by (rewrite Es; unfold pending_txn, durable, with_pending; by destruct (store c)).
  exists t. split; [|done]. unfold load. unfold open_applier in Ho. apply bind_Ok_iff in Ho as (s & Hs & Ho). rewrite Hs.
  assert (ta_store t = s) as E'.
  { unfold TxApplier_new in Ho. apply bind_Ok_iff in Ho as (? & _ & Ho). apply bind_Ok_iff in Ho as ([[f n] e] & _ & Ho).
    apply bind_Ok_iff in Ho as (? & _ & [= <-]). done. }
  assert (s = store c) as -> by congruence. cbn [expect_ok mbind res_bind]. rewrite <-(ci_participants c txs Hinv).
  rewrite bool_decide_eq_false_2; [cbn [negb rassert mbind res_bind]; by rewrite Ho|].
  rewrite (ci_participants c txs Hinv). unfold ChannelStore.participant_addresses. rewrite dom_empty_iff_L.
  apply (ai_keys _ _ _ (ci_applier c txs Hinv)).
Qed.

(** [bootstrap] changes only what the state machine knows of the chain, the witness and the keys. *)
Lemma bootstrap_Ok env c c' : bootstrap env c = (Ok tt, c') ->
  (latest_ledger_info (store c) = None /\ c' = c) \/
  exists cs, c' = set_stm (advance_state (stm c) (Some cs) (latest_witness_or_default c) (get_participant_keys (store c))) c.
Proof.
  unfold bootstrap. intros (? & ? & [= <- <-] & H)%stM_bind_Ok. apply stM_lift_Ok in H as (o & Ho & H).
  destruct o as [info|].
  2: { injection H as <-. left. split; [|done]. unfold get_startup_info in Ho. destruct (latest_ledger_info (store c)); [|done].
       by repeat (apply bind_Ok_iff in Ho as (? & _ & Ho); try case_match). }
  right. apply stM_lift_Ok in H as (t & _ & H). apply stM_lift_Ok in H as (? & _ & H). case_match; [done|].
  apply stM_lift_Ok in H as (? & _ & H). apply stM_lift_Ok in H as (? & _ & H). apply stM_lift_Ok in H as ([[v b] pr] & _ & H).
  apply stM_lift_Ok in H as (? & _ & H). apply stM_lift_Ok in H as (st & _ & H). injection H as <-. by eexists.
Qed.

(** A channel that is stopped and started again, on a chain that reports the sequence number at which the
    pending transaction was proposed, is the same channel. *)
Lemma restart_inv c txs env ips c1 c2 : channel_inv c txs ->
  load (channel_address (stm c)) (account_address (stm c)) ips (cs_db (store c)) (keypair (stm c)) (script_registry (stm c)) = Ok c1 ->
  bootstrap env c1 = (Ok tt, c2) ->
  (forall p, pending_txn c2 = Some p -> channel_sequence_number (stm c2) = Ok (ct_channel_sequence_number (channel_txn (pt_proposal p)))) ->
  channel_inv c2 txs /\ who (stm c2) = who (stm c) /\ store c2 = store c.
Proof.
  intros Hinv Hload Hboot Hseq. destruct (load_again c txs ips Hinv) as (t & Hload' & Es & Ht).
  rewrite Hload' in Hload. injection Hload as <-. destruct (Hinv) as [Ha Hw Hp Hco Hpa].
  assert (exists cs ks, stm c2 = advance_state (ChannelStm_new (channel_address (stm c)) (account_address (stm c))
      (participant_addresses (stm c)) (keypair (stm c)) (script_registry (stm c))) cs (witness (stm c)) ks /\ tx_applier c2 = t)
    as (cs & ks & Em & Et).
  { apply bootstrap_Ok in Hboot as [[Hn ->]|(cs & ->)].
    - exists None, ∅. split; [|done]. simpl in Hn. rewrite Es in Hn. pose proof (lg_info_latest _ _ (channel_ledger c txs Hinv)) as Hi.
      rewrite Hn in Hi. destruct Hi as [-> _]. simpl. unfold advance_state, ChannelStm_new. simpl. rewrite Hw.
      by rewrite (left_id_L ∅ (∪)).
    - exists (Some cs), (get_participant_keys (ta_store t)). split; [|done]. simpl. f_equal. unfold latest_witness_or_default. simpl.
      rewrite Es, Hw. f_equal. apply (lg_witness _ _ (channel_ledger c txs Hinv)). }
  split_and!; [|by rewrite Em|by rewrite Et].
  split; unfold pending_txn in *; rewrite ?Et, ?Es; [by rewrite <-Es in *|by rewrite Em| | |by rewrite Em].
  - intros p Hpt. rewrite Et, Es in Hseq. specialize (Hseq p Hpt). destruct (Hp p Hpt) as (n & _ & [W1 W2 W3 W4]).
    exists n. rewrite <-W1 at 1. split; [done|]. split; [done| |done|by rewrite Em]. by rewrite Em.
  - intros v tx tt Hv Htt. specialize (Hco v tx tt Hv Htt). by rewrite Em.
Qed.

(** ** Properties *)

(** C1: start a channel on an empty database and let any messages reach it, in any order, while the
    chain, the clocks and the storage answer anything.  The store then holds a ledger in which every
    off-chain transaction carries the signatures of exactly the participants, and each of them signs, under
    the key it names, the payload of that transaction on the witness left by the transactions before it,
    and the witness data of the next sequence number with the transaction's write set. *)
Theorem offchain_ledger_is_cosigned address account participants db kp registry c0 env0 l :
  sdb_ok db -> (forall cf k, sdb_view db cf k = None) -> participants <> ∅ ->
  load address account (Some participants) db kp registry = Ok c0 ->
  let c := run_channel (bootstrap env0 c0).2 l in
  participant_addresses (stm c) = participants /\ channel_address (stm c) = address /\
  exists txs, ledger (store c) txs /\
    forall v tx t, txs !! v = Some tx -> signed_channel_txn tx = Offchain t ->
      dom (sct_signatures t) = participants /\
      forall a s, sct_signatures t !! a = Some s ->
        sigs_address s = a /\
        signs_payload (script_registry (stm c)) address (default Witness_default (last_witness (take v txs))) (raw_tx t) s /\
        signs_witness (Z.of_nat v + 1) (tc_write_set tx) s.
Proof.
  intros Hok He Hne Hld c. destruct (load_fresh _ _ _ _ _ _ _ Hok He Hne Hld) as (Hinv & Hids & Hn & _).
  destruct (run_channel_inv l c0 [] Hinv) as (txs & Hinv' & _ & Hids'). unfold c. rewrite bootstrap_fresh by done. simpl.
  rewrite Hids in Hids'. injection Hids' as E1 E2 E3 E4. split_and!; [done..|]. exists txs.
  split; [by apply channel_ledger|]. intros v tx t Hv Ht. destruct (ci_cosigned _ _ Hinv' v tx t Hv Ht) as [H1 H2].
  rewrite E1, E3 in *. done.
Qed.

(** C5: a message never takes a channel back: whatever it is and whatever it meets, it leaves a ledger
    that extends the old one and the identity of the channel; and as long as nothing was committed, the
    pending transaction keeps its proposal and output, keeps the signatures it has, and does not go back
    in its lifecycle.  It disappears only when it is cancelled, and then it was not agreed. *)
Theorem channel_only_moves_forward c txs env interest m : channel_inv c txs ->
  let c' := (handle env interest m c).2 in
  exists txs', channel_inv c' txs' /\ txs `prefix_of` txs' /\ ids (stm c') = ids (stm c) /\
    (txs' = txs -> forall p, pending_txn c = Some p ->
       (exists p', pending_txn c' = Some p' /\ pending_le p p') \/
       (pending_txn c' = None /\ consensus_reached p = false /\ exists id, m = Cancel id)).
Proof. apply handle_inv. Qed.

(** C18: a participant who asks again about a proposal that is already applied off chain gets the
    signature that was recorded for it, and the channel does not change; the [expect] on that signature
    cannot fail. *)
Theorem applied_proposal_is_answered c txs env v tx t proposal sigs : channel_inv c txs ->
  txs !! v = Some tx -> signed_channel_txn tx = Offchain t ->
  channel_txn proposal = raw_tx t ->
  account_address (stm c) ∈ participant_addresses (stm c) -> sigs_address sigs <> account_address (stm c) ->
  exists s, sct_signatures t !! account_address (stm c) = Some s /\ handle_collect env proposal sigs c = (Ok (Some s), c).
Proof.
  intros Hinv Hv Hoff Hp Hin Hne. pose proof (channel_ledger c txs Hinv) as Hl. pose proof (lookup_lt_Some _ _ _ Hv) as Hlt.
  destruct (ci_cosigned _ _ Hinv v tx t Hv Hoff) as [Hd _]. rewrite <-Hd in Hin. apply elem_of_dom in Hin as [s Hs].
  exists s. split; [done|]. pose proof (lg_seq _ _ Hl v tx Hv) as Hseq. rewrite Hoff in Hseq. simpl in Hseq. injection Hseq as Hseq.
  destruct (latest_ledger_info (store c)) as [li|] eqn:Hli;
    [|pose proof (lg_info_latest _ _ Hl) as Hi; rewrite Hli in Hi; destruct Hi as [-> _]; simpl in Hlt; lia].
  destruct (get_transaction_by_seq_ok _ txs v tx false Hl Hv) as [proof Hget].
  assert (check_applied c (ct_channel_sequence_number (channel_txn proposal)) =
    Ok (Some (mkTxnWithProof (Z.of_nat v) (Offchain t) None (proof, txn_info_of tx)))) as Hc.
  { unfold check_applied. rewrite (get_startup_info_ok _ txs li Hl Hli). rstep. cbn [latest_version].
    rewrite Hp, Hseq, bool_decide_eq_false_2 by lia. rewrite Hget. rstep. cbn [wp_version].
    rewrite bool_decide_eq_true_2 by done. cbn [rassert mbind res_bind]. by rewrite Hoff. }
  unfold handle_collect, mbind, stM_bind, getS, lift. rewrite bool_decide_eq_true_2 by done. cbn [rassert].
  rewrite Hc. cbn [wp_signed_transaction]. rewrite Hp, bool_decide_eq_false_2 by auto. by rewrite Hs.
Qed.
End channel_lemmas.
