(* ===== verification/Messages.v ===== *)
(** * The messages between nodes

    Models [src/sgtypes/src/message.rs] and [s_value.rs], the protobuf conversions of
    [channel_transaction.rs], [channel_transaction_sigs.rs], [signed_channel_transaction.rs] and
    [script_package.rs], and the error codes of [sg_error.rs].  A protobuf message is the record that the
    build generates from [src/sgtypes/src/proto/]: proto3 fields, an absent submessage is [None].  The
    serialization of these records by prost is a parameter ([Prost]).  [Message A M] is the pair of
    conversions [TryFrom<M> for A] and [From<A> for M].  The theorems show that what a node serializes is
    read back as it was, and which messages of a remote node make the conversion panic. *)
From S2P Require Import Prelude Codec Libra ChannelTypes Chain.

(** ** prost *)

(** [Message::decode] and [MessageExt::to_vec], for a generated message type. *)
Class Prost (M : Type) := {
  pb_to_vec : M -> bytes;
  pb_decode : bytes -> res M
}.
Class ProstLaws (M : Type) `{Prost M} : Prop := {
  pb_decode_to_vec m : pb_decode (pb_to_vec m) = Ok m;
  pb_decode_no_panic b : no_panic (pb_decode b)
}.

(** [TryFrom<M> for A] with [From<A> for M], and the methods that every type builds from them. *)
Class Message (A M : Type) := {
  try_from : M -> res A;
  into : A -> M
}.
#[global] Hint Mode Message ! - : typeclass_instances.

Section proto_bytes.
Context {A M : Type} `{Message A M, Prost M}.
Definition from_proto_bytes (buf : bytes) : res A := m ← pb_decode buf; try_from m.
Definition into_proto_bytes (a : A) : res bytes := Ok (pb_to_vec (into a)).
End proto_bytes.

(** A message that survives the conversion, on the values in [wf]. *)
Class RoundTrip (A : Type) {M : Type} `{Message A M} (wf : A -> Prop) : Prop :=
  try_from_into a : wf a -> try_from (into a) = Ok a.
#[global] Hint Mode RoundTrip ! - - - : typeclass_instances.

(** [<[u8; 16]>::copy_from_slice] with [u128::from_le_bytes], and [u128::to_le_bytes] *)
Definition u128_to_le_bytes (n : Z) : bytes := reverse (be_bytes 16 n).
Definition u128_from_le_bytes (b : bytes) : Z := be_read (reverse b).
Definition copy_from_slice (len : nat) (b : bytes) : res bytes :=
  _ ← rassert (bool_decide (length b = len)) "source slice length does not match destination slice length";
  Ok b.
#[global] Arguments copy_from_slice : simpl never.
#[global] Arguments u128_to_le_bytes : simpl never.
Definition in_u128 (n : Z) : Prop := (0 <= n < 2 ^ 128)%Z.

(** ** [sg_error.rs] *)

Inductive SgErrorCode :=
| UNKNOWN | SEQUENCE_NUMBER_WRONG | TIMEOUT | CHANNEL_NOT_EXIST | INVALID_CHANNEL_STAGE | REJECT | NOT_PATH
| BALANCE_NOT_ENOUGH.
#[global] Instance SgErrorCode_eq : EqDecision SgErrorCode.
Proof. solve_decision. Defined.

(** The derived [IntoPrimitive] and [TryFromPrimitive] of [repr(u32)]. *)
Definition SgErrorCode_into (c : SgErrorCode) : Z :=
  match c with
  | UNKNOWN => 0 | SEQUENCE_NUMBER_WRONG => 1 | TIMEOUT => 2 | CHANNEL_NOT_EXIST => 3
  | INVALID_CHANNEL_STAGE => 4 | REJECT => 5 | NOT_PATH => 6 | BALANCE_NOT_ENOUGH => 7
  end.
Definition SgErrorCode_try_from (n : Z) : res SgErrorCode :=
  match n with
  | 0%Z => Ok UNKNOWN | 1%Z => Ok SEQUENCE_NUMBER_WRONG | 2%Z => Ok TIMEOUT | 3%Z => Ok CHANNEL_NOT_EXIST
  | 4%Z => Ok INVALID_CHANNEL_STAGE | 5%Z => Ok REJECT | 6%Z => Ok NOT_PATH | 7%Z => Ok BALANCE_NOT_ENOUGH
  | _ => Err "No value in enum matches value"
  end.

Record SgError := mkSgError { error_code : SgErrorCode; error_text : string }.

(** ** [s_value.rs] *)

(** A byte array of length [S_VALUE_LENGTH]. *)
Record SValue := mkSValue { s_data : bytes }.
Definition S_VALUE_LENGTH : nat := 33.
Definition s_wf (s : SValue) : Prop := length (s_data s) = S_VALUE_LENGTH.

(** [SValue::is_sender], [get_peer] and [to_vec] *)
Definition is_sender (s : SValue) : bool := bool_decide (s_data s !! 0 = Some 0%Z).
Definition get_peer (s : SValue) : SValue := mkSValue (<[0 := if is_sender s then 1%Z else 0%Z]> (s_data s)).
Definition SValue_to_vec (s : SValue) : bytes := s_data s.

(** [PartialEq for SValue]: the loop over the indices from 1 to 32. *)
Definition SValue_eqb (a b : SValue) : bool := forallb (fun i => bool_decide (s_data a !! i = s_data b !! i)) (seq 1 32).

(** [TryFrom<&[u8]> for SValue] *)
Definition SValue_try_from (b : bytes) : res SValue :=
  _ ← ensure (bool_decide (length b = S_VALUE_LENGTH)) "The Address is of invalid length";
  Ok (mkSValue b).

(** ** Generated messages *)

Record pb_ChannelTransactionSigs := mk_pb_Sigs {
  pb_sigs_address : bytes;
  pb_sigs_public_key : bytes;
  pb_channel_payload_signature : bytes;
  pb_witness_data_hash : bytes;
  pb_witness_data_signature : bytes;
  pb_travel_output_witness_signature : bytes
}.
Record pb_ChannelOp := mk_pb_ChannelOp {
  pb_op_type : Z;
  pb_package_name : string;
  pb_script_name : string;
  pb_module_address : bytes;
  pb_module_name : string;
  pb_function_name : string
}.
Record pb_ScriptCode := mk_pb_ScriptCode { pb_sc_name : string; pb_source_code : string; pb_byte_code : bytes }.
Record pb_ChannelScriptPackage := mk_pb_Package { pb_pkg_name : string; pb_scripts : list pb_ScriptCode }.

Inductive pb_StructTag := mk_pb_StructTag (account_addr : bytes) (module name : string) (type_params : list pb_StructTag).
Record pb_RawNegotiateMessage := mk_pb_RawNegotiate {
  pb_sender_addr : bytes;
  pb_resource_type : option pb_StructTag;
  pb_sender_amount : Z;
  pb_receiver_addr : bytes;
  pb_receiver_amount : Z
}.
Record pb_OpenChannelNodeNegotiateMessage := mk_pb_OpenNegotiate {
  pb_raw_message : option pb_RawNegotiateMessage;
  pb_sender_sign : bytes;
  pb_receiver_sign : bytes
}.
Record pb_AddressMessage := mk_pb_AddressMessage { pb_addr : bytes; pb_ip_addr : bytes }.
Record pb_ErrorMessage := mk_pb_ErrorMessage {
  pb_raw_transaction_hash : bytes;
  pb_error_code : Z;
  pb_error_message : string
}.
Record pb_BalanceQueryRequest := mk_pb_BalanceRequest { pb_rq_local_addr : bytes; pb_rq_remote_addr : bytes }.
Record pb_BalanceQueryResponse := mk_pb_BalanceResponse {
  pb_local_addr : bytes;
  pb_local_balance : Z;
  pb_remote_addr : bytes;
  pb_remote_balance : Z;
  pb_total_pay_amount : Z
}.
Record pb_NextHop := mk_pb_NextHop { pb_hop_remote_addr : bytes; pb_hop_amount : Z }.
Record pb_ExchangeSeedMessageRequest := mk_pb_SeedRequest { pb_rq_sender_seed : bytes }.
Record pb_ExchangeSeedMessageResponse := mk_pb_SeedResponse { pb_sender_seed : bytes; pb_receiver_seed : bytes }.
Record pb_AntQueryMessage := mk_pb_AntQuery {
  pb_s_value : bytes;
  pb_aq_sender_addr : bytes;
  pb_aq_list : list pb_BalanceQueryResponse
}.
Record pb_AntFinalMessage := mk_pb_AntFinal { pb_r_value : bytes; pb_af_list : list pb_BalanceQueryResponse }.
Inductive pb_RouterMessageItems :=
| pb_ExchangeSeedRequest (m : pb_ExchangeSeedMessageRequest)
| pb_ExchangeSeedResponse (m : pb_ExchangeSeedMessageResponse)
| pb_AntQuery (m : pb_AntQueryMessage)
| pb_AntFinal (m : pb_AntFinalMessage)
| pb_BalanceRequest (m : pb_BalanceQueryRequest)
| pb_BalanceResponse (m : pb_BalanceQueryResponse).
Record pb_RouterNetworkMessage := mk_pb_Router { router_message_items : option pb_RouterMessageItems }.

(** The parameters of [AddressMessage]: [parity_multiaddr::Multiaddr], and the method [to_vec] on
    [Vec<u8>], which is that of [MessageExt] (prost implements [Message] for [Vec<u8>]) and not the copy
    of a slice. *)
Class Multiaddrs := {
  Multiaddr : Type;
  multiaddr_to_vec : Multiaddr -> bytes;
  multiaddr_try_from : bytes -> res Multiaddr;
  bytes_value_to_vec : bytes -> res bytes
}.

Section messages.
Context {L : Libra}.

(** ** [channel_transaction_sigs.rs] *)

Definition Sigs_try_from (proto : pb_ChannelTransactionSigs) : res ChannelTransactionSigs :=
  address ← address_try_from (pb_sigs_address proto);
  public_key ← pk_try_from (pb_sigs_public_key proto);
  channel_payload_signature ← sig_try_from (pb_channel_payload_signature proto);
  witness_data_hash ← hash_from_slice (pb_witness_data_hash proto);
  witness_data_signature ← sig_try_from (pb_witness_data_signature proto);
  travel_output_witness_signature ←
    (if bool_decide (length (pb_travel_output_witness_signature proto) = 0) then Ok None
     else s ← sig_try_from (pb_travel_output_witness_signature proto); Ok (Some s));
  Ok (mkSigs address public_key channel_payload_signature witness_data_hash witness_data_signature
        travel_output_witness_signature).
Definition Sigs_into (s : ChannelTransactionSigs) : pb_ChannelTransactionSigs :=
  mk_pb_Sigs (address_to_vec (sigs_address s)) (pk_to_bytes (sigs_public_key s))
    (sig_to_bytes (channel_payload_signature s)) (hash_to_vec (witness_data_hash s))
    (sig_to_bytes (witness_data_signature s)) (default [] (sig_to_bytes <$> travel_output_witness_signature s)).
#[global] Instance Sigs_message : Message ChannelTransactionSigs pb_ChannelTransactionSigs :=
  {| try_from := Sigs_try_from; into := Sigs_into |}.

(** ** [channel_transaction.rs] *)

(** [ChannelOpType] and the generated accessor [op_type]: an unknown number reads as the first
    constructor. *)
Inductive pb_ChannelOpType := TOpen | TExecute | TAction | TClose.
Definition op_type (proto : pb_ChannelOp) : pb_ChannelOpType :=
  match pb_op_type proto with 1%Z => TExecute | 2%Z => TAction | 3%Z => TClose | _ => TOpen end.
Definition op_type_number (t : pb_ChannelOpType) : Z :=
  match t with TOpen => 0 | TExecute => 1 | TAction => 2 | TClose => 3 end.

Definition ChannelOp_try_from (proto : pb_ChannelOp) : res ChannelOp :=
  match op_type proto with
  | TOpen => Ok Open
  | TExecute => Ok (Execute (pb_package_name proto) (pb_script_name proto))
  | TAction =>
      module_address ← address_try_from (pb_module_address proto);
      Ok (OpAction module_address (pb_module_name proto) (pb_function_name proto))
  | TClose => Ok Close
  end.
Definition ChannelOp_into (cop : ChannelOp) : pb_ChannelOp :=
  match cop with
  | Open => mk_pb_ChannelOp (op_type_number TOpen) EmptyString EmptyString [] EmptyString EmptyString
  | Execute package_name script_name =>
      mk_pb_ChannelOp (op_type_number TExecute) package_name script_name [] EmptyString EmptyString
  | OpAction module_address module_name function_name =>
      mk_pb_ChannelOp (op_type_number TAction) EmptyString EmptyString (address_to_vec module_address) module_name
        function_name
  | Close => mk_pb_ChannelOp (op_type_number TClose) EmptyString EmptyString [] EmptyString EmptyString
  end.
#[global] Instance ChannelOp_message : Message ChannelOp pb_ChannelOp :=
  {| try_from := ChannelOp_try_from; into := ChannelOp_into |}.

Record pb_ChannelTransaction := mk_pb_Txn {
  pb_version : Z;
  pb_channel_address : bytes;
  pb_channel_sequence_number : Z;
  pb_operator : option pb_ChannelOp;
  pb_args : list pb_TransactionArgument;
  pb_proposer : bytes;
  pb_sequence_number : Z;
  pb_expiration_time : Z
}.

Definition ChannelTransaction_try_from (value : pb_ChannelTransaction) : res ChannelTransaction :=
  channel_address ← address_try_from (pb_channel_address value);
  proposer ← address_try_from (pb_proposer value);
  proto_operator ← expect (pb_operator value) "called Option::unwrap() on a None value";
  operator ← try_from proto_operator;
  args ← mapM arg_try_from (pb_args value);
  Ok (mkChannelTransaction (pb_version value) channel_address (pb_channel_sequence_number value) operator args proposer
        (pb_sequence_number value) (from_secs (pb_expiration_time value))).
Definition ChannelTransaction_into (value : ChannelTransaction) : pb_ChannelTransaction :=
  mk_pb_Txn (ct_version value) (address_to_vec (ct_channel_address value)) (ct_channel_sequence_number value)
    (Some (into (ct_operator value))) (arg_into <$> ct_args value) (address_to_vec (ct_proposer value))
    (ct_sequence_number value) (as_secs (ct_expiration_time value)).
#[global] Instance ChannelTransaction_message : Message ChannelTransaction pb_ChannelTransaction :=
  {| try_from := ChannelTransaction_try_from; into := ChannelTransaction_into |}.

Record pb_ChannelTransactionProposal := mk_pb_Proposal {
  pb_channel_txn : option pb_ChannelTransaction;
  pb_proposer_public_key : bytes;
  pb_proposer_signature : bytes
}.
Definition Proposal_try_from (value : pb_ChannelTransactionProposal) : res ChannelTransactionProposal :=
  txn ← expect (pb_channel_txn value) "called Option::unwrap() on a None value";
  channel_txn ← try_from txn;
  proposer_public_key ← pk_try_from (pb_proposer_public_key value);
  proposer_signature ← sig_try_from (pb_proposer_signature value);
  Ok (mkProposal channel_txn proposer_public_key proposer_signature).
Definition Proposal_into (value : ChannelTransactionProposal) : pb_ChannelTransactionProposal :=
  mk_pb_Proposal (Some (into (channel_txn value))) (pk_to_bytes (proposer_public_key value))
    (sig_to_bytes (proposer_signature value)).
#[global] Instance Proposal_message : Message ChannelTransactionProposal pb_ChannelTransactionProposal :=
  {| try_from := Proposal_try_from; into := Proposal_into |}.

Record ChannelTransactionRequest := mkRequest {
  rq_proposal : ChannelTransactionProposal;
  rq_channel_txn_sigs : ChannelTransactionSigs;
  rq_travel : bool
}.
Record pb_ChannelTransactionRequest := mk_pb_Request {
  pb_rq_proposal : option pb_ChannelTransactionProposal;
  pb_rq_channel_txn_sigs : option pb_ChannelTransactionSigs;
  pb_travel : bool
}.
(** [ChannelTransactionRequest::channel_txn], [proposer] and [channel_address] *)
Definition rq_channel_txn (r : ChannelTransactionRequest) : ChannelTransaction := channel_txn (rq_proposal r).
Definition rq_proposer (r : ChannelTransactionRequest) : AccountAddress := ct_proposer (rq_channel_txn r).
Definition rq_channel_address (r : ChannelTransactionRequest) : AccountAddress := ct_channel_address (rq_channel_txn r).

Definition Request_try_from (value : pb_ChannelTransactionRequest) : res ChannelTransactionRequest :=
  p ← expect (pb_rq_proposal value) "called Option::unwrap() on a None value";
  proposal ← try_from p;
  s ← expect (pb_rq_channel_txn_sigs value) "called Option::unwrap() on a None value";
  channel_txn_sigs ← try_from s;
  Ok (mkRequest proposal channel_txn_sigs (pb_travel value)).
Definition Request_into (value : ChannelTransactionRequest) : pb_ChannelTransactionRequest :=
  mk_pb_Request (Some (into (rq_proposal value))) (Some (into (rq_channel_txn_sigs value))) (rq_travel value).
#[global] Instance Request_message : Message ChannelTransactionRequest pb_ChannelTransactionRequest :=
  {| try_from := Request_try_from; into := Request_into |}.

Record ChannelTransactionResponse := mkResponse {
  rs_proposal : ChannelTransactionProposal;
  rs_channel_txn_sigs : ChannelTransactionSigs
}.
Record pb_ChannelTransactionResponse := mk_pb_Response {
  pb_rs_proposal : option pb_ChannelTransactionProposal;
  pb_rs_channel_txn_sigs : option pb_ChannelTransactionSigs
}.
(** [ChannelTransactionResponse::channel_txn] *)
Definition rs_channel_txn (r : ChannelTransactionResponse) : ChannelTransaction := channel_txn (rs_proposal r).

Definition Response_try_from (response : pb_ChannelTransactionResponse) : res ChannelTransactionResponse :=
  p ← expect (pb_rs_proposal response) "called Option::unwrap() on a None value";
  proposal ← try_from p;
  s ← expect (pb_rs_channel_txn_sigs response) "called Option::unwrap() on a None value";
  channel_txn_sigs ← try_from s;
  Ok (mkResponse proposal channel_txn_sigs).
Definition Response_into (response : ChannelTransactionResponse) : pb_ChannelTransactionResponse :=
  mk_pb_Response (Some (into (rs_proposal response))) (Some (into (rs_channel_txn_sigs response))).
#[global] Instance Response_message : Message ChannelTransactionResponse pb_ChannelTransactionResponse :=
  {| try_from := Response_try_from; into := Response_into |}.

(** ** [signed_channel_transaction.rs] *)

Record pb_SignedChannelTransaction := mk_pb_Signed {
  pb_raw_tx : option pb_ChannelTransaction;
  pb_signers : list bytes;
  pb_signatures : list pb_ChannelTransactionSigs
}.
(** [collect::<BTreeMap<_, _>>]: the last entry of a key stays. *)
Definition bt_collect {V} (l : list (AccountAddress * V)) : gmap AccountAddress V :=
  fold_left (fun m e => <[e.1 := e.2]> m) l ∅.

Definition Signed_try_from (t : pb_SignedChannelTransaction) : res SignedChannelTransaction :=
  r ← expect (pb_raw_tx t) "called Option::unwrap() on a None value";
  raw_tx ← try_from r;
  signers ← mapM address_try_from (pb_signers t);
  signatures ← mapM try_from (pb_signatures t);
  _ ← ensure (bool_decide (length signers = length signatures)) "len mismatch.";
  Ok (mkSignedChannelTransaction raw_tx (bt_collect (zip signers signatures))).
Definition Signed_into (t : SignedChannelTransaction) : pb_SignedChannelTransaction :=
  mk_pb_Signed (Some (into (raw_tx t))) ((fun e => address_to_vec e.1) <$> bt_iter (sct_signatures t))
    ((fun e => into e.2) <$> bt_iter (sct_signatures t)).
#[global] Instance Signed_message : Message SignedChannelTransaction pb_SignedChannelTransaction :=
  {| try_from := Signed_try_from; into := Signed_into |}.

(** ** [script_package.rs] *)

Definition ScriptCode_try_from (proto : pb_ScriptCode) : res ScriptCode :=
  Ok (mkScriptCode (pb_sc_name proto) (pb_source_code proto) (pb_byte_code proto)).
Definition ScriptCode_into (c : ScriptCode) : pb_ScriptCode :=
  mk_pb_ScriptCode (sc_name c) (sc_source_code c) (sc_byte_code c).
#[global] Instance ScriptCode_message : Message ScriptCode pb_ScriptCode :=
  {| try_from := ScriptCode_try_from; into := ScriptCode_into |}.

Definition Package_try_from (proto : pb_ChannelScriptPackage) : res ChannelScriptPackage :=
  scripts ← mapM try_from (pb_scripts proto);
  Ok (mkPackage (pb_pkg_name proto) scripts).
Definition Package_into (p : ChannelScriptPackage) : pb_ChannelScriptPackage :=
  mk_pb_Package (package_name p) (into <$> scripts p).
#[global] Instance Package_message : Message ChannelScriptPackage pb_ChannelScriptPackage :=
  {| try_from := Package_try_from; into := Package_into |}.

(** ** [message.rs] *)

Inductive StructTag := mkStructTag (account_addr : AccountAddress) (module name : string) (type_params : list StructTag).
Fixpoint StructTag_try_from (value : pb_StructTag) : res StructTag :=
  match value with
  | mk_pb_StructTag account_addr module name type_params =>
      let type_params := mapM StructTag_try_from type_params in
      account_addr ← address_try_from account_addr;
      type_params ← type_params;
      Ok (mkStructTag account_addr module name type_params)
  end.
Fixpoint StructTag_into (value : StructTag) : pb_StructTag :=
  match value with
  | mkStructTag account_addr module name type_params =>
      mk_pb_StructTag (address_to_vec account_addr) module name (map StructTag_into type_params)
  end.
#[global] Instance StructTag_message : Message StructTag pb_StructTag :=
  {| try_from := StructTag_try_from; into := StructTag_into |}.

Record RawNegotiateMessage := mkRawNegotiate {
  sender_addr : AccountAddress;
  resource_type : StructTag;
  sender_amount : Z;
  receiver_addr : AccountAddress;
  receiver_amount : Z
}.
Definition RawNegotiate_try_from (value : pb_RawNegotiateMessage) : res RawNegotiateMessage :=
  sender_addr ← address_try_from (pb_sender_addr value);
  tag ← ok_or (pb_resource_type value) "Missing resource_type";
  resource_type ← try_from tag;
  receiver_addr ← address_try_from (pb_receiver_addr value);
  Ok (mkRawNegotiate sender_addr resource_type (pb_sender_amount value) receiver_addr (pb_receiver_amount value)).
Definition RawNegotiate_into (value : RawNegotiateMessage) : pb_RawNegotiateMessage :=
  mk_pb_RawNegotiate (address_to_vec (sender_addr value)) (Some (into (resource_type value))) (sender_amount value)
    (address_to_vec (receiver_addr value)) (receiver_amount value).
#[global] Instance RawNegotiate_message : Message RawNegotiateMessage pb_RawNegotiateMessage :=
  {| try_from := RawNegotiate_try_from; into := RawNegotiate_into |}.

Record OpenChannelNodeNegotiateMessage := mkOpenNegotiate {
  raw_negotiate_message : RawNegotiateMessage;
  sender_sign : Ed25519Signature;
  receiver_sign : option Ed25519Signature
}.
Definition OpenNegotiate_try_from (value : pb_OpenChannelNodeNegotiateMessage) : res OpenChannelNodeNegotiateMessage :=
  r ← ok_or (pb_raw_message value) "Missing raw_message";
  raw ← try_from r;
  sender_sign ← sig_try_from (pb_sender_sign value);
  receiver_sign ← (if bool_decide (0 < length (pb_receiver_sign value))
                   then s ← sig_try_from (pb_receiver_sign value); Ok (Some s) else Ok None);
  Ok (mkOpenNegotiate raw sender_sign receiver_sign).
Definition OpenNegotiate_into (value : OpenChannelNodeNegotiateMessage) : pb_OpenChannelNodeNegotiateMessage :=
  mk_pb_OpenNegotiate (Some (into (raw_negotiate_message value))) (sig_to_bytes (sender_sign value))
    (match receiver_sign value with Some sign => sig_to_bytes sign | None => [] end).
#[global] Instance OpenNegotiate_message : Message OpenChannelNodeNegotiateMessage pb_OpenChannelNodeNegotiateMessage :=
  {| try_from := OpenNegotiate_try_from; into := OpenNegotiate_into |}.

Record AddressMessage {MA : Multiaddrs} := mkAddressMessage { addr : AccountAddress; ip_addr : Multiaddr }.
Definition AddressMessage_try_from {MA : Multiaddrs} (value : pb_AddressMessage) : res AddressMessage :=
  addr ← address_try_from (pb_addr value);
  v ← bytes_value_to_vec (pb_ip_addr value);
  ip_addr ← multiaddr_try_from v;
  Ok (mkAddressMessage MA addr ip_addr).
Definition AddressMessage_into {MA : Multiaddrs} (value : AddressMessage) : pb_AddressMessage :=
  mk_pb_AddressMessage (address_to_vec (addr value)) (multiaddr_to_vec (ip_addr value)).
#[global] Instance Address_message {MA : Multiaddrs} : Message AddressMessage pb_AddressMessage :=
  {| try_from := AddressMessage_try_from; into := AddressMessage_into |}.

Record ErrorMessage := mkErrorMessage { raw_transaction_hash : HashValue; em_error : SgError }.
Definition ErrorMessage_try_from (value : pb_ErrorMessage) : res ErrorMessage :=
  raw_transaction_hash ← hash_from_slice (pb_raw_transaction_hash value);
  error_code ← SgErrorCode_try_from (pb_error_code value);
  Ok (mkErrorMessage raw_transaction_hash (mkSgError error_code (pb_error_message value))).
Definition ErrorMessage_into (value : ErrorMessage) : pb_ErrorMessage :=
  mk_pb_ErrorMessage (hash_to_vec (raw_transaction_hash value)) (SgErrorCode_into (error_code (em_error value)))
    (error_text (em_error value)).
#[global] Instance Error_message : Message ErrorMessage pb_ErrorMessage :=
  {| try_from := ErrorMessage_try_from; into := ErrorMessage_into |}.

Record BalanceQueryRequest := mkBalanceRequest { bq_local_addr : AccountAddress; bq_remote_addr : AccountAddress }.
Definition BalanceRequest_try_from (value : pb_BalanceQueryRequest) : res BalanceQueryRequest :=
  local_addr ← address_try_from (pb_rq_local_addr value);
  remote_addr ← address_try_from (pb_rq_remote_addr value);
  Ok (mkBalanceRequest local_addr remote_addr).
Definition BalanceRequest_into (value : BalanceQueryRequest) : pb_BalanceQueryRequest :=
  mk_pb_BalanceRequest (address_to_vec (bq_local_addr value)) (address_to_vec (bq_remote_addr value)).
#[global] Instance BalanceRequest_message : Message BalanceQueryRequest pb_BalanceQueryRequest :=
  {| try_from := BalanceRequest_try_from; into := BalanceRequest_into |}.

Record BalanceQueryResponse := mkBalanceResponse {
  local_addr : AccountAddress;
  remote_addr : AccountAddress;
  local_balance : Z;
  remote_balance : Z;
  total_pay_amount : Z
}.
#[global] Instance BalanceQueryResponse_eq : EqDecision BalanceQueryResponse.
Proof. solve_decision. Defined.
(** [BalanceQueryResponse::revert] *)
Definition revert (r : BalanceQueryResponse) : BalanceQueryResponse :=
  mkBalanceResponse (remote_addr r) (local_addr r) (remote_balance r) (local_balance r) (total_pay_amount r).
Definition BalanceResponse_try_from (value : pb_BalanceQueryResponse) : res BalanceQueryResponse :=
  local_addr ← address_try_from (pb_local_addr value);
  remote_addr ← address_try_from (pb_remote_addr value);
  Ok (mkBalanceResponse local_addr remote_addr (pb_local_balance value) (pb_remote_balance value)
        (pb_total_pay_amount value)).
Definition BalanceResponse_into (value : BalanceQueryResponse) : pb_BalanceQueryResponse :=
  mk_pb_BalanceResponse (address_to_vec (local_addr value)) (local_balance value)
    (address_to_vec (remote_addr value)) (remote_balance value) (total_pay_amount value).
#[global] Instance BalanceResponse_message : Message BalanceQueryResponse pb_BalanceQueryResponse :=
  {| try_from := BalanceResponse_try_from; into := BalanceResponse_into |}.

Record AntQueryMessage := mkAntQuery {
  aq_s_value : SValue;
  aq_sender_addr : AccountAddress;
  aq_list : list BalanceQueryResponse
}.
Definition AntQuery_try_from (value : pb_AntQueryMessage) : res AntQueryMessage :=
  let balance_query_response_list := mapM try_from (pb_aq_list value) in
  s_value ← SValue_try_from (pb_s_value value);
  sender_addr ← address_try_from (pb_aq_sender_addr value);
  l ← balance_query_response_list;
  Ok (mkAntQuery s_value sender_addr l).
Definition AntQuery_into (value : AntQueryMessage) : pb_AntQueryMessage :=
  mk_pb_AntQuery (SValue_to_vec (aq_s_value value)) (address_to_vec (aq_sender_addr value)) (into <$> aq_list value).
#[global] Instance AntQuery_message : Message AntQueryMessage pb_AntQueryMessage :=
  {| try_from := AntQuery_try_from; into := AntQuery_into |}.

Record NextHop := mkNextHop { hop_remote_addr : AccountAddress; hop_amount : Z }.
Definition NextHop_try_from (value : pb_NextHop) : res NextHop :=
  remote_addr ← address_try_from (pb_hop_remote_addr value);
  Ok (mkNextHop remote_addr (pb_hop_amount value)).
Definition NextHop_into (value : NextHop) : pb_NextHop :=
  mk_pb_NextHop (address_to_vec (hop_remote_addr value)) (hop_amount value).
#[global] Instance NextHop_message : Message NextHop pb_NextHop :=
  {| try_from := NextHop_try_from; into := NextHop_into |}.

Record MultiHopChannelRequest := mkMultiHop { mh_request : ChannelTransactionRequest; mh_hops : list NextHop }.
Record pb_MultiHopChannelRequest := mk_pb_MultiHop {
  pb_mh_request : option pb_ChannelTransactionRequest;
  pb_mh_hops : list pb_NextHop
}.
Definition MultiHop_try_from (value : pb_MultiHopChannelRequest) : res MultiHopChannelRequest :=
  let hops := mapM try_from (pb_mh_hops value) in
  r ← ok_or (pb_mh_request value) "Missing request";
  request ← try_from r;
  hops ← hops;
  Ok (mkMultiHop request hops).
Definition MultiHop_into (value : MultiHopChannelRequest) : pb_MultiHopChannelRequest :=
  mk_pb_MultiHop (Some (into (mh_request value))) (into <$> mh_hops value).
#[global] Instance MultiHop_message : Message MultiHopChannelRequest pb_MultiHopChannelRequest :=
  {| try_from := MultiHop_try_from; into := MultiHop_into |}.

Record ExchangeSeedMessageRequest := mkSeedRequest { sq_sender_seed : Z }.
Definition SeedRequest_try_from (value : pb_ExchangeSeedMessageRequest) : res ExchangeSeedMessageRequest :=
  result ← copy_from_slice 16 (pb_rq_sender_seed value);
  Ok (mkSeedRequest (u128_from_le_bytes result)).
Definition SeedRequest_into (value : ExchangeSeedMessageRequest) : pb_ExchangeSeedMessageRequest :=
  mk_pb_SeedRequest (u128_to_le_bytes (sq_sender_seed value)).
#[global] Instance SeedRequest_message : Message ExchangeSeedMessageRequest pb_ExchangeSeedMessageRequest :=
  {| try_from := SeedRequest_try_from; into := SeedRequest_into |}.
(** [CryptoHash for ExchangeSeedMessageRequest] *)
Definition seed_request_hash (m : ExchangeSeedMessageRequest) : HashValue :=
  hasher "DefaultHasher" (u128_to_le_bytes (sq_sender_seed m)).

Record ExchangeSeedMessageResponse := mkSeedResponse { ss_sender_seed : Z; ss_receiver_seed : Z }.
Definition SeedResponse_try_from (value : pb_ExchangeSeedMessageResponse) : res ExchangeSeedMessageResponse :=
  result ← copy_from_slice 16 (pb_sender_seed value);
  let sender_seed := u128_from_le_bytes result in
  result ← copy_from_slice 16 (pb_receiver_seed value);
  let receiver_seed := u128_from_le_bytes result in
  Ok (mkSeedResponse sender_seed receiver_seed).
Definition SeedResponse_into (value : ExchangeSeedMessageResponse) : pb_ExchangeSeedMessageResponse :=
  mk_pb_SeedResponse (u128_to_le_bytes (ss_sender_seed value)) (u128_to_le_bytes (ss_receiver_seed value)).
#[global] Instance SeedResponse_message : Message ExchangeSeedMessageResponse pb_ExchangeSeedMessageResponse :=
  {| try_from := SeedResponse_try_from; into := SeedResponse_into |}.
(** [ExchangeSeedMessageResponse::request_hash] *)
Definition seed_response_request_hash (m : ExchangeSeedMessageResponse) : HashValue :=
  hasher "DefaultHasher" (u128_to_le_bytes (ss_sender_seed m)).

Record AntFinalMessage := mkAntFinal { af_r_value : HashValue; af_list : list BalanceQueryResponse }.
Definition AntFinal_try_from (value : pb_AntFinalMessage) : res AntFinalMessage :=
  let balance_query_response_list := mapM try_from (pb_af_list value) in
  r_value ← hash_from_slice (pb_r_value value);
  l ← balance_query_response_list;
  Ok (mkAntFinal r_value l).
Definition AntFinal_into (value : AntFinalMessage) : pb_AntFinalMessage :=
  mk_pb_AntFinal (hash_to_vec (af_r_value value)) (into <$> af_list value).
#[global] Instance AntFinal_message : Message AntFinalMessage pb_AntFinalMessage :=
  {| try_from := AntFinal_try_from; into := AntFinal_into |}.

Inductive RouterNetworkMessage :=
| MExchangeSeedMessageRequest (m : ExchangeSeedMessageRequest)
| MExchangeSeedMessageResponse (m : ExchangeSeedMessageResponse)
| MAntQueryMessage (m : AntQueryMessage)
| MAntFinalMessage (m : AntFinalMessage)
| MBalanceQueryRequest (m : BalanceQueryRequest)
| MBalanceQueryResponse (m : BalanceQueryResponse).
Definition Router_try_from (proto : pb_RouterNetworkMessage) : res RouterNetworkMessage :=
  item ← ok_or (router_message_items proto) "Missing txn_response_items";
  match item with
  | pb_ExchangeSeedRequest resp => m ← try_from resp; Ok (MExchangeSeedMessageRequest m)
  | pb_ExchangeSeedResponse resp => m ← try_from resp; Ok (MExchangeSeedMessageResponse m)
  | pb_AntQuery resp => m ← try_from resp; Ok (MAntQueryMessage m)
  | pb_AntFinal resp => m ← try_from resp; Ok (MAntFinalMessage m)
  | pb_BalanceRequest resp => m ← try_from resp; Ok (MBalanceQueryRequest m)
  | pb_BalanceResponse resp => m ← try_from resp; Ok (MBalanceQueryResponse m)
  end.
Definition Router_into (response : RouterNetworkMessage) : pb_RouterNetworkMessage :=
  mk_pb_Router (Some match response with
  | MExchangeSeedMessageRequest r => pb_ExchangeSeedRequest (into r)
  | MExchangeSeedMessageResponse r => pb_ExchangeSeedResponse (into r)
  | MAntQueryMessage r => pb_AntQuery (into r)
  | MAntFinalMessage r => pb_AntFinal (into r)
  | MBalanceQueryRequest r => pb_BalanceRequest (into r)
  | MBalanceQueryResponse r => pb_BalanceResponse (into r)
  end).
#[global] Instance Router_message : Message RouterNetworkMessage pb_RouterNetworkMessage :=
  {| try_from := Router_try_from; into := Router_into |}.

(** [SValue::get_r] *)
Definition get_r (s : SValue) : HashValue := hasher "TestOnlyHasher" (drop 1 (s_data s)).

(** *** [MessageType] *)

Inductive MessageType :=
| TOpenChannelNodeNegotiateMessage
| TChannelTransactionRequest
| TChannelTransactionResponse
| TErrorMessage
| TMultiHopChannelTransactionRequest
| TRouterMessage.
Definition get_type (t : MessageType) : Z :=
  match t with
  | TOpenChannelNodeNegotiateMessage => 1
  | TChannelTransactionRequest => 2
  | TChannelTransactionResponse => 3
  | TErrorMessage => 4
  | TMultiHopChannelTransactionRequest => 5
  | TRouterMessage => 6
  end.
Definition from_type (msg_type : Z) : res MessageType :=
  match msg_type with
  | 1%Z => Ok TOpenChannelNodeNegotiateMessage
  | 2%Z => Ok TChannelTransactionRequest
  | 3%Z => Ok TChannelTransactionResponse
  | 4%Z => Ok TErrorMessage
  | 5%Z => Ok TMultiHopChannelTransactionRequest
  | 6%Z => Ok TRouterMessage
  | _ => Err "no such type"
  end.

(** [Request::request_id] and [Response::request_id]: the hash of the transaction. *)
Definition rq_request_id {CC : ChannelTxnCodec} (r : ChannelTransactionRequest) : HashValue := channel_txn_hash (rq_channel_txn r).
Definition rs_request_id {CC : ChannelTxnCodec} (r : ChannelTransactionResponse) : HashValue := channel_txn_hash (rs_channel_txn r).
End messages.

(** ** Round trips

    Only two kinds of values change on the wire: an expiration time that is not a whole number of
    seconds, and numbers outside their machine type. *)

Section roundtrip.
Context {L : Libra} {LL : LibraLaws}.

Definition txn_wf (t : ChannelTransaction) : Prop := (ct_expiration_time t mod NANOS_PER_SEC = 0)%Z.
Definition router_wf (m : RouterNetworkMessage) : Prop :=
  match m with
  | MExchangeSeedMessageRequest m => in_u128 (sq_sender_seed m)
  | MExchangeSeedMessageResponse m => in_u128 (ss_sender_seed m) /\ in_u128 (ss_receiver_seed m)
  | MAntQueryMessage m => s_wf (aq_s_value m)
  | _ => True
  end.

Lemma mapM_roundtrip {A B} (f : B -> res A) (g : A -> B) l :
  (forall a, a ∈ l -> f (g a) = Ok a) -> mapM f (g <$> l) = Ok l.
Proof.
  induction l as [|a l IH]; intros Hf; [done|].
  change (f (g a) ≫= (fun y => mapM f (g <$> l) ≫= fun k => mret (y :: k)) = Ok (a :: l)).
  rewrite Hf by left. rstep. rewrite IH; [done|]. intros b ?. apply Hf. by right.
Qed.

#[local] Arguments mapM : simpl never.
#[local] Arguments fmap : simpl never.
#[local] Arguments try_from : simpl never.
#[local] Arguments into : simpl never.

(** Convert the parts of a message back. *)
Ltac back := repeat first
  [ rewrite address_roundtrip | rewrite pk_roundtrip | rewrite sig_roundtrip | rewrite hash_roundtrip
  | rewrite try_from_into by done | rewrite mapM_roundtrip by (intros; first [apply arg_roundtrip|apply address_roundtrip|by apply try_from_into])
  | progress cbn ].

Tactic Notation "conv" reference(t) reference(i) := unfold try_from at 1, into at 1; simpl; unfold t, i; simpl.

#[global] Instance Sigs_roundtrip : RoundTrip ChannelTransactionSigs (fun _ => True).
Proof.
  intros [a k s1 h s2 o] _. conv Sigs_try_from Sigs_into. back.
  destruct o as [s|]; [|done]. change (default [] _) with (sig_to_bytes s).
  rewrite bool_decide_eq_false_2; back; [done|].
  intros E%nil_length_inv. by apply (sig_nonempty s).
Qed.

#[global] Instance ChannelOp_roundtrip : RoundTrip ChannelOp (fun _ => True).
Proof. intros [|p s|a m f|] _; try done. conv ChannelOp_try_from ChannelOp_into. by back. Qed.

#[global] Instance ChannelTransaction_roundtrip : RoundTrip ChannelTransaction txn_wf.
Proof.
  intros [v c n op args p q e] Hwf. conv ChannelTransaction_try_from ChannelTransaction_into. back. do 2 f_equal.
  unfold from_secs, as_secs, txn_wf in *. simpl in Hwf. pose proof (Z_div_mod_eq_full e NANOS_PER_SEC). lia.
Qed.
#[global] Instance Proposal_roundtrip : RoundTrip ChannelTransactionProposal (fun p => txn_wf (channel_txn p)).
Proof. intros [t k g] Hwf. conv Proposal_try_from Proposal_into. by back. Qed.

#[global] Instance Request_roundtrip : RoundTrip ChannelTransactionRequest (fun r => txn_wf (rq_channel_txn r)).
Proof. intros [p g b] Hwf. conv Request_try_from Request_into. by back. Qed.

#[global] Instance Response_roundtrip : RoundTrip ChannelTransactionResponse (fun r => txn_wf (rs_channel_txn r)).
Proof. intros [p g] Hwf. conv Response_try_from Response_into. by back. Qed.

Lemma bt_collect_NoDup {V} (l : list (AccountAddress * V)) (m : gmap AccountAddress V) :
  NoDup l.*1 -> fold_left (fun m e => <[e.1 := e.2]> m) l m = list_to_map l ∪ m.
Proof.
  revert m. induction l as [|[a v] l IH]; intros m Hnd; simpl; [by rewrite (left_id_L ∅ (∪))|].
  apply NoDup_cons in Hnd as [Hni Hnd]. rewrite IH by done. simpl.
  rewrite <-insert_union_r by (by apply not_elem_of_list_to_map_1). by rewrite insert_union_l.
Qed.

Lemma bt_collect_iter {V} (m : gmap AccountAddress V) : bt_collect (bt_iter m) = m.
Proof.
  assert (NoDup (bt_iter m).*1) as Hnd by (rewrite bt_iter_fst; apply NoDup_bt_sort).
  unfold bt_collect. rewrite bt_collect_NoDup, (right_id_L ∅ (∪)) by done.
  apply map_eq. intros a. apply option_eq. intros v. by rewrite <-elem_of_list_to_map, elem_of_bt_iter.
Qed.

#[global] Instance Signed_roundtrip : RoundTrip SignedChannelTransaction (fun t => txn_wf (raw_tx t)).
Proof.
  intros [t g] Hwf. conv Signed_try_from Signed_into. back.
  rewrite (list_fmap_compose fst address_to_vec (bt_iter g) : (fun e => address_to_vec e.1) <$> bt_iter g = _).
  rewrite (list_fmap_compose snd into (bt_iter g) : (fun e => into e.2) <$> bt_iter g = _). back.
  rewrite bool_decide_eq_true_2 by (by rewrite !length_fmap). rstep. by rewrite zip_fst_snd, bt_collect_iter.
Qed.

#[global] Instance ScriptCode_roundtrip : RoundTrip ScriptCode (fun _ => True).
Proof. by intros []. Qed.
#[global] Instance Package_roundtrip : RoundTrip ChannelScriptPackage (fun _ => True).
Proof. intros [n l] _. conv Package_try_from Package_into. by back. Qed.

Lemma StructTag_ind' (P : StructTag -> Prop) :
  (forall a m n ps, Forall P ps -> P (mkStructTag a m n ps)) -> forall t, P t.
Proof.
  intros HP. fix IH 1. intros [a m n ps]. apply HP. induction ps as [|t ps IHps]; constructor; [apply IH|apply IHps].
Qed.

#[global] Instance StructTag_roundtrip : RoundTrip StructTag (fun _ => True).
Proof.
  intros t _. change (StructTag_try_from (StructTag_into t) = Ok t). induction t as [a m n ps IH] using StructTag_ind'.
  simpl. rewrite address_roundtrip. rstep. change (map StructTag_into ps) with (StructTag_into <$> ps).
  rewrite mapM_roundtrip; [done|]. by rewrite Forall_forall in IH.
Qed.

#[global] Instance RawNegotiate_roundtrip : RoundTrip RawNegotiateMessage (fun _ => True).
Proof. intros [] _. conv RawNegotiate_try_from RawNegotiate_into. by back. Qed.
#[global] Instance OpenNegotiate_roundtrip : RoundTrip OpenChannelNodeNegotiateMessage (fun _ => True).
Proof.
  intros [r g [o|]] _; conv OpenNegotiate_try_from OpenNegotiate_into; back; [|done].
  rewrite bool_decide_eq_true_2; back; [done|]. pose proof (sig_nonempty o). destruct (sig_to_bytes o); [done|simpl; lia].
Qed.
#[global] Instance Error_roundtrip : RoundTrip ErrorMessage (fun _ => True).
Proof. intros [h [c t]] _. conv ErrorMessage_try_from ErrorMessage_into. back. by destruct c. Qed.
#[global] Instance BalanceRequest_roundtrip : RoundTrip BalanceQueryRequest (fun _ => True).
Proof. intros [] _. conv BalanceRequest_try_from BalanceRequest_into. by back. Qed.
#[global] Instance BalanceResponse_roundtrip : RoundTrip BalanceQueryResponse (fun _ => True).
Proof. intros [] _. conv BalanceResponse_try_from BalanceResponse_into. by back. Qed.
#[global] Instance NextHop_roundtrip : RoundTrip NextHop (fun _ => True).
Proof. intros [] _. conv NextHop_try_from NextHop_into. by back. Qed.
#[global] Instance MultiHop_roundtrip : RoundTrip MultiHopChannelRequest (fun r => txn_wf (rq_channel_txn (mh_request r))).
Proof. intros [] ?. conv MultiHop_try_from MultiHop_into. by back. Qed.

Lemma u128_roundtrip n : in_u128 n -> u128_from_le_bytes (u128_to_le_bytes n) = n.
Proof. intros Hn. unfold u128_from_le_bytes, u128_to_le_bytes. rewrite reverse_involutive. by apply be_read_bytes. Qed.

#[global] Instance SeedRequest_roundtrip : RoundTrip ExchangeSeedMessageRequest (fun m => in_u128 (sq_sender_seed m)).
Proof. intros [n] Hn. conv SeedRequest_try_from SeedRequest_into. by rewrite u128_roundtrip. Qed.
#[global] Instance SeedResponse_roundtrip :
  RoundTrip ExchangeSeedMessageResponse (fun m => in_u128 (ss_sender_seed m) /\ in_u128 (ss_receiver_seed m)).
Proof.
  intros [n k] [Hn Hk]. conv SeedResponse_try_from SeedResponse_into. by rewrite !u128_roundtrip.
Qed.
#[global] Instance AntQuery_roundtrip : RoundTrip AntQueryMessage (fun m => s_wf (aq_s_value m)).
Proof.
  intros [[d] a l] Hwf. conv AntQuery_try_from AntQuery_into. unfold SValue_try_from. rewrite bool_decide_eq_true_2 by done. by back.
Qed.
#[global] Instance AntFinal_roundtrip : RoundTrip AntFinalMessage (fun _ => True).
Proof. intros [] _. conv AntFinal_try_from AntFinal_into. by back. Qed.
#[global] Instance Router_roundtrip : RoundTrip RouterNetworkMessage router_wf.
Proof.
  intros [m|m|m|m|m|m] Hwf; conv Router_try_from Router_into.
  all: try first [by rewrite (try_from_into m Hwf)|by rewrite (try_from_into m I)].
  all: destruct m; rewrite !u128_roundtrip; solve [done|apply Hwf].
Qed.
End roundtrip.

(** ** Panics

    A conversion of a message from another node can panic where it uses [unwrap] or [copy_from_slice]. *)

Definition panics {A} (m : res A) : Prop := exists e, m = Panic e.

Lemma panics_bind {A B} (m : res A) (f : A -> res B) : panics (m ≫= f) <-> panics m \/ exists a, m = Ok a /\ panics (f a).
Proof. unfold panics. destruct m; simpl; naive_solver. Qed.
Lemma panics_Ok {A} (a : A) : panics (Ok a) <-> False.
Proof. unfold panics. naive_solver. Qed.
Lemma panics_Err {A} e : panics (Err e : res A) <-> False.
Proof. unfold panics. naive_solver. Qed.
Lemma no_panic_panics {A} (m : res A) : no_panic m -> panics m <-> False.
Proof. unfold panics. destruct m; naive_solver. Qed.
Lemma panics_ensure b e : panics (ensure b e) <-> False.
Proof. apply no_panic_panics. by destruct b. Qed.
Lemma panics_ok_or {A} (o : option A) e : panics (ok_or o e) <-> False.
Proof. apply no_panic_panics. by destruct o. Qed.
Lemma panics_expect {A} (o : option A) e : panics (expect o e) <-> o = None.
Proof. unfold panics. destruct o; naive_solver. Qed.
Lemma panics_copy n b : panics (copy_from_slice n b) <-> length b <> n.
Proof. unfold copy_from_slice, panics. case_bool_decide; simpl; naive_solver. Qed.

Lemma no_panic_mapM {A B} (f : A -> res B) l : (forall a, no_panic (f a)) -> no_panic (mapM f l).
Proof.
  intros Hf. induction l as [|a l IH]; simpl; [done|]. specialize (Hf a). destruct (f a); simpl; [|done..].
  change (no_panic (mapM f l ≫= fun k => mret (a0 :: k))). by destruct (mapM f l).
Qed.

Section panics.
Context {L : Libra} {LL : LibraLaws}.

#[local] Arguments try_from : simpl never.
#[local] Arguments mapM : simpl never.
#[local] Arguments mbind : simpl never.

#[local] Hint Resolve address_try_from_no_panic hash_from_slice_no_panic pk_try_from_no_panic sig_try_from_no_panic
  arg_try_from_no_panic no_panic_mapM : np.
#[local] Hint Extern 1 (no_panic (_ ≫= _)) => apply no_panic_bind : np.
#[local] Hint Extern 1 (no_panic (Ok _)) => exact I : np.
#[local] Hint Extern 1 (no_panic (ensure ?b _)) => destruct b; exact I : np.
#[local] Hint Extern 1 (no_panic (ok_or ?o _)) => destruct o; exact I : np.
#[local] Hint Extern 2 (no_panic (if ?b then _ else _)) => destruct b : np.

Lemma Sigs_no_panic (m : pb_ChannelTransactionSigs) : no_panic (try_from m : res ChannelTransactionSigs).
Proof. unfold try_from; simpl; unfold Sigs_try_from; auto 20 with np. Qed.
Lemma ChannelOp_no_panic (m : pb_ChannelOp) : no_panic (try_from m : res ChannelOp).
Proof. unfold try_from; simpl; unfold ChannelOp_try_from; destruct (op_type m); auto with np. Qed.
Lemma NextHop_no_panic (m : pb_NextHop) : no_panic (try_from m : res NextHop).
Proof. unfold try_from; simpl; unfold NextHop_try_from; auto with np. Qed.
Lemma BalanceRequest_no_panic (m : pb_BalanceQueryRequest) : no_panic (try_from m : res BalanceQueryRequest).
Proof. unfold try_from; simpl; unfold BalanceRequest_try_from; auto with np. Qed.
Lemma BalanceResponse_no_panic (m : pb_BalanceQueryResponse) : no_panic (try_from m : res BalanceQueryResponse).
Proof. unfold try_from; simpl; unfold BalanceResponse_try_from; auto with np. Qed.
#[local] Hint Resolve Sigs_no_panic ChannelOp_no_panic NextHop_no_panic BalanceRequest_no_panic BalanceResponse_no_panic : np.
Lemma AntQuery_no_panic (m : pb_AntQueryMessage) : no_panic (try_from m : res AntQueryMessage).
Proof. unfold try_from; simpl; unfold AntQuery_try_from, SValue_try_from; auto 12 with np. Qed.
Lemma AntFinal_no_panic (m : pb_AntFinalMessage) : no_panic (try_from m : res AntFinalMessage).
Proof. unfold try_from; simpl; unfold AntFinal_try_from; auto 12 with np. Qed.
Lemma Error_no_panic (m : pb_ErrorMessage) : no_panic (try_from m : res ErrorMessage).
Proof.
  unfold try_from; simpl; unfold ErrorMessage_try_from. repeat (apply no_panic_bind; [auto with np|intros]); [|done].
  unfold SgErrorCode_try_from. by repeat case_match.
Qed.
#[local] Hint Resolve AntQuery_no_panic AntFinal_no_panic Error_no_panic : np.

(** Which submessages are missing from a message whose conversion panics. *)
Definition txn_lacks (m : pb_ChannelTransaction) : Prop :=
  (exists a b, address_try_from (pb_channel_address m) = Ok a /\ address_try_from (pb_proposer m) = Ok b) /\ pb_operator m = None.
Definition proposal_lacks (m : pb_ChannelTransactionProposal) : Prop :=
  match pb_channel_txn m with None => True | Some t => txn_lacks t end.
Definition request_lacks (m : pb_ChannelTransactionRequest) : Prop :=
  match pb_rq_proposal m with
  | None => True
  | Some p => proposal_lacks p \/ ((exists v, Proposal_try_from p = Ok v) /\ pb_rq_channel_txn_sigs m = None)
  end.
Definition seeds_lack (m : pb_RouterNetworkMessage) : Prop :=
  match router_message_items m with
  | Some (pb_ExchangeSeedRequest q) => length (pb_rq_sender_seed q) <> 16
  | Some (pb_ExchangeSeedResponse q) => length (pb_sender_seed q) <> 16 \/ length (pb_receiver_seed q) <> 16
  | _ => False
  end.

Lemma txn_panics m : panics (ChannelTransaction_try_from m) <-> txn_lacks m.
Proof.
  unfold ChannelTransaction_try_from, txn_lacks.
  rewrite panics_bind, (no_panic_panics (address_try_from _)) by auto with np.
  setoid_rewrite panics_bind. setoid_rewrite (no_panic_panics (address_try_from _)); [|auto with np].
  setoid_rewrite panics_bind. setoid_rewrite panics_expect.
  split; [|naive_solver].
  intros [[]|(a & Ha & [[]|(b & Hb & [Hn|(o & Ho & Hp)])])]; [naive_solver|exfalso].
  revert Hp. apply no_panic_panics. auto 12 with np.
Qed.

Lemma proposal_panics m : panics (Proposal_try_from m) <-> proposal_lacks m.
Proof.
  unfold Proposal_try_from, proposal_lacks. rewrite panics_bind, panics_expect.
  destruct (pb_channel_txn m) as [t|]; simpl; [|naive_solver].
  rewrite <-txn_panics. split.
  - intros [?|(t' & [= <-] & Hp)]; [done|]. apply panics_bind in Hp as [?|(v & _ & Hp)]; [done|].
    exfalso. revert Hp. apply no_panic_panics. auto 12 with np.
  - intros Ht. right. exists t. split; [done|]. apply panics_bind. by left.
Qed.

Lemma request_panics m : panics (Request_try_from m) <-> request_lacks m.
Proof.
  unfold Request_try_from, request_lacks. rewrite panics_bind, panics_expect.
  destruct (pb_rq_proposal m) as [p|]; simpl; [|naive_solver].
  rewrite <-proposal_panics. split.
  - intros [?|(p' & [= <-] & Hp)]; [done|]. apply panics_bind in Hp as [?|(v & Hv & Hp)]; [by left|].
    right. split; [by exists v|]. apply panics_bind in Hp as [Hp|(s & _ & Hp)]; [by rewrite panics_expect in Hp|].
    exfalso. revert Hp. apply no_panic_panics. auto 12 with np.
  - intros [Hp|[[v Hv] Hs]]; right; exists p; (split; [done|]); apply panics_bind; [by left|].
    right. exists v. split; [done|]. apply panics_bind. left. by apply panics_expect.
Qed.

Lemma multi_hop_panics m : panics (MultiHop_try_from m) <-> exists r, pb_mh_request m = Some r /\ request_lacks r.
Proof.
  unfold MultiHop_try_from. rewrite panics_bind, panics_ok_or. setoid_rewrite <-request_panics.
  destruct (pb_mh_request m) as [r|]; simpl; [|naive_solver]. split.
  - intros [[]|(r' & [= <-] & Hp)]. apply panics_bind in Hp as [?|(v & _ & Hp)]; [eauto|].
    exfalso. revert Hp. apply no_panic_panics. auto 12 with np.
  - intros (r' & [= <-] & Hp). right. exists r. split; [done|]. apply panics_bind. by left.
Qed.

Lemma seed_request_panics m : panics (SeedRequest_try_from m) <-> length (pb_rq_sender_seed m) <> 16.
Proof. unfold SeedRequest_try_from. rewrite panics_bind, panics_copy. setoid_rewrite panics_Ok. naive_solver. Qed.

Lemma seed_response_panics m :
  panics (SeedResponse_try_from m) <-> length (pb_sender_seed m) <> 16 \/ length (pb_receiver_seed m) <> 16.
Proof.
  unfold SeedResponse_try_from. rewrite panics_bind, panics_copy. simpl. setoid_rewrite panics_bind.
  setoid_rewrite panics_copy. setoid_rewrite panics_Ok. split; [naive_solver|].
  intros [?|?]; [by left|]. destruct (decide (length (pb_sender_seed m) = 16)) as [E|]; [right|by left].
  exists (pb_sender_seed m). split; [|by left]. unfold copy_from_slice. by rewrite bool_decide_eq_true_2.
Qed.

Lemma router_panics m : panics (Router_try_from m) <-> seeds_lack m.
Proof.
  unfold Router_try_from, seeds_lack. destruct (router_message_items m) as [i|]; [|exact (panics_Err _)].
  change (ok_or (Some i) ?e ≫= ?f) with (f i). cbv beta. destruct i as [q|q|q|q|q|q]; rewrite panics_bind; setoid_rewrite panics_Ok.
  - setoid_rewrite seed_request_panics. naive_solver.
  - setoid_rewrite seed_response_panics. naive_solver.
  - rewrite no_panic_panics by auto with np. naive_solver.
  - rewrite no_panic_panics by auto with np. naive_solver.
  - rewrite no_panic_panics by auto with np. naive_solver.
  - rewrite no_panic_panics by auto with np. naive_solver.
Qed.

(** the conversion of a message from another node panics exactly when a submessage that it unwraps
    is absent, or when a seed does not have 16 bytes: for a channel request and for one with hops, a
    missing proposal, transaction, operator (after the addresses) or signatures (after the proposal); for
    a router message, the seeds.  An error message never panics. *)
Theorem malformed_messages_panic :
  (forall m, panics (Request_try_from m) <-> request_lacks m) /\
  (forall m, panics (MultiHop_try_from m) <-> exists r, pb_mh_request m = Some r /\ request_lacks r) /\
  (forall m, panics (Router_try_from m) <-> seeds_lack m) /\
  (forall m, no_panic (ErrorMessage_try_from m)).
Proof. split_and!; [exact request_panics|exact multi_hop_panics|exact router_panics|exact Error_no_panic]. Qed.
End panics.
