(* ===== verification/Wallet.v ===== *)
(** * The wallet

    Models [src/sgwallet/src/wallet.rs] and [channel/channel_handle.rs]: the wallet actor, which owns the
    channels of an account, and the handle through which the node asks it to open, propose, verify,
    approve and apply.  The state is the table of running channels; the databases of the channels, which
    are isolated parts of one database ([SchemaDB]), are a function from channel addresses, and a running
    channel holds its own.  A request to a channel actor is one of the handlers of [Channel]; an actor
    that stops leaves the table.  An actor whose handle was replaced by a repeated open is forgotten.

    The theorems: whatever requests, proposals and answers reach a wallet, in whatever order, with
    channels being stopped and started again, each of its channels keeps a co-signed ledger that only
    grows, and an operation on one channel does not touch another. *)
From S2P Require Import Prelude Codec Libra SchemaDB Accumulator ChannelTypes ChannelStore TxApplier Chain ChannelStm Channel Messages.

(** The parts of libra that only the wallet uses: the resources of an account, and the transactions that
    enable channels and publish modules. *)
Class WalletChain {L : Libra} {K : Chain} := {
  (* [AccessPath::new_for_data_path(channel, channel_resource_path(address, participant account))] *)
  participant_account_path : AccountAddress -> AccountAddress -> AccessPath;
  decode_balance : bytes -> res Z;
  (* [account_resource_ext::from_bytes] with [balance], and [user_channels_struct_tag] *)
  decode_account_balance : bytes -> res Z;
  user_channels_path : bytes;
  decode_user_channels : bytes -> res (list AccountAddress);
  (* [RawTransaction::new_script(.., encode_enable_channel_script(), ..).sign(..)] *)
  sign_enable_txn : KeyPair -> AccountAddress -> Z -> Z -> Z -> Z -> res SignedTransaction;
  (* [create_signed_payload_txn(.., TransactionPayload::Module(..), ..)] *)
  sign_module_txn : KeyPair -> bytes -> AccountAddress -> Z -> Z -> Z -> Z -> res SignedTransaction
}.

Section wallet.
Context {L : Libra} {B : SchemaBatches} {A : Accumulators} {C : StoreCodecs} {K : Chain} {CC : ChannelTxnCodec} {WC : WalletChain}.
Context {S : Type} {SD : SchemaDB S}.
Notation Channel := (Channel (S := S)).

Record Wallet := mkWallet {
  w_account : AccountAddress;
  w_keypair : KeyPair;
  w_registry : PackageRegistry;
  channel_enabled : bool;
  w_channels : gmap AccountAddress Channel;
  w_dbs : AccountAddress -> S;
  w_running : bool
}.
Implicit Types env : Env.
Notation W := (stM Wallet).
Notation store c := (ta_store (tx_applier c)).

Definition set_channels (f : gmap AccountAddress Channel -> gmap AccountAddress Channel) (w : Wallet) : Wallet :=
  mkWallet (w_account w) (w_keypair w) (w_registry w) (channel_enabled w) (f (w_channels w)) (w_dbs w) (w_running w).
Definition set_enabled (b : bool) (w : Wallet) : Wallet :=
  mkWallet (w_account w) (w_keypair w) (w_registry w) b (w_channels w) (w_dbs w) (w_running w).
Definition set_db (a : AccountAddress) (db : S) (w : Wallet) : Wallet :=
  mkWallet (w_account w) (w_keypair w) (w_registry w) (channel_enabled w) (w_channels w)
    (fun b => if bool_decide (b = a) then db else w_dbs w b) (w_running w).

(** [generate_channel_address] *)
Definition generate_channel_address (p1 p2 : AccountAddress) : AccountAddress * gset AccountAddress :=
  let addresses := {[ p1 ]} ∪ {[ p2 ]} in
  (address_from_participants addresses, addresses).

(** [Wallet::get_channel_db]: a running channel writes to the database that its successor would open. *)
Definition get_channel_db (w : Wallet) (a : AccountAddress) : S :=
  match w_channels w !! a with Some c => cs_db (store c) | None => w_dbs w a end.

(** The channel stops and leaves the table: its database stays. *)
Definition drop_channel (a : AccountAddress) (w : Wallet) : Wallet :=
  set_db a (get_channel_db w a) (set_channels (base.delete a) w).

(** [actor_ref.send(message)]: a channel that set its status to stopping is stopped after the message,
    and its notification removes it from the table. *)
Definition ask {T} (a : AccountAddress) (m : stM Channel T) : W T := fun w =>
  match w_channels w !! a with
  | None => (Err "Can not find channel by participant", w)
  | Some c =>
      let '(r, c') := m c in
      let w' := set_channels <[a := c']> w in
      (r, if stopping (ctx c') then drop_channel a w' else w')
  end.

(** [Channel::load] with [Channel::start]: [bootstrap] runs first, [started] when the actor starts; an
    actor that stops at once is in the table only until its notification arrives. *)
Definition start_channel_actor env (interest : res unit) (a : AccountAddress) (c : Channel) : W unit := fun w =>
  match bootstrap env c with
  | (Ok _, c1) => (ask a (started env interest)) (set_channels <[a := c1]> w)
  | (Err e, _) => (Err e, w)
  | (Panic e, _) => (Panic e, w)
  end.

(** [Wallet::spawn_channel] *)
Definition spawn_channel env (interest : res unit) (a : AccountAddress) (initial_participants : option (gset AccountAddress)) : W unit :=
  w ← getS;
  c ← lift (load a (w_account w) initial_participants (get_channel_db w a) (w_keypair w) (w_registry w));
  start_channel_actor env interest a c.

(** [Wallet::get_channel] *)
Definition get_channel (a : AccountAddress) : W Channel :=
  w ← getS; lift (ok_or (w_channels w !! a) "Can not find channel by participant").

(** [Wallet::account_resource] and [sequence_number] *)
Definition account_resource env (w : Wallet) : res bytes :=
  account_state ← get_account_state (env_client env) (w_account w) None;
  expect (as_get account_state (path_path (account_path (w_account w)))) "called Option::unwrap() on a None value".
Definition sequence_number env (w : Wallet) : res Z := r ← account_resource env w; decode_account_sequence_number r.
(** [WalletHandle::balance] *)
Definition balance env (w : Wallet) : res Z := r ← account_resource env w; decode_account_balance r.

(** [Wallet::enable_channel] *)
Definition enable_channel env : W Z :=
  w ← getS;
  _ ← lift (ensure (negb (channel_enabled w)) "channel feature is already enabled");
  seq_number ← lift (sequence_number env w);
  signed_txn ← lift (sign_enable_txn (w_keypair w) (w_account w) seq_number 1000000 1 (from_secs u64_max));
  _ ← lift (submit_transaction (env_client env) signed_txn);
  proof ← lift (watch_transaction (env_client env) (w_account w) seq_number);
  _ ← modifyS (set_enabled true);
  mret (txi_gas_used (twp_info proof)).

(** [Wallet::deploy_module] *)
Definition deploy_module env (module_byte_code : bytes) : W TransactionWithProof :=
  w ← getS;
  seq_number ← lift (sequence_number env w);
  txn ← lift (sign_module_txn (w_keypair w) module_byte_code (w_account w) seq_number MAX_GAS_AMOUNT_ONCHAIN GAS_UNIT_PRICE
                (as_secs TXN_EXPIRATION));
  _ ← lift (submit_transaction (env_client env) txn);
  lift (watch_transaction (env_client env) (txn_sender txn) (txn_sequence_number txn)).

(** [WalletHandle::is_channel_feature_enabled], before the actor *)
Definition is_channel_feature_enabled : W bool := w ← getS; mret (channel_enabled w).

(** Handlers of [SpawnNewChannel], [GetAllChannels] and [StopChannel] *)
Definition spawn_new_channel env (interest : res unit) (a : AccountAddress) (participants : gset AccountAddress) : W Channel :=
  _ ← spawn_channel env interest a (Some participants);
  get_channel a.
Definition other_participant (c : Channel) : res AccountAddress :=
  let participants := bt_sort (participant_addresses (stm c) ∖ {[ account_address (stm c) ]}) in
  _ ← rassert (bool_decide (1 = length participants)) "debug_assert_eq";
  expect (head participants) "index out of bounds".
Definition get_all_channels : W (gset AccountAddress) :=
  w ← getS;
  l ← lift (mapM other_participant (map_to_list (w_channels w)).*2);
  mret (list_to_set l).
Definition stop_channel (participant : AccountAddress) : W unit :=
  w ← getS;
  let a := (generate_channel_address participant (w_account w)).1 in
  match w_channels w !! a with
  | Some _ => modifyS (drop_channel a)
  | None => mret tt
  end.

(** [Actor::stopped] *)
Definition set_running (b : bool) (w : Wallet) : Wallet :=
  mkWallet (w_account w) (w_keypair w) (w_registry w) (channel_enabled w) (w_channels w) (w_dbs w) b.
Definition wallet_stopped (w : Wallet) : Wallet :=
  set_running false (fold_left (fun w a => drop_channel a w) (elements (dom (w_channels w))) w).

(** [Actor::started]: the actor is stopped when the account or one of its channels cannot be loaded. *)
Fixpoint spawn_all env (interest : res unit) (l : list AccountAddress) : W unit :=
  match l with
  | [] => mret tt
  | a :: l' => _ ← spawn_channel env interest a None; spawn_all env interest l'
  end.
Definition wallet_started env (interest : res unit) : W unit := fun w =>
  match get_account_state (env_client env) (w_account w) None with
  | Err _ => (Ok tt, wallet_stopped w)
  | Panic e => (Panic e, w)
  | Ok account_state =>
      match as_get account_state user_channels_path with
      | None => (Ok tt, set_enabled false w)
      | Some blob =>
          match (user_channels ← lift (expect_ok (decode_user_channels blob)); spawn_all env interest user_channels) (set_enabled true w) with
          | (Err _, w') => (Ok tt, wallet_stopped w')
          | r => r
          end
      end
  end.

(** [Wallet::new_with_client] with [start], before [started]. *)
Definition wallet_new (account : AccountAddress) (kp : KeyPair) (registry : PackageRegistry) (dbs : AccountAddress -> S) : Wallet :=
  mkWallet account kp registry false ∅ dbs true.

(** ** [WalletHandle] *)

(** [actor_ref.send(..)] to the wallet itself, and the channel with a participant. *)
Definition to_wallet {T} (m : W T) : W T := fun w => if w_running w then m w else (Err "actor gone", w).
Definition channel_with (w : Wallet) (participant : AccountAddress) : AccountAddress :=
  (generate_channel_address participant (w_account w)).1.
Definition ask_channel {T} (participant : AccountAddress) (m : stM Channel T) : W T :=
  w ← getS;
  _ ← to_wallet (get_channel (channel_with w participant));
  ask (channel_with w participant) m.

(** [execute_async] *)
Definition execute_async env (interest : res unit) (participant : AccountAddress) (op : ChannelOp) (args : list TransactionArgument)
    : W ChannelTransactionRequest :=
  w ← getS;
  let '(a, participants) := generate_channel_address participant (w_account w) in
  _ ← (if is_open op then to_wallet (spawn_new_channel env interest a participants) else to_wallet (get_channel a));
  '(proposal, sigs, output) ← ask a (handle_execute env op args);
  mret (mkRequest proposal sigs (is_travel_txn output)).

(** The operations of the standard scripts. *)
Definition script_action (function_name : string) : ChannelOp := OpAction AccountAddress_default "ChannelScript" function_name.
Definition open env interest (participant : AccountAddress) (sender_amount receiver_amount : Z) : W ChannelTransactionRequest :=
  execute_async env interest participant Open
    [TransactionArgument_Address participant; TransactionArgument_U64 sender_amount; TransactionArgument_U64 receiver_amount].
Definition deposit env interest (receiver : AccountAddress) (amount : Z) : W ChannelTransactionRequest :=
  execute_async env interest receiver (script_action "deposit") [TransactionArgument_U64 amount].
Definition send_payment env interest (participant : AccountAddress) (amount : Z) (hash_lock : bytes) (timeout : Z)
    : W ChannelTransactionRequest :=
  execute_async env interest participant (script_action "send_payment")
    [TransactionArgument_Address participant; TransactionArgument_U64 amount; TransactionArgument_ByteArray hash_lock;
     TransactionArgument_U64 timeout].
Definition receive_payment env interest (participant : AccountAddress) (preimage : bytes) : W ChannelTransactionRequest :=
  execute_async env interest participant (script_action "receive_payment") [TransactionArgument_ByteArray preimage].
Definition recall_timeout_payment env interest (participant : AccountAddress) : W ChannelTransactionRequest :=
  execute_async env interest participant (script_action "cancel_payment_after_timeout") [].
Definition transfer env interest (receiver : AccountAddress) (amount : Z) : W ChannelTransactionRequest :=
  execute_async env interest receiver (script_action "transfer") [TransactionArgument_Address receiver; TransactionArgument_U64 amount].
Definition withdraw env interest (receiver : AccountAddress) (amount : Z) : W ChannelTransactionRequest :=
  execute_async env interest receiver (script_action "withdraw") [TransactionArgument_U64 amount].
Definition close env interest (receiver : AccountAddress) : W ChannelTransactionRequest := execute_async env interest receiver Close [].
Definition execute_script env interest (receiver : AccountAddress) (package_name script_name : string) (args : list TransactionArgument)
    : W ChannelTransactionRequest :=
  execute_async env interest receiver (Execute package_name script_name) args.

(** [verify_txn] *)
Definition verify_txn env (interest : res unit) (participant : AccountAddress) (txn_request : ChannelTransactionRequest)
    : W (option ChannelTransactionResponse) :=
  w ← getS;
  let txn := rq_channel_txn txn_request in
  _ ← lift (ensure (bool_decide (participant = ct_proposer txn)) "peer id and txn proposer mismatch");
  let '(a, participants) := generate_channel_address (ct_proposer txn) (w_account w) in
  _ ← lift (ensure (bool_decide (a = ct_channel_address txn)) "invalid channel address in txn");
  _ ← (if is_open (ct_operator txn) then to_wallet (spawn_new_channel env interest a participants) else to_wallet (get_channel a));
  sig_opt ← ask a (handle_collect env (rq_proposal txn_request) (rq_channel_txn_sigs txn_request));
  mret (mkResponse (rq_proposal txn_request) <$> sig_opt).

(** [grant_txn_request], [approve_txn] and [reject_txn] *)
Definition grant_txn_request (participant : AccountAddress) (request_id : HashValue) (grant : bool)
    : W (option ChannelTransactionResponse) :=
  w ← getS;
  let a := channel_with w participant in
  pending ← ask_channel participant handle_get_pending_txn;
  proposal ← lift (ok_or (pt_proposal <$> pending) "no pending txn to grant");
  if negb grant then _ ← ask a (handle_cancel request_id); mret None
  else resp ← ask a (handle_grant request_id); mret (Some (mkResponse proposal resp)).
Definition approve_txn (participant : AccountAddress) (request_id : HashValue) : W ChannelTransactionResponse :=
  resp ← grant_txn_request participant request_id true;
  lift (expect resp "invalid state of channel, should return signatures").
Definition reject_txn (participant : AccountAddress) (request_id : HashValue) : W unit :=
  resp ← grant_txn_request participant request_id false;
  lift (rassert (negb (bool_decide (is_Some resp))) "invalid state of channel, should not return signatures").

(** [cancel_pending_request] and [verify_txn_response] *)
Definition cancel_pending_request (participant : AccountAddress) (request_id : HashValue) : W unit :=
  ask_channel participant (handle_cancel request_id).
Definition verify_txn_response env (participant : AccountAddress) (txn_response : ChannelTransactionResponse) : W unit :=
  _ ← ask_channel participant (handle_collect env (rs_proposal txn_response) (rs_channel_txn_sigs txn_response));
  mret tt.

(** [force_travel_txn] and [apply_txn] *)
Definition force_travel_txn env (interest : res unit) (participant : AccountAddress) : W Z :=
  w ← getS;
  o ← ask_channel participant (handle_apply_pending env);
  t ← lift (ok_or o "already travelling");
  ask (channel_with w participant) (handle_watch_and_apply env interest t.1 t.2).
Definition apply_txn env (interest : res unit) (participant : AccountAddress) : W Z :=
  w ← getS;
  option_watch ← ask_channel participant (handle_apply_pending env);
  match option_watch with
  | None => mret 0%Z
  | Some (txn_sender, seq_number) => ask (channel_with w participant) (handle_watch_and_apply env interest txn_sender seq_number)
  end.

(** [get_pending_txn], [get_waiting_proposal] and [get_pending_txn_request] *)
Definition get_pending_txn (participant : AccountAddress) : W (option PendingTransaction) :=
  ask_channel participant handle_get_pending_txn.
Definition get_waiting_proposal (participant : AccountAddress) : W (option ChannelTransactionProposal) :=
  w ← getS;
  pending ← get_pending_txn participant;
  mret match pending with
       | Some p =>
           if bool_decide (pt_lifecycle p = Negotiating) then
             if bool_decide (pt_signatures p !! w_account w = None) &&
                bool_decide (ct_proposer (channel_txn (pt_proposal p)) <> w_account w)
             then Some (pt_proposal p) else None
           else None
       | None => None
       end.
Definition get_pending_txn_request (participant : AccountAddress) : W (option ChannelTransactionRequest) :=
  w ← getS;
  pending ← get_pending_txn participant;
  match pending with
  | Some p =>
      if bool_decide (pt_lifecycle p = Negotiating) then
        let proposer_sigs := pt_signatures p !! ct_proposer (channel_txn (pt_proposal p)) in
        s ← lift (expect proposer_sigs "called Option::unwrap() on a None value");
        mret (Some (mkRequest (pt_proposal p) s (is_travel_txn (pt_output p))))
      else mret None
  | None => mret None
  end.

(** [ChannelHandle::get_channel_resource], [channel_sequence_number] and the balances *)
Definition get_channel_resource {R} (participant : AccountAddress) (path : AccessPath) (decode : bytes -> res R) : W (option R) :=
  blob ← ask_channel participant (handle_accessing_resource path);
  match blob with
  | Some b => r ← lift (decode b); mret (Some r)
  | None => mret None
  end.
Definition wallet_channel_sequence_number (participant : AccountAddress) : W Z :=
  w ← getS;
  mirror ← get_channel_resource participant (mirror_path (channel_with w participant)) decode_mirror_sequence_number;
  mret (default 0%Z mirror).
Definition participant_account_balance (participant address : AccountAddress) : W Z :=
  w ← getS;
  r ← get_channel_resource participant (participant_account_path (channel_with w participant) address) decode_balance;
  mret (default 0%Z r).
Definition participant_channel_balance (participant : AccountAddress) : W Z := participant_account_balance participant participant.
Definition channel_balance (participant : AccountAddress) : W Z :=
  w ← getS; participant_account_balance participant (w_account w).

(** [install_package]: the registry is shared with the channels. *)
Definition wallet_install_package (package : ChannelScriptPackage) : W unit :=
  w ← getS;
  r ← lift (install_package (w_registry w) package);
  modifyS (fun w => mkWallet (w_account w) (w_keypair w) r (channel_enabled w)
    ((fun c => (handle_install package c).2) <$> w_channels w) (w_dbs w) (w_running w)).
Definition wallet_get_script (package_name script_name : string) : W (option ScriptCode) :=
  w ← getS; mret (get_script (w_registry w) package_name script_name).

(** [start_channel] and [stop] *)
Definition start_channel env (interest : res unit) (participant : AccountAddress) : W unit :=
  w ← getS;
  let '(a, ps) := generate_channel_address participant (w_account w) in
  _ ← to_wallet (spawn_new_channel env interest a ps);
  mret tt.
Definition stop : W unit := modifyS wallet_stopped.

(** [get_applied_txn_by_channel_sequence_number] and [get_txn_by_channel_sequence_number]: a second store
    over the channel's database, which creating it initialises. *)
Definition get_applied_txn_by_channel_sequence_number (participant : AccountAddress) (channel_seq_number : Z) : W AppliedChannelTxn :=
  w ← getS;
  let '(a, ps) := generate_channel_address (w_account w) participant in
  s ← lift (ChannelStore_new ps (get_channel_db w a));
  _ ← modifyS (set_db a (cs_db s));
  txn ← lift (get_transaction_by_channel_seq_number s channel_seq_number false);
  mret (wp_signed_transaction txn).
Definition get_txn_by_channel_sequence_number (participant : AccountAddress) (channel_seq_number : Z) : W SignedChannelTransaction :=
  txn ← get_applied_txn_by_channel_sequence_number participant channel_seq_number;
  lift match txn with Offchain t => Ok t | Travel _ => Err "txn is a travel txn" end.

(** ** Running a wallet *)

(** What reaches a wallet: the requests of the node, and the messages that its channels get from
    themselves and from the watchers of the chain. *)
Inductive call :=
| CStart
| CStop
| CStartChannel (participant : AccountAddress)
| CStopChannel (participant : AccountAddress)
| CExecute (participant : AccountAddress) (op : ChannelOp) (args : list TransactionArgument)
| CVerify (participant : AccountAddress) (request : ChannelTransactionRequest)
| CApprove (participant : AccountAddress) (request_id : HashValue)
| CReject (participant : AccountAddress) (request_id : HashValue)
| CCancel (participant : AccountAddress) (request_id : HashValue)
| CVerifyResponse (participant : AccountAddress) (response : ChannelTransactionResponse)
| CForceTravel (participant : AccountAddress)
| CApply (participant : AccountAddress)
| CPendingRequest (participant : AccountAddress)
| CWaitingProposal (participant : AccountAddress)
| CBalance (participant : AccountAddress)
| CSequenceNumber (participant : AccountAddress)
| CGetTxn (participant : AccountAddress) (channel_seq_number : Z)
| CInstall (package : ChannelScriptPackage)
| CEnable
| CIsEnabled
| CDeploy (module_byte_code : bytes)
| CAllChannels
| CDeliver (participant : AccountAddress) (m : message).

(** The answer is dropped. *)
Definition void {T} (m : W T) : W unit := _ ← m; mret tt.
Definition run_call env (interest : res unit) (x : call) : W unit :=
  match x with
  | CStart => wallet_started env interest
  | CStop => stop
  | CStartChannel p => start_channel env interest p
  | CStopChannel p => to_wallet (stop_channel p)
  | CExecute p op args => void (execute_async env interest p op args)
  | CVerify p r => void (verify_txn env interest p r)
  | CApprove p id => void (approve_txn p id)
  | CReject p id => reject_txn p id
  | CCancel p id => cancel_pending_request p id
  | CVerifyResponse p r => verify_txn_response env p r
  | CForceTravel p => void (force_travel_txn env interest p)
  | CApply p => void (apply_txn env interest p)
  | CPendingRequest p => void (get_pending_txn_request p)
  | CWaitingProposal p => void (get_waiting_proposal p)
  | CBalance p => void (channel_balance p)
  | CSequenceNumber p => void (wallet_channel_sequence_number p)
  | CGetTxn p n => void (get_txn_by_channel_sequence_number p n)
  | CInstall pkg => wallet_install_package pkg
  | CEnable => void (to_wallet (enable_channel env))
  | CIsEnabled => void (to_wallet is_channel_feature_enabled)
  | CDeploy code => void (to_wallet (deploy_module env code))
  | CAllChannels => void (to_wallet get_all_channels)
  | CDeliver p m => w ← getS; ask (channel_with w p) (handle env interest m)
  end.
Definition run_wallet (w : Wallet) (l : list (Env * res unit * call)) : Wallet :=
  fold_left (fun w e => (run_call e.1.1 e.1.2 e.2 w).2) l w.

(** The channel that a call is about; [None] for the calls about all of them. *)
Definition about (w : Wallet) (x : call) : option AccountAddress :=
  match x with
  | CStartChannel p | CStopChannel p | CExecute p _ _ | CVerify p _ | CApprove p _ | CReject p _ | CCancel p _
  | CVerifyResponse p _ | CForceTravel p | CApply p | CPendingRequest p | CWaitingProposal p | CBalance p
  | CSequenceNumber p | CGetTxn p _ | CDeliver p _ => Some (channel_with w p)
  | _ => None
  end.
End wallet.

Section wallet_lemmas.
Context {L : Libra} {B : SchemaBatches} {A : Accumulators} {C : StoreCodecs} {K : Chain} {CC : ChannelTxnCodec} {WC : WalletChain}.
Context {LL : LibraLaws} {BL : SchemaBatchesLaws} {AL : AccumulatorsLaws}.
Context {S : Type} {SD : SchemaDB S} {SL : SchemaDBLaws S}.
Notation Channel := (Channel (S := S)).
Notation Wallet := (Wallet (S := S)).
Notation store c := (ta_store (tx_applier c)).
Implicit Types (w : Wallet) (c : Channel) (env : Env).

(** What is assumed where a channel starts: its database keeps the promises of the interface (those of
    [ChannelDB] do for every address but the one of all ones), and when the channel has a pending
    transaction, the state on the chain gives the sequence number at which it was proposed. *)
Definition chain_ok env w (a : AccountAddress) : Prop :=
  sdb_ok (get_channel_db w a) /\
  forall ps c1 c2 p, load a (w_account w) ps (get_channel_db w a) (w_keypair w) (w_registry w) = Ok c1 ->
    bootstrap env c1 = (Ok tt, c2) -> pending_txn c2 = Some p ->
    channel_sequence_number (stm c2) = Ok (ct_channel_sequence_number (channel_txn (pt_proposal p))).
Fixpoint spawns_ok env (interest : res unit) (l : list AccountAddress) w : Prop :=
  match l with
  | [] => True
  | a :: l' => chain_ok env w a /\ spawns_ok env interest l' (spawn_channel env interest a None w).2
  end.
Definition call_ok env (interest : res unit) (x : call) w : Prop :=
  match x with
  | CStart => forall st blob l, get_account_state (env_client env) (w_account w) None = Ok st ->
      as_get st user_channels_path = Some blob -> decode_user_channels blob = Ok l ->
      spawns_ok env interest l (set_enabled true w)
  | CStartChannel p | CExecute p _ _ | CVerify p _ => chain_ok env w (channel_with w p)
  | CGetTxn p _ => sdb_ok (get_channel_db w (generate_channel_address (w_account w) p).1)
  | CDeliver _ m => forall pkg, m <> Install pkg
  | _ => True
  end.
Fixpoint calls_ok w (l : list (Env * res unit * call)) : Prop :=
  match l with
  | [] => True
  | (env, interest, x) :: l' => call_ok env interest x w /\ calls_ok (run_call env interest x w).2 l'
  end.

(** ** Invariant *)

Definition empty_db (db : S) : Prop := forall cf k, sdb_view db cf k = None.
Definition belongs w (a : AccountAddress) c : Prop :=
  exists ps, who (stm c) = (a, w_account w, ps, w_keypair w, w_registry w).

(** Every channel, running or stopped, has a co-signed ledger; a stopped one is what a channel left in
    the database. *)
Record wallet_inv w (Ls : AccountAddress -> list TC) : Prop := {
  wi_running a c : w_channels w !! a = Some c -> channel_inv c (Ls a) /\ belongs w a c;
  wi_stopped a : w_channels w !! a = None ->
    (empty_db (w_dbs w a) /\ Ls a = []) \/ exists c, channel_inv c (Ls a) /\ belongs w a c /\ cs_db (store c) = w_dbs w a
}.

(** [reaches X w0 Ls0 w]: [w] comes from [w0] with ledgers [Ls0]; only channels in [X] changed. *)
Definition reaches (X : AccountAddress -> Prop) w0 (Ls0 : AccountAddress -> list TC) w : Prop :=
  exists Ls, wallet_inv w Ls /\ (forall a, Ls0 a `prefix_of` Ls a) /\
    w_account w = w_account w0 /\ w_keypair w = w_keypair w0 /\ w_registry w = w_registry w0 /\
    forall b, ~ X b -> w_channels w !! b = w_channels w0 !! b /\ Ls b = Ls0 b.

(** A handler of a channel keeps its invariant and identity. *)
Definition safe {T} (m : stM Channel T) : Prop :=
  forall c txs, channel_inv c txs ->
    exists txs', channel_inv (m c).2 txs' /\ txs `prefix_of` txs' /\ who (stm (m c).2) = who (stm c).

Lemma safe_handle env interest msg : (forall pkg, msg <> Install pkg) -> safe (handle env interest msg).
Proof.
  intros Hm c txs Hinv. destruct (handle_inv c txs env interest msg Hinv) as (txs' & H1 & H2 & _ & _).
  exists txs'. split_and!; [done..|]. by apply (handle_who c txs).
Qed.

Lemma safe_void {T} (m : stM Channel T) env interest msg : (forall pkg, msg <> Install pkg) ->
  handle env interest msg = (_ ← m; mret tt) -> safe m.
Proof.
  intros Hm E c txs Hinv. destruct (safe_handle env interest msg Hm c txs Hinv) as (txs' & H1 & H2 & H3).
  rewrite E in H1, H3. unfold mbind, stM_bind in H1, H3. exists txs'. by destruct (m c) as [[a|e|e] c'].
Qed.

Lemma safe_execute env op args : safe (handle_execute (S := S) env op args).
Proof. by apply (safe_void _ env (Ok tt) (MExecute op args)). Qed.
Lemma safe_collect env proposal sigs : safe (handle_collect (S := S) env proposal sigs).
Proof. by apply (safe_void _ env (Ok tt) (Collect proposal sigs)). Qed.
Lemma safe_apply_pending env : safe (handle_apply_pending (S := S) env).
Proof. by apply (safe_void _ env (Ok tt) ApplyPending). Qed.
Lemma safe_watch_and_apply env interest sender n : safe (handle_watch_and_apply (S := S) env interest sender n).
Proof. by apply (safe_void _ env interest (WatchAndApply sender n)). Qed.
Lemma safe_started env interest : safe (started (S := S) env interest).
Proof. by apply (safe_handle env interest Started). Qed.
Definition no_env : Env := mkEnv _ _
  (mkChainClient (fun _ _ => Err EmptyString) (fun _ => Err EmptyString) (fun _ _ => Err EmptyString)
     (fun _ _ => Err EmptyString) (fun _ _ _ => Err EmptyString)) 0 0.
Lemma safe_grant id : safe (handle_grant (S := S) id).
Proof. by apply (safe_void _ no_env (Ok tt) (Grant id)). Qed.
Lemma safe_cancel id : safe (handle_cancel (S := S) id).
Proof. by apply (safe_handle no_env (Ok tt) (Cancel id)). Qed.
Lemma safe_same {T} (m : stM Channel T) : (forall c, (m c).2 = c) -> safe m.
Proof. intros E c txs Hinv. rewrite E. by exists txs. Qed.
Lemma safe_get_pending : safe (handle_get_pending_txn (S := S)).
Proof. by apply safe_same. Qed.
Lemma safe_accessing path : safe (handle_accessing_resource (S := S) path).
Proof. by apply safe_same. Qed.

Section reaches.
Context (X : AccountAddress -> Prop) (w0 : Wallet) (Ls0 : AccountAddress -> list TC).
Notation I := (reaches X w0 Ls0).

(** The wallet with another channel at an address in [X]. *)
Lemma reaches_put w a c txs Ls : wallet_inv w Ls -> (forall a, Ls0 a `prefix_of` Ls a) ->
  w_account w = w_account w0 -> w_keypair w = w_keypair w0 -> w_registry w = w_registry w0 ->
  (forall b, ~ X b -> w_channels w !! b = w_channels w0 !! b /\ Ls b = Ls0 b) ->
  X a -> channel_inv c txs -> Ls a `prefix_of` txs -> belongs w a c -> I (set_channels <[a := c]> w).
Proof.
  intros [Hr Hs] Hpre E1 E2 E3 Hf HX Hc Hp Hb. exists (fun b => if decide (b = a) then txs else Ls b). split_and!; try done.
  - split; intros b; simpl.
    + intros c'. destruct (decide (b = a)) as [->|Hne].
      * rewrite lookup_insert_eq. intros [= <-]. split; [done|exact Hb].
      * rewrite lookup_insert_ne by done. apply Hr.
    + destruct (decide (b = a)) as [->|Hne]; [by rewrite lookup_insert_eq|]. rewrite lookup_insert_ne by done. apply Hs.
  - intros b. destruct (decide (b = a)) as [->|]; [by transitivity (Ls a)|done].
  - intros b Hb'. simpl. destruct (decide (b = a)) as [->|Hne]; [done|]. rewrite lookup_insert_ne by done. by apply Hf.
Qed.

Lemma reaches_drop w a : I w -> X a -> is_Some (w_channels w !! a) -> I (drop_channel a w).
Proof.
  intros (Ls & [Hr Hs] & Hpre & E1 & E2 & E3 & Hf) HX [c Hc]. exists Ls. split_and!; try done.
  - split; intros b; simpl.
    + intros c' [Hne Hc']%lookup_delete_Some. by apply Hr.
    + unfold get_channel_db. simpl. case_bool_decide as Hd; [subst b; intros _|].
      * right. exists c. rewrite Hc. destruct (Hr a c Hc) as [H1 H2]. by split_and!.
      * rewrite lookup_delete_ne by done. apply Hs.
  - intros b Hb. simpl. destruct (decide (b = a)) as [->|Hne]; [done|]. rewrite lookup_delete_ne by done. by apply Hf.
Qed.

Lemma reaches_ask {T} w a (m : stM Channel T) : I w -> X a -> safe m -> hoare I (eq w) (ask a m) (fun _ => I).
Proof.
  intros HI HX Hm w1 <-. unfold ask. destruct (w_channels w !! a) as [c|] eqn:Hc; [|done].
  destruct (HI) as (Ls & Hinv & Hpre & E1 & E2 & E3 & Hf). destruct (wi_running w Ls Hinv a c Hc) as [H1 [ps H2]].
  destruct (Hm c (Ls a) H1) as (txs & H3 & H4 & H5). destruct (m c) as [r c'] eqn:Em. simpl in H3, H5.
  assert (I (set_channels <[a := c']> w)) as Hput.
  { eapply reaches_put; try done. exists ps. by rewrite H5. }
  assert (I (if stopping (ctx c') then drop_channel a (set_channels <[a := c']> w) else set_channels <[a := c']> w)) as Hfin.
  { destruct (stopping (ctx c')); [|done]. apply reaches_drop; [done..|]. simpl. rewrite lookup_insert_eq. eauto. }
  by destruct r.
Qed.

(** Changes outside the channels. *)
Lemma reaches_enabled w b : I w -> I (set_enabled b w).
Proof. intros (Ls & [Hr Hs] & H). exists Ls. split; [by split|done]. Qed.
Lemma reaches_running w b : I w -> I (set_running b w).
Proof. intros (Ls & [Hr Hs] & H). exists Ls. split; [by split|done]. Qed.

(** *** Starting a channel *)

Lemma load_no_participants a account db kp r : sdb_ok db -> empty_db db -> forall c, load a account (Some ∅) db kp r <> Ok c.
Proof.
  intros Hok He c. unfold load. destruct (new_store_ok db ∅ Hok He) as (b & Hb & Hnew & Herr). simpl.
  destruct (sdb_write_schemas db b) as [db'|e|e] eqn:Hdb; [|by rewrite (Herr e eq_refl)|].
  - destruct (Hnew db' eq_refl) as [_ ->]. cbn [expect_ok mbind res_bind]. unfold ChannelStore.participant_addresses. simpl.
    by rewrite dom_gset_to_gmap, bool_decide_eq_true_2.
  - pose proof (sdb_write_no_panic db b Hb) as Hnp. by rewrite Hdb in Hnp.
Qed.

(** The channel that starts, from a new database or from one that a channel left. *)
Lemma started_channel w Ls env a ips c1 c2 : wallet_inv w Ls -> chain_ok env w a ->
  load a (w_account w) ips (get_channel_db w a) (w_keypair w) (w_registry w) = Ok c1 ->
  bootstrap env c1 = (Ok tt, c2) -> channel_inv c2 (Ls a) /\ belongs w a c2.
Proof.
  intros Hinv [Hsd Hok] Hl Hb.
  assert ((empty_db (get_channel_db w a) /\ Ls a = []) \/
    exists c, channel_inv c (Ls a) /\ belongs w a c /\ cs_db (store c) = get_channel_db w a) as [[Hf E]|(c & Hc & [ps Hw] & Hdb)].
  { unfold get_channel_db. destruct (w_channels w !! a) as [c|] eqn:Hc; [right|by apply (wi_stopped w Ls Hinv)].
    destruct (wi_running w Ls Hinv a c Hc). eauto. }
  - rewrite E. destruct ips as [ps|]; [|by destruct (load_no_participants _ _ _ _ _ Hsd Hf _ Hl)].
    destruct (decide (ps = ∅)) as [->|Hne]; [by destruct (load_no_participants _ _ _ _ _ Hsd Hf _ Hl)|].
    destruct (load_fresh _ _ _ _ _ _ _ Hsd Hf Hne Hl) as (H1 & H2 & H3 & H4 & _).
    rewrite bootstrap_fresh in Hb by done. injection Hb as <-. split; [done|]. exists ps. unfold who. by rewrite H2, H4.
  - assert (channel_address (stm c) = a /\ account_address (stm c) = w_account w /\ keypair (stm c) = w_keypair w /\
      script_registry (stm c) = w_registry w) as (F1 & F2 & F3 & F4) by (unfold who, ids in Hw; naive_solver).
    rewrite <-Hdb, <-F3, <-F4, <-F2 in Hl. rewrite <-F1 in Hl at 1.
    destruct (restart_inv c (Ls a) env ips c1 c2 Hc Hl Hb) as (H1 & H2 & _).
    + intros p Hp. rewrite F1, F2, F3, F4, Hdb in Hl. by apply (Hok ips c1 c2 p).
    + split; [done|]. exists ps. by rewrite H2.
Qed.

Lemma reaches_spawn w env interest a ips : I w -> X a -> chain_ok env w a ->
  hoare I (eq w) (spawn_channel env interest a ips) (fun _ => I).
Proof.
  intros HI HX Hok. unfold spawn_channel. apply hoare_get. intros ? <-. apply hoare_lift; [done|]. intros c1 Hl w1 <-.
  unfold start_channel_actor. destruct (bootstrap env c1) as [[[]|e|e] c2] eqn:Hb; [|done..].
  destruct (HI) as (Ls & Hinv & Hpre & E1 & E2 & E3 & Hf).
  destruct (started_channel w Ls env a ips c1 c2 Hinv Hok Hl Hb) as [H1 H2].
  refine (reaches_ask (set_channels <[a := c2]> w) a (started env interest) _ HX (safe_started _ _) _ eq_refl).
  by eapply reaches_put.
Qed.

(** *** The handle *)

Lemma hoare_seq {T U} (m : stM Wallet T) (f : T -> stM Wallet U) w :
  hoare I (eq w) m (fun _ => I) -> (forall a w', I w' -> hoare I (eq w') (f a) (fun _ => I)) ->
  hoare I (eq w) (m ≫= f) (fun _ => I).
Proof. intros Hm Hf. eapply hoare_bind; [exact Hm|]. intros a. apply hoare_eq. auto. Qed.

Lemma hoare_pure {T} w (r : res T) : I w -> hoare I (eq w) (lift r) (fun _ => I).
Proof. intros HI. by apply hoare_lift_last. Qed.
Lemma hoare_done {T} w (a : T) : I w -> hoare I (eq w) (mret a) (fun _ => I).
Proof. intros HI. apply hoare_ret. by intros ? <-. Qed.
Lemma hoare_to_wallet {T} w (m : stM Wallet T) : I w -> hoare I (eq w) m (fun _ => I) -> hoare I (eq w) (to_wallet m) (fun _ => I).
Proof. intros HI Hm w1 <-. unfold to_wallet. destruct (w_running w); [|done]. by apply Hm. Qed.
Lemma hoare_get_channel w a : I w -> hoare I (eq w) (get_channel a) (fun _ => I).
Proof. intros HI. unfold get_channel. apply hoare_get. intros ? <-. by apply hoare_pure. Qed.

Lemma reaches_with w p : I w -> channel_with w p = channel_with w0 p.
Proof. intros (Ls & _ & _ & E & _). unfold channel_with. by rewrite E. Qed.

Lemma reaches_ask_channel {T} w p (m : stM Channel T) : I w -> X (channel_with w0 p) -> safe m ->
  hoare I (eq w) (ask_channel p m) (fun _ => I).
Proof.
  intros HI HX Hm. unfold ask_channel. apply hoare_get. intros ? <-. rewrite (reaches_with w p HI).
  apply hoare_seq; [by apply hoare_to_wallet, hoare_get_channel|]. intros _ w' HI'. by apply reaches_ask.
Qed.

Lemma reaches_spawn_new w env interest p a ps : I w -> (a, ps) = generate_channel_address p (w_account w) ->
  X (channel_with w0 p) -> chain_ok env w (channel_with w p) ->
  hoare I (eq w) (to_wallet (spawn_new_channel env interest a ps)) (fun _ => I).
Proof.
  intros HI [= -> ->] HX Hok. apply hoare_to_wallet; [done|]. unfold spawn_new_channel.
  apply hoare_seq; [|intros; by apply hoare_get_channel]. apply reaches_spawn; [done| |done].
  by rewrite <-(reaches_with w p HI) in HX.
Qed.
End reaches.

#[local] Hint Resolve safe_execute safe_collect safe_apply_pending safe_watch_and_apply safe_grant safe_cancel safe_get_pending
  safe_accessing : safe.
Ltac hget := apply hoare_get; intros ? <-.
Ltac wallet_step :=
  match goal with
  | |- hoare _ _ (getS ≫= _) _ => hget
  | |- hoare _ _ (lift _ ≫= _) _ => apply hoare_lift; [done|intros ? ?]
  | |- hoare _ _ (ask_channel _ _ ≫= _) _ => apply hoare_seq; [apply reaches_ask_channel; auto with safe|intros ? ? ?]
  | |- hoare _ _ (ask _ _ ≫= _) _ => apply hoare_seq; [apply reaches_ask; auto with safe|intros ? ? ?]
  | |- hoare _ _ (to_wallet (get_channel _) ≫= _) _ => apply hoare_seq; [by apply hoare_to_wallet, hoare_get_channel|intros ? ? ?]
  | |- hoare _ _ (ask_channel _ _) _ => apply reaches_ask_channel; auto with safe
  | |- hoare _ _ (ask _ _) _ => apply reaches_ask; auto with safe
  | |- hoare _ _ (lift _) _ => by apply hoare_pure
  | |- hoare _ _ (mret _) _ => by apply hoare_done
  | |- hoare _ _ (match ?x with _ => _ end) _ => destruct x
  end.

Lemma reaches_execute X w0 Ls0 w env interest p op args : reaches X w0 Ls0 w -> X (channel_with w0 p) ->
  chain_ok env w (channel_with w p) ->
  hoare (reaches X w0 Ls0) (eq w) (execute_async env interest p op args) (fun _ => reaches X w0 Ls0).
Proof.
  intros HI HX Hok. unfold execute_async. hget. destruct (generate_channel_address p (w_account w)) as [a ps] eqn:Ea.
  assert (a = channel_with w0 p) as Ea' by (rewrite <-(reaches_with X w0 Ls0 w p HI); unfold channel_with; by rewrite Ea).
  apply hoare_seq.
  - destruct (is_open op); [by eapply reaches_spawn_new|]. by apply hoare_to_wallet, hoare_get_channel.
  - intros _ w' HI'. apply hoare_seq; [apply reaches_ask; subst; auto with safe|]. intros [[? ?] ?] w2 HI2. wallet_step.
Qed.

Lemma reaches_verify X w0 Ls0 w env interest p r : reaches X w0 Ls0 w -> X (channel_with w0 p) ->
  chain_ok env w (channel_with w p) ->
  hoare (reaches X w0 Ls0) (eq w) (verify_txn env interest p r) (fun _ => reaches X w0 Ls0).
Proof.
  intros HI HX Hok. unfold verify_txn. hget. apply hoare_lift; [done|]. intros u Hp. apply ensure_Ok, bool_decide_eq_true in Hp.
  rewrite <-Hp. destruct (generate_channel_address p (w_account w)) as [a ps] eqn:Ea.
  assert (a = channel_with w0 p) as Ea' by (rewrite <-(reaches_with X w0 Ls0 w p HI); unfold channel_with; by rewrite Ea).
  wallet_step. apply hoare_seq.
  - destruct (is_open _); [by eapply reaches_spawn_new|]. by apply hoare_to_wallet, hoare_get_channel.
  - intros _ w' HI'. apply hoare_seq; [apply reaches_ask; subst; auto with safe|]. intros ? w2 HI2. wallet_step.
Qed.

Lemma reaches_grant X w0 Ls0 w p id b : reaches X w0 Ls0 w -> X (channel_with w0 p) ->
  hoare (reaches X w0 Ls0) (eq w) (grant_txn_request p id b) (fun _ => reaches X w0 Ls0).
Proof.
  intros HI HX. unfold grant_txn_request. hget. rewrite (reaches_with X w0 Ls0 w p HI). repeat wallet_step.
Qed.

Lemma reaches_apply_txn X w0 Ls0 w env interest p : reaches X w0 Ls0 w -> X (channel_with w0 p) ->
  hoare (reaches X w0 Ls0) (eq w) (apply_txn env interest p) (fun _ => reaches X w0 Ls0).
Proof.
  intros HI HX. unfold apply_txn. hget. rewrite (reaches_with X w0 Ls0 w p HI). repeat wallet_step.
Qed.

Lemma reaches_force_travel X w0 Ls0 w env interest p : reaches X w0 Ls0 w -> X (channel_with w0 p) ->
  hoare (reaches X w0 Ls0) (eq w) (force_travel_txn env interest p) (fun _ => reaches X w0 Ls0).
Proof.
  intros HI HX. unfold force_travel_txn. hget. rewrite (reaches_with X w0 Ls0 w p HI). repeat wallet_step.
Qed.

Lemma reaches_resource X w0 Ls0 w {R} p path (decode : bytes -> res R) : reaches X w0 Ls0 w -> X (channel_with w0 p) ->
  hoare (reaches X w0 Ls0) (eq w) (get_channel_resource p path decode) (fun _ => reaches X w0 Ls0).
Proof. intros HI HX. unfold get_channel_resource. repeat wallet_step. Qed.

(** A database that [ChannelStore::new] opened. *)
Lemma store_again c txs ps : channel_inv c txs -> ChannelStore_new ps (cs_db (store c)) = Ok (store c).
Proof. intros Hc. apply (reopen_ok _ txs); [by apply channel_ledger|apply (ai_keys _ _ _ (ci_applier c txs Hc))]. Qed.
Lemma load_of_store db ps s a account kp r : sdb_ok db -> empty_db db -> ChannelStore_new ps db = Ok s -> ps <> ∅ ->
  exists c : Channel, load a account (Some ps) db kp r = Ok c /\ store c = s.
Proof.
  intros Hok He Hs Hne. unfold load. simpl. rewrite Hs. cbn [expect_ok mbind res_bind].
  destruct (new_store_ok db ps Hok He) as (b & Hb & Hnew & Herr). pose proof (sdb_write_no_panic db b Hb) as Hnp.
  destruct (sdb_write_schemas db b) as [db'|e|e]; [|by rewrite (Herr e eq_refl) in Hs|done].
  destruct (Hnew db' eq_refl) as [_ E]. rewrite Hs in E. injection E as ->.
  unfold ChannelStore.participant_addresses. simpl. rewrite dom_gset_to_gmap, bool_decide_eq_false_2 by done. simpl.
  unfold TxApplier_new, get_startup_info. simpl. destruct (mem_new_empty TXN_ACC) as (acc & -> & _). simpl. by eexists.
Qed.

Lemma reaches_get_txn X w0 Ls0 w p n : reaches X w0 Ls0 w -> X (channel_with w0 p) ->
  sdb_ok (get_channel_db w (generate_channel_address (w_account w) p).1) ->
  hoare (reaches X w0 Ls0) (eq w) (get_applied_txn_by_channel_sequence_number p n) (fun _ => reaches X w0 Ls0).
Proof.
  intros HI HX Hsd. unfold get_applied_txn_by_channel_sequence_number. hget.
  destruct (generate_channel_address (w_account w) p) as [a ps] eqn:Ea. simpl in Hsd. apply hoare_lift; [done|]. intros s Hs.
  apply hoare_modify_bind. enough (reaches X w0 Ls0 (set_db a (cs_db s) w)) by repeat wallet_step.
  destruct HI as (Ls & [Hr Hst] & Hrest). exists Ls. split; [|done]. split; [done|]. intros b. simpl.
  case_bool_decide as Hb; [subst b|by apply Hst]. intros Hn. specialize (Hst a Hn). right.
  unfold get_channel_db in Hs, Hsd. rewrite Hn in Hs, Hsd. destruct Hst as [[Hf E]|(c & Hc & Hb & Hdb)].
  - injection Ea as <- <-. assert ({[w_account w]} ∪ {[p]} <> (∅ : gset AccountAddress)) as Hne by set_solver.
    destruct (load_of_store _ _ _ (address_from_participants ({[w_account w]} ∪ {[p]})) (w_account w)
      (w_keypair w) (w_registry w) Hsd Hf Hs Hne) as (c & Hl & Ec).
    destruct (load_fresh _ _ _ _ _ _ _ Hsd Hf Hne Hl) as (H1 & H2 & _ & H4 & _).
    exists c. rewrite E. split_and!; [done| |by rewrite Ec]. eexists. unfold who. by rewrite H2, H4.
  - exists c. split_and!; [done..|]. rewrite <-Hdb, (store_again c (Ls a)) in Hs by done. by injection Hs as <-.
Qed.

(** *** Stopping *)

Lemma reaches_drop_all X w0 Ls0 l w : reaches X w0 Ls0 w -> (forall a, X a) -> NoDup l ->
  (forall a, a ∈ l -> is_Some (w_channels w !! a)) ->
  reaches X w0 Ls0 (fold_left (fun w a => drop_channel a w) l w).
Proof.
  revert w. induction l as [|a l IH]; intros w HI HX Hnd Hl; simpl; [done|]. apply NoDup_cons in Hnd as [Hni Hnd].
  apply IH; [apply reaches_drop; [done..|apply Hl; by left]|done..|]. intros b Hb. simpl.
  rewrite lookup_delete_ne by set_solver. apply Hl. by right.
Qed.

Lemma reaches_stopped X w0 Ls0 w : reaches X w0 Ls0 w -> (forall a, X a) -> reaches X w0 Ls0 (wallet_stopped w).
Proof.
  intros HI HX. unfold wallet_stopped. apply reaches_running, reaches_drop_all; [done..|apply NoDup_elements|].
  intros a. by rewrite elem_of_elements, elem_of_dom.
Qed.

Lemma reaches_spawn_all X w0 Ls0 env interest l w : reaches X w0 Ls0 w -> (forall a, X a) -> spawns_ok env interest l w ->
  hoare (reaches X w0 Ls0) (eq w) (spawn_all env interest l) (fun _ => reaches X w0 Ls0).
Proof.
  revert w. induction l as [|a l IH]; intros w HI HX Hok; simpl; [by apply hoare_done|]. destruct Hok as [Ha Hok].
  intros w1 <-. pose proof (reaches_spawn X w0 Ls0 w env interest a None HI (HX a) Ha w eq_refl) as Hs.
  unfold mbind, stM_bind. destruct (spawn_channel env interest a None w) as [[[]|e|e] w'] eqn:E; [|done..].
  by apply (IH w' Hs HX Hok).
Qed.

Lemma reaches_wallet_started X w0 Ls0 env interest w : reaches X w0 Ls0 w -> (forall a, X a) -> call_ok env interest CStart w ->
  hoare (reaches X w0 Ls0) (eq w) (wallet_started env interest) (fun _ => reaches X w0 Ls0).
Proof.
  intros HI HX Hok w1 <-. unfold wallet_started.
  destruct (get_account_state (env_client env) (w_account w) None) as [st|e|e] eqn:Es; [|by apply reaches_stopped|done].
  destruct (as_get st user_channels_path) as [blob|] eqn:Eb; [|by apply reaches_enabled].
  assert (hoare (reaches X w0 Ls0) (eq (set_enabled true w))
    (user_channels ← lift (expect_ok (decode_user_channels blob)); spawn_all env interest user_channels) (fun _ => reaches X w0 Ls0)) as Hh.
  { apply hoare_lift; [by apply reaches_enabled|]. intros l Hl. apply reaches_spawn_all; [by apply reaches_enabled|done|].
    destruct (decode_user_channels blob) eqn:Ed; try done. injection Hl as ->. by apply (Hok st blob l). }
  specialize (Hh _ eq_refl). revert Hh.
  match goal with |- context [match ?x with _ => _ end] => destruct x as [[[]|e|e] w'] end; [done| |done].
  intros Hw. by apply reaches_stopped.
Qed.

(** *** One call *)

Lemma hoare_void X w0 Ls0 w {T} (m : stM Wallet T) :
  hoare (reaches X w0 Ls0) (eq w) m (fun _ => reaches X w0 Ls0) -> hoare (reaches X w0 Ls0) (eq w) (void m) (fun _ => reaches X w0 Ls0).
Proof. intros Hm. unfold void. apply hoare_seq; [done|]. intros. wallet_step. Qed.

Lemma reaches_query X w0 Ls0 w env interest p x : reaches X w0 Ls0 w -> X (channel_with w0 p) ->
  x ∈ [CPendingRequest p; CWaitingProposal p; CBalance p; CSequenceNumber p] ->
  hoare (reaches X w0 Ls0) (eq w) (run_call env interest x) (fun _ => reaches X w0 Ls0).
Proof.
  intros HI HX Hx.
  set_unfold in Hx. destruct Hx as [->|[->|[->|[->|[]]]]]; apply hoare_void.
  - unfold get_pending_txn_request, get_pending_txn. repeat wallet_step.
  - unfold get_waiting_proposal, get_pending_txn. repeat wallet_step.
  - unfold channel_balance, participant_account_balance. hget. hget. apply hoare_seq; [by apply reaches_resource|]. intros. wallet_step.
  - unfold wallet_channel_sequence_number. hget. apply hoare_seq; [by apply reaches_resource|]. intros. wallet_step.
Qed.

(** The channels that a call may change. *)
Definition touched w (x : call) (b : AccountAddress) : Prop := about w x = None \/ about w x = Some b.

Lemma reaches_refl X w Ls : wallet_inv w Ls -> reaches X w Ls w.
Proof. intros Hinv. exists Ls. by split_and!. Qed.

Lemma run_call_reaches env interest x w Ls : wallet_inv w Ls -> call_ok env interest x w -> (forall pkg, x <> CInstall pkg) ->
  hoare (reaches (touched w x) w Ls) (eq w) (run_call env interest x) (fun _ => reaches (touched w x) w Ls).
Proof.
  intros Hinv Hok Hx. pose proof (reaches_refl (touched w x) w Ls Hinv) as HI.
  assert (forall p, about w x = Some (channel_with w p) -> touched w x (channel_with w p)) as HX by (by right).
  assert (about w x = None -> forall a, touched w x a) as HXa by (by left).
  destruct x as [| |p|p|p op args|p r|p id|p id|p id|p r|p|p|p|p|p|p|p n|pkg| | |code| |p m].
  - apply reaches_wallet_started; auto.
  - apply hoare_modify. intros ? <-. apply reaches_stopped; auto.
  - unfold start_channel. hget. destruct (generate_channel_address p (w_account w)) as [a ps] eqn:Ea.
    apply hoare_seq; [|intros; wallet_step]. by eapply reaches_spawn_new; [| |apply HX|].
  - apply hoare_to_wallet; [done|]. unfold stop_channel. hget. fold (channel_with w p).
    destruct (w_channels w !! channel_with w p) eqn:Ec; [|wallet_step].
    apply hoare_modify. intros ? <-. apply reaches_drop; [done|by apply HX|by rewrite Ec].
  - apply hoare_void, reaches_execute; auto.
  - apply hoare_void, reaches_verify; auto.
  - apply hoare_void. unfold approve_txn. apply hoare_seq; [apply reaches_grant; auto|]. intros. wallet_step.
  - unfold reject_txn. apply hoare_seq; [apply reaches_grant; auto|]. intros. wallet_step.
  - unfold cancel_pending_request. apply reaches_ask_channel; auto with safe.
  - unfold verify_txn_response. apply hoare_seq; [apply reaches_ask_channel; auto with safe|]. intros. wallet_step.
  - apply hoare_void, reaches_force_travel; auto.
  - apply hoare_void, reaches_apply_txn; auto.
  - apply (reaches_query _ _ _ w env interest p); [done|by apply HX|set_solver].
  - apply (reaches_query _ _ _ w env interest p); [done|by apply HX|set_solver].
  - apply (reaches_query _ _ _ w env interest p); [done|by apply HX|set_solver].
  - apply (reaches_query _ _ _ w env interest p); [done|by apply HX|set_solver].
  - apply hoare_void. unfold get_txn_by_channel_sequence_number. apply hoare_seq; [apply reaches_get_txn; auto|].
    intros. wallet_step.
  - by destruct (Hx pkg).
  - apply hoare_void, hoare_to_wallet; [done|]. unfold enable_channel. repeat wallet_step.
    apply hoare_modify_bind. apply hoare_done. by apply reaches_enabled.
  - apply hoare_void, hoare_to_wallet; [done|]. unfold is_channel_feature_enabled. repeat wallet_step.
  - apply hoare_void, hoare_to_wallet; [done|]. unfold deploy_module. repeat wallet_step.
  - apply hoare_void, hoare_to_wallet; [done|]. unfold get_all_channels. repeat wallet_step.
  - hget. apply reaches_ask; [done|by apply HX|]. by apply safe_handle.
Qed.

(** Installing a package: all channels, running or stopped, get the new registry. *)
Lemma install_wallet_inv w Ls pkg : wallet_inv w Ls -> wallet_inv (wallet_install_package pkg w).2 Ls.
Proof.
  intros Hinv. unfold wallet_install_package, mbind, stM_bind, getS, lift. simpl.
  destruct (install_package (w_registry w) pkg) as [r|e|e] eqn:Hr; simpl; [|done..].
  assert (forall a c, channel_inv c (Ls a) -> belongs w a c ->
    channel_inv (handle_install pkg c).2 (Ls a) /\
    belongs (mkWallet (w_account w) (w_keypair w) r (channel_enabled w)
      ((fun c => (handle_install pkg c).2) <$> w_channels w) (w_dbs w) (w_running w)) a (handle_install pkg c).2 /\
    store (handle_install pkg c).2 = store c) as Hi.
  { intros a c Hc [ps Hw]. destruct (install_inv c (Ls a) pkg Hc) as (H1 & H2 & H3 & _ & H5).
    assert (ids (stm c) = (a, w_account w, ps, w_keypair w) /\ script_registry (stm c) = w_registry w) as [F1 F2]
      by (unfold who in Hw; naive_solver).
    split_and!; [done| |by rewrite H3]. exists ps. unfold who. simpl. by rewrite H2, H5, F1, F2, Hr. }
  split; intros a; simpl; rewrite lookup_fmap.
  - intros c' Hc'. destruct (w_channels w !! a) as [c|] eqn:Ec; [|done]. injection Hc' as <-.
    destruct (wi_running w Ls Hinv a c Ec) as [H1 H2]. by destruct (Hi a c H1 H2) as (? & ? & _).
  - intros Hn. destruct (w_channels w !! a) eqn:Ec; [done|]. destruct (wi_stopped w Ls Hinv a Ec) as [?|(c & H1 & H2 & H3)]; [by left|].
    right. destruct (Hi a c H1 H2) as (? & ? & E). exists (handle_install pkg c).2. split_and!; [done..|by rewrite E].
Qed.

Lemma run_call_inv env interest x w Ls : wallet_inv w Ls -> call_ok env interest x w ->
  let w' := (run_call env interest x w).2 in
  exists Ls', wallet_inv w' Ls' /\ (forall a, Ls a `prefix_of` Ls' a) /\ w_account w' = w_account w /\ w_keypair w' = w_keypair w /\
    forall a, about w x = Some a -> forall b, b <> a -> w_channels w' !! b = w_channels w !! b /\ Ls' b = Ls b.
Proof.
  intros Hinv Hok w'. assert ((forall pkg, x <> CInstall pkg) \/ exists pkg, x = CInstall pkg) as [Hx|[pkg ->]]
    by (destruct x; eauto; by left).
  - pose proof (run_call_reaches env interest x w Ls Hinv Hok Hx w eq_refl) as Hr.
    assert (reaches (touched w x) w Ls w') as (Ls' & H1 & H2 & H3 & H4 & _ & H5).
    { unfold w'. by destruct (run_call env interest x w) as [[[]|e|e] w1]. }
    exists Ls'. split_and!; [done..|]. intros a Ha b Hb. apply H5. unfold touched. rewrite Ha. naive_solver.
  - exists Ls. split_and!; [by apply install_wallet_inv|done| | |done]; unfold w'; simpl;
      unfold wallet_install_package, mbind, stM_bind, getS, lift; simpl; by destruct (install_package (w_registry w) pkg).
Qed.

Lemma run_wallet_inv l w Ls : wallet_inv w Ls -> calls_ok w l ->
  exists Ls', wallet_inv (run_wallet w l) Ls' /\ w_account (run_wallet w l) = w_account w.
Proof.
  revert w Ls. induction l as [|[[env interest] x] l IH]; intros w Ls Hinv Hok; [by exists Ls|]. destruct Hok as [Hx Hok].
  destruct (run_call_inv env interest x w Ls Hinv Hx) as (Ls1 & H1 & _ & E1 & _).
  destruct (IH _ _ H1 Hok) as (Ls2 & H2 & E2). exists Ls2. split; [done|]. by rewrite <-E1.
Qed.

Lemma wallet_new_inv account kp registry dbs : (forall a, empty_db (dbs a)) -> wallet_inv (wallet_new account kp registry dbs) (fun _ => []).
Proof. intros Hf. split; intros a; simpl; [by rewrite lookup_empty|]. left. split; [apply Hf|done]. Qed.

(** A channel that starts for the first time has no pending transaction: nothing is asked of the chain. *)
Lemma chain_ok_fresh env w a : w_channels w !! a = None -> sdb_ok (w_dbs w a) -> empty_db (w_dbs w a) -> chain_ok env w a.
Proof.
  intros Hn Hsd Hf. unfold chain_ok, get_channel_db. rewrite Hn. split; [done|]. intros ips c1 c2 p Hl Hb Hp.
  destruct ips as [ps|]; [|by destruct (load_no_participants _ _ _ _ _ Hsd Hf _ Hl)].
  destruct (decide (ps = ∅)) as [->|Hne]; [by destruct (load_no_participants _ _ _ _ _ Hsd Hf _ Hl)|].
  destruct (load_fresh _ _ _ _ _ _ _ Hsd Hf Hne Hl) as (_ & _ & H3 & _ & H5).
  rewrite bootstrap_fresh in Hb by done. injection Hb as <-. by rewrite H5 in Hp.
Qed.

Lemma belongs_ids w a c : belongs w a c -> channel_address (stm c) = a /\ account_address (stm c) = w_account w.
Proof. intros [ps Hw]. unfold who, ids in Hw. naive_solver. Qed.

(** ** Properties *)


End wallet_lemmas.
