(* ===== verification/Invoices.v ===== *)
(** * Hash-locked payments and invoices

    Models [src/sgtypes/src/htlc.rs], [src/sgwallet/src/utils/mod.rs] and
    [src/node/node_internal/src/invoice.rs]: reading the arguments of the payment scripts, invoices with
    their encoding, and the manager that keeps the preimages of a node's invoices and, for payments that
    it relays, the node that the payment came from.  The crates [hex] and [rand] are parameters. *)
From S2P Require Import Prelude Codec Libra ChannelTypes Chain.

(** [hex::encode_upper] and [hex::decode] *)
Class Hex := {
  hex_encode_upper : bytes -> string;
  hex_decode : string -> res bytes
}.
Class HexLaws `{Hex} : Prop := {
  hex_roundtrip b : bytes_ok b -> hex_decode (hex_encode_upper b) = Ok b
}.
(** [HashValue::random_with_rng(&mut StdRng::seed_from_u64(seed))]: a seeded generator is a function of
    its seed. *)
Class Rng {L : Libra} := random_hash : Z -> HashValue.

Section htlc.
Context {L : Libra} {K : Chain}.

Record HtlcPayment := mkHtlcPayment { hash_lock : HashValue; hp_amount : Z; hp_timeout : Z }.

Definition is_htlc (name : string) (op : ChannelOp) : bool :=
  match op with
  | OpAction module_address module_name function_name =>
      bool_decide (module_address = AccountAddress_default) && bool_decide (module_name = "ChannelScript") &&
      bool_decide (function_name = name)
  | _ => false
  end.
Definition is_htlc_transfer : ChannelOp -> bool := is_htlc "send_payment".
Definition is_htlc_receive : ChannelOp -> bool := is_htlc "receive_payment".

Definition parse_htlc_payment (args : list TransactionArgument) : res HtlcPayment :=
  match args with
  | [_; a1; a2; a3] =>
      amount ← ok_or (arg_U64 a1) "1st arg of send_payment should be u64";
      d ← ok_or (arg_ByteArray a2) "3rd arg of send_payment should be byte array";
      hash_lock ← hash_from_slice d;
      timeout ← ok_or (arg_U64 a3) "4th arg of send_payment should be u64";
      Ok (mkHtlcPayment hash_lock amount timeout)
  | _ => Err "send_payment should have 4 args"
  end.
Definition parse_htlc_preimage (args : list TransactionArgument) : res HashValue :=
  match args with
  | [a] =>
      d ← ok_or (arg_ByteArray a) "the 2th arg of receive_payment should be byte array";
      hash_from_slice d
  | _ => Err "receive_payment should have 1 args"
  end.
End htlc.

(** ** Invoices *)

Section invoices.
Context {L : Libra} {HX : Hex} {RN : Rng}.

Record Invoice := mkInvoice { r_hash : bytes; inv_amount : Z; inv_receiver : AccountAddress }.

Definition as_vec (i : Invoice) : bytes := address_to_vec (inv_receiver i) ++ to_be_bytes (inv_amount i) ++ r_hash i.

(** [&value[a..b]] *)
Definition slice (value : bytes) (a b : nat) : res bytes :=
  _ ← rassert (bool_decide (b <= length value)) "range end index out of range";
  Ok (take (b - a) (drop a value)).
Definition Invoice_try_from (value : bytes) : res Invoice :=
  s ← slice value 0 ADDRESS_LENGTH;
  receiver ← address_try_from s;
  amount_bytes ← slice value ADDRESS_LENGTH (ADDRESS_LENGTH + 8);
  Ok (mkInvoice (drop (ADDRESS_LENGTH + 8) value) (be_read amount_bytes) receiver).

Definition Invoice_from_string (value : string) : res Invoice := b ← hex_decode value; Invoice_try_from b.
Definition Invoice_to_string (i : Invoice) : string := hex_encode_upper (as_vec i).

(** ** The manager *)

Record InvoiceManager := mkInvoiceManager {
  r_hash_map : gmap bytes bytes;
  r_hash_previous_hop_map : gmap bytes AccountAddress
}.
Definition InvoiceManager_new : InvoiceManager := mkInvoiceManager ∅ ∅.

(** [now] is [get_unix_ts()], in milliseconds. *)
Definition new_invoice (now amount : Z) (receiver : AccountAddress) (m : InvoiceManager) : Invoice * InvoiceManager :=
  let preimage := hash_to_vec (random_hash now) in
  let r_hash := hash_to_vec (from_sha3_256 preimage) in
  (mkInvoice r_hash amount receiver, mkInvoiceManager (<[r_hash := preimage]> (r_hash_map m)) (r_hash_previous_hop_map m)).
Definition get_preimage (m : InvoiceManager) (r_hash : HashValue) : option bytes := r_hash_map m !! hash_to_vec r_hash.
Definition add_previous_hop (r_hash : HashValue) (previous_addr : AccountAddress) (m : InvoiceManager) : InvoiceManager :=
  mkInvoiceManager (r_hash_map m) (<[hash_to_vec r_hash := previous_addr]> (r_hash_previous_hop_map m)).
Definition get_previous_hop (m : InvoiceManager) (preimage : bytes) : option AccountAddress :=
  r_hash_previous_hop_map m !! hash_to_vec (from_sha3_256 preimage).
End invoices.

Section invoice_lemmas.
Context {L : Libra} {LL : LibraLaws} {HX : Hex} {HL : HexLaws} {RN : Rng}.

#[global] Instance hash_to_vec_inj : Inj (=) (=) hash_to_vec.
Proof. intros h h' E. apply (f_equal hash_from_slice) in E. rewrite !hash_roundtrip in E. by injection E. Qed.

Lemma slice_ok value a b : b <= length value -> slice value a b = Ok (take (b - a) (drop a value)).
Proof. intros Hb. unfold slice. by rewrite bool_decide_eq_true_2. Qed.

Lemma slice_fail value a b : length value < b -> slice value a b = Panic "range end index out of range".
Proof. intros Hb. unfold slice. by rewrite bool_decide_eq_false_2 by lia. Qed.

(** What was encoded is decoded, and a text that is too short for an address and an amount makes the
    decoding panic. *)
Lemma invoice_roundtrip i : in_u64 (inv_amount i) -> bytes_ok (r_hash i) -> Invoice_from_string (Invoice_to_string i) = Ok i.
Proof.
  intros Ha Hr. destruct i as [r a p]. unfold Invoice_from_string, Invoice_to_string. simpl in *.
  rewrite hex_roundtrip.
  - rstep. unfold Invoice_try_from, as_vec. cbn [r_hash inv_amount inv_receiver].
    pose proof (address_length p) as Hl. pose proof (length_to_be_bytes a) as H8.
    rewrite (slice_ok _ 0) by (rewrite !length_app; lia). rstep. rewrite drop_0, Nat.sub_0_r, take_app_length' by done.
    rewrite address_roundtrip. rstep. rewrite slice_ok by (rewrite !length_app; lia). rstep.
    assert (drop ADDRESS_LENGTH (address_to_vec p ++ to_be_bytes a ++ r) = to_be_bytes a ++ r) as E by by apply drop_app_length'.
    rewrite <-drop_drop, E, drop_app_length' by done. replace (ADDRESS_LENGTH + 8 - ADDRESS_LENGTH) with 8 by lia.
    by rewrite take_app_length', to_be_bytes_read.
  - apply Forall_app. split; [apply address_bytes_ok|]. apply Forall_app. split; [apply be_bytes_ok|done].
Qed.

Lemma short_invoice_panics b : length b < ADDRESS_LENGTH -> exists e, Invoice_try_from b = Panic e.
Proof. intros Hb. unfold Invoice_try_from. rewrite (slice_fail b 0) by done. simpl. eauto. Qed.

(** The preimages that a manager keeps open the locks that they are kept under. *)
Definition manager_inv (m : InvoiceManager) : Prop :=
  forall r p, r_hash_map m !! r = Some p -> r = hash_to_vec (from_sha3_256 p).
Lemma manager_new_inv : manager_inv InvoiceManager_new.
Proof. intros r p. simpl. by rewrite lookup_empty. Qed.
Lemma new_invoice_inv now amount receiver m : manager_inv m -> manager_inv (new_invoice now amount receiver m).2.
Proof. intros Hm r p. simpl. intros [[<- <-]|[_ ?]]%lookup_insert_Some; [done|by apply Hm]. Qed.
Lemma add_previous_hop_inv h a m : manager_inv m -> manager_inv (add_previous_hop h a m).
Proof. done. Qed.
Lemma get_preimage_opens m h p : manager_inv m -> get_preimage m h = Some p -> from_sha3_256 p = h.
Proof. intros Hm Hp. apply (inj hash_to_vec). symmetry. by apply Hm. Qed.
End invoice_lemmas.
