(* ===== verification/Futures.v ===== *)
(** * Futures of requests

    Models [src/node/node_internal/src/message_processor.rs]: a node that sends a request gets a future
    and registers its sender under the hash of the request; the answer, an error message or a timer
    completes it.  A bounded channel of capacity 1 with its receiver is a number here: [delivered] is its
    content, [gone] the receivers that were dropped, and a channel that no entry of the table holds has
    lost its senders.

    The theorem: whatever responses, errors, timeouts and further requests arrive in whatever order, a
    future that has completed keeps its outcome, and a value in it is an answer to its own request. *)
From S2P Require Import Prelude Codec Libra ChannelTypes Chain Messages.

Section futures.
Context {L : Libra} {T : Type}.

Record MessageProcessor := mkProcessor {
  tx_map : gmap HashValue nat;
  delivered : gmap nat (T + SgError);
  gone : gset nat;
  next_channel : nat
}.
Definition MessageProcessor_new : MessageProcessor := mkProcessor ∅ ∅ ∅ 0.

(** [mpsc::channel(1)] *)
Definition channel (m : MessageProcessor) : nat * MessageProcessor :=
  (next_channel m, mkProcessor (tx_map m) (delivered m) (gone m) (S (next_channel m))).
Definition receiver_dropped (i : nat) (m : MessageProcessor) : MessageProcessor :=
  mkProcessor (tx_map m) (delivered m) ({[ i ]} ∪ gone m) (next_channel m).

(** [entry(hash).or_insert(sender.clone())]: the sender given is dropped. *)
Definition add_future (hash : HashValue) (sender : nat) (m : MessageProcessor) : MessageProcessor :=
  match tx_map m !! hash with
  | Some _ => m
  | None => mkProcessor (<[hash := sender]> (tx_map m)) (delivered m) (gone m) (next_channel m)
  end.

(** [tx.clone().send(v)] with the removal of the entry, once the receiver is there *)
Definition deliver (hash : HashValue) (i : nat) (v : T + SgError) (m : MessageProcessor) : MessageProcessor :=
  mkProcessor (base.delete hash (tx_map m)) (<[i := v]> (delivered m)) (gone m) (next_channel m).
Definition send_response (hash : HashValue) (value : T) (m : MessageProcessor) : MessageProcessor :=
  match tx_map m !! hash with
  | Some tx => if bool_decide (tx ∈ gone m) then m else deliver hash tx (inl value) m
  | None => m
  end.
Definition remove_future (hash : HashValue) (m : MessageProcessor) : MessageProcessor :=
  mkProcessor (base.delete hash (tx_map m)) (delivered m) (gone m) (next_channel m).
Definition future_error (error_msg : ErrorMessage) (m : MessageProcessor) : res MessageProcessor :=
  match tx_map m !! raw_transaction_hash error_msg with
  | Some tx =>
      if bool_decide (tx ∈ gone m) then Err "send failed because receiver is gone"
      else Ok (deliver (raw_transaction_hash error_msg) tx (inr (em_error error_msg)) m)
  | None => Ok m
  end.

(** [MessageFuture::poll] *)
Inductive Poll := NotReady | Ready (v : T) | Failed (e : SgError).
Definition time_out : SgError := mkSgError TIMEOUT "future time out".
Definition registered (m : MessageProcessor) (i : nat) : bool :=
  existsb (fun e => bool_decide (e.2 = i)) (map_to_list (tx_map m)).
Definition poll_future (m : MessageProcessor) (i : nat) : Poll :=
  match delivered m !! i with
  | Some (inl v) => Ready v
  | Some (inr e) => Failed e
  | None => if registered m i then NotReady else Failed time_out
  end.

(** What happens to a processor; an error message for a dropped receiver makes the handler panic and
    changes nothing. *)
Inductive event :=
| ERequest (hash : HashValue)
| EResponse (hash : HashValue) (value : T)
| EError (error_msg : ErrorMessage)
| ETimeout (hash : HashValue)
| EDropped (i : nat).
Definition react (m : MessageProcessor) (e : event) : MessageProcessor :=
  match e with
  | ERequest hash => let '(i, m') := channel m in add_future hash i m'
  | EResponse hash value => send_response hash value m
  | EError error_msg => match future_error error_msg m with Ok m' => m' | _ => m end
  | ETimeout hash => remove_future hash m
  | EDropped i => receiver_dropped i m
  end.
Definition react_all (l : list event) : MessageProcessor := fold_left react l MessageProcessor_new.

(** ** Invariant *)

Record processor_inv (m : MessageProcessor) : Prop := {
  pi_bound h i : tx_map m !! h = Some i -> i < next_channel m;
  pi_inj h h' i : tx_map m !! h = Some i -> tx_map m !! h' = Some i -> h = h';
  pi_waiting h i : tx_map m !! h = Some i -> delivered m !! i = None;
  pi_delivered i v : delivered m !! i = Some v -> i < next_channel m
}.

Lemma registered_spec m i : registered m i = true <-> exists h, tx_map m !! h = Some i.
Proof.
  unfold registered. rewrite existsb_exists. split.
  - intros ([h j] & Hin & Hj). apply bool_decide_eq_true in Hj. simpl in Hj. subst j. exists h.
    apply elem_of_map_to_list. by apply list_elem_of_In.
  - intros [h Hh]. exists (h, i). split; [|by apply bool_decide_eq_true]. by apply list_elem_of_In, elem_of_map_to_list.
Qed.

Lemma unregistered m m' i : (forall h, tx_map m' !! h = Some i -> exists h', tx_map m !! h' = Some i) ->
  registered m i = false -> registered m' i = false.
Proof.
  intros Hsub Hf. destruct (registered m' i) eqn:Er; [|done]. apply registered_spec in Er as [h Hh].
  destruct (Hsub h Hh) as [h' Hh']. by rewrite (proj2 (registered_spec m i)) in Hf by eauto.
Qed.

Lemma processor_new_inv : processor_inv MessageProcessor_new.
Proof. split; simpl; intros; simplify_map_eq. Qed.

Lemma deliver_inv h i v m : processor_inv m -> tx_map m !! h = Some i -> processor_inv (deliver h i v m).
Proof.
  intros [Hb Hi Hw Hd] Hh. split; simpl.
  - intros h' j [_ Hj]%lookup_delete_Some. by eapply Hb.
  - intros h1 h2 j [_ H1]%lookup_delete_Some [_ H2]%lookup_delete_Some. by eapply Hi.
  - intros h' j [Hne Hj]%lookup_delete_Some. rewrite lookup_insert_ne; [by eapply Hw|]. intros ->. by destruct Hne; eapply Hi.
  - intros j w [[<- _]|[_ Hj]]%lookup_insert_Some; [by eapply Hb|by eapply Hd].
Qed.

Lemma react_inv m e : processor_inv m -> processor_inv (react m e).
Proof.
  intros Hm. destruct e as [h|h v|x|h|i]; simpl.
  - destruct Hm as [Hb Hi Hw Hd]. unfold add_future. simpl.
    assert (forall h j, tx_map m !! h = Some j -> j <> next_channel m) as Hne by (intros h' j Hj ->; specialize (Hb _ _ Hj); lia).
    destruct (tx_map m !! h) as [j|] eqn:E; split; simpl; try done.
    + intros h' i Hi'. specialize (Hb _ _ Hi'). lia.
    + intros i v Hv. specialize (Hd _ _ Hv). lia.
    + intros h' i [[_ <-]|[_ Hi']]%lookup_insert_Some; [lia|]. specialize (Hb _ _ Hi'). lia.
    + intros h1 h2 i [[<- <-]|[_ H1]]%lookup_insert_Some [[<- E2]|[_ H2]]%lookup_insert_Some; try done.
      * by destruct (Hne _ _ H2). * subst. by destruct (Hne _ _ H1). * by eapply Hi.
    + intros h' i [[_ <-]|[_ Hi']]%lookup_insert_Some; [|by eapply Hw].
      destruct (delivered m !! next_channel m) eqn:Ed; [|done]. specialize (Hd _ _ Ed). lia.
    + intros i v Hv. specialize (Hd _ _ Hv). lia.
  - unfold send_response. destruct (tx_map m !! h) as [tx|] eqn:E; [|done]. case_bool_decide; [done|]. by apply deliver_inv.
  - unfold future_error. destruct (tx_map m !! raw_transaction_hash x) as [tx|] eqn:E; [|done].
    case_bool_decide; [done|]. by apply deliver_inv.
  - destruct Hm as [Hb Hi Hw Hd]. split; simpl; [intros ?? [_ ?]%lookup_delete_Some; by eapply Hb| | |done].
    + intros ??? [_ ?]%lookup_delete_Some [_ ?]%lookup_delete_Some. by eapply Hi.
    + intros ?? [_ ?]%lookup_delete_Some. by eapply Hw.
  - by destruct Hm.
Qed.

Lemma react_all_snoc l e : react_all (l ++ [e]) = react (react_all l) e.
Proof. unfold react_all. by rewrite fold_left_app. Qed.
Lemma react_all_inv l : processor_inv (react_all l).
Proof. induction l as [|e l IH] using rev_ind; [apply processor_new_inv|]. rewrite react_all_snoc. by apply react_inv. Qed.

Lemma react_next m e : next_channel m <= next_channel (react m e).
Proof.
  destruct e as [h|h v|x|h|i]; simpl; unfold add_future, send_response, future_error; simpl;
    repeat first [case_match|case_bool_decide]; simplify_eq; simpl; lia.
Qed.

(** ** Completed futures stay as they are *)

Lemma deliver_poll h i v m j : processor_inv m -> tx_map m !! h = Some i -> poll_future m j <> NotReady ->
  poll_future (deliver h i v m) j = poll_future m j.
Proof.
  intros Hm Hh Hj. assert (i <> j) as Hne.
  { intros ->. apply Hj. unfold poll_future. rewrite (pi_waiting m Hm h j Hh).
    by rewrite (proj2 (registered_spec m j)) by eauto. }
  unfold poll_future in *. simpl. rewrite lookup_insert_ne by done. destruct (delivered m !! j) as [[|]|]; [done..|].
  destruct (registered m j) eqn:Er; [done|]. rewrite (unregistered m); [done| |done].
  intros h'. simpl. intros [_ ?]%lookup_delete_Some. eauto.
Qed.

Lemma react_poll m e i : processor_inv m -> i < next_channel m -> poll_future m i <> NotReady ->
  poll_future (react m e) i = poll_future m i.
Proof.
  intros Hm Hlt Hi. destruct e as [h|h v|x|h|j]; simpl.
  - unfold add_future. simpl. destruct (tx_map m !! h) as [j|] eqn:E; [done|]. unfold poll_future in *. simpl.
    destruct (delivered m !! i) as [[|]|]; [done..|]. destruct (registered m i) eqn:Er; [done|].
    rewrite (unregistered m); [done| |done]. intros h'. simpl. intros [[_ <-]|[_ ?]]%lookup_insert_Some; [lia|eauto].
  - unfold send_response. destruct (tx_map m !! h) as [tx|] eqn:E; [|done]. case_bool_decide; [done|]. by apply deliver_poll.
  - unfold future_error. destruct (tx_map m !! raw_transaction_hash x) as [tx|] eqn:E; [|done].
    case_bool_decide; [done|]. by apply deliver_poll.
  - unfold poll_future in *. simpl. destruct (delivered m !! i) as [[|]|]; [done..|]. destruct (registered m i) eqn:Er; [done|].
    rewrite (unregistered m); [done| |done]. intros h'. simpl. intros [_ ?]%lookup_delete_Some. eauto.
  - done.
Qed.

Lemma react_all_poll l l' i : i < next_channel (react_all l) -> poll_future (react_all l) i <> NotReady ->
  poll_future (react_all (l ++ l')) i = poll_future (react_all l) i.
Proof.
  intros Hlt Hi. induction l' as [|e l' IH] using rev_ind; [by rewrite app_nil_r|].
  rewrite (assoc_L app), react_all_snoc. rewrite react_poll; [done|apply react_all_inv| |by rewrite IH].
  clear IH Hi. induction l' as [|e' l' IH] using rev_ind; [by rewrite app_nil_r|].
  rewrite (assoc_L app), react_all_snoc. pose proof (react_next (react_all (l ++ l')) e'). lia.
Qed.

(** ** Values are answers *)

(** [asked l h i]: request number [i] of [l] was for [h]. *)
Definition asked (l : list event) (h : HashValue) (i : nat) : Prop :=
  exists l1 l2, l = l1 ++ ERequest h :: l2 /\ next_channel (react_all l1) = i.
(** [answered l h i v]: after it came the response [v] for [h]. *)
Definition answered (l : list event) (h : HashValue) (i : nat) (v : T) : Prop :=
  exists l1 l2 l3, l = l1 ++ ERequest h :: l2 ++ EResponse h v :: l3 /\ next_channel (react_all l1) = i.

Lemma asked_snoc l h i e : asked l h i -> asked (l ++ [e]) h i.
Proof. intros (l1 & l2 & -> & ?). exists l1, (l2 ++ [e]). by rewrite <-(assoc_L app). Qed.
Lemma answered_snoc l h i v e : answered l h i v -> answered (l ++ [e]) h i v.
Proof.
  intros (l1 & l2 & l3 & -> & ?). exists l1, l2, (l3 ++ [e]). split; [|done].
  by rewrite <-(assoc_L app), <-app_comm_cons, <-(assoc_L app).
Qed.

Lemma waiting_asked l h i : tx_map (react_all l) !! h = Some i -> asked l h i.
Proof.
  revert h i. induction l as [|e l IH] using rev_ind; intros h i; [done|]. rewrite react_all_snoc. set (m := react_all l) in *.
  assert (forall h i, tx_map m !! h = Some i -> asked (l ++ [e]) h i) as IH' by (intros; by apply asked_snoc, IH).
  destruct e as [h'|h' v|x|h'|j]; simpl.
  - unfold add_future. simpl. destruct (tx_map m !! h') as [j|] eqn:E; [apply IH'|]. simpl.
    intros [[-> <-]|[_ Hh]]%lookup_insert_Some; [|by apply IH']. by exists l, [].
  - unfold send_response. destruct (tx_map m !! h'); [|apply IH']. case_bool_decide; [apply IH'|]. simpl.
    intros [_ Hh]%lookup_delete_Some. by apply IH'.
  - unfold future_error. destruct (tx_map m !! raw_transaction_hash x); [|apply IH']. case_bool_decide; [apply IH'|]. simpl.
    intros [_ Hh]%lookup_delete_Some. by apply IH'.
  - intros [_ Hh]%lookup_delete_Some. by apply IH'.
  - apply IH'.
Qed.

Lemma delivered_answered l i v : delivered (react_all l) !! i = Some (inl v) -> exists h, answered l h i v.
Proof.
  revert i v. induction l as [|e l IH] using rev_ind; intros i v; [done|]. rewrite react_all_snoc. set (m := react_all l) in *.
  assert (delivered m !! i = Some (inl v) -> exists h, answered (l ++ [e]) h i v) as IH'.
  { intros [h Hh]%IH. exists h. by apply answered_snoc. }
  destruct e as [h'|h' v'|x|h'|j]; simpl; try done.
  - unfold add_future. simpl. by destruct (tx_map m !! h').
  - unfold send_response. destruct (tx_map m !! h') as [tx|] eqn:E; [|apply IH']. case_bool_decide; [apply IH'|]. simpl.
    intros [[<- [= <-]]|[_ Hh]]%lookup_insert_Some; [|by apply IH']. exists h'.
    destruct (waiting_asked l h' tx E) as (l1 & l2 & El & Hn). exists l1, l2, []. split; [|done].
    by rewrite El, <-(assoc_L app), <-app_comm_cons.
  - unfold future_error. destruct (tx_map m !! raw_transaction_hash x) as [tx|] eqn:E; [|apply IH'].
    case_bool_decide; [apply IH'|]. simpl. intros [[_ ?]|[_ Hh]]%lookup_insert_Some; [done|by apply IH'].
Qed.

(** ** Property *)

(** C29: let requests, responses, error messages, timeouts and dropped receivers follow each other in any
    order.  A future that has completed, with a value or an error, never changes its outcome; a value in
    it is a response for the hash of its own request that came after the request; a request for which
    the response comes before anything else gets it; and a request for a hash whose earlier request still
    waits times out at once, while the earlier one goes on waiting. *)
Theorem futures_complete_once l :
  (forall l' i, i < next_channel (react_all l) -> poll_future (react_all l) i <> NotReady ->
     poll_future (react_all (l ++ l')) i = poll_future (react_all l) i) /\
  (forall i v, poll_future (react_all l) i = Ready v -> exists h, answered l h i v) /\
  (forall h v, tx_map (react_all l) !! h = None -> next_channel (react_all l) ∉ gone (react_all l) ->
     poll_future (react_all (l ++ [ERequest h; EResponse h v])) (next_channel (react_all l)) = Ready v) /\
  (forall h i, tx_map (react_all l) !! h = Some i ->
     poll_future (react_all (l ++ [ERequest h])) (next_channel (react_all l)) = Failed time_out /\
     poll_future (react_all (l ++ [ERequest h])) i = NotReady).
Proof.
  pose proof (react_all_inv l) as Hinv. split_and!; [apply react_all_poll| | |].
  - intros i v Hp. apply delivered_answered. unfold poll_future in Hp. by repeat case_match; simplify_eq.
  - intros h v Hn Hg. change (l ++ [ERequest h; EResponse h v]) with (l ++ [ERequest h] ++ [EResponse h v]).
    rewrite (assoc_L app), !react_all_snoc. simpl.
    unfold add_future. simpl. rewrite Hn. unfold send_response. simpl. rewrite lookup_insert_eq, bool_decide_eq_false_2 by done.
    unfold poll_future. simpl. by rewrite lookup_insert_eq.
  - intros h i Hi. rewrite react_all_snoc. simpl. unfold add_future. simpl. rewrite Hi. unfold poll_future. simpl.
    destruct (delivered (react_all l) !! next_channel (react_all l)) as [w|] eqn:Ed.
    { apply (pi_delivered _ Hinv) in Ed. lia. }
    rewrite (pi_waiting _ Hinv h i Hi). split.
    + match goal with |- (if ?b then _ else _) = _ => destruct b eqn:Er end; [|done].
      apply registered_spec in Er as [h' Hh']. apply (pi_bound _ Hinv) in Hh'. simpl in Hh'. lia.
    + match goal with |- (if ?b then _ else _) = _ => destruct b eqn:Er end; [done|].
      rewrite (proj2 (registered_spec _ i)) in Er; [done|]. by exists h.
Qed.
End futures.
#[global] Arguments MessageProcessor {L} T.
#[global] Arguments Poll : clear implicits.
#[global] Arguments event {L} T.
