(* ===== verification/Stats.v ===== *)
(** * Payment statistics

    Models [src/router/stats/src/lib.rs]: the amounts in flight on each directed channel, kept by a task
    that reads them from a queue, and read by the routers as the back pressure of a channel.

    A task that waits for a lock keeps the locks it holds: an asynchronous computation returns [None] when
    it waits for a lock that is not free, and since the computations of this file release their locks
    before they end, a lock that is not free when a computation starts is held by one that waits itself.

    The theorem: whatever is reported, no pressure other than zero is ever read, and the first payment of
    a channel makes the task wait for the lock that it holds, for ever, and with it all later readers. *)
From S2P Require Import Prelude Libra.

(** ** Asynchronous computations *)

Definition taskM (S A : Type) : Type := S -> option (res A) * S.
#[global] Instance taskM_ret {S} : MRet (taskM S) := fun A a s => (Some (Ok a), s).
#[global] Instance taskM_bind {S} : MBind (taskM S) := fun A B f m s =>
  match m s with
  | (Some (Ok a), s') => f a s'
  | (Some (Err e), s') => (Some (Err e), s')
  | (Some (Panic e), s') => (Some (Panic e), s')
  | (None, s') => (None, s')
  end.
(** A synchronous part of a task, and a result of one. *)
Definition sync {S A} (m : stM S A) : taskM S A := fun s => let '(r, s') := m s in (Some r, s').
Definition task_lift {S A} (r : res A) : taskM S A := fun s => (Some r, s).

Section stats.
Context {L : Libra}.

Inductive PayEnum := Paying | Payed.
Definition DirectedChannel : Type := AccountAddress * AccountAddress.
Definition PaymentInfo : Type := HashValue * Z * PayEnum.

(** The lock of [payment_data] is only held within one call. *)
Record ChannelStats := mkChannelStats { payment_data : gmap HashValue Z }.
Definition ChannelStats_new : ChannelStats := mkChannelStats ∅.
Definition stats_insert (amount : Z) (hash_value : HashValue) (c : ChannelStats) : ChannelStats :=
  mkChannelStats (<[hash_value := amount]> (payment_data c)).
Definition stats_remove (hash_value : HashValue) (c : ChannelStats) : ChannelStats :=
  mkChannelStats (base.delete hash_value (payment_data c)).
Definition stats_sum (c : ChannelStats) : res Z :=
  fold_left (fun result amount => result ← result; add_u64 result amount) (map_to_list (payment_data c)).*2 (Ok 0%Z).

(** [Mutex<HashMap<DirectedChannel, ChannelStats>>] *)
Record StatsInner := mkStatsInner {
  stats_locked : bool;
  user_channel_stats : gmap DirectedChannel ChannelStats
}.
(** A computation under the guard of the lock, which is released when the computation ends in any way. *)
Definition locking {A} (m : taskM StatsInner A) : taskM StatsInner A := fun s =>
  if stats_locked s then (None, s)
  else match m (mkStatsInner true (user_channel_stats s)) with
       | (None, s') => (None, s')
       | (Some r, s') => (Some r, mkStatsInner false (user_channel_stats s'))
       end.
Definition stats_map : taskM StatsInner (gmap DirectedChannel ChannelStats) := fun s => (Some (Ok (user_channel_stats s)), s).
Definition stats_update (f : gmap DirectedChannel ChannelStats -> gmap DirectedChannel ChannelStats) : taskM StatsInner unit :=
  fun s => (Some (Ok tt), mkStatsInner (stats_locked s) (f (user_channel_stats s))).

Definition insert_channel_stats (channel : DirectedChannel) (stats : ChannelStats) : taskM StatsInner unit :=
  locking (stats_update <[channel := stats]>).

(** The guard of [user_channel_stats.lock().await] in the scrutinee of a [match] lives to the end of the
    [match]. *)
Definition handle_data_message (channel : DirectedChannel) (payment_info : PaymentInfo) : taskM StatsInner unit :=
  let '(hash_value, amount, kind) := payment_info in
  match kind with
  | Paying => locking (
      m ← stats_map;
      match m !! channel with
      | Some channel_stats => stats_update <[channel := stats_insert amount hash_value channel_stats]>
      | None => insert_channel_stats channel (stats_insert amount hash_value ChannelStats_new)
      end)
  | Payed => locking (
      m ← stats_map;
      match m !! channel with
      | Some channel_stats => stats_update <[channel := stats_remove hash_value channel_stats]>
      | None => mret tt
      end)
  end.

Definition payment_pressure (channel : DirectedChannel) : taskM StatsInner Z := locking (
  m ← stats_map;
  match m !! channel with
  | Some channel_stats => task_lift (stats_sum channel_stats)
  | None => mret 0%Z
  end).

(** [Stats], with the task that [start] spawns.  The receivers are the fields of [Stats] until then, and
    the task's afterwards; a task that ends drops them. *)
Inductive StatsTask := NotStarted | Running | Waiting | Ended.
Record Stats := mkStats {
  stats_inner : StatsInner;
  stats_task : StatsTask;
  data_queue : list (DirectedChannel * PaymentInfo);
  control_queue : nat
}.
Definition Stats_new : Stats := mkStats (mkStatsInner false ∅) NotStarted [] 0.

Definition back_pressure (channel : DirectedChannel) (s : Stats) : option (res Z) * Stats :=
  let '(r, i) := payment_pressure channel (stats_inner s) in
  (r, mkStats i (stats_task s) (data_queue s) (control_queue s)).
Definition stats_start : stM Stats unit := fun s =>
  match stats_task s with
  | NotStarted => (Ok tt, mkStats (stats_inner s) Running (data_queue s) (control_queue s))
  | _ => (Panic "already taken", s)
  end.
Definition stats (channel : DirectedChannel) (payment_info : PaymentInfo) : stM Stats unit := fun s =>
  match stats_task s with
  | Ended => (Err "send failed because receiver is gone", s)
  | _ => (Ok tt, mkStats (stats_inner s) (stats_task s) (data_queue s ++ [(channel, payment_info)]) (control_queue s))
  end.
Definition stats_shutdown : stM Stats unit := fun s =>
  match stats_task s with
  | Ended => (Err "send failed because receiver is gone", s)
  | _ => (Ok tt, mkStats (stats_inner s) (stats_task s) (data_queue s) (S (control_queue s)))
  end.

(** One turn of the loop of [StatsInner::start], by the branch that [select!] takes. *)
Definition take_data (s : Stats) : Stats :=
  match stats_task s, data_queue s with
  | Running, (channel, amount) :: rest =>
      match handle_data_message channel amount (stats_inner s) with
      | (Some (Ok _), i) => mkStats i Running rest (control_queue s)
      | (Some _, i) => mkStats i Ended [] 0
      | (None, i) => mkStats i Waiting rest (control_queue s)
      end
  | _, _ => s
  end.
Definition take_control (s : Stats) : Stats :=
  match stats_task s, control_queue s with
  | Running, S _ => mkStats (stats_inner s) Ended [] 0
  | _, _ => s
  end.

(** ** Runs *)

Inductive stats_event :=
| SStart
| SReport (channel : DirectedChannel) (payment_info : PaymentInfo)
| SShutdown
| STakeData
| STakeControl
| SPressure (channel : DirectedChannel).

(** What an event shows: the message that the task takes, and the answer to a reader. *)
Inductive stats_output :=
| OTook (channel : DirectedChannel) (payment_info : PaymentInfo)
| OPressure (answer : option (res Z))
| OOther.
Definition stats_step (e : stats_event) (s : Stats) : stats_output * Stats :=
  match e with
  | SStart => (OOther, (stats_start s).2)
  | SReport c i => (OOther, (stats c i s).2)
  | SShutdown => (OOther, (stats_shutdown s).2)
  | STakeData =>
      (match stats_task s, data_queue s with Running, (c, i) :: _ => OTook c i | _, _ => OOther end, take_data s)
  | STakeControl => (OOther, take_control s)
  | SPressure c => let '(r, s') := back_pressure c s in (OPressure r, s')
  end.
Fixpoint stats_run (l : list stats_event) (s : Stats) : list stats_output * Stats :=
  match l with
  | [] => ([], s)
  | e :: l =>
      let '(o, s1) := stats_step e s in
      let '(os, s2) := stats_run l s1 in
      (o :: os, s2)
  end.

Definition first_payment (o : stats_output) : Prop := exists c h v, o = OTook c (h, v, Paying).

(** ** Before and after the first payment *)

Definition stats_idle (s : Stats) : Prop := stats_inner s = mkStatsInner false ∅ /\ stats_task s <> Waiting.
Definition stats_stuck (s : Stats) : Prop := stats_inner s = mkStatsInner true ∅ /\ stats_task s = Waiting.

Definition stats_answers (v : option (res Z)) (o : stats_output) : Prop :=
  match o with OPressure a => a = v | OTook _ (_, _, k) => v <> None /\ k = Payed | OOther => True end.

Lemma payment_pressure_idle c : payment_pressure c (mkStatsInner false ∅) = (Some (Ok 0%Z), mkStatsInner false ∅).
Proof. done. Qed.

Lemma idle_step e s : stats_idle s -> let '(o, s') := stats_step e s in
  (stats_answers (Some (Ok 0%Z)) o /\ stats_idle s') \/ (first_payment o /\ stats_stuck s').
Proof.
  destruct s as [i t q k]. intros [Hi Ht]; simpl in Hi, Ht. subst i.
  destruct e; simpl; try (left; split; [done|]; destruct t; try destruct k; repeat split; done).
  destruct t; try (left; done). destruct q as [|[c [[h v] kd]] q]; [left; done|].
  destruct kd; vm_compute; [right|left]; repeat split; try done. by exists c, h, v.
Qed.

Lemma stuck_step e s : stats_stuck s -> let '(o, s') := stats_step e s in stats_answers None o /\ stats_stuck s'.
Proof.
  destruct s as [i t q k]. intros [Hi Ht]; simpl in Hi, Ht. subst i t.
  destruct e; simpl; repeat split; done.
Qed.

Lemma stuck_run l s : stats_stuck s -> Forall (stats_answers None) (stats_run l s).1 /\ stats_stuck (stats_run l s).2.
Proof.
  revert s. induction l as [|e l IH]; intros s Hs; [by split|]. simpl.
  pose proof (stuck_step e s Hs) as H. destruct (stats_step e s) as [o s1]. destruct H as [Ho H1].
  specialize (IH s1 H1). destruct (stats_run l s1). simpl in *. split; [constructor|]; tauto.
Qed.

Lemma idle_run l s : stats_idle s -> let '(os, s') := stats_run l s in
  user_channel_stats (stats_inner s') = ∅ /\
  exists before after, os = before ++ after /\ Forall (stats_answers (Some (Ok 0%Z))) before /\
    ((after = [] /\ stats_idle s') \/
     exists o rest, after = o :: rest /\ first_payment o /\ Forall (stats_answers None) rest /\ stats_stuck s').
Proof.
  revert s. induction l as [|e l IH]; intros s Hs; simpl.
  { split; [by rewrite (proj1 Hs)|]. exists [], []. split_and!; [done..|by left]. }
  pose proof (idle_step e s Hs) as H. destruct (stats_step e s) as [o s1]. destruct H as [[Ho H1]|[Ho H1]].
  - specialize (IH s1 H1). destruct (stats_run l s1) as [os s2]. destruct IH as (He & before & after & -> & Hb & Ha).
    split; [done|]. exists (o :: before), after. split_and!; [done| |done]. by constructor.
  - pose proof (stuck_run l s1 H1) as [Hos H2]. destruct (stats_run l s1) as [os s2]. simpl in *.
    split; [by rewrite (proj1 H2)|]. exists [], (o :: os). split_and!; [done..|]. right. by exists o, os.
Qed.

(** ** The statistics never hold a payment *)

(** C26: for any sequence of reports, turns of the task, shutdowns and readers, the statistics stay empty.
    Until the task takes the first report of a payment being made, every reader gets the pressure zero.
    That report makes the task wait for the lock that it holds itself: from then on it takes no message
    again and no reader ever gets an answer. *)
Theorem statistics_stay_empty l : let '(outputs, s) := stats_run l Stats_new in
  user_channel_stats (stats_inner s) = ∅ /\
  exists before after, outputs = before ++ after /\ Forall (stats_answers (Some (Ok 0%Z))) before /\
    ((after = [] /\ stats_task s <> Waiting) \/
     exists o rest, after = o :: rest /\ first_payment o /\ Forall (stats_answers None) rest /\ stats_task s = Waiting).
Proof.
  pose proof (idle_run l Stats_new) as H. destruct (stats_run l Stats_new) as [os s].
  destruct H as (He & before & after & -> & Hb & Ha); [done|].
  split; [done|]. exists before, after. split_and!; [done..|].
  destruct Ha as [[-> Hs]|(o & rest & -> & Ho & Hr & Hs)]; [left; split; [done|apply Hs]|].
  right. exists o, rest. split_and!; [done..|apply Hs].
Qed.
End stats.
