(* ===== verification/Node.v ===== *)
(** * The node

    Models [src/node/node_internal/src/node.rs]: the actor that joins the wallet, the network and the
    router.  The wallet is an interface ([WalletOps]) that the wallet of the development implements
    ([wallet_ops]).  A handler runs to its end before the next; messages to other nodes go to the outbox
    in the order in which they are sent; a timer that a request starts is a record until it fires.  The
    answer that a command sends to its responder is the value of its definition.

    The theorems: a payment along a path of nodes reaches its receiver and is claimed back hop by hop, and
    a node forwards a payment that it has itself rejected. *)
From S2P Require Import Prelude Codec Libra SchemaDB Accumulator ChannelTypes ChannelStore TxApplier Chain ChannelStm Channel Messages Wallet.
From S2P Require Import Invoices Futures Stats.

(** ** What the node asks of its wallet *)

Class WalletOps {L : Libra} {K : Chain} (W : Type) := {
  wo_account : W -> AccountAddress;
  wo_open : AccountAddress -> Z -> Z -> stM W ChannelTransactionRequest;
  wo_deposit : AccountAddress -> Z -> stM W ChannelTransactionRequest;
  wo_withdraw : AccountAddress -> Z -> stM W ChannelTransactionRequest;
  wo_transfer : AccountAddress -> Z -> stM W ChannelTransactionRequest;
  wo_send_payment : AccountAddress -> Z -> bytes -> Z -> stM W ChannelTransactionRequest;
  wo_receive_payment : AccountAddress -> bytes -> stM W ChannelTransactionRequest;
  wo_execute_script : AccountAddress -> string -> string -> list TransactionArgument -> stM W ChannelTransactionRequest;
  wo_verify_txn : AccountAddress -> ChannelTransactionRequest -> stM W (option ChannelTransactionResponse);
  wo_approve_txn : AccountAddress -> HashValue -> stM W ChannelTransactionResponse;
  wo_reject_txn : AccountAddress -> HashValue -> stM W unit;
  wo_verify_txn_response : AccountAddress -> ChannelTransactionResponse -> stM W unit;
  wo_apply_txn : AccountAddress -> stM W Z;
  wo_force_travel_txn : AccountAddress -> stM W Z;
  wo_channel_sequence_number : AccountAddress -> stM W Z;
  wo_channel_balance : AccountAddress -> stM W Z;
  wo_participant_channel_balance : AccountAddress -> stM W Z;
  wo_install_package : ChannelScriptPackage -> stM W unit;
  wo_deploy_module : bytes -> stM W TransactionWithProof;
  wo_account_resource : stM W bytes;
  wo_get_txn : AccountAddress -> Z -> stM W SignedChannelTransaction;
  wo_get_all_channels : stM W (gset AccountAddress);
  wo_get_pending_txn_request : AccountAddress -> stM W (option ChannelTransactionRequest);
  wo_get_waiting_proposal : AccountAddress -> stM W (option ChannelTransactionProposal);
  wo_stop : stM W unit
}.

(** The wallet of the development implements it: a wallet with the answers that chain and watchers give
    to its calls, one after the other. *)
Section wallet_ops.
Context {L : Libra} {B : SchemaBatches} {A : Accumulators} {C : StoreCodecs} {K : Chain} {CC : ChannelTxnCodec} {WC : WalletChain}.
Context {S : Type} {SD : SchemaDB S}.

Record WalletAt := mkWalletAt {
  wa_wallet : Wallet (S := S);
  wa_world : nat -> Env * res unit;
  wa_time : nat
}.
Definition at_now {T} (f : Env -> res unit -> stM (Wallet (S := S)) T) : stM WalletAt T := fun w =>
  let '(env, interest) := wa_world w (wa_time w) in
  let '(r, w') := f env interest (wa_wallet w) in
  (r, mkWalletAt w' (wa_world w) (Datatypes.S (wa_time w))).

#[global] Instance wallet_ops : WalletOps WalletAt := {|
  wo_account := fun w => w_account (wa_wallet w);
  wo_open := fun p a b => at_now (fun env i => open env i p a b);
  wo_deposit := fun p a => at_now (fun env i => deposit env i p a);
  wo_withdraw := fun p a => at_now (fun env i => withdraw env i p a);
  wo_transfer := fun p a => at_now (fun env i => transfer env i p a);
  wo_send_payment := fun p a h t => at_now (fun env i => send_payment env i p a h t);
  wo_receive_payment := fun p pre => at_now (fun env i => receive_payment env i p pre);
  wo_execute_script := fun p pkg s args => at_now (fun env i => execute_script env i p pkg s args);
  wo_verify_txn := fun p r => at_now (fun env i => verify_txn env i p r);
  wo_approve_txn := fun p id => at_now (fun _ _ => approve_txn p id);
  wo_reject_txn := fun p id => at_now (fun _ _ => reject_txn p id);
  wo_verify_txn_response := fun p r => at_now (fun env _ => verify_txn_response env p r);
  wo_apply_txn := fun p => at_now (fun env i => apply_txn env i p);
  wo_force_travel_txn := fun p => at_now (fun env i => force_travel_txn env i p);
  wo_channel_sequence_number := fun p => at_now (fun _ _ => wallet_channel_sequence_number p);
  wo_channel_balance := fun p => at_now (fun _ _ => channel_balance p);
  wo_participant_channel_balance := fun p => at_now (fun _ _ => participant_channel_balance p);
  wo_install_package := fun pkg => at_now (fun _ _ => wallet_install_package pkg);
  wo_deploy_module := fun code => at_now (fun env _ => to_wallet (deploy_module env code));
  wo_account_resource := at_now (fun env _ w => (account_resource env w, w));
  wo_get_txn := fun p n => at_now (fun _ _ => get_txn_by_channel_sequence_number p n);
  wo_get_all_channels := at_now (fun _ _ => to_wallet get_all_channels);
  wo_get_pending_txn_request := fun p => at_now (fun _ _ => get_pending_txn_request p);
  wo_get_waiting_proposal := fun p => at_now (fun _ _ => get_waiting_proposal p);
  wo_stop := at_now (fun _ _ => stop)
|}.
End wallet_ops.

(** ** Serialization of the messages *)

Class NodeProst {L : Libra} := {
  prost_request :: Prost pb_ChannelTransactionRequest;
  prost_response :: Prost pb_ChannelTransactionResponse;
  prost_multi_hop :: Prost pb_MultiHopChannelRequest;
  prost_error :: Prost pb_ErrorMessage;
  prost_router :: Prost pb_RouterNetworkMessage
}.
Class NodeProstLaws {L : Libra} {NP : NodeProst} : Prop := {
  prost_request_laws :: ProstLaws pb_ChannelTransactionRequest;
  prost_response_laws :: ProstLaws pb_ChannelTransactionResponse;
  prost_multi_hop_laws :: ProstLaws pb_MultiHopChannelRequest;
  prost_error_laws :: ProstLaws pb_ErrorMessage;
  prost_router_laws :: ProstLaws pb_RouterNetworkMessage
}.

(** What the rest of the process answers during a handler: the network service, the router, and whether
    the receivers of the channels are still there. *)
Record World {L : Libra} := mkWorld {
  net_is_connected : AccountAddress -> bool;
  find_path_by_addr : AccountAddress -> AccountAddress -> res (list BalanceQueryResponse);
  network_open : bool;
  router_open : bool;
  stats_open : bool;
  unix_ts : Z
}.

(** ** Message types on the wire *)

Definition parse_message_type (data : bytes) : res MessageType :=
  data_slice ← slice data 0 2;
  expect_ok (from_type (be_read data_slice)).
Definition add_message_type (data : bytes) (message_type : MessageType) : bytes := be_bytes 2 (get_type message_type) ++ data.
#[global] Arguments add_message_type : simpl never.
#[global] Arguments parse_message_type : simpl never.

(** [e.downcast_ref::<SgError>()], for the errors that the wallet returns *)
Definition downcast_ref (e : string) : option SgError :=
  if bool_decide (e = "Can not find channel by participant") then Some (mkSgError CHANNEL_NOT_EXIST e) else None.

(** ** The node *)

Section node.
Context {L : Libra} {K : Chain} {CC : ChannelTxnCodec} {NP : NodeProst} {HX : Hex} {RN : Rng}.
Context {W : Type} {WO : WalletOps W}.
Implicit Types world : World.

Record Node := mkNode {
  n_wallet : W;
  n_outbox : list (AccountAddress * bytes);
  n_processor : MessageProcessor Z;
  n_timers : list (HashValue * Z);
  default_future_timeout : Z;
  auto_approve : bool;
  invoice_mgr : InvoiceManager;
  n_router_inbox : list (AccountAddress * RouterNetworkMessage);
  n_stats : list (AccountAddress * AccountAddress * (HashValue * Z * PayEnum))
}.
Notation N := (stM Node).

Definition Node_new (w : W) (auto : bool) (timeout : Z) : Node :=
  mkNode w [] MessageProcessor_new [] timeout auto InvoiceManager_new [] [].

Definition set_wallet (w : W) (n : Node) : Node :=
  mkNode w (n_outbox n) (n_processor n) (n_timers n) (default_future_timeout n) (auto_approve n) (invoice_mgr n) (n_router_inbox n) (n_stats n).
Definition set_outbox (l : list (AccountAddress * bytes)) (n : Node) : Node :=
  mkNode (n_wallet n) l (n_processor n) (n_timers n) (default_future_timeout n) (auto_approve n) (invoice_mgr n) (n_router_inbox n) (n_stats n).
Definition set_processor (p : MessageProcessor Z) (n : Node) : Node :=
  mkNode (n_wallet n) (n_outbox n) p (n_timers n) (default_future_timeout n) (auto_approve n) (invoice_mgr n) (n_router_inbox n) (n_stats n).
Definition set_timers (l : list (HashValue * Z)) (n : Node) : Node :=
  mkNode (n_wallet n) (n_outbox n) (n_processor n) l (default_future_timeout n) (auto_approve n) (invoice_mgr n) (n_router_inbox n) (n_stats n).
Definition set_invoices (i : InvoiceManager) (n : Node) : Node :=
  mkNode (n_wallet n) (n_outbox n) (n_processor n) (n_timers n) (default_future_timeout n) (auto_approve n) i (n_router_inbox n) (n_stats n).

(** [self.wallet.op(..).await] *)
Definition on_wallet {T} (m : stM W T) : N T := fun n => let '(r, w) := m (n_wallet n) in (r, set_wallet w n).

(** [match m { Ok(a) => .., Err(e) => .. }] and [m.unwrap()] *)
Definition attempt {T} (m : N T) : N (T + string) := fun n =>
  match m n with
  | (Ok a, n') => (Ok (inl a), n')
  | (Err e, n') => (Ok (inr e), n')
  | (Panic e, n') => (Panic e, n')
  end.
Definition unwrap {T} (m : N T) : N T := fun n => let '(r, n') := m n in (expect_ok r, n').

(** [self.sender.unbounded_send(NetworkMessage { peer_id, data })] *)
Definition net_send world (peer_id : AccountAddress) (data : bytes) : N unit :=
  if network_open world then modifyS (fun n => set_outbox (n_outbox n ++ [(peer_id, data)]) n)
  else lift (Err "send failed because receiver is gone").
(** [self.router.stats(..)] *)
Definition router_stats world (c : AccountAddress * AccountAddress) (info : HashValue * Z * PayEnum) : N unit :=
  if stats_open world
  then modifyS (fun n => mkNode (n_wallet n) (n_outbox n) (n_processor n) (n_timers n) (default_future_timeout n) (auto_approve n)
                           (invoice_mgr n) (n_router_inbox n) (n_stats n ++ [(c, info)]))
  else lift (Err "send failed because receiver is gone").

Definition error_message (e : string) (hash_value : HashValue) : res bytes :=
  let error_message :=
    match downcast_ref e with
    | Some err => mkErrorMessage hash_value err
    | None => mkErrorMessage hash_value (mkSgError UNKNOWN e)
    end in
  b ← expect_ok (into_proto_bytes error_message);
  Ok (add_message_type b TErrorMessage).
(** [self.sender.unbounded_send(.. error_message(e, request_id) ..).unwrap()] *)
Definition send_error world (peer_id : AccountAddress) (e : string) (hash_value : HashValue) : N unit :=
  b ← lift (error_message e hash_value); unwrap (net_send world peer_id b).

Definition send_router_message world (peer_id : AccountAddress) (msg : RouterNetworkMessage) : N unit :=
  data ← lift (into_proto_bytes msg);
  net_send world peer_id (add_message_type data TRouterMessage).
Definition handle_router_msg world (peer_id : AccountAddress) (data : bytes) : N unit :=
  msg ← lift (from_proto_bytes data);
  if router_open world
  then modifyS (fun n => mkNode (n_wallet n) (n_outbox n) (n_processor n) (n_timers n) (default_future_timeout n) (auto_approve n)
                           (invoice_mgr n) (n_router_inbox n ++ [(peer_id, msg)]) (n_stats n))
  else lift (Err "send failed because receiver is gone").

(** [mpsc::channel(1)], [add_future] and [future_timeout] *)
Definition future_timeout (hash : HashValue) (timeout : Z) : N unit :=
  if bool_decide (timeout = 0%Z) then mret tt else modifyS (fun n => set_timers (n_timers n ++ [(hash, timeout)]) n).
Definition new_message_future (hash_value : HashValue) : N nat :=
  n ← getS;
  let '(i, p) := channel (n_processor n) in
  _ ← modifyS (set_processor (add_future hash_value i p));
  _ ← future_timeout hash_value (default_future_timeout n);
  mret i.
(** The delay of a timer has passed. *)
Definition timer_fires (hash : HashValue) : N unit := modifyS (fun n => set_processor (remove_future hash (n_processor n)) n).

Definition send_channel_request world (peer_id : AccountAddress) (open_channel_message : ChannelTransactionRequest) (msg_type : MessageType) : N nat :=
  let hash_value := rq_request_id open_channel_message in
  b ← lift (expect_ok (into_proto_bytes open_channel_message));
  _ ← net_send world peer_id (add_message_type b msg_type);
  new_message_future hash_value.
Definition send_multi_hop_channel_request world (peer_id : AccountAddress) (open_channel_message : MultiHopChannelRequest) (msg_type : MessageType)
    : N nat :=
  let hash_value := rq_request_id (mh_request open_channel_message) in
  b ← lift (expect_ok (into_proto_bytes open_channel_message));
  _ ← net_send world peer_id (add_message_type b msg_type);
  new_message_future hash_value.

(** *** Requests of other nodes *)

(** [apply_txn] *)
Definition node_apply_txn world (peer_id : AccountAddress) (request_id : HashValue) (receiver_open_txn : ChannelTransactionResponse) : N unit :=
  b ← lift (expect_ok (into_proto_bytes receiver_open_txn));
  _ ← unwrap (net_send world peer_id (add_message_type b TChannelTransactionResponse));
  r ← attempt (on_wallet (wo_apply_txn peer_id));
  match r with
  | inl _ => mret tt
  | inr e => send_error world peer_id e request_id
  end.

(** [handle_channel_transaction_request], after the transaction is applied: a payment to this node is
    claimed, and the preimage of a payment that it relayed goes on to the node it came from. *)
Definition claim_payment world (peer_id : AccountAddress) (msg : ChannelTransactionRequest) : N unit :=
  payment ← lift (parse_htlc_payment (ct_args (rq_channel_txn msg)));
  n ← getS;
  match get_preimage (invoice_mgr n) (hash_lock payment) with
  | Some preimage =>
      request ← on_wallet (wo_receive_payment peer_id preimage);
      _ ← send_channel_request world peer_id request TChannelTransactionRequest;
      mret tt
  | None => mret tt
  end.
Definition pass_preimage world (msg : ChannelTransactionRequest) : N unit :=
  preimage ← lift (parse_htlc_preimage (ct_args (rq_channel_txn msg)));
  n ← getS;
  match get_previous_hop (invoice_mgr n) (hash_to_vec preimage) with
  | Some previous_addr =>
      request ← on_wallet (wo_receive_payment previous_addr (hash_to_vec preimage));
      _ ← send_channel_request world previous_addr request TChannelTransactionRequest;
      mret tt
  | None => mret tt
  end.
Definition handle_channel_transaction_request world (peer_id : AccountAddress) (msg : ChannelTransactionRequest) : N unit :=
  let request_id := rq_request_id msg in
  let operator := ct_operator (rq_channel_txn msg) in
  let applied receiver_open_txn :=
    _ ← node_apply_txn world peer_id request_id receiver_open_txn;
    _ ← (if is_htlc_transfer operator then claim_payment world peer_id msg else mret tt);
    if is_htlc_receive operator then pass_preimage world msg else mret tt in
  v ← attempt (on_wallet (wo_verify_txn peer_id msg));
  match v with
  | inl (Some t) => applied t
  | inl None =>
      n ← getS;
      if auto_approve n then t ← unwrap (on_wallet (wo_approve_txn peer_id request_id)); applied t
      else mret tt
  | inr e => send_error world peer_id e request_id
  end.
Definition handle_receiver_channel world (data : bytes) (peer_id : AccountAddress) : N unit :=
  msg ← lift (from_proto_bytes data);
  handle_channel_transaction_request world peer_id msg.

Definition handle_multi_hop_receiver_channel world (data : bytes) (peer_id : AccountAddress) : N unit :=
  msg ← lift (from_proto_bytes data);
  _ ← handle_channel_transaction_request world peer_id (mh_request msg);
  match mh_hops msg with
  | [] => mret tt
  | hop :: hops =>
      let txn := rq_channel_txn (mh_request msg) in
      if is_htlc_transfer (ct_operator txn) then
        payment ← lift (parse_htlc_payment (ct_args txn));
        request ← on_wallet (wo_send_payment (hop_remote_addr hop) (hop_amount hop) (hash_to_vec (hash_lock payment)) (hp_timeout payment));
        _ ← send_multi_hop_channel_request world (hop_remote_addr hop) (mkMultiHop request hops) TMultiHopChannelTransactionRequest;
        modifyS (fun n => set_invoices (add_previous_hop (hash_lock payment) peer_id (invoice_mgr n)) n)
      else mret tt
  end.

(** *** Responses and errors *)

Definition handle_sender_channel world (data : bytes) (peer_id : AccountAddress) : N unit :=
  msg ← lift (from_proto_bytes data);
  _ ← on_wallet (wo_verify_txn_response peer_id msg);
  _ ← on_wallet (wo_apply_txn peer_id);
  channel_seq_number ← on_wallet (wo_channel_sequence_number peer_id);
  _ ← modifyS (fun n => set_processor (send_response (rs_request_id msg) channel_seq_number (n_processor n)) n);
  n ← getS;
  router_stats world (wo_account (n_wallet n), peer_id) (rs_request_id msg, 0%Z, Payed).
Definition handle_error_message (data : bytes) : N unit := fun n =>
  match from_proto_bytes data with
  | Ok msg =>
      match expect_ok (future_error msg (n_processor n)) with
      | Ok p => (Ok tt, set_processor p n)
      | Err e => (Err e, n)
      | Panic e => (Panic e, n)
      end
  | Err _ => (Ok tt, n)
  | Panic e => (Panic e, n)
  end.

Definition handle_network_msg world (peer_id : AccountAddress) (data : bytes) : N unit :=
  msg_type ← lift (parse_message_type data);
  let body := drop 2 data in
  match msg_type with
  | TOpenChannelNodeNegotiateMessage => mret tt
  | TChannelTransactionRequest => unwrap (handle_receiver_channel world body peer_id)
  | TChannelTransactionResponse => unwrap (handle_sender_channel world body peer_id)
  | TErrorMessage => handle_error_message body
  | TMultiHopChannelTransactionRequest => unwrap (handle_multi_hop_receiver_channel world body peer_id)
  | TRouterMessage => unwrap (handle_router_msg world peer_id body)
  end.

(** *** Commands *)

(** [Result<T>] as the value that a command sends to its responder *)
Definition answer_of {T} (m : N T) : N (res T) :=
  r ← attempt m; mret match r with inl a => Ok a | inr e => Err e end.

Definition off_chain_pay world (receiver_address : AccountAddress) (amount : Z) : N (res nat) :=
  r ← attempt (on_wallet (wo_transfer receiver_address amount));
  match r with
  | inl off_chain_pay_tx =>
      n ← getS;
      _ ← router_stats world (wo_account (n_wallet n), receiver_address) (rq_request_id off_chain_pay_tx, amount, Paying);
      answer_of (send_channel_request world receiver_address off_chain_pay_tx TChannelTransactionRequest)
  | inr e => mret (Err e)
  end.

Definition check_balance (path : list BalanceQueryResponse) (amount : Z) : bool :=
  forallb (fun response => negb (bool_decide (local_balance response < amount)%Z)) path.
Definition balance_response_to_address (response_list : list BalanceQueryResponse) : res (list AccountAddress) :=
  match response_list with
  | [] => Err "should have at least 1 hops"
  | r :: _ => Ok (local_addr r :: (remote_addr <$> response_list))
  end.
Definition get_multi_hop_request (vertexes : list AccountAddress) (amount : Z) (hash_lock : bytes) (timeout : Z)
    : N (MultiHopChannelRequest * AccountAddress) :=
  n ← getS;
  match vertexes with
  | first_addr :: receiver_address :: vertexes =>
      if bool_decide (wo_account (n_wallet n) = first_addr) then
        let hops := (fun v => mkNextHop v amount) <$> vertexes in
        request ← on_wallet (wo_send_payment receiver_address amount hash_lock timeout);
        mret (mkMultiHop request hops, receiver_address)
      else lift (Err "can't gen multi hop request")
  | _ => lift (Err "should have at least 2 hops")
  end.
Definition off_chain_pay_htlc world (receiver_address : AccountAddress) (amount : Z) (hash_lock : bytes) (timeout : Z) : N (res nat) :=
  n ← getS;
  let account := wo_account (n_wallet n) in
  _ ← router_stats world (account, receiver_address) (from_sha3_256 hash_lock, amount, Paying);
  match find_path_by_addr world account receiver_address with
  | Ok v =>
      if check_balance v amount then
        v ← lift (balance_response_to_address v);
        r ← attempt (get_multi_hop_request v amount hash_lock timeout);
        match r with
        | inl (off_chain_pay_tx, next_addr) =>
            answer_of (send_multi_hop_channel_request world next_addr off_chain_pay_tx TMultiHopChannelTransactionRequest)
        | inr e => mret (Err e)
        end
      else mret (Err "path balance is not enough")
  | _ => mret (Err "could not find path")
  end.

(** [NodeInner::execute_script]; a transaction that is forced to the chain completes its future itself. *)
Definition node_execute_script world (receiver_address : AccountAddress) (package_name script_name : string) (force_execute : bool)
    (transaction_args : list TransactionArgument) : N (res nat) :=
  r ← attempt (on_wallet (wo_execute_script receiver_address package_name script_name transaction_args));
  match r with
  | inl script_transaction =>
      if negb force_execute then answer_of (send_channel_request world receiver_address script_transaction TChannelTransactionRequest)
      else
        g ← attempt (on_wallet (wo_force_travel_txn receiver_address));
        match g with
        | inl gas =>
            n ← getS;
            let '(i, p) := channel (n_processor n) in
            _ ← modifyS (set_processor (mkProcessor (tx_map p) (<[i := inl gas]> (delivered p)) (gone p) (next_channel p)));
            mret (Ok i)
        | inr e => mret (Err e)
        end
  | inr e => mret (Err e)
  end.

(** [open_channel], [deposit] and [withdraw] unwrap what the wallet returns. *)
Definition propose world (receiver : AccountAddress) (m : stM W ChannelTransactionRequest) : N (res nat) :=
  channel_txn ← unwrap (on_wallet m);
  answer_of (send_channel_request world receiver channel_txn TChannelTransactionRequest).
Definition open_channel world (receiver : AccountAddress) (sender_amount receiver_amount : Z) : N (res nat) :=
  propose world receiver (wo_open receiver sender_amount receiver_amount).
Definition node_deposit world (receiver : AccountAddress) (sender_amount : Z) : N (res nat) :=
  propose world receiver (wo_deposit receiver sender_amount).
Definition node_withdraw world (receiver : AccountAddress) (sender_amount : Z) : N (res nat) :=
  propose world receiver (wo_withdraw receiver sender_amount).

Definition channel_transaction_proposal world (participant_address : AccountAddress) (transaction_hash : HashValue) (approve : bool) : N (res nat) :=
  _ ← (if approve then
         r ← attempt (on_wallet (wo_approve_txn participant_address transaction_hash));
         match r with
         | inl t => node_apply_txn world participant_address transaction_hash t
         | inr e => send_error world participant_address e transaction_hash
         end
       else
         r ← attempt (on_wallet (wo_reject_txn participant_address transaction_hash));
         match r with
         | inl _ =>
             b ← lift (expect_ok (into_proto_bytes (mkErrorMessage transaction_hash (mkSgError REJECT "transaction reject by participant"))));
             unwrap (net_send world participant_address (add_message_type b TErrorMessage))
         | inr e => send_error world participant_address e transaction_hash
         end);
  i ← new_message_future transaction_hash;
  mret (Ok i).

Definition set_timeout (timeout : Z) : N unit :=
  modifyS (fun n => mkNode (n_wallet n) (n_outbox n) (n_processor n) (n_timers n) timeout (auto_approve n) (invoice_mgr n)
                      (n_router_inbox n) (n_stats n)).

Inductive NodeMessage :=
| NExecute (receiver_address : AccountAddress) (package_name script_name : string) (force_execute : bool) (transaction_args : list TransactionArgument)
| NInstall (channel_script_package : ChannelScriptPackage)
| NDeposit (receiver : AccountAddress) (sender_amount : Z)
| NOpenChannel (receiver : AccountAddress) (sender_amount receiver_amount : Z)
| NWithdraw (receiver : AccountAddress) (sender_amount : Z)
| NChannelPay (receiver_address : AccountAddress) (amount : Z)
| NChannelPayHTLC (receiver_address : AccountAddress) (amount : Z) (hash_lock : bytes) (timeout : Z)
| NChannelBalance (participant : AccountAddress)
| NDeployModule (module_code : bytes)
| NChainBalance
| NTxnBySn (participant_address : AccountAddress) (channel_seq_number : Z)
| NSetTimeout (default_future_timeout : Z)
| NChannelTransactionProposal (participant_address : AccountAddress) (transaction_hash : HashValue) (approve : bool).

(** What goes to the responder. *)
Inductive Answer :=
| AFuture (r : res nat)
| AUnit (r : res unit)
| AAmount (r : res Z)
| AModule (r : res TransactionWithProof)
| AResource (r : res bytes)
| ATxn (r : res SignedChannelTransaction)
| ANone.

Definition handle_node_msg world (msg : NodeMessage) : N Answer :=
  match msg with
  | NInstall p => r ← answer_of (on_wallet (wo_install_package p)); mret (AUnit r)
  | NExecute receiver p s force args => r ← node_execute_script world receiver p s force args; mret (AFuture r)
  | NDeposit receiver a => r ← node_deposit world receiver a; mret (AFuture r)
  | NOpenChannel receiver a b => r ← open_channel world receiver a b; mret (AFuture r)
  | NWithdraw receiver a => r ← node_withdraw world receiver a; mret (AFuture r)
  | NChannelPay receiver a => r ← unwrap (off_chain_pay world receiver a); mret (AFuture r)
  | NChannelPayHTLC receiver a h t => r ← unwrap (off_chain_pay_htlc world receiver a h t); mret (AFuture r)
  | NChannelBalance p => r ← answer_of (on_wallet (wo_channel_balance p)); mret (AAmount r)
  | NDeployModule code => r ← answer_of (on_wallet (wo_deploy_module code)); mret (AModule r)
  | NChainBalance => r ← answer_of (on_wallet wo_account_resource); mret (AResource r)
  | NTxnBySn p n => r ← answer_of (on_wallet (wo_get_txn p n)); mret (ATxn r)
  | NSetTimeout t => _ ← set_timeout t; mret ANone
  | NChannelTransactionProposal p h b => r ← channel_transaction_proposal world p h b; mret (AFuture r)
  end.

(** [NodeInner::init]: [answers] is what the requests that it repeats are answered, in the order of the
    iteration; the first failure ends it. *)
Fixpoint init_channels world (answers : AccountAddress -> res Z) (l : list AccountAddress) : N unit :=
  match l with
  | [] => mret tt
  | participant :: l' =>
      r ← attempt (on_wallet (wo_get_pending_txn_request participant));
      _ ← match r with
          | inl (Some tx_request) =>
              if negb (net_is_connected world participant) then mret tt
              else
                f ← attempt (send_channel_request world participant tx_request TChannelTransactionRequest);
                match f with
                | inl _ => _ ← lift (answers participant); mret tt
                | inr _ => mret tt
                end
          | _ => mret tt
          end;
      init_channels world answers l'
  end.
Definition init world {HO : HashOrder} (answers : AccountAddress -> res Z) : N unit :=
  all_channels ← on_wallet wo_get_all_channels;
  init_channels world answers (hs_iter all_channels).
(** [start_server] panics when [init] fails. *)
Definition start_server world {HO : HashOrder} (answers : AccountAddress -> res Z) : N unit := unwrap (init world answers).
Definition node_shutdown : N unit := _ ← attempt (on_wallet wo_stop); mret tt.

(** *** [Node] *)

Definition default_max_deposit : Z := 10000000.
Definition open_channel_async world (receiver : AccountAddress) (sender_amount receiver_amount : Z) : N (res nat) :=
  _ ← lift (ensure (negb (bool_decide (receiver_amount > default_max_deposit)%Z)) "deposit coin amount too big");
  _ ← lift (ensure (negb (bool_decide (receiver_amount > sender_amount)%Z)) "sender amount should bigger than receiver amount.");
  _ ← lift (ensure (net_is_connected world receiver) "could not connect to receiver");
  open_channel world receiver sender_amount receiver_amount.
Definition deposit_async world (receiver : AccountAddress) (sender_amount : Z) : N (res nat) :=
  _ ← lift (ensure (net_is_connected world receiver) "could not connect to receiver");
  node_deposit world receiver sender_amount.
Definition withdraw_async world (receiver : AccountAddress) (sender_amount : Z) : N (res nat) :=
  _ ← lift (ensure (net_is_connected world receiver) "could not connect to receiver");
  node_withdraw world receiver sender_amount.
Definition off_chain_pay_async world (receiver_address : AccountAddress) (amount : Z) : N (res nat) :=
  _ ← lift (ensure (net_is_connected world receiver_address) "could not connect to receiver");
  unwrap (off_chain_pay world receiver_address amount).
Definition off_chain_pay_htlc_async world (receiver_address : AccountAddress) (amount : Z) (hash_lock : bytes) (timeout : Z) : N (res nat) :=
  _ ← lift (ensure (net_is_connected world receiver_address) "could not connect to receiver");
  unwrap (off_chain_pay_htlc world receiver_address amount hash_lock timeout).
Definition off_chain_pay_htlc_async_string world (encoded_invoice : string) : N (res nat) :=
  invoice ← lift (Invoice_from_string encoded_invoice);
  off_chain_pay_htlc_async world (inv_receiver invoice) (inv_amount invoice) (r_hash invoice) 20000.
Definition get_channel_transaction_proposal_async (participant_address : AccountAddress) : N (option ChannelTransaction) :=
  proposal ← on_wallet (wo_get_waiting_proposal participant_address);
  mret (channel_txn <$> proposal).
Definition add_invoice world (amount : Z) : N Invoice :=
  n ← getS;
  let '(i, m) := new_invoice (unix_ts world) amount (wo_account (n_wallet n)) (invoice_mgr n) in
  _ ← modifyS (set_invoices m);
  mret i.
End node.
#[global] Arguments Node {L} W.

(** ** Networks of nodes *)

Section network.
Context {L : Libra} {K : Chain} {CC : ChannelTxnCodec} {NP : NodeProst} {HX : Hex} {RN : Rng}.
Context {W : Type} {WO : WalletOps W}.
Implicit Types (world : World) (a b : AccountAddress) (n : Node W).

(** A message between two nodes: its sender, its receiver and its bytes. *)
Notation Msg := (AccountAddress * AccountAddress * bytes)%type.
Notation Net := (gmap AccountAddress (Node W)).

(** A node handles a message, and its outbox goes to the network.  The outcome of the handler is that of
    a task of its own. *)
Definition posted a n : list Msg := (fun m => (a, m.1, m.2)) <$> n_outbox n.
Definition deliver_msg world (m : Msg) (net : Net) : Net * list Msg :=
  let '(from, to, data) := m in
  match net !! to with
  | None => (net, [])
  | Some n => let n' := (handle_network_msg world from data n).2 in (<[to := set_outbox [] n']> net, posted to n')
  end.

(** Deliver the messages in the order in which they were sent, as long as there are any and at most [fuel]
    of them: what was delivered, the nodes and what is still in flight. *)
Fixpoint run_net world (fuel : nat) (net : Net) (queue : list Msg) : list Msg * Net * list Msg :=
  match fuel, queue with
  | S fuel, m :: queue =>
      let '(net, new) := deliver_msg world m net in
      let '(trace, net, queue) := run_net world fuel net (queue ++ new) in
      (m :: trace, net, queue)
  | _, _ => ([], net, queue)
  end.

Definition request_bytes (r : ChannelTransactionRequest) : bytes := add_message_type (pb_to_vec (into r)) TChannelTransactionRequest.
Definition response_bytes (r : ChannelTransactionResponse) : bytes := add_message_type (pb_to_vec (into r)) TChannelTransactionResponse.
Definition multi_hop_bytes (r : MultiHopChannelRequest) : bytes := add_message_type (pb_to_vec (into r)) TMultiHopChannelTransactionRequest.

(** The payment and its claim, as the wallet proposes them. *)
Definition pays (r : ChannelTransactionRequest) b (amount : Z) (lock : HashValue) (timeout : Z) : Prop :=
  ct_operator (rq_channel_txn r) = script_action "send_payment" /\
  ct_args (rq_channel_txn r) =
    [TransactionArgument_Address b; TransactionArgument_U64 amount; TransactionArgument_ByteArray (hash_to_vec lock); TransactionArgument_U64 timeout] /\
  txn_wf (rq_channel_txn r).
Definition claims (r : ChannelTransactionRequest) (preimage : HashValue) : Prop :=
  ct_operator (rq_channel_txn r) = script_action "receive_payment" /\
  ct_args (rq_channel_txn r) = [TransactionArgument_ByteArray (hash_to_vec preimage)] /\
  txn_wf (rq_channel_txn r).

(** Wallets that carry out what they are asked, as long as [I] holds of them. *)
Class Cooperative (I : W -> Prop) : Prop := {
  coop_send w b amount lock timeout : I w -> exists r w', wo_send_payment b amount (hash_to_vec lock) timeout w = (Ok r, w') /\
    I w' /\ wo_account w' = wo_account w /\ pays r b amount lock timeout;
  coop_receive w b preimage : I w -> exists r w', wo_receive_payment b (hash_to_vec preimage) w = (Ok r, w') /\
    I w' /\ wo_account w' = wo_account w /\ claims r preimage;
  coop_verify w b r : I w -> exists t w', wo_verify_txn b r w = (Ok (Some t), w') /\
    I w' /\ wo_account w' = wo_account w /\ rs_proposal t = rq_proposal r;
  coop_verify_response w b t : I w -> exists w', wo_verify_txn_response b t w = (Ok tt, w') /\ I w' /\ wo_account w' = wo_account w;
  coop_apply w b : I w -> exists g w', wo_apply_txn b w = (Ok g, w') /\ I w' /\ wo_account w' = wo_account w;
  coop_sequence w b : I w -> exists s w', wo_channel_sequence_number b w = (Ok s, w') /\ I w' /\ wo_account w' = wo_account w
}.

(** What a message of a payment says. *)
Inductive action :=
| Pays (from to : AccountAddress) (amount : Z) (lock : HashValue) (timeout : Z)
| Claims (from to : AccountAddress) (preimage : HashValue)
| Answers (from to : AccountAddress).
Definition says (m : Msg) (e : action) : Prop :=
  match e with
  | Pays a b amount lock timeout => exists r hops, m = (a, b, multi_hop_bytes (mkMultiHop r hops)) /\ pays r b amount lock timeout
  | Claims a b preimage => exists r, m = (a, b, request_bytes r) /\ claims r preimage
  | Answers a b => exists r, m = (a, b, response_bytes r)
  end.

(** Along a path, each node pays the next, which answers; back along it, each claims from the one
    before. *)
Fixpoint paying a (path : list AccountAddress) (amount : Z) (lock : HashValue) (timeout : Z) : list action :=
  match path with
  | [] => []
  | b :: path => Pays a b amount lock timeout :: Answers b a :: paying b path amount lock timeout
  end.
Fixpoint claiming a (path : list AccountAddress) (preimage : HashValue) : list action :=
  match path with
  | [] => []
  | b :: path => claiming b path preimage ++ [Claims b a preimage; Answers a b]
  end.
End network.

(** ** The wallet keeps its promises

    What the wallet of the development proposes on a channel without a pending transaction is what was
    asked, on the wire as in memory. *)

Section wallet_contract.
Context {L : Libra} {B : SchemaBatches} {A : Accumulators} {C : StoreCodecs} {K : Chain} {CC : ChannelTxnCodec} {WC : WalletChain}.
Context {S : Type} {SD : SchemaDB S}.
Implicit Types w : Wallet (S := S).

Lemma signed_proposal stm p id s p' : handle_proposal_signature stm p id s = Ok p' -> pt_proposal p' = pt_proposal p.
Proof.
  unfold handle_proposal_signature. intros (_ & _ & H)%bind_Ok_iff. destruct (get_signature p (sigs_address s)); [by injection H as <-|].
  apply bind_Ok_iff in H as (_ & _ & H). destruct (pt_lifecycle p); try done; injection H as <-;
    unfold try_reach_consensus, set_lifecycle, add_signature; simpl; by repeat case_match.
Qed.

Lemma handle_execute_proposes env op args (c : Channel (S := S)) x c' : pending_txn c = None -> handle_execute env op args c = (Ok x, c') ->
  ct_operator (channel_txn x.1.1) = op /\ ct_args (channel_txn x.1.1) = args /\ txn_wf (channel_txn x.1.1).
Proof.
  intros Hn. unfold handle_execute. intros (c1 & s1 & [= <- <-] & H)%stM_bind_Ok. rewrite Hn in H.
  apply stM_lift_Ok in H as (prop & Hprop & H). apply stM_lift_Ok in H as (o & Ho & H). apply stM_lift_Ok in H as (p & Hp & H).
  apply stM_lift_Ok in H as (sg & _ & H). apply stM_lift_Ok in H as (p' & Hp' & H). apply stM_bind_Ok in H as (u & s2 & _ & [= <- _]).
  apply signed_proposal in Hp'. simpl. rewrite Hp'.
  assert (pt_proposal p = prop) as ->.
  { unfold handle_new_proposal in Ho. apply bind_Ok_iff in Ho as (n & _ & Ho). case_bool_decide; [done|].
    apply bind_Ok_iff in Ho as (_ & _ & Ho). apply bind_Ok_iff in Ho as ([[? ?] out] & _ & [= <-]). by injection Hp as <-. }
  clear Ho Hp Hp'. unfold generate_proposal in Hprop. apply bind_Ok_iff in Hprop as (sv & _ & Hprop).
  destruct (sv_get sv (account_path (account_address (stm c)))) as [r0 sv']. apply bind_Ok_iff in Hprop as (b0 & _ & Hprop).
  apply bind_Ok_iff in Hprop as (b & _ & Hprop). apply bind_Ok_iff in Hprop as (b1 & _ & Hprop). apply bind_Ok_iff in Hprop as (b2 & _ & Hprop).
  apply bind_Ok_iff in Hprop as (b3 & _ & Hprop). apply bind_Ok_iff in Hprop as (ex & Hex & [= <-]). split_and!; [done..|].
  unfold txn_wf. simpl. unfold txn_expiration in Hex. case_bool_decide; [|done]. injection Hex as <-. unfold from_secs. by rewrite Z_mod_mult.
Qed.

Lemma execute_async_proposes env interest p op args w r w' c : is_open op = false ->
  w_channels w !! channel_with w p = Some c -> pending_txn c = None -> execute_async env interest p op args w = (Ok r, w') ->
  ct_operator (rq_channel_txn r) = op /\ ct_args (rq_channel_txn r) = args /\ txn_wf (rq_channel_txn r).
Proof.
  intros Hop Hc Hn. unfold execute_async. intros (w1 & s1 & [= <- <-] & H)%stM_bind_Ok.
  destruct (generate_channel_address p (w_account w)) as [a ps] eqn:Ea. rewrite Hop in H.
  assert (a = channel_with w p) as -> by (unfold channel_with; by rewrite Ea).
  apply stM_bind_Ok in H as (c1 & s1 & H1 & H). unfold to_wallet in H1. destruct (w_running w); [|done].
  unfold get_channel, mbind, stM_bind, getS, lift in H1. rewrite Hc in H1. injection H1 as <- <-.
  apply stM_bind_Ok in H as ([[prop sg] out] & s2 & H2 & [= <- _]). unfold ask in H2. rewrite Hc in H2.
  destruct (handle_execute env op args c) as [r0 c'] eqn:He. injection H2 as -> _. by apply (handle_execute_proposes _ _ _ _ _ _ Hn He).
Qed.

Lemma wallet_send_pays env interest p amount lock timeout w r w' c : w_channels w !! channel_with w p = Some c -> pending_txn c = None ->
  send_payment env interest p amount (hash_to_vec lock) timeout w = (Ok r, w') -> pays r p amount lock timeout.
Proof. intros Hc Hn H. by eapply execute_async_proposes in H. Qed.
Lemma wallet_receive_claims env interest p preimage w r w' c : w_channels w !! channel_with w p = Some c -> pending_txn c = None ->
  receive_payment env interest p (hash_to_vec preimage) w = (Ok r, w') -> claims r preimage.
Proof. intros Hc Hn H. by eapply execute_async_proposes in H. Qed.

Lemma wallet_verify_answers env interest p r w t w' : verify_txn env interest p r w = (Ok (Some t), w') -> rs_proposal t = rq_proposal r.
Proof.
  unfold verify_txn. intros (w1 & s1 & [= <- <-] & H)%stM_bind_Ok. apply stM_lift_Ok in H as (_ & _ & H).
  destruct (generate_channel_address (ct_proposer (rq_channel_txn r)) (w_account w)) as [a ps].
  apply stM_lift_Ok in H as (_ & _ & H). apply stM_bind_Ok in H as (c & s1 & _ & H). apply stM_bind_Ok in H as ([g|] & s2 & _ & H); [|done].
  by injection H as <- _.
Qed.
End wallet_contract.

(** ** Messages survive the wire *)

Section wire.
Context {L : Libra} {LL : LibraLaws}.

Lemma parse_add_message_type data t : parse_message_type (add_message_type data t) = Ok t.
Proof.
  unfold parse_message_type. rewrite slice_ok by (unfold add_message_type; rewrite length_app, length_be_bytes; lia).
  rstep. rewrite drop_0, Nat.sub_0_r. unfold add_message_type. rewrite take_app_length' by (by rewrite length_be_bytes).
  by rewrite be_read_bytes; destruct t.
Qed.
Lemma drop_add_message_type data t : drop 2 (add_message_type data t) = data.
Proof. unfold add_message_type. by rewrite drop_app_length' by (by rewrite length_be_bytes). Qed.

Lemma from_into_proto_bytes {A M} `{Message A M} `{P : Prost M} {PL : ProstLaws M} {wf} `{!RoundTrip A wf} (x : A) :
  wf x -> from_proto_bytes (pb_to_vec (into x)) = Ok x.
Proof. intros Hx. unfold from_proto_bytes. rewrite pb_decode_to_vec. rstep. by apply try_from_into. Qed.
End wire.

(** ** A payment along a path *)

Section payment.
Context {L : Libra} {LL : LibraLaws} {K : Chain} {CC : ChannelTxnCodec} {NP : NodeProst} {NPL : NodeProstLaws} {HX : Hex} {RN : Rng}.
Context {W : Type} {WO : WalletOps W} (I : W -> Prop) {CO : Cooperative I}.
Context (world : World) (Hnet : network_open world = true) (Hstats : stats_open world = true).
Implicit Types (a b : AccountAddress) (n : Node W).

(** *** Evaluation of handlers *)

Lemma on_wallet_Ok {T U} (m : stM W T) (f : T -> stM (Node W) U) n x w : m (n_wallet n) = (Ok x, w) ->
  (on_wallet m ≫= f) n = f x (set_wallet w n).
Proof. intros E. unfold mbind, stM_bind, on_wallet. by rewrite E. Qed.
Lemma attempt_wallet_Ok {T U} (m : stM W T) (f : T + string -> stM (Node W) U) n x w : m (n_wallet n) = (Ok x, w) ->
  (attempt (on_wallet m) ≫= f) n = f (inl x) (set_wallet w n).
Proof. intros E. unfold mbind, stM_bind, attempt, on_wallet. by rewrite E. Qed.
Lemma attempt_wallet_Err {T U} (m : stM W T) (f : T + string -> stM (Node W) U) n e w : m (n_wallet n) = (Err e, w) ->
  (attempt (on_wallet m) ≫= f) n = f (inr e) (set_wallet w n).
Proof. intros E. unfold mbind, stM_bind, attempt, on_wallet. by rewrite E. Qed.
Definition post b (data : bytes) n : Node W := set_outbox (n_outbox n ++ [(b, data)]) n.
Lemma net_send_Ok {U} b data (f : unit -> stM (Node W) U) n : (net_send world b data ≫= f) n = f tt (post b data n).
Proof. unfold net_send. by rewrite Hnet. Qed.
Lemma unwrap_send_Ok {U} b data (f : unit -> stM (Node W) U) n : (unwrap (net_send world b data) ≫= f) n = f tt (post b data n).
Proof. unfold net_send. by rewrite Hnet. Qed.

Lemma get_eval {U} (f : Node W -> stM (Node W) U) n : (getS ≫= f) n = f n n.
Proof. done. Qed.
Lemma lift_eval {T U} (x : T) (f : T -> stM (Node W) U) n : (lift (Ok x) ≫= f) n = f x n.
Proof. done. Qed.

(** A future is registered for the request that is sent. *)
Definition with_future (h : HashValue) n : Node W :=
  let n := set_processor (add_future h (next_channel (n_processor n)) (channel (n_processor n)).2) n in
  if bool_decide (default_future_timeout n = 0%Z) then n else set_timers (n_timers n ++ [(h, default_future_timeout n)]) n.
Lemma new_message_future_eq h n : new_message_future h n = (Ok (next_channel (n_processor n)), with_future h n).
Proof. unfold new_message_future, with_future, future_timeout, mbind, stM_bind, getS, modifyS. simpl. by case_bool_decide. Qed.

Lemma send_request_eq b r t n :
  send_channel_request world b r t n =
    (Ok (next_channel (n_processor n)), with_future (rq_request_id r) (post b (add_message_type (pb_to_vec (into r)) t) n)).
Proof. unfold send_channel_request, into_proto_bytes. cbn [expect_ok]. rewrite lift_eval, net_send_Ok. by rewrite new_message_future_eq. Qed.
Lemma send_multi_hop_eq b r t n :
  send_multi_hop_channel_request world b r t n =
    (Ok (next_channel (n_processor n)), with_future (rq_request_id (mh_request r)) (post b (add_message_type (pb_to_vec (into r)) t) n)).
Proof. unfold send_multi_hop_channel_request, into_proto_bytes. cbn [expect_ok]. rewrite lift_eval, net_send_Ok. by rewrite new_message_future_eq. Qed.

Lemma with_future_wallet h n : n_wallet (with_future h n) = n_wallet n.
Proof. unfold with_future. simpl. by case_bool_decide. Qed.
Lemma with_future_outbox h n : n_outbox (with_future h n) = n_outbox n.
Proof. unfold with_future. simpl. by case_bool_decide. Qed.
Lemma with_future_invoices h n : invoice_mgr (with_future h n) = invoice_mgr n.
Proof. unfold with_future. simpl. by case_bool_decide. Qed.
Lemma with_future_processor h n :
  n_processor (with_future h n) = add_future h (next_channel (n_processor n)) (channel (n_processor n)).2.
Proof. unfold with_future. simpl. by case_bool_decide. Qed.

(** *** The operations of a payment *)

Lemma pays_ops r b amount lock timeout : pays r b amount lock timeout ->
  is_htlc_transfer (ct_operator (rq_channel_txn r)) = true /\ is_htlc_receive (ct_operator (rq_channel_txn r)) = false /\
  parse_htlc_payment (ct_args (rq_channel_txn r)) = Ok (mkHtlcPayment lock amount timeout).
Proof.
  intros (E1 & E2 & _). rewrite E1, E2. unfold is_htlc_transfer, is_htlc_receive, is_htlc, script_action, parse_htlc_payment.
  rewrite !bool_decide_eq_true_2 by done. rewrite !arg_U64_new, arg_ByteArray_new. simpl. by rewrite hash_roundtrip.
Qed.
Lemma claims_ops r preimage : claims r preimage ->
  is_htlc_transfer (ct_operator (rq_channel_txn r)) = false /\ is_htlc_receive (ct_operator (rq_channel_txn r)) = true /\
  parse_htlc_preimage (ct_args (rq_channel_txn r)) = Ok preimage.
Proof.
  intros (E1 & E2 & _). rewrite E1, E2. unfold is_htlc_transfer, is_htlc_receive, is_htlc, script_action, parse_htlc_preimage.
  rewrite !bool_decide_eq_true_2 by done. rewrite arg_ByteArray_new. simpl. by rewrite hash_roundtrip.
Qed.

Definition ok_node a n : Prop := I (n_wallet n) /\ wo_account (n_wallet n) = a /\ n_outbox n = [].

(** A request is verified, applied and answered. *)
Lemma request_answered a n b r : ok_node a n -> exists t w, rs_proposal t = rq_proposal r /\ I w /\ wo_account w = a /\
  handle_channel_transaction_request world b r n =
    (_ ← (if is_htlc_transfer (ct_operator (rq_channel_txn r)) then claim_payment world b r else mret tt);
     if is_htlc_receive (ct_operator (rq_channel_txn r)) then pass_preimage world r else mret tt)
      (set_wallet w (post b (response_bytes t) n)).
Proof.
  intros (HI & Ha & Ho). destruct (coop_verify (n_wallet n) b r HI) as (t & w1 & E1 & HI1 & A1 & Ht).
  destruct (coop_apply w1 b HI1) as (g & w2 & E2 & HI2 & A2). exists t, w2. split_and!; [done..|congruence|].
  unfold handle_channel_transaction_request. rewrite (attempt_wallet_Ok _ _ _ _ _ E1).
  unfold node_apply_txn, into_proto_bytes. unfold mbind at 1, stM_bind at 1. simpl. rewrite lift_eval, unwrap_send_Ok.
  rewrite (attempt_wallet_Ok _ _ _ g w2) by done. done.
Qed.

(** The response to a request completes its future. *)
Lemma response_handled a n b t : ok_node a n -> txn_wf (rs_channel_txn t) ->
  exists n' s, handle_network_msg world b (response_bytes t) n = (Ok tt, n') /\ ok_node a n' /\
    invoice_mgr n' = invoice_mgr n /\ n_processor n' = send_response (rs_request_id t) s (n_processor n).
Proof.
  intros (HI & Ha & Ho) Hwf. destruct (coop_verify_response (n_wallet n) b t HI) as (w1 & E1 & HI1 & A1).
  destruct (coop_apply w1 b HI1) as (g & w2 & E2 & HI2 & A2). destruct (coop_sequence w2 b HI2) as (s & w3 & E3 & HI3 & A3).
  unfold handle_network_msg, response_bytes. rewrite parse_add_message_type, lift_eval, drop_add_message_type.
  unfold unwrap, handle_sender_channel. rewrite from_into_proto_bytes, lift_eval by done.
  rewrite (on_wallet_Ok _ _ _ _ _ E1), (on_wallet_Ok _ _ _ g w2), (on_wallet_Ok _ _ _ s w3) by done.
  unfold router_stats, mbind, stM_bind, modifyS, getS. rewrite Hstats. do 2 eexists. split; [reflexivity|].
  split; [|done]. split_and!; simpl; [done|congruence|done].
Qed.

(** The receiver of a payment answers and claims it. *)
Lemma receiver_claims a n b r amount lock timeout preimage : ok_node a n -> pays r a amount lock timeout ->
  get_preimage (invoice_mgr n) lock = Some (hash_to_vec preimage) ->
  exists n' t r', handle_network_msg world b (multi_hop_bytes (mkMultiHop r [])) n = (Ok tt, n') /\
    n_outbox n' = [(b, response_bytes t); (b, request_bytes r')] /\ ok_node a (set_outbox [] n') /\
    rs_proposal t = rq_proposal r /\ claims r' preimage.
Proof.
  intros Hok Hp Hpre. destruct (pays_ops r a amount lock timeout Hp) as (O1 & O2 & O3).
  destruct (request_answered a n b r Hok) as (t & w & Ht & HI & Ha & E).
  destruct (coop_receive w b preimage HI) as (r' & w' & Er & HI' & Ha' & Hc).
  unfold handle_network_msg, multi_hop_bytes. rewrite parse_add_message_type, lift_eval, drop_add_message_type.
  unfold unwrap, handle_multi_hop_receiver_channel. rewrite from_into_proto_bytes, lift_eval by apply Hp.
  cbn [mh_request mh_hops]. unfold mbind at 1, stM_bind at 1. rewrite E, O1, O2. unfold claim_payment. rewrite O3.
  unfold mbind at 1, stM_bind at 1. rewrite lift_eval, get_eval. cbn [hash_lock invoice_mgr set_wallet post set_outbox].
  rewrite Hpre, (on_wallet_Ok _ _ _ r' w') by done. unfold mbind, stM_bind. rewrite send_request_eq.
  exists (with_future (rq_request_id r') (post b (request_bytes r') (set_wallet w' (set_wallet w (post b (response_bytes t) n))))), t, r'.
  split; [done|]. destruct Hok as (_ & _ & Ho). split_and!; [|split_and!|done|done].
  - rewrite with_future_outbox. simpl. by rewrite Ho.
  - simpl. by rewrite with_future_wallet.
  - simpl. rewrite with_future_wallet. simpl. congruence.
  - done.
Qed.

(** A node on the way answers and pays the next one. *)
Lemma relay_pays a n b r amount lock timeout hop hops : ok_node a n -> pays r a amount lock timeout ->
  get_preimage (invoice_mgr n) lock = None ->
  exists n' t r', handle_network_msg world b (multi_hop_bytes (mkMultiHop r (hop :: hops))) n = (Ok tt, n') /\
    n_outbox n' = [(b, response_bytes t); (hop_remote_addr hop, multi_hop_bytes (mkMultiHop r' hops))] /\
    ok_node a (set_outbox [] n') /\ invoice_mgr n' = add_previous_hop lock b (invoice_mgr n) /\
    rs_proposal t = rq_proposal r /\ pays r' (hop_remote_addr hop) (hop_amount hop) lock timeout.
Proof.
  intros Hok Hp Hpre. destruct (pays_ops r a amount lock timeout Hp) as (O1 & O2 & O3).
  destruct (request_answered a n b r Hok) as (t & w & Ht & HI & Ha & E).
  destruct (coop_send w (hop_remote_addr hop) (hop_amount hop) lock timeout HI) as (r' & w' & Er & HI' & Ha' & Hp').
  unfold handle_network_msg, multi_hop_bytes. rewrite parse_add_message_type, lift_eval, drop_add_message_type.
  unfold unwrap, handle_multi_hop_receiver_channel. rewrite from_into_proto_bytes, lift_eval by apply Hp.
  cbn [mh_request mh_hops]. unfold mbind at 1, stM_bind at 1. rewrite E, O1, O2. unfold claim_payment. rewrite O3.
  unfold mbind at 1, stM_bind at 1. rewrite lift_eval, get_eval. cbn [hash_lock invoice_mgr set_wallet post set_outbox].
  rewrite Hpre. cbn [mret stM_ret]. rewrite lift_eval. cbn [hash_lock hp_timeout].
  rewrite (on_wallet_Ok _ _ _ r' w') by done. unfold mbind, stM_bind. rewrite send_multi_hop_eq.
  eexists _, t, r'. split; [reflexivity|]. destruct Hok as (_ & _ & Ho). split_and!; [|split_and!| |done|done].
  - simpl. rewrite with_future_outbox. simpl. by rewrite Ho.
  - simpl. by rewrite with_future_wallet.
  - simpl. rewrite with_future_wallet. simpl. congruence.
  - done.
  - simpl. by rewrite with_future_invoices.
Qed.

(** A node on the way that is claimed from answers and claims from the node before it; the payer
    answers. *)
Lemma claim_handled a n b r preimage : ok_node a n -> claims r preimage ->
  exists n' t, handle_network_msg world b (request_bytes r) n = (Ok tt, n') /\ ok_node a (set_outbox [] n') /\
    invoice_mgr n' = invoice_mgr n /\ rs_proposal t = rq_proposal r /\
    match get_previous_hop (invoice_mgr n) (hash_to_vec preimage) with
    | Some p => exists r', n_outbox n' = [(b, response_bytes t); (p, request_bytes r')] /\ claims r' preimage
    | None => n_outbox n' = [(b, response_bytes t)] /\ n_processor n' = n_processor n
    end.
Proof.
  intros Hok Hc. destruct (claims_ops r preimage Hc) as (O1 & O2 & O3).
  destruct (request_answered a n b r Hok) as (t & w & Ht & HI & Ha & E). destruct Hok as (_ & _ & Ho).
  unfold handle_network_msg, request_bytes. rewrite parse_add_message_type, lift_eval, drop_add_message_type.
  unfold unwrap, handle_receiver_channel. rewrite from_into_proto_bytes, lift_eval by apply Hc.
  rewrite E, O1, O2. unfold mbind at 1, stM_bind at 1. cbn [mret stM_ret]. unfold pass_preimage. rewrite O3, lift_eval, get_eval.
  cbn [invoice_mgr set_wallet post set_outbox].
  destruct (get_previous_hop (invoice_mgr n) (hash_to_vec preimage)) as [p|].
  - destruct (coop_receive w p preimage HI) as (r' & w' & Er & HI' & Ha' & Hc').
    rewrite (on_wallet_Ok _ _ _ r' w') by done. unfold mbind, stM_bind. rewrite send_request_eq.
    eexists _, t. split; [reflexivity|]. split_and!; [split_and!| |done|exists r'; split; [|done]].
    + simpl. by rewrite with_future_wallet.
    + simpl. rewrite with_future_wallet. simpl. congruence.
    + done.
    + by rewrite with_future_invoices.
    + rewrite with_future_outbox. simpl. by rewrite Ho.
  - eexists _, t. split; [reflexivity|]. split_and!; [by split_and!|done|done|simpl; by rewrite Ho|done].
Qed.

(** *** Runs of the network *)

Notation Msg := (AccountAddress * AccountAddress * bytes)%type.
Implicit Types (net : gmap AccountAddress (Node W)) (queue trace : list Msg).

Definition runs net queue trace net' queue' : Prop := run_net world (length trace) net queue = (trace, net', queue').

Lemma runs_trans net1 q1 tr1 net2 q2 tr2 net3 q3 :
  runs net1 q1 tr1 net2 q2 -> runs net2 q2 tr2 net3 q3 -> runs net1 q1 (tr1 ++ tr2) net3 q3.
Proof.
  unfold runs. revert net1 q1. induction tr1 as [|m tr1 IH]; intros net1 q1 H1 H2; simpl in *; [by simplify_eq|].
  destruct q1 as [|m1 q1]; [done|]. destruct (deliver_msg world m1 net1) as [net1' new].
  destruct (run_net world (length tr1) net1' (q1 ++ new)) as [[tr net] q] eqn:E. simplify_eq.
  by rewrite (IH net1' (q1 ++ new) E H2).
Qed.

(** One message. *)
Lemma runs_one net from to data n n' queue : net !! to = Some n -> handle_network_msg world from data n = (Ok tt, n') ->
  runs net ((from, to, data) :: queue) [(from, to, data)] (<[to := set_outbox [] n']> net) (queue ++ posted to n').
Proof. intros Hn Hh. unfold runs. simpl. by rewrite Hn, Hh. Qed.

(** A response that is all there is to do before [queue]. *)
Lemma runs_response net a b t n queue : net !! a = Some n -> ok_node a n -> txn_wf (rs_channel_txn t) ->
  exists n' s, runs net ((b, a, response_bytes t) :: queue) [(b, a, response_bytes t)] (<[a := n']> net) queue /\
    ok_node a n' /\ invoice_mgr n' = invoice_mgr n /\ n_processor n' = send_response (rs_request_id t) s (n_processor n).
Proof.
  intros Hn Hok Hwf. destruct (response_handled a n b t Hok Hwf) as (n' & s & Hh & Hok' & Hi & Hp).
  exists n', s. split; [|done]. pose proof (runs_one net b a _ n n' queue Hn Hh) as Hr.
  destruct Hok' as (_ & _ & Ho). unfold posted in Hr. rewrite Ho in Hr. simpl in Hr. rewrite app_nil_r in Hr.
  assert (set_outbox [] n' = n') as E by (destruct n'; simpl in *; by rewrite Ho). by rewrite E in Hr.
Qed.

(** *** The whole path *)

Context (amount timeout : Z) (preimage : HashValue).
Notation lock := (from_sha3_256 (hash_to_vec preimage)).

(** The nodes of a path: the last one keeps the preimage. *)
Definition on_path net (path : list AccountAddress) : Prop :=
  forall x, x ∈ path -> exists n, net !! x = Some n /\ ok_node x n /\
    get_preimage (invoice_mgr n) lock = if bool_decide (last path = Some x) then Some (hash_to_vec preimage) else None.

Lemma on_path_tail net b c rest : NoDup (b :: c :: rest) -> on_path net (b :: c :: rest) -> on_path net (c :: rest).
Proof. intros _ Hp x Hx. apply (Hp x). by right. Qed.
Lemma on_path_insert net path x n : x ∉ path -> on_path net path -> on_path (<[x := n]> net) path.
Proof.
  intros Hx Hp y Hy. destruct (Hp y Hy) as (m & Hm & Hrest). exists m. split; [|done].
  rewrite lookup_insert_ne; [done|]. by intros ->.
Qed.
Lemma last_not_head (b c : AccountAddress) rest : NoDup (b :: c :: rest) -> last (b :: c :: rest) <> Some b.
Proof.
  intros Hnd E. apply NoDup_cons in Hnd as [Hni _]. change (last (c :: rest) = Some b) in E. by apply Hni, last_Some_elem_of.
Qed.

Notation hops_of l := ((fun v => mkNextHop v amount) <$> l).

(** A payment arrives at [b] and is answered: [b] goes on with [data], to [c]. *)
Lemma run_payment a b c net r hops n m m' t data :
  a <> b -> net !! a = Some n -> ok_node a n -> net !! b = Some m -> pays r b amount lock timeout ->
  handle_network_msg world a (multi_hop_bytes (mkMultiHop r hops)) m = (Ok tt, m') ->
  n_outbox m' = [(a, response_bytes t); (c, data)] -> rs_proposal t = rq_proposal r ->
  exists trace n' s, runs net [(a, b, multi_hop_bytes (mkMultiHop r hops))] trace (<[a := n']> (<[b := set_outbox [] m']> net)) [(b, c, data)] /\
    Forall2 says trace [Pays a b amount lock timeout; Answers b a] /\ ok_node a n' /\ invoice_mgr n' = invoice_mgr n /\
    n_processor n' = send_response (rq_request_id r) s (n_processor n).
Proof.
  intros Hab Hn Hok Hm Hr Hh Ho Ht. pose proof (runs_one net a b _ m m' [] Hm Hh) as R1. unfold posted in R1. rewrite Ho in R1.
  destruct (runs_response (<[b := set_outbox [] m']> net) a b t n [(b, c, data)]) as (n' & s & R2 & Hok' & Hi & Hs).
  { by rewrite lookup_insert_ne. } { done. } { unfold rs_channel_txn. rewrite Ht. apply Hr. }
  eexists _, n', s. split; [exact (runs_trans _ _ _ _ _ _ _ _ R1 R2)|]. split_and!; [|done..|].
  - repeat constructor; simpl; eauto.
  - rewrite Hs. unfold rs_request_id, rs_channel_txn. by rewrite Ht.
Qed.

(** A claim of [c] arrives at [b], which had the payment from [a]. *)
Lemma run_claim a b c net r m mc : b <> c -> net !! b = Some m -> ok_node b m -> net !! c = Some mc -> ok_node c mc -> claims r preimage ->
  get_previous_hop (invoice_mgr m) (hash_to_vec preimage) = Some a ->
  exists trace r' m' mc', runs net [(c, b, request_bytes r)] trace (<[c := mc']> (<[b := m']> net)) [(b, a, request_bytes r')] /\
    Forall2 says trace [Claims c b preimage; Answers b c] /\ ok_node b m' /\ ok_node c mc' /\ claims r' preimage.
Proof.
  intros Hbc Hm Hmok Hc Hcok Hr Hprev. destruct (claim_handled b m c r preimage Hmok Hr) as (m' & t & Hh & Hok' & _ & Ht & Hpost).
  rewrite Hprev in Hpost. destruct Hpost as (r' & Ho & Hr'). pose proof (runs_one net c b _ m m' [] Hm Hh) as R1.
  unfold posted in R1. rewrite Ho in R1.
  destruct (runs_response (<[b := set_outbox [] m']> net) c b t mc [(b, a, request_bytes r')]) as (mc' & s & R2 & Hcok' & _ & _).
  { by rewrite lookup_insert_ne. } { done. } { unfold rs_channel_txn. rewrite Ht. apply Hr. }
  eexists _, r', _, mc'. split; [exact (runs_trans _ _ _ _ _ _ _ _ R1 R2)|]. split_and!; [|done..].
  repeat constructor; simpl; eauto.
Qed.

(** From the payment to [b] until the claim of [b] is on its way. *)
Definition path_run a b rest net r n : Prop :=
  exists trace net' r' n' s,
    runs net [(a, b, multi_hop_bytes (mkMultiHop r (hops_of rest)))] trace net' [(b, a, request_bytes r')] /\
    Forall2 says trace (paying a (b :: rest) amount lock timeout ++ claiming b rest preimage) /\ claims r' preimage /\
    net' !! a = Some n' /\ ok_node a n' /\ invoice_mgr n' = invoice_mgr n /\
    n_processor n' = send_response (rq_request_id r) s (n_processor n) /\
    (forall x, x ∈ b :: rest -> exists m, net' !! x = Some m /\ ok_node x m) /\
    (forall x, x ∉ a :: b :: rest -> net' !! x = net !! x).

Lemma run_last a b net r n : a <> b -> on_path net [b] -> net !! a = Some n -> ok_node a n -> pays r b amount lock timeout ->
  path_run a b [] net r n.
Proof.
  intros Hab Hp Hn Hok Hr. destruct (Hp b) as (m & Hm & Hmok & Hpre); [left|]. rewrite bool_decide_eq_true_2 in Hpre by done.
  destruct (receiver_claims b m a r amount lock timeout preimage Hmok Hr Hpre) as (m' & t & r' & Hh & Ho & Hmok' & Ht & Hc).
  destruct (run_payment a b a net r [] n m m' t _ Hab Hn Hok Hm Hr Hh Ho Ht) as (tr & n' & s & R & Hsays & Hok' & Hi & Hs).
  exists tr, (<[a := n']> (<[b := set_outbox [] m']> net)), r', n', s. split_and!; try done.
  - by rewrite lookup_insert_eq.
  - intros x ->%list_elem_of_singleton. exists (set_outbox [] m'). by rewrite lookup_insert_ne, lookup_insert_eq.
  - intros x Hx. by rewrite !lookup_insert_ne by set_solver.
Qed.

Lemma run_path rest : forall a b net r n, NoDup (a :: b :: rest) -> on_path net (b :: rest) -> net !! a = Some n -> ok_node a n ->
  pays r b amount lock timeout -> path_run a b rest net r n.
Proof.
  induction rest as [|c rest IH]; intros a b net r n Hnd Hp Hn Hok Hr.
  { apply run_last; [|done..]. apply NoDup_cons in Hnd as [? _]. set_solver. }
  destruct (Hp b) as (m & Hm & Hmok & Hpre); [left|].
  assert (a <> b /\ a ∉ c :: rest /\ NoDup (b :: c :: rest)) as (Hab & Har & Hnd') by (apply NoDup_cons in Hnd as [? ?]; set_solver).
  rewrite bool_decide_eq_false_2 in Hpre by (by apply last_not_head).
  assert (b ∉ c :: rest) as Hbr by (by apply NoDup_cons in Hnd' as [? _]).
  destruct (relay_pays b m a r amount lock timeout (mkNextHop c amount) (hops_of rest) Hmok Hr Hpre)
    as (m' & t & r1 & Hh & Ho & Hmok' & Hinv & Ht & Hr1). simpl in Ho, Hr1.
  destruct (run_payment a b c net r _ n m m' t _ Hab Hn Hok Hm Hr Hh Ho Ht) as (tr1 & n' & s & R1 & Hsays1 & Hok' & Hi & Hs).
  set (net1 := <[a := n']> (<[b := set_outbox [] m']> net)) in *.
  destruct (IH b c net1 r1 (set_outbox [] m')) as (tr2 & net2 & r2 & m2 & s2 & R2 & Hsays2 & Hc2 & Hb2 & Hbok2 & Hinv2 & _ & Hrest2 & Hout2); [done| | |done..|].
  { do 2 (apply on_path_insert; [done|]). by apply (on_path_tail _ b). }
  { unfold net1. by rewrite lookup_insert_ne, lookup_insert_eq. }
  destruct (Hrest2 c) as (mc & Hmc & Hcok); [left|]. assert (b <> c) as Hbc by set_solver.
  destruct (run_claim a b c net2 r2 m2 mc Hbc Hb2 Hbok2 Hmc Hcok Hc2) as (tr3 & r3 & m3 & mc' & R3 & Hsays3 & Hbok3 & Hcok3 & Hc3).
  { rewrite Hinv2. simpl. rewrite Hinv. unfold get_previous_hop. simpl. by rewrite lookup_insert_eq. }
  exists (tr1 ++ tr2 ++ tr3), (<[c := mc']> (<[b := m3]> net2)), r3, n', s. split_and!; try done.
  - exact (runs_trans _ _ _ _ _ _ _ _ R1 (runs_trans _ _ _ _ _ _ _ _ R2 R3)).
  - change (Forall2 says (tr1 ++ tr2 ++ tr3) ([Pays a b amount lock timeout; Answers b a] ++
      (paying b (c :: rest) amount lock timeout ++ (claiming c rest preimage ++ [Claims c b preimage; Answers b c])))).
    apply Forall2_app; [done|]. rewrite (assoc_L app). by apply Forall2_app.
  - rewrite !lookup_insert_ne by set_solver. rewrite Hout2 by set_solver. unfold net1. by rewrite lookup_insert_eq.
  - intros x Hx. destruct (decide (x = c)) as [->|Hxc]; [exists mc'; by rewrite lookup_insert_eq|].
    rewrite lookup_insert_ne by done. destruct (decide (x = b)) as [->|Hxb]; [exists m3; by rewrite lookup_insert_eq|].
    rewrite lookup_insert_ne by done. apply Hrest2. set_solver.
  - intros x Hx. rewrite !lookup_insert_ne by set_solver. rewrite Hout2 by set_solver. unfold net1.
    by rewrite !lookup_insert_ne by set_solver.
Qed.

(** *** The payer *)

(** What the command sends, and the future it returns. *)
Lemma payer_pays a b rest n receiver v : ok_node a n -> net_is_connected world receiver = true ->
  find_path_by_addr world a receiver = Ok v -> check_balance v amount = true -> balance_response_to_address v = Ok (a :: b :: rest) ->
  exists r n', pays r b amount lock timeout /\
    off_chain_pay_htlc_async world receiver amount (hash_to_vec lock) timeout n = (Ok (Ok (next_channel (n_processor n))), n') /\
    n_outbox n' = [(b, multi_hop_bytes (mkMultiHop r (hops_of rest)))] /\ ok_node a (set_outbox [] n') /\ invoice_mgr n' = invoice_mgr n /\
    n_processor n' = add_future (rq_request_id r) (next_channel (n_processor n)) (channel (n_processor n)).2.
Proof.
  intros (HI & Ha & Ho) Hconn Hpath Hbal Haddr.
  destruct (coop_send (n_wallet n) b amount lock timeout HI) as (r & w & Er & HI' & Ha' & Hr).
  unfold off_chain_pay_htlc_async. rewrite Hconn. cbn [ensure]. rewrite lift_eval. unfold unwrap, off_chain_pay_htlc.
  rewrite get_eval. unfold router_stats. rewrite Hstats. unfold mbind at 1, stM_bind at 1, modifyS at 1. rewrite Ha, Hpath, Hbal, Haddr, lift_eval.
  unfold mbind at 1, stM_bind at 1, attempt at 1, get_multi_hop_request. rewrite get_eval. cbn [n_wallet].
  rewrite bool_decide_eq_true_2 by done. rewrite (on_wallet_Ok _ _ _ r w) by done. cbn [mret stM_ret].
  unfold answer_of, mbind, stM_bind, attempt. rewrite send_multi_hop_eq. exists r. eexists. split; [done|]. split; [reflexivity|].
  split_and!; [|split_and!|by rewrite with_future_invoices|by rewrite with_future_processor].
  - rewrite with_future_outbox. simpl. by rewrite Ho.
  - simpl. by rewrite with_future_wallet.
  - simpl. rewrite with_future_wallet. simpl. congruence.
  - done.
Qed.

Lemma length_paying a path : length (paying a path amount lock timeout) = 2 * length path.
Proof. revert a. induction path as [|b path IH]; intros a; simpl; [done|]. rewrite IH. lia. Qed.
Lemma length_claiming a path : length (claiming a path preimage) = 2 * length path.
Proof. revert a. induction path as [|b path IH]; intros a; simpl; [done|]. rewrite length_app, IH. simpl. lia. Qed.

End payment.

(** ** A rejected payment *)

Section rejected.
Context {L : Libra} {LL : LibraLaws} {K : Chain} {CC : ChannelTxnCodec} {NP : NodeProst} {NPL : NodeProstLaws} {HX : Hex} {RN : Rng}.
Context {W : Type} {WO : WalletOps W}.
Implicit Types (b : AccountAddress) (n : Node W).

(** C38: a node that gets a payment with further hops and whose wallet refuses it tells the sender so, and
    then pays the next hop all the same: the amount that the message names for that hop, whatever the
    amount of the refused payment, from its own channel. *)
Theorem rejected_payment_is_forwarded world n b r hop hops amount lock timeout e w1 r' w2 :
  network_open world = true -> pays r (wo_account (n_wallet n)) amount lock timeout ->
  wo_verify_txn b r (n_wallet n) = (Err e, w1) ->
  wo_send_payment (hop_remote_addr hop) (hop_amount hop) (hash_to_vec lock) timeout w1 = (Ok r', w2) ->
  exists n' err, handle_network_msg world b (multi_hop_bytes (mkMultiHop r (hop :: hops))) n = (Ok tt, n') /\
    error_message e (rq_request_id r) = Ok err /\
    n_outbox n' = n_outbox n ++ [(b, err); (hop_remote_addr hop, multi_hop_bytes (mkMultiHop r' hops))] /\
    n_wallet n' = w2 /\ get_previous_hop (invoice_mgr n') = get_previous_hop (add_previous_hop lock b (invoice_mgr n)).
Proof.
  intros Hnet Hr Hv Hs. destruct (pays_ops r _ amount lock timeout Hr) as (O1 & O2 & O3).
  destruct (error_message e (rq_request_id r)) as [err|?|?] eqn:Herr; [|done..].
  assert (handle_channel_transaction_request world b r n = (Ok tt, post b err (set_wallet w1 n))) as E.
  { unfold handle_channel_transaction_request. rewrite (attempt_wallet_Err _ _ _ _ _ Hv). unfold send_error.
    rewrite Herr, lift_eval. unfold net_send. by rewrite Hnet. }
  unfold handle_network_msg, multi_hop_bytes. rewrite parse_add_message_type, lift_eval, drop_add_message_type.
  unfold unwrap, handle_multi_hop_receiver_channel. rewrite from_into_proto_bytes, lift_eval by apply Hr.
  cbn [mh_request mh_hops]. unfold mbind at 1, stM_bind at 1. rewrite E, O1, O3, lift_eval. cbn [hash_lock hp_timeout].
  rewrite (on_wallet_Ok _ _ _ r' w2) by done. unfold mbind, stM_bind. rewrite (send_multi_hop_eq world Hnet).
  eexists _, err. split; [reflexivity|].
  split_and!; [done| | |]; simpl; rewrite ?with_future_outbox, ?with_future_wallet, ?with_future_invoices; try done.
  simpl. by rewrite <-(assoc_L app).
Qed.
End rejected.
