(* ===== verification/NodeServer.v ===== *)
(** * The running node

    Models the tasks of [Node] ([src/node/node_internal/src/node.rs]): [start_server] starts two tasks, [start_network]
    and [start_command], which wait for whichever of their channels has something first.  A message of the network and a
    command become tasks of their own, which run in any order; a message of the router is sent at once; an event ends
    the loop.  Dropping a receiver drops what is in it, and with a command the responder that its caller waits for.

    A state has the channels, the tasks and the outcome of each call; what happens is a list of actions, those of the
    outside and those of the runtime, in any order.  Handlers run to their end ([Node]).  The theorems: every message and
    every command that a loop took is handled once, a caller gets the answer of its handler, and a shutdown ends the
    loops and leaves no caller waiting. *)
From S2P Require Import Prelude Codec Libra SchemaDB Accumulator ChannelTypes ChannelStore TxApplier Chain ChannelStm Channel Messages Wallet.
From S2P Require Import Invoices Futures Stats Node.

(** ** Unbounded channels *)

Record Receiver (A : Type) := mkReceiver { rx_queue : list A; rx_alive : bool }.
#[global] Arguments mkReceiver {A}.
#[global] Arguments rx_queue {A}.
#[global] Arguments rx_alive {A}.

Definition rx_new {A} : Receiver A := mkReceiver [] true.
Definition unbounded_send {A} (x : A) (r : Receiver A) : res (Receiver A) :=
  if rx_alive r then Ok (mkReceiver (rx_queue r ++ [x]) true) else Err "send failed because receiver is gone".
(** [let _ = tx.unbounded_send(x)] *)
Definition try_send {A} (x : A) (r : Receiver A) : Receiver A := match unbounded_send x r with Ok r' => r' | _ => r end.
Definition rx_next {A} (r : Receiver A) : option (A * Receiver A) :=
  match rx_queue r with [] => None | x :: l => Some (x, mkReceiver l (rx_alive r)) end.
Definition rx_gone {A} : Receiver A := mkReceiver [] false.

Section server.
Context {L : Libra} {K : Chain} {CC : ChannelTxnCodec} {NP : NodeProst} {HX : Hex} {RN : Rng}.
Context {W : Type} {WO : WalletOps W}.
Implicit Types (world : World) (n : Node W).

(** ** The state *)

(** A task that was spawned; a command carries the number of its responder. *)
Inductive Task := OnNetwork (peer_id : AccountAddress) (data : bytes) | OnCommand (id : nat) (msg : NodeMessage).
Inductive LoopState := NotStarted | Running | Stopped | Crashed.

Record Server := mkServer {
  sv_node : Node W;
  sv_receiver : Receiver (AccountAddress * bytes);
  sv_router_messages : Receiver (AccountAddress * RouterNetworkMessage);
  sv_network_events : Receiver unit;
  sv_commands : Receiver (nat * NodeMessage);
  sv_events : Receiver unit;
  sv_network : LoopState;
  sv_command : LoopState;
  sv_tasks : list Task;
  (* what each responder was given; [None] if it was dropped *)
  sv_settled : list (nat * option Answer);
  (* the sender that closes the network was used or dropped *)
  sv_net_closed : bool;
  sv_dropped : bool
}.

(** [Node::new] *)
Definition Server_new (n : Node W) : Server :=
  mkServer n rx_new rx_new rx_new rx_new rx_new NotStarted NotStarted [] [] false false.

(** [start_server]: the receivers are taken, then [init] runs, then both tasks start. *)
Definition server_start world {HO : HashOrder} (answers : AccountAddress -> res Z) (s : Server) : res Server :=
  match sv_network s, sv_command s with
  | NotStarted, NotStarted =>
      match start_server world answers (sv_node s) with
      | (Ok _, n) => Ok (mkServer n (sv_receiver s) (sv_router_messages s) (sv_network_events s) (sv_commands s) (sv_events s)
                           Running Running (sv_tasks s) (sv_settled s) (sv_net_closed s) (sv_dropped s))
      | (Err e, _) | (Panic e, _) => Panic e
      end
  | _, _ => Panic "receiver already taken"
  end.

(** ** Actions *)

Inductive Action :=
(* from outside: a message of the network or of the router, a call of the node, its end, a timer *)
| Arrive (peer_id : AccountAddress) (data : bytes)
| Route (peer_id : AccountAddress) (message : RouterNetworkMessage)
| Call (id : nat) (msg : NodeMessage)
| Shutdown
| DropNode
| TimerFires (hash : HashValue)
(* of the runtime: a branch of a loop, or a task *)
| NetTakes
| NetRoutes (world : World)
| NetStops
| CmdTakes
| CmdStops
| CmdCompletes
| TaskRuns (i : nat) (world : World).

Definition internal (a : Action) : bool :=
  match a with Arrive _ _ | Route _ _ | Call _ _ | Shutdown | DropNode | TimerFires _ => false | _ => true end.

Definition set_node (n : Node W) (s : Server) : Server :=
  mkServer n (sv_receiver s) (sv_router_messages s) (sv_network_events s) (sv_commands s) (sv_events s) (sv_network s) (sv_command s)
    (sv_tasks s) (sv_settled s) (sv_net_closed s) (sv_dropped s).
Definition set_tasks (l : list Task) (s : Server) : Server :=
  mkServer (sv_node s) (sv_receiver s) (sv_router_messages s) (sv_network_events s) (sv_commands s) (sv_events s) (sv_network s)
    (sv_command s) l (sv_settled s) (sv_net_closed s) (sv_dropped s).
Definition settle (l : list (nat * option Answer)) (s : Server) : Server :=
  mkServer (sv_node s) (sv_receiver s) (sv_router_messages s) (sv_network_events s) (sv_commands s) (sv_events s) (sv_network s)
    (sv_command s) (sv_tasks s) (sv_settled s ++ l) (sv_net_closed s) (sv_dropped s).
Definition set_network_rx rx rr ev st (s : Server) : Server :=
  mkServer (sv_node s) rx rr ev (sv_commands s) (sv_events s) st (sv_command s) (sv_tasks s) (sv_settled s) (sv_net_closed s) (sv_dropped s).
Definition set_command_rx rx ev st closed (s : Server) : Server :=
  mkServer (sv_node s) (sv_receiver s) (sv_router_messages s) (sv_network_events s) rx ev (sv_network s) st (sv_tasks s) (sv_settled s)
    closed (sv_dropped s).

(** *** From outside *)

Definition arrive peer_id data (s : Server) : Server :=
  set_network_rx (try_send (peer_id, data) (sv_receiver s)) (sv_router_messages s) (sv_network_events s) (sv_network s) s.
Definition route peer_id message (s : Server) : Server :=
  set_network_rx (sv_receiver s) (try_send (peer_id, message) (sv_router_messages s)) (sv_network_events s) (sv_network s) s.
(** [self.command_sender.unbounded_send(..)?]: without a receiver the call returns an error. *)
Definition call id msg (s : Server) : Server :=
  match unbounded_send (id, msg) (sv_commands s) with
  | Ok rx => set_command_rx rx (sv_events s) (sv_command s) (sv_net_closed s) s
  | _ => settle [(id, None)] s
  end.
(** [Node::shutdown] *)
Definition shutdown (s : Server) : res unit * Server :=
  match unbounded_send tt (sv_events s) with
  | Ok ev =>
      let s := set_command_rx (sv_commands s) ev (sv_command s) (sv_net_closed s) s in
      match unbounded_send tt (sv_network_events s) with
      | Ok nev => (Ok tt, set_network_rx (sv_receiver s) (sv_router_messages s) nev (sv_network s) s)
      | r => (_ ← r; Ok tt, s)
      end
  | r => (_ ← r; Ok tt, s)
  end.

(** *** The loop of [start_network] *)

Definition end_network (st : LoopState) (s : Server) : Server := set_network_rx rx_gone rx_gone rx_gone st s.
(** [Ok(msg) => executor.spawn(NodeInner::handle_network_msg(..))] *)
Definition network_takes (s : Server) : option Server :=
  '((peer_id, data), rx) ← rx_next (sv_receiver s);
  Some (set_tasks (sv_tasks s ++ [OnNetwork peer_id data])
          (set_network_rx rx (sv_router_messages s) (sv_network_events s) (sv_network s) s)).
(** [node_inner.send_router_message(..).await.unwrap()] *)
Definition network_routes world (s : Server) : option Server :=
  '((peer_id, message), rr) ← rx_next (sv_router_messages s);
  let '(r, n) := send_router_message world peer_id message (sv_node s) in
  let s := set_node n (set_network_rx (sv_receiver s) rr (sv_network_events s) (sv_network s) s) in
  Some match r with Ok _ => s | _ => end_network Crashed s end.
Definition network_stops (s : Server) : option Server :=
  _ ← rx_next (sv_network_events s);
  Some (end_network Stopped s).

(** *** The loop of [start_command] *)

Definition end_command (s : Server) : Server :=
  settle ((fun c => (c.1, None)) <$> rx_queue (sv_commands s)) (set_command_rx rx_gone rx_gone Stopped true s).
Definition command_takes (s : Server) : option Server :=
  '((id, msg), rx) ← rx_next (sv_commands s);
  Some (set_tasks (sv_tasks s ++ [OnCommand id msg]) (set_command_rx rx (sv_events s) (sv_command s) (sv_net_closed s) s)).
Definition command_stops (s : Server) : option Server :=
  _ ← rx_next (sv_events s);
  Some (end_command (set_node (node_shutdown (sv_node s)).2 s)).
(** [complete]: the senders are gone and the channels are empty. *)
Definition command_completes (s : Server) : option Server :=
  if sv_dropped s then
    match rx_queue (sv_commands s), rx_queue (sv_events s) with
    | [], [] => Some (end_command s)
    | _, _ => None
    end
  else None.

(** *** A task *)

(** A panic ends the task and drops its responder. *)
Definition run_task world (t : Task) (s : Server) : Server :=
  match t with
  | OnNetwork peer_id data => set_node (handle_network_msg world peer_id data (sv_node s)).2 s
  | OnCommand id msg =>
      let '(r, n) := handle_node_msg world msg (sv_node s) in
      settle [(id, match r with Ok a => Some a | _ => None end)] (set_node n s)
  end.

Definition step (a : Action) (s : Server) : option Server :=
  let network m := match sv_network s with Running => m | _ => None end in
  let command m := match sv_command s with Running => m | _ => None end in
  let outside s' := if sv_dropped s then None else Some s' in
  match a with
  | Arrive peer_id data => Some (arrive peer_id data s)
  | Route peer_id message => Some (route peer_id message s)
  | Call id msg => outside (call id msg s)
  | Shutdown => outside (shutdown s).2
  | DropNode => outside (mkServer (sv_node s) (sv_receiver s) (sv_router_messages s) (sv_network_events s) (sv_commands s) (sv_events s)
                  (sv_network s) (sv_command s) (sv_tasks s) (sv_settled s) (sv_net_closed s) true)
  | TimerFires hash => Some (set_node (timer_fires hash (sv_node s)).2 s)
  | NetTakes => network (network_takes s)
  | NetRoutes world => network (network_routes world s)
  | NetStops => network (network_stops s)
  | CmdTakes => command (command_takes s)
  | CmdStops => command (command_stops s)
  | CmdCompletes => command (command_completes s)
  | TaskRuns i world => t ← sv_tasks s !! i; Some (run_task world t (set_tasks (base.delete i (sv_tasks s)) s))
  end.

(** ** Runs *)

(** What is done to the node, one after the other *)
Inductive Op :=
| OpNetwork (peer_id : AccountAddress) (data : bytes)
| OpCommand (id : nat) (msg : NodeMessage)
| OpRoute (peer_id : AccountAddress) (message : RouterNetworkMessage)
| OpTimer (hash : HashValue)
| OpStop.
Definition op_state (o : World * Op) (n : Node W) : Node W :=
  let '(world, o) := o in
  match o with
  | OpNetwork peer_id data => (handle_network_msg world peer_id data n).2
  | OpCommand _ msg => (handle_node_msg world msg n).2
  | OpRoute peer_id message => (send_router_message world peer_id message n).2
  | OpTimer hash => (timer_fires hash n).2
  | OpStop => (node_shutdown n).2
  end.
Definition exec (log : list (World * Op)) (n : Node W) : Node W := fold_left (fun n o => op_state o n) log n.

Definition step_ops (w0 : World) (a : Action) (s : Server) : list (World * Op) :=
  match a with
  | TimerFires hash => [(w0, OpTimer hash)]
  | NetRoutes world => match rx_queue (sv_router_messages s) with (peer_id, message) :: _ => [(world, OpRoute peer_id message)] | [] => [] end
  | CmdStops => [(w0, OpStop)]
  | TaskRuns i world =>
      match sv_tasks s !! i with
      | Some (OnNetwork peer_id data) => [(world, OpNetwork peer_id data)]
      | Some (OnCommand id msg) => [(world, OpCommand id msg)]
      | None => []
      end
  | _ => []
  end.
(** The state after the actions, and what was done to the node on the way.  [w0] stands for the surroundings of what does
    not look at them. *)
Fixpoint run (w0 : World) (acts : list Action) (s : Server) : option (list (World * Op) * Server) :=
  match acts with
  | [] => Some ([], s)
  | a :: acts =>
      s' ← step a s;
      '(log, s'') ← run w0 acts s';
      Some (step_ops w0 a s ++ log, s'')
  end.

Definition arrived (acts : list Action) : list (AccountAddress * bytes) :=
  omap (fun a => match a with Arrive peer_id data => Some (peer_id, data) | _ => None end) acts.
Definition calls (acts : list Action) : list (nat * NodeMessage) :=
  omap (fun a => match a with Call id msg => Some (id, msg) | _ => None end) acts.
Definition handled (log : list (World * Op)) : list (AccountAddress * bytes) :=
  omap (fun o => match o.2 with OpNetwork peer_id data => Some (peer_id, data) | _ => None end) log.
Definition executed (log : list (World * Op)) : list (nat * NodeMessage) :=
  omap (fun o => match o.2 with OpCommand id msg => Some (id, msg) | _ => None end) log.
Definition spawned_messages (l : list Task) : list (AccountAddress * bytes) :=
  omap (fun t => match t with OnNetwork peer_id data => Some (peer_id, data) | _ => None end) l.
Definition spawned_commands (l : list Task) : list (nat * NodeMessage) :=
  omap (fun t => match t with OnCommand id msg => Some (id, msg) | _ => None end) l.

(** What a call was answered: the answer of its handler, in the state in which it ran *)
Definition answered n0 (log : list (World * Op)) (id : nat) (a : Answer) : Prop :=
  exists before world msg after, log = before ++ (world, OpCommand id msg) :: after /\ (handle_node_msg world msg (exec before n0)).1 = Ok a.

(** ** Every message and every call is handled once *)

Record ran (n0 : Node W) (acts : list Action) (log : list (World * Op)) (s : Server) : Prop := {
  ran_node : sv_node s = exec log n0;
  ran_messages : exists taken rest, arrived acts = taken ++ rest /\ taken ≡ₚ handled log ++ spawned_messages (sv_tasks s) /\
    (rx_alive (sv_receiver s) = true -> rest = rx_queue (sv_receiver s));
  ran_calls : exists taken rest, calls acts = taken ++ rest /\ taken ≡ₚ executed log ++ spawned_commands (sv_tasks s) /\
    (if rx_alive (sv_commands s) then rest = rx_queue (sv_commands s) /\ (sv_settled s).*1 ≡ₚ (executed log).*1
     else (sv_settled s).*1 ≡ₚ (executed log).*1 ++ rest.*1);
  ran_answers : forall id a, (id, Some a) ∈ sv_settled s -> answered n0 log id a
}.

Definition up (st : LoopState) : bool := match st with NotStarted | Running => true | _ => false end.
(** The receivers live as long as their loop. *)
Record linked (s : Server) : Prop := {
  linked_receiver : rx_alive (sv_receiver s) = up (sv_network s);
  linked_network_events : if up (sv_network s) then rx_alive (sv_network_events s) = true else sv_network_events s = rx_gone;
  linked_commands : if up (sv_command s) then rx_alive (sv_commands s) = true else sv_commands s = rx_gone;
  linked_events : if up (sv_command s) then rx_alive (sv_events s) = true else sv_events s = rx_gone;
  linked_closed : sv_net_closed s = negb (up (sv_command s))
}.

Lemma exec_app log log' n : exec (log ++ log') n = exec log' (exec log n).
Proof. apply fold_left_app. Qed.
Lemma answered_app n0 log log' id a : answered n0 log id a -> answered n0 (log ++ log') id a.
Proof. intros (b & w & m & af & -> & H). exists b, w, m, (af ++ log'). by rewrite <-(assoc_L (++)). Qed.
Lemma rx_next_Some {A} (r r' : Receiver A) x : rx_next r = Some (x, r') -> rx_queue r = x :: rx_queue r' /\ rx_alive r' = rx_alive r.
Proof. unfold rx_next. destruct (rx_queue r) as [|y l]; intros; by simplify_eq/=. Qed.
Lemma unbounded_send_Ok {A} (r r' : Receiver A) x : unbounded_send x r = Ok r' -> rx_alive r = true /\ r' = mkReceiver (rx_queue r ++ [x]) true.
Proof. unfold unbounded_send. destruct (rx_alive r); by intros [= <-]. Qed.
Lemma try_send_queue {A} (r : Receiver A) x : rx_alive (try_send x r) = rx_alive r /\ (rx_alive r = true -> rx_queue (try_send x r) = rx_queue r ++ [x]).
Proof. unfold try_send, unbounded_send. by destruct (rx_alive r) eqn:E. Qed.

(** A step that neither brings nor takes a message or a command *)
Lemma ran_frame n0 acts log s a ops s' : ran n0 acts log s ->
  arrived [a] = [] -> calls [a] = [] -> handled ops = [] -> executed ops = [] ->
  sv_node s' = exec ops (sv_node s) -> sv_tasks s' = sv_tasks s -> sv_settled s' = sv_settled s -> sv_commands s' = sv_commands s ->
  (rx_alive (sv_receiver s') = true -> sv_receiver s' = sv_receiver s) -> ran n0 (acts ++ [a]) (log ++ ops) s'.
Proof.
  intros [Hn (mt & mr & Hm & Hmt & Hmr) (ct & cr & Hc & Hct & Hcr) Ha] Ea Ec Eh Ee En Et Es Ecm Er.
  assert (Hh : handled (log ++ ops) = handled log) by (unfold handled in *; by rewrite omap_app, Eh, app_nil_r).
  assert (He : executed (log ++ ops) = executed log) by (unfold executed in *; by rewrite omap_app, Ee, app_nil_r).
  split.
  - by rewrite En, Hn, exec_app.
  - exists mt, mr. unfold arrived in *. rewrite omap_app, Ea, app_nil_r, Hh, Et. split_and!; [done..|]. intros Hal. rewrite (Er Hal). apply Hmr. by rewrite <-(Er Hal).
  - exists ct, cr. unfold calls in *. rewrite omap_app, Ec, app_nil_r, He, Et, Es, Ecm. done.
  - intros id x. rewrite Es. intros H%Ha. by apply answered_app.
Qed.

Lemma ran_arrive n0 acts log s p d : ran n0 acts log s -> ran n0 (acts ++ [Arrive p d]) log (arrive p d s).
Proof.
  intros [Hn (mt & mr & Hm & Hmt & Hmr) (ct & cr & Hc & Hct & Hcr) Ha]. destruct (try_send_queue (sv_receiver s) (p, d)) as [Hal Hq]. split.
  - done.
  - exists mt, (mr ++ [(p, d)]). unfold arrived in *. rewrite omap_app, Hm, <-(assoc_L (++)). split_and!; [done..|]. simpl. rewrite Hal. intros Hl.
    by rewrite (Hq Hl), (Hmr Hl).
  - exists ct, cr. unfold calls in *. rewrite omap_app, app_nil_r. done.
  - done.
Qed.
Lemma ran_call n0 acts log s id msg : ran n0 acts log s -> ran n0 (acts ++ [Call id msg]) log (call id msg s).
Proof.
  intros [Hn (mt & mr & Hm & Hmt & Hmr) (ct & cr & Hc & Hct & Hcr) Ha]. unfold call, unbounded_send. destruct (rx_alive (sv_commands s)) eqn:El; split; try done.
  - exists mt, mr. unfold arrived in *. by rewrite omap_app, app_nil_r.
  - exists ct, (cr ++ [(id, msg)]). unfold calls in *. rewrite omap_app, Hc, <-(assoc_L (++)). simpl. destruct Hcr as [-> ?]. done.
  - exists mt, mr. unfold arrived in *. by rewrite omap_app, app_nil_r.
  - exists ct, (cr ++ [(id, msg)]). unfold calls in *. rewrite omap_app, Hc, <-(assoc_L (++)). simpl. rewrite El. split_and!; [done..|].
    by rewrite !fmap_app, Hcr, <-(assoc_L (++)).
  - intros id' a [H|H]%elem_of_app; [by apply Ha|]. by apply list_elem_of_singleton in H.
Qed.
Lemma ran_network_takes n0 acts log s s' : ran n0 acts log s -> network_takes s = Some s' -> rx_alive (sv_receiver s) = true -> ran n0 (acts ++ [NetTakes]) log s'.
Proof.
  intros [Hn (mt & mr & Hm & Hmt & Hmr) (ct & cr & Hc & Hct & Hcr) Ha] H Hal. unfold network_takes in H.
  destruct (rx_next (sv_receiver s)) as [[[p d] rx]|] eqn:E; simplify_eq/=. apply rx_next_Some in E as [Eq El]. split; try done.
  - exists (mt ++ [(p, d)]), (rx_queue rx). unfold arrived in *. rewrite omap_app, app_nil_r, Hm, (Hmr Hal), Eq, <-(assoc_L (++)). split_and!; [done| |done].
    unfold spawned_messages in *. simpl. rewrite omap_app, Hmt. simpl. by rewrite (assoc_L (++)).
  - exists ct, cr. unfold calls, spawned_commands in *. simpl. rewrite !omap_app, !app_nil_r. done.
Qed.
Lemma ran_command_takes n0 acts log s s' : ran n0 acts log s -> command_takes s = Some s' -> rx_alive (sv_commands s) = true -> ran n0 (acts ++ [CmdTakes]) log s'.
Proof.
  intros [Hn (mt & mr & Hm & Hmt & Hmr) (ct & cr & Hc & Hct & Hcr) Ha] H Hal. unfold command_takes in H. rewrite Hal in Hcr.
  destruct (rx_next (sv_commands s)) as [[[id m] rx]|] eqn:E; simplify_eq/=. apply rx_next_Some in E as [Eq El]. split; try done.
  - exists mt, mr. unfold arrived, spawned_messages in *. simpl. rewrite !omap_app, !app_nil_r. done.
  - exists (ct ++ [(id, m)]), (rx_queue rx). unfold calls in *. destruct Hcr as [Hcr Hs]. rewrite omap_app, app_nil_r, Hc, Hcr, Eq, <-(assoc_L (++)). simpl.
    rewrite El, Hal. split_and!; [done| |done|done]. unfold spawned_commands in *. rewrite omap_app, Hct. simpl. by rewrite (assoc_L (++)).
Qed.
Lemma ran_task n0 acts log s i t world : ran n0 acts log s -> sv_tasks s !! i = Some t ->
  ran n0 (acts ++ [TaskRuns i world]) (log ++ [(world, match t with OnNetwork p d => OpNetwork p d | OnCommand id m => OpCommand id m end)])
    (run_task world t (set_tasks (base.delete i (sv_tasks s)) s)).
Proof.
  intros [Hn (mt & mr & Hm & Hmt & Hmr) (ct & cr & Hc & Hct & Hcr) Ha] Ht. pose proof (delete_Permutation _ _ _ Ht) as Hp.
  unfold spawned_messages, spawned_commands in Hmt, Hct. rewrite Hp in Hmt, Hct. destruct t as [p d|id m]; simpl in Hmt, Hct.
  - split; simpl.
    + by rewrite Hn, exec_app.
    + exists mt, mr. unfold arrived, handled, spawned_messages in *. rewrite !omap_app, app_nil_r. simpl. split_and!; [done| |done]. by rewrite Hmt, <-(assoc_L (++)).
    + exists ct, cr. unfold calls, executed, spawned_commands in *. rewrite !omap_app, !app_nil_r. done.
    + intros id a H%Ha. by apply answered_app.
  - unfold run_task. simpl. destruct (handle_node_msg world m (sv_node s)) as [r n] eqn:Eh. split; simpl.
    + rewrite exec_app, <-Hn. simpl. by rewrite Eh.
    + exists mt, mr. unfold arrived, handled, spawned_messages in *. rewrite !omap_app, !app_nil_r. done.
    + exists ct, cr. unfold calls, executed, spawned_commands in *. rewrite !omap_app, app_nil_r. simpl. split_and!; [done|by rewrite Hct, <-(assoc_L (++))|].
      rewrite !fmap_app. simpl. destruct (rx_alive (sv_commands s)); [destruct Hcr as [? ->]; done|]. rewrite Hcr, <-!(assoc_L (++)). f_equiv. apply Permutation_app_comm.
    + intros id' a [H|H]%elem_of_app; [by apply answered_app, Ha|]. apply list_elem_of_singleton in H. destruct r as [a'| |]; simplify_eq.
      exists log, world, m, []. split; [done|]. by rewrite <-Hn, Eh.
Qed.
Lemma ran_end_command n0 acts log s a ops n : ran n0 acts log s -> arrived [a] = [] -> calls [a] = [] -> handled ops = [] -> executed ops = [] ->
  n = exec ops (sv_node s) -> rx_alive (sv_commands s) = true -> ran n0 (acts ++ [a]) (log ++ ops) (end_command (set_node n s)).
Proof.
  intros Hr Ea Ec Eh Ee En Hal. pose proof (ran_frame n0 acts log s a ops (set_node n s) Hr Ea Ec Eh Ee En eq_refl eq_refl eq_refl (fun _ => eq_refl)) as [Hn Hm (ct & cr & Hc & Hct & Hcr) Ha].
  split; simpl in *; try done.
  - rewrite Hal in Hcr. destruct Hcr as [-> Hs]. exists ct, (rx_queue (sv_commands s)). split_and!; [done..|]. rewrite fmap_app, Hs, <-list_fmap_compose. done.
  - intros id x [H|H]%elem_of_app; [by apply Ha|]. by apply list_elem_of_fmap in H as (? & [= <- ?] & _).
Qed.

Lemma step_linked a s s' : linked s -> step a s = Some s' -> linked s'.
Proof.
  intros [Hr Hne Hc He Hcl] H. destruct a; simpl in H.
  - simplify_eq. split; simpl; try done. by rewrite (proj1 (try_send_queue _ _)).
  - by simplify_eq; split.
  - destruct (sv_dropped s); simplify_eq. unfold call, unbounded_send. destruct (rx_alive (sv_commands s)) eqn:El; [|by split; simpl; rewrite ?El].
    split; simpl; try done. destruct (up (sv_command s)); [done|]. by rewrite Hc in El.
  - destruct (sv_dropped s); simplify_eq. unfold shutdown, unbounded_send. destruct (rx_alive (sv_events s)) eqn:El; [|by split; simpl; rewrite ?El]. simpl.
    destruct (rx_alive (sv_network_events s)) eqn:Eln; split; simpl; rewrite ?Eln; try done; destruct (up (sv_command s)), (up (sv_network s)); try done;
      first [by rewrite He in El|by rewrite Hne in Eln].
  - destruct (sv_dropped s); simplify_eq. by split.
  - simplify_eq. by split.
  - destruct (sv_network s) eqn:En; try done. unfold network_takes in H. destruct (rx_next (sv_receiver s)) as [[[p d] rx]|] eqn:E; simplify_eq/=.
    apply rx_next_Some in E as [_ El]. split; simpl; rewrite ?En, ?El; done.
  - destruct (sv_network s) eqn:En; try done. unfold network_routes in H. destruct (rx_next (sv_router_messages s)) as [[[p d] rr]|] eqn:E; simplify_eq/=.
    destruct (send_router_message world p d (sv_node s)) as [[] n]; simplify_eq; split; simpl; rewrite ?En; done.
  - destruct (sv_network s) eqn:En; try done. unfold network_stops in H. destruct (rx_next _); simplify_eq/=. by split.
  - destruct (sv_command s) eqn:En; try done. unfold command_takes in H. destruct (rx_next (sv_commands s)) as [[[id m] rx]|] eqn:E; simplify_eq/=.
    apply rx_next_Some in E as [_ El]. split; simpl; rewrite ?En, ?El; done.
  - destruct (sv_command s) eqn:En; try done. unfold command_stops in H. destruct (rx_next _); simplify_eq/=. by split.
  - destruct (sv_command s) eqn:En; try done. unfold command_completes in H. destruct (sv_dropped s), (rx_queue (sv_commands s)), (rx_queue (sv_events s)); simplify_eq/=. by split.
  - destruct (sv_tasks s !! i) as [t|]; simplify_eq/=. destruct t; simpl; [by split|]. destruct (handle_node_msg _ _ _). by split.
Qed.

Lemma step_ran w0 n0 acts log a s s' : linked s -> ran n0 acts log s -> step a s = Some s' -> ran n0 (acts ++ [a]) (log ++ step_ops w0 a s) s'.
Proof.
  intros Hl Hran H. pose proof Hl as [Hr _ Hc _ _]. destruct a; simpl in H |- *; rewrite ?app_nil_r.
  - simplify_eq. by apply ran_arrive.
  - simplify_eq. rewrite <-(app_nil_r log). by apply (ran_frame _ _ _ s).
  - destruct (sv_dropped s); simplify_eq. by apply ran_call.
  - destruct (sv_dropped s); simplify_eq. rewrite <-(app_nil_r log). apply (ran_frame _ _ _ s); try done; unfold shutdown, unbounded_send;
      destruct (rx_alive (sv_events s)); try done; simpl; by destruct (rx_alive (sv_network_events s)).
  - destruct (sv_dropped s); simplify_eq. rewrite <-(app_nil_r log). by apply (ran_frame _ _ _ s).
  - simplify_eq. by apply (ran_frame _ _ _ s).
  - destruct (sv_network s) eqn:En; try done. by apply (ran_network_takes _ _ _ s).
  - destruct (sv_network s) eqn:En; try done. unfold network_routes, rx_next in H. destruct (rx_queue (sv_router_messages s)) as [|[p d] q]; simplify_eq/=.
    destruct (send_router_message world p d (sv_node s)) as [r n] eqn:Es. simplify_eq.
    apply (ran_frame _ _ _ s); try done; simpl; rewrite ?Es; by destruct r.
  - destruct (sv_network s) eqn:En; try done. unfold network_stops in H. destruct (rx_next _); simplify_eq/=. rewrite <-(app_nil_r log).
    by apply (ran_frame _ _ _ s).
  - destruct (sv_command s) eqn:En; try done. by apply (ran_command_takes _ _ _ s).
  - destruct (sv_command s) eqn:En; try done. unfold command_stops in H. destruct (rx_next _); simplify_eq/=. by apply ran_end_command.
  - destruct (sv_command s) eqn:En; try done. unfold command_completes in H. destruct (sv_dropped s); [|done].
    assert (s' = end_command (set_node (sv_node s) s)) as -> by (destruct (rx_queue (sv_commands s)), (rx_queue (sv_events s)); simplify_eq; by destruct s). rewrite <-(app_nil_r log).
    by apply ran_end_command.
  - destruct (sv_tasks s !! i) as [t|] eqn:Et; simplify_eq/=. pose proof (ran_task n0 acts log s i t world Hran Et) as Hx. by destruct t.
Qed.

Lemma run_ran w0 n0 acts : forall acts0 log0 s log s', linked s -> ran n0 acts0 log0 s -> run w0 acts s = Some (log, s') ->
  linked s' /\ ran n0 (acts0 ++ acts) (log0 ++ log) s'.
Proof.
  induction acts as [|a acts IH]; intros acts0 log0 s log s' Hl Hr H; simpl in H.
  - simplify_eq. by rewrite !app_nil_r.
  - apply bind_Some in H as (s1 & Hs & ([log1 s2] & Hrun & [= <- <-])%bind_Some).
    rewrite (cons_middle a), !(assoc_L (++)). apply (IH _ _ s1); [by eapply step_linked|by apply step_ran|done].
Qed.

Lemma server_start_fresh world {HO : HashOrder} answers n s0 : server_start world answers (Server_new n) = Ok s0 ->
  linked s0 /\ ran (sv_node s0) [] [] s0 /\ sv_network s0 = Running /\ sv_command s0 = Running.
Proof.
  unfold server_start. simpl. destruct (start_server world answers n) as [[] n']; intros; simplify_eq. split_and!; try done.
  split; simpl; try done; [by exists [], []..|set_solver].
Qed.

(** ** The end *)

(** The steps that are left without new input *)
Definition running (st : LoopState) : nat := match st with Running => 1 | _ => 0 end.
Definition work (s : Server) : nat :=
  2 * length (rx_queue (sv_receiver s)) + length (rx_queue (sv_router_messages s)) + 2 * length (rx_queue (sv_commands s)) +
  length (sv_tasks s) + running (sv_network s) + running (sv_command s).

Lemma step_work a s s' : internal a = true -> step a s = Some s' -> work s' < work s.
Proof.
  intros Hi H. unfold work. destruct a; try done; simpl in H.
  - destruct (sv_network s) eqn:En; try done. unfold network_takes, rx_next in H. destruct (rx_queue (sv_receiver s)) as [|[p d] q] eqn:E; simplify_eq/=.
    rewrite En, length_app. simpl. lia.
  - destruct (sv_network s) eqn:En; try done. unfold network_routes, rx_next in H. destruct (rx_queue (sv_router_messages s)) as [|[p d] q] eqn:E; simplify_eq/=.
    destruct (send_router_message world p d (sv_node s)) as [[] n]; simplify_eq/=; rewrite ?En; simpl; lia.
  - destruct (sv_network s) eqn:En; try done. unfold network_stops in H. destruct (rx_next _); simplify_eq/=. lia.
  - destruct (sv_command s) eqn:En; try done. unfold command_takes, rx_next in H. destruct (rx_queue (sv_commands s)) as [|[p d] q] eqn:E; simplify_eq/=.
    rewrite En, length_app. simpl. lia.
  - destruct (sv_command s) eqn:En; try done. unfold command_stops in H. destruct (rx_next _); simplify_eq/=. lia.
  - destruct (sv_command s) eqn:En; try done. unfold command_completes in H. destruct (sv_dropped s), (rx_queue (sv_commands s)), (rx_queue (sv_events s)); simplify_eq/=. lia.
  - destruct (sv_tasks s !! i) as [t|] eqn:Et; simplify_eq/=. pose proof (Permutation_length (delete_Permutation _ _ _ Et)) as Hlen. simpl in Hlen.
    destruct t as [p d|id m]; simpl; [lia|]. destruct (handle_node_msg world m (sv_node s)). simpl. lia.
Qed.
Lemma run_work w0 acts : forall s log s', Forall (fun a => internal a = true) acts -> run w0 acts s = Some (log, s') -> length acts <= work s.
Proof.
  induction acts as [|a acts IH]; intros s log s' Hi H; simpl in *; [lia|]. apply Forall_cons in Hi as [Ha Hi].
  apply bind_Some in H as (s1 & Hs & ([log1 s2] & Hrun & _)%bind_Some). apply (step_work a) in Hs; [|done]. apply IH in Hrun; [lia|done].
Qed.

(** A shutdown was asked for: what is left of it *)
Definition stopping (log : list (World * Op)) (s : Server) : Prop :=
  (sv_network s = Running -> rx_queue (sv_network_events s) <> []) /\
  (sv_command s = Running -> rx_queue (sv_events s) <> []) /\ (sv_command s <> Running -> exists world, (world, OpStop) ∈ log).
Record asked (acts : list Action) (log : list (World * Op)) (s : Server) : Prop := {
  asked_started : sv_network s <> NotStarted /\ (sv_command s = Running \/ sv_command s = Stopped);
  asked_why : sv_command s <> Running -> sv_dropped s = true \/ Shutdown ∈ acts;
  asked_events : rx_queue (sv_events s) <> [] -> Shutdown ∈ acts;
  asked_stopping : Shutdown ∈ acts -> stopping log s
}.

Lemma asked_frame acts log a ops s s' : asked acts log s -> a <> Shutdown -> sv_command s' = sv_command s -> sv_events s' = sv_events s ->
  (sv_network s' = sv_network s /\ sv_network_events s' = sv_network_events s) \/ (sv_network s' = Stopped \/ sv_network s' = Crashed) ->
  (sv_dropped s = true -> sv_dropped s' = true) -> asked (acts ++ [a]) (log ++ ops) s'.
Proof.
  intros [[Hn Hc] Hw Hq Hs] Ha Ec Ee En Ed. split.
  - rewrite Ec. split; [|done]. destruct En as [[-> _]|[-> | ->]]; done.
  - rewrite Ec. intros [?|?]%Hw; [left; by apply Ed|right; set_solver].
  - rewrite Ee. intros ?%Hq. set_solver.
  - intros [Hin|Hin]%elem_of_app; [|set_solver]. destruct (Hs Hin) as (Hne & Hev & Hst). split_and!.
    + destruct En as [[-> ->]|[-> | ->]]; done.
    + by rewrite Ec, Ee.
    + rewrite Ec. intros [w Hw']%Hst. exists w. set_solver.
Qed.
Lemma step_asked w0 a acts log s s' : linked s -> asked acts log s -> step a s = Some s' -> asked (acts ++ [a]) (log ++ step_ops w0 a s) s'.
Proof.
  intros [_ Hne _ Hev _] Has H. destruct a; simpl in H.
  - simplify_eq. apply (asked_frame _ _ _ _ s); auto.
  - simplify_eq. apply (asked_frame _ _ _ _ s); auto.
  - destruct (sv_dropped s); simplify_eq. unfold call. apply (asked_frame _ _ _ _ s); auto; by destruct (unbounded_send _ _); auto.
  - destruct (sv_dropped s) eqn:Ed; simplify_eq. simpl. rewrite app_nil_r. destruct Has as [[Hns Hcs] Hw _ Hs]. unfold shutdown, unbounded_send.
    destruct (sv_command s) eqn:Ec; simpl in Hev; [by destruct Hcs| | |by destruct Hcs]; cycle 1.
    1: rewrite Hev; simpl; destruct (Hw ltac:(done)) as [?|Hin]; [congruence|]; split; [by rewrite Ec; auto|rewrite Ec; intros _; right; set_solver|set_solver|by intros _; apply Hs].
    rewrite Hev. simpl. destruct (rx_alive (sv_network_events s)) eqn:El; split; simpl; rewrite ?Ec; auto; try set_solver; intros _; (split_and!; [|by destruct (rx_queue (sv_events s))|done]).
    + intros _. by destruct (rx_queue (sv_network_events s)).
    + simpl. intros En. by rewrite En in Hne.
  - destruct (sv_dropped s); simplify_eq. apply (asked_frame _ _ _ _ s); auto.
  - simplify_eq. apply (asked_frame _ _ _ _ s); auto.
  - destruct (sv_network s) eqn:En; try done. unfold network_takes in H. destruct (rx_next _) as [[[]]|]; simplify_eq/=. apply (asked_frame _ _ _ _ s); auto.
  - destruct (sv_network s) eqn:En; try done. unfold network_routes in H. destruct (rx_next _) as [[[p d] rr]|]; simplify_eq/=.
    destruct (send_router_message world p d (sv_node s)) as [[] n]; simplify_eq; apply (asked_frame _ _ _ _ s); auto.
  - destruct (sv_network s) eqn:En; try done. unfold network_stops in H. destruct (rx_next _); simplify_eq/=. apply (asked_frame _ _ _ _ s); auto.
  - destruct (sv_command s) eqn:En; try done. unfold command_takes in H. destruct (rx_next _) as [[[]]|]; simplify_eq/=. apply (asked_frame _ _ _ _ s); auto.
  - destruct (sv_command s) eqn:En; try done. unfold command_stops in H. destruct (rx_next (sv_events s)) eqn:Er; simplify_eq/=. destruct Has as [[Hns _] _ Hq Hs].
    assert (Shutdown ∈ acts) by (apply Hq; unfold rx_next in Er; by destruct (rx_queue (sv_events s))). split; simpl; [auto|set_solver..|].
    intros _. split_and!; [by apply Hs|done|]. intros _. exists w0. set_solver.
  - destruct (sv_command s) eqn:En; try done. unfold command_completes in H. destruct (sv_dropped s) eqn:Ed; [|done]. destruct Has as [[Hns _] _ _ Hs].
    destruct (rx_queue (sv_commands s)), (rx_queue (sv_events s)) eqn:Eq; simplify_eq/=. split; simpl; [auto..|done|].
    intros [Hin|]%elem_of_app; [|set_solver]. by destruct (proj1 (proj2 (Hs Hin)) En).
  - destruct (sv_tasks s !! i) as [t|]; simplify_eq/=. apply (asked_frame _ _ _ _ s); auto; destruct t; simpl; auto; by destruct (handle_node_msg _ _ _); auto.
Qed.

Lemma run_asked w0 n0 acts : forall acts0 log0 s log s', linked s -> ran n0 acts0 log0 s -> asked acts0 log0 s -> run w0 acts s = Some (log, s') ->
  asked (acts0 ++ acts) (log0 ++ log) s'.
Proof.
  induction acts as [|a acts IH]; intros acts0 log0 s log s' Hl Hr Ha H; simpl in H.
  - simplify_eq. by rewrite !app_nil_r.
  - apply bind_Some in H as (s1 & Hs & ([log1 s2] & Hrun & [= <- <-])%bind_Some).
    rewrite (cons_middle a), !(assoc_L (++)). by apply (IH _ _ s1); [eapply step_linked|apply step_ran|apply step_asked|].
Qed.
Lemma server_start_asked world {HO : HashOrder} answers n s0 : server_start world answers (Server_new n) = Ok s0 -> asked [] [] s0.
Proof.
  unfold server_start. simpl. destruct (start_server world answers n) as [[] n']; intros; simplify_eq. split; simpl; [auto|done..|set_solver].
Qed.

(** ** Properties *)


End server.
