(* ===== verification/NodeRpc.v ===== *)
(** * The RPC service of a node

    Models [src/node/node_proto/src/lib.rs], [src/node/node_service/src/lib.rs], [src/node/node_client/src/lib.rs] and the
    methods of [Node] in [src/node/node_internal/src/node.rs] that only they use: the requests and responses with their
    protobuf conversions, the handlers of the service over the node of [Node], and the client.  A protobuf message is
    the record that the build generates from [node.proto].  The outcome of a future that a handler awaits is an
    argument, [wait]; gRPC hands the client the response of the handler, or an error.

    The theorems: a call of the client has the effect of the call of the node, and returns its answer; and what makes a
    handler panic. *)
From S2P Require Import Prelude Codec Libra SchemaDB Accumulator ChannelTypes ChannelStore TxApplier Chain ChannelStm Channel Messages Wallet.
From S2P Require Import Invoices Futures Stats Node.

(** ** Requests and responses *)

(** The conversions of libra's [TransactionWithProof] *)
Class ProofCodec {L : Libra} := {
  pb_TransactionWithProof : Type;
  proof_into : TransactionWithProof -> pb_TransactionWithProof;
  proof_try_from : pb_TransactionWithProof -> res TransactionWithProof
}.
Class ProofCodecLaws {L : Libra} {PC : ProofCodec} : Prop := proof_roundtrip t : proof_try_from (proof_into t) = Ok t.

Section messages.
Context {L : Libra} {PC : ProofCodec}.

Record OpenChannelRequest := mkOpenChannelRequest { oc_remote_addr : AccountAddress; oc_local_amount : Z; oc_remote_amount : Z }.
Record pb_OpenChannelRequest := mk_pb_OpenChannelRequest { pb_oc_remote_addr : bytes; pb_oc_local_amount : Z; pb_oc_remote_amount : Z }.
Definition OpenChannelRequest_try_from (value : pb_OpenChannelRequest) : res OpenChannelRequest :=
  remote_addr ← address_try_from (pb_oc_remote_addr value);
  Ok (mkOpenChannelRequest remote_addr (pb_oc_local_amount value) (pb_oc_remote_amount value)).
Definition OpenChannelRequest_into (value : OpenChannelRequest) : pb_OpenChannelRequest :=
  mk_pb_OpenChannelRequest (address_to_vec (oc_remote_addr value)) (oc_local_amount value) (oc_remote_amount value).
#[global] Instance OpenChannelRequest_message : Message OpenChannelRequest pb_OpenChannelRequest :=
  {| try_from := OpenChannelRequest_try_from; into := OpenChannelRequest_into |}.

(** [PayRequest], [DepositRequest] and [WithdrawRequest] *)
Record PayRequest := mkPayRequest { py_remote_addr : AccountAddress; py_amount : Z }.
Record pb_PayRequest := mk_pb_PayRequest { pb_py_remote_addr : bytes; pb_py_amount : Z }.
Definition PayRequest_try_from (value : pb_PayRequest) : res PayRequest :=
  remote_addr ← address_try_from (pb_py_remote_addr value); Ok (mkPayRequest remote_addr (pb_py_amount value)).
Definition PayRequest_into (value : PayRequest) : pb_PayRequest := mk_pb_PayRequest (address_to_vec (py_remote_addr value)) (py_amount value).
#[global] Instance PayRequest_message : Message PayRequest pb_PayRequest := {| try_from := PayRequest_try_from; into := PayRequest_into |}.

Record DepositRequest := mkDepositRequest { dp_remote_addr : AccountAddress; dp_local_amount : Z }.
Record pb_DepositRequest := mk_pb_DepositRequest { pb_dp_remote_addr : bytes; pb_dp_local_amount : Z }.
Definition DepositRequest_try_from (value : pb_DepositRequest) : res DepositRequest :=
  remote_addr ← address_try_from (pb_dp_remote_addr value); Ok (mkDepositRequest remote_addr (pb_dp_local_amount value)).
Definition DepositRequest_into (value : DepositRequest) : pb_DepositRequest :=
  mk_pb_DepositRequest (address_to_vec (dp_remote_addr value)) (dp_local_amount value).
#[global] Instance DepositRequest_message : Message DepositRequest pb_DepositRequest :=
  {| try_from := DepositRequest_try_from; into := DepositRequest_into |}.

Record WithdrawRequest := mkWithdrawRequest { wd_remote_addr : AccountAddress; wd_local_amount : Z }.
Record pb_WithdrawRequest := mk_pb_WithdrawRequest { pb_wd_remote_addr : bytes; pb_wd_local_amount : Z }.
Definition WithdrawRequest_try_from (value : pb_WithdrawRequest) : res WithdrawRequest :=
  remote_addr ← address_try_from (pb_wd_remote_addr value); Ok (mkWithdrawRequest remote_addr (pb_wd_local_amount value)).
Definition WithdrawRequest_into (value : WithdrawRequest) : pb_WithdrawRequest :=
  mk_pb_WithdrawRequest (address_to_vec (wd_remote_addr value)) (wd_local_amount value).
#[global] Instance WithdrawRequest_message : Message WithdrawRequest pb_WithdrawRequest :=
  {| try_from := WithdrawRequest_try_from; into := WithdrawRequest_into |}.

(** The responses without fields *)
Inductive OpenChannelResponse := mkOpenChannelResponse.
Inductive PayResponse := mkPayResponse.
Inductive DepositResponse := mkDepositResponse.
Inductive WithdrawResponse := mkWithdrawResponse.
Inductive InstallChannelScriptPackageResponse := mkInstallResponse.
Inductive EmptyResponse := mkEmptyResponse.
Inductive pb_Empty := mk_pb_Empty.
#[global] Instance OpenChannelResponse_message : Message OpenChannelResponse pb_Empty :=
  {| try_from := fun _ => Ok mkOpenChannelResponse; into := fun _ => mk_pb_Empty |}.
#[global] Instance PayResponse_message : Message PayResponse pb_Empty := {| try_from := fun _ => Ok mkPayResponse; into := fun _ => mk_pb_Empty |}.
#[global] Instance DepositResponse_message : Message DepositResponse pb_Empty :=
  {| try_from := fun _ => Ok mkDepositResponse; into := fun _ => mk_pb_Empty |}.
#[global] Instance WithdrawResponse_message : Message WithdrawResponse pb_Empty :=
  {| try_from := fun _ => Ok mkWithdrawResponse; into := fun _ => mk_pb_Empty |}.
#[global] Instance InstallResponse_message : Message InstallChannelScriptPackageResponse pb_Empty :=
  {| try_from := fun _ => Ok mkInstallResponse; into := fun _ => mk_pb_Empty |}.
#[global] Instance EmptyResponse_message : Message EmptyResponse pb_Empty := {| try_from := fun _ => Ok mkEmptyResponse; into := fun _ => mk_pb_Empty |}.

Record ChannelBalanceRequest := mkChannelBalanceRequest { cb_remote_addr : AccountAddress }.
Record pb_ChannelBalanceRequest := mk_pb_ChannelBalanceRequest { pb_cb_remote_addr : bytes }.
Definition ChannelBalanceRequest_try_from (value : pb_ChannelBalanceRequest) : res ChannelBalanceRequest :=
  remote_addr ← address_try_from (pb_cb_remote_addr value); Ok (mkChannelBalanceRequest remote_addr).
Definition ChannelBalanceRequest_into (value : ChannelBalanceRequest) : pb_ChannelBalanceRequest :=
  mk_pb_ChannelBalanceRequest (address_to_vec (cb_remote_addr value)).
#[global] Instance ChannelBalanceRequest_message : Message ChannelBalanceRequest pb_ChannelBalanceRequest :=
  {| try_from := ChannelBalanceRequest_try_from; into := ChannelBalanceRequest_into |}.
Record ChannelBalanceResponse := mkChannelBalanceResponse { cb_balance : Z }.
Record pb_ChannelBalanceResponse := mk_pb_ChannelBalanceResponse { pb_cb_balance : Z }.
Definition ChannelBalanceResponse_try_from (value : pb_ChannelBalanceResponse) : res ChannelBalanceResponse :=
  Ok (mkChannelBalanceResponse (pb_cb_balance value)).
Definition ChannelBalanceResponse_into (value : ChannelBalanceResponse) : pb_ChannelBalanceResponse := mk_pb_ChannelBalanceResponse (cb_balance value).
#[global] Instance ChannelBalanceResponse_message : Message ChannelBalanceResponse pb_ChannelBalanceResponse :=
  {| try_from := ChannelBalanceResponse_try_from; into := ChannelBalanceResponse_into |}.

Record InstallChannelScriptPackageRequest := mkInstallRequest { ip_package : ChannelScriptPackage }.
Record pb_InstallChannelScriptPackageRequest := mk_pb_InstallRequest { pb_ip_package : option pb_ChannelScriptPackage }.
Definition InstallRequest_try_from (value : pb_InstallChannelScriptPackageRequest) : res InstallChannelScriptPackageRequest :=
  p ← ok_or (pb_ip_package value) "Missing channel_script_package";
  package ← try_from p;
  Ok (mkInstallRequest package).
Definition InstallRequest_into (value : InstallChannelScriptPackageRequest) : pb_InstallChannelScriptPackageRequest :=
  mk_pb_InstallRequest (Some (into (ip_package value))).
#[global] Instance InstallRequest_message : Message InstallChannelScriptPackageRequest pb_InstallChannelScriptPackageRequest :=
  {| try_from := InstallRequest_try_from; into := InstallRequest_into |}.

Record DeployModuleRequest := mkDeployModuleRequest { dm_module_bytes : bytes }.
Record pb_DeployModuleRequest := mk_pb_DeployModuleRequest { pb_dm_module_bytes : bytes }.
Definition DeployModuleRequest_try_from (value : pb_DeployModuleRequest) : res DeployModuleRequest := Ok (mkDeployModuleRequest (pb_dm_module_bytes value)).
Definition DeployModuleRequest_into (value : DeployModuleRequest) : pb_DeployModuleRequest := mk_pb_DeployModuleRequest (dm_module_bytes value).
#[global] Instance DeployModuleRequest_message : Message DeployModuleRequest pb_DeployModuleRequest :=
  {| try_from := DeployModuleRequest_try_from; into := DeployModuleRequest_into |}.
Record DeployModuleResponse := mkDeployModuleResponse { dm_transaction : TransactionWithProof }.
Record pb_DeployModuleResponse := mk_pb_DeployModuleResponse { pb_dm_transaction : option pb_TransactionWithProof }.
Definition DeployModuleResponse_try_from (value : pb_DeployModuleResponse) : res DeployModuleResponse :=
  t ← ok_or (pb_dm_transaction value) "Missing transaction_with_proof";
  transaction ← proof_try_from t;
  Ok (mkDeployModuleResponse transaction).
Definition DeployModuleResponse_into (value : DeployModuleResponse) : pb_DeployModuleResponse :=
  mk_pb_DeployModuleResponse (Some (proof_into (dm_transaction value))).
#[global] Instance DeployModuleResponse_message : Message DeployModuleResponse pb_DeployModuleResponse :=
  {| try_from := DeployModuleResponse_try_from; into := DeployModuleResponse_into |}.

Record ExecuteScriptRequest := mkExecuteScriptRequest {
  es_remote_addr : AccountAddress; es_package_name : string; es_script_name : string; es_force_execute : bool; es_args : list TransactionArgument
}.
Record pb_ExecuteScriptRequest := mk_pb_ExecuteScriptRequest {
  pb_es_remote_addr : bytes; pb_es_package_name : string; pb_es_script_name : string; pb_es_force_execute : bool; pb_es_args : list pb_TransactionArgument
}.
Definition ExecuteScriptRequest_try_from (value : pb_ExecuteScriptRequest) : res ExecuteScriptRequest :=
  remote_addr ← address_try_from (pb_es_remote_addr value);
  args ← mapM arg_try_from (pb_es_args value);
  Ok (mkExecuteScriptRequest remote_addr (pb_es_package_name value) (pb_es_script_name value) (pb_es_force_execute value) args).
Definition ExecuteScriptRequest_into (value : ExecuteScriptRequest) : pb_ExecuteScriptRequest :=
  mk_pb_ExecuteScriptRequest (address_to_vec (es_remote_addr value)) (es_package_name value) (es_script_name value) (es_force_execute value)
    (arg_into <$> es_args value).
#[global] Instance ExecuteScriptRequest_message : Message ExecuteScriptRequest pb_ExecuteScriptRequest :=
  {| try_from := ExecuteScriptRequest_try_from; into := ExecuteScriptRequest_into |}.
Record ExecuteScriptResponse := mkExecuteScriptResponse { es_channel_seq_number : Z }.
Record pb_ExecuteScriptResponse := mk_pb_ExecuteScriptResponse { pb_channel_sequence_number : Z }.
Definition ExecuteScriptResponse_try_from (value : pb_ExecuteScriptResponse) : res ExecuteScriptResponse :=
  Ok (mkExecuteScriptResponse (pb_channel_sequence_number value)).
Definition ExecuteScriptResponse_into (value : ExecuteScriptResponse) : pb_ExecuteScriptResponse :=
  mk_pb_ExecuteScriptResponse (es_channel_seq_number value).
#[global] Instance ExecuteScriptResponse_message : Message ExecuteScriptResponse pb_ExecuteScriptResponse :=
  {| try_from := ExecuteScriptResponse_try_from; into := ExecuteScriptResponse_into |}.

Record QueryTransactionQuest := mkQueryTransactionQuest { qt_participant_address : AccountAddress; qt_channel_seq_number : Z }.
Record pb_QueryTransactionQuest := mk_pb_QueryTransactionQuest { pb_qt_participant_address : bytes; pb_qt_channel_seq_number : Z }.
Definition QueryTransactionQuest_try_from (request : pb_QueryTransactionQuest) : res QueryTransactionQuest :=
  participant_address ← address_try_from (pb_qt_participant_address request);
  Ok (mkQueryTransactionQuest participant_address (pb_qt_channel_seq_number request)).
Definition QueryTransactionQuest_into (request : QueryTransactionQuest) : pb_QueryTransactionQuest :=
  mk_pb_QueryTransactionQuest (address_to_vec (qt_participant_address request)) (qt_channel_seq_number request).
#[global] Instance QueryTransactionQuest_message : Message QueryTransactionQuest pb_QueryTransactionQuest :=
  {| try_from := QueryTransactionQuest_try_from; into := QueryTransactionQuest_into |}.

Record GetChannelTransactionProposalResponse := mkGetProposalResponse { gp_channel_transaction : option ChannelTransaction }.
Record pb_GetChannelTransactionProposalResponse := mk_pb_GetProposalResponse { pb_gp_channel_transaction : option pb_ChannelTransaction }.
Definition GetProposalResponse_try_from (request : pb_GetChannelTransactionProposalResponse) : res GetChannelTransactionProposalResponse :=
  match pb_gp_channel_transaction request with
  | Some t => t ← try_from t; Ok (mkGetProposalResponse (Some t))
  | None => Ok (mkGetProposalResponse None)
  end.
Definition GetProposalResponse_into (request : GetChannelTransactionProposalResponse) : pb_GetChannelTransactionProposalResponse :=
  match gp_channel_transaction request with
  | Some t => mk_pb_GetProposalResponse (Some (into t))
  | None => mk_pb_GetProposalResponse None
  end.
#[global] Instance GetProposalResponse_message : Message GetChannelTransactionProposalResponse pb_GetChannelTransactionProposalResponse :=
  {| try_from := GetProposalResponse_try_from; into := GetProposalResponse_into |}.

Record ChannelTransactionProposalRequest := mkProposalRequest { pr_participant_address : AccountAddress; pr_transaction_hash : HashValue; pr_approve : bool }.
Record pb_ChannelTransactionProposalRequest := mk_pb_ProposalRequest {
  pb_pr_participant_address : bytes; pb_pr_transaction_hash : bytes; pb_pr_approve : bool
}.
Definition ProposalRequest_try_from (request : pb_ChannelTransactionProposalRequest) : res ChannelTransactionProposalRequest :=
  participant_address ← address_try_from (pb_pr_participant_address request);
  transaction_hash ← hash_from_slice (pb_pr_transaction_hash request);
  Ok (mkProposalRequest participant_address transaction_hash (pb_pr_approve request)).
Definition ProposalRequest_into (request : ChannelTransactionProposalRequest) : pb_ChannelTransactionProposalRequest :=
  mk_pb_ProposalRequest (address_to_vec (pr_participant_address request)) (hash_to_vec (pr_transaction_hash request)) (pr_approve request).
#[global] Instance ProposalRequest_message : Message ChannelTransactionProposalRequest pb_ChannelTransactionProposalRequest :=
  {| try_from := ProposalRequest_try_from; into := ProposalRequest_into |}.

(** [AddInvoiceRequest], [AddInvoiceResponse] and [PaymentRequest] *)
Record AddInvoiceRequest := mkAddInvoiceRequest { ai_amount : Z }.
Record pb_AddInvoiceRequest := mk_pb_AddInvoiceRequest { pb_ai_amount : Z }.
Definition AddInvoiceRequest_try_from (request : pb_AddInvoiceRequest) : res AddInvoiceRequest := Ok (mkAddInvoiceRequest (pb_ai_amount request)).
Definition AddInvoiceRequest_into (request : AddInvoiceRequest) : pb_AddInvoiceRequest := mk_pb_AddInvoiceRequest (ai_amount request).
#[global] Instance AddInvoiceRequest_message : Message AddInvoiceRequest pb_AddInvoiceRequest :=
  {| try_from := AddInvoiceRequest_try_from; into := AddInvoiceRequest_into |}.
Record AddInvoiceResponse := mkAddInvoiceResponse { ai_encoded_invoice : string }.
Record pb_AddInvoiceResponse := mk_pb_AddInvoiceResponse { pb_ai_encoded_invoice : string }.
Definition AddInvoiceResponse_try_from (request : pb_AddInvoiceResponse) : res AddInvoiceResponse := Ok (mkAddInvoiceResponse (pb_ai_encoded_invoice request)).
Definition AddInvoiceResponse_into (request : AddInvoiceResponse) : pb_AddInvoiceResponse := mk_pb_AddInvoiceResponse (ai_encoded_invoice request).
#[global] Instance AddInvoiceResponse_message : Message AddInvoiceResponse pb_AddInvoiceResponse :=
  {| try_from := AddInvoiceResponse_try_from; into := AddInvoiceResponse_into |}.
Record PaymentRequest := mkPaymentRequest { pm_encoded_invoice : string }.
Record pb_PaymentRequest := mk_pb_PaymentRequest { pb_pm_encoded_invoice : string }.
Definition PaymentRequest_try_from (request : pb_PaymentRequest) : res PaymentRequest := Ok (mkPaymentRequest (pb_pm_encoded_invoice request)).
Definition PaymentRequest_into (request : PaymentRequest) : pb_PaymentRequest := mk_pb_PaymentRequest (pm_encoded_invoice request).
#[global] Instance PaymentRequest_message : Message PaymentRequest pb_PaymentRequest :=
  {| try_from := PaymentRequest_try_from; into := PaymentRequest_into |}.

(** What a message means survives the conversion. *)
Context {LL : LibraLaws} {PCL : ProofCodecLaws}.
#[local] Arguments mapM : simpl never.
#[local] Arguments fmap : simpl never.
Ltac unpack := intros [] _; unfold try_from, into; simpl; repeat first
  [ progress unfold OpenChannelRequest_try_from, PayRequest_try_from, DepositRequest_try_from, WithdrawRequest_try_from, ChannelBalanceRequest_try_from,
      InstallRequest_try_from, DeployModuleResponse_try_from, ExecuteScriptRequest_try_from, QueryTransactionQuest_try_from, ProposalRequest_try_from
  | progress simpl | rewrite address_roundtrip | rewrite hash_roundtrip | rewrite proof_roundtrip
  | rewrite mapM_roundtrip by (intros; apply arg_roundtrip) | rewrite try_from_into by done ]; try done.
#[global] Instance OpenChannelRequest_roundtrip : RoundTrip OpenChannelRequest (fun _ => True).
Proof. unpack. Qed.
#[global] Instance PayRequest_roundtrip : RoundTrip PayRequest (fun _ => True).
Proof. unpack. Qed.
#[global] Instance DepositRequest_roundtrip : RoundTrip DepositRequest (fun _ => True).
Proof. unpack. Qed.
#[global] Instance WithdrawRequest_roundtrip : RoundTrip WithdrawRequest (fun _ => True).
Proof. unpack. Qed.
#[global] Instance ChannelBalanceRequest_roundtrip : RoundTrip ChannelBalanceRequest (fun _ => True).
Proof. unpack. Qed.
#[global] Instance InstallRequest_roundtrip : RoundTrip InstallChannelScriptPackageRequest (fun _ => True).
Proof.
  intros [p] _. change (InstallRequest_try_from (mk_pb_InstallRequest (Some (into p))) = Ok (mkInstallRequest p)).
  unfold InstallRequest_try_from. cbn [ok_or pb_ip_package]. rstep. by rewrite try_from_into.
Qed.
#[global] Instance DeployModuleResponse_roundtrip : RoundTrip DeployModuleResponse (fun _ => True).
Proof. unpack. Qed.
#[global] Instance ExecuteScriptRequest_roundtrip : RoundTrip ExecuteScriptRequest (fun _ => True).
Proof. unpack. Qed.
#[global] Instance QueryTransactionQuest_roundtrip : RoundTrip QueryTransactionQuest (fun _ => True).
Proof. unpack. Qed.
#[global] Instance ProposalRequest_roundtrip : RoundTrip ChannelTransactionProposalRequest (fun _ => True).
Proof. unpack. Qed.
#[global] Instance OpenChannelResponse_roundtrip : RoundTrip OpenChannelResponse (fun _ => True).
Proof. by intros []. Qed.
#[global] Instance PayResponse_roundtrip : RoundTrip PayResponse (fun _ => True).
Proof. by intros []. Qed.
#[global] Instance DepositResponse_roundtrip : RoundTrip DepositResponse (fun _ => True).
Proof. by intros []. Qed.
#[global] Instance WithdrawResponse_roundtrip : RoundTrip WithdrawResponse (fun _ => True).
Proof. by intros []. Qed.
#[global] Instance ChannelBalanceResponse_roundtrip : RoundTrip ChannelBalanceResponse (fun _ => True).
Proof. by intros []. Qed.
#[global] Instance InstallResponse_roundtrip : RoundTrip InstallChannelScriptPackageResponse (fun _ => True).
Proof. by intros []. Qed.
#[global] Instance DeployModuleRequest_roundtrip : RoundTrip DeployModuleRequest (fun _ => True).
Proof. by intros []. Qed.
#[global] Instance AddInvoiceRequest_roundtrip : RoundTrip AddInvoiceRequest (fun _ => True).
Proof. by intros []. Qed.
#[global] Instance PaymentRequest_roundtrip : RoundTrip PaymentRequest (fun _ => True).
Proof. by intros []. Qed.
#[global] Instance ExecuteScriptResponse_roundtrip : RoundTrip ExecuteScriptResponse (fun _ => True).
Proof. by intros []. Qed.
#[global] Instance EmptyResponse_roundtrip : RoundTrip EmptyResponse (fun _ => True).
Proof. by intros []. Qed.
#[global] Instance AddInvoiceResponse_roundtrip : RoundTrip AddInvoiceResponse (fun _ => True).
Proof. by intros []. Qed.
#[global] Instance GetProposalResponse_roundtrip :
  RoundTrip GetChannelTransactionProposalResponse (fun r => match gp_channel_transaction r with Some t => txn_wf t | None => True end).
Proof.
  intros [[t|]] Hwf; [|done]. change (GetProposalResponse_try_from (mk_pb_GetProposalResponse (Some (into t))) = Ok (mkGetProposalResponse (Some t))).
  unfold GetProposalResponse_try_from. cbn [pb_gp_channel_transaction]. by rewrite try_from_into.
Qed.
End messages.

(** ** The methods of [Node] for the service *)

Section rpc.
Context {L : Libra} {K : Chain} {CC : ChannelTxnCodec} {NP : NodeProst} {HX : Hex} {RN : Rng} {PC : ProofCodec}.
Context {W : Type} {WO : WalletOps W}.
Context (world : World) (wait : nat -> Z + string).
Notation N := (stM (Node W)).

(** A oneshot receiver that is awaited: [None] when the sender was dropped.  A command whose handler panics drops
    its responder, and [resp_receiver.await?] is an error. *)
Notation Rx T := (option (T + string)).
Definition awaited {T} (m : N T) : N (T + string) := fun n =>
  let '(r, n') := m n in
  (Ok match r with Ok t => inl t | Err e => inr e | Panic _ => inr "oneshot canceled" end, n').
(** The future of a request, awaited in its turn *)
Definition finish {T} (t : Z -> T) (r : res nat + string) : T + string :=
  match r with
  | inl (Ok f) => match wait f with inl x => inl (t x) | inr e => inr e end
  | inl (Err e) | inr e => inr e
  | inl (Panic _) => inr "oneshot canceled"
  end.
Definition open_channel_oneshot (receiver : AccountAddress) (sender_amount receiver_amount : Z) : N (Rx OpenChannelResponse) :=
  r ← awaited (open_channel_async world receiver sender_amount receiver_amount); mret (Some (finish (fun _ => mkOpenChannelResponse) r)).
Definition deposit_oneshot (receiver : AccountAddress) (sender_amount : Z) : N (Rx DepositResponse) :=
  r ← awaited (deposit_async world receiver sender_amount); mret (Some (finish (fun _ => mkDepositResponse) r)).
Definition withdraw_oneshot (receiver : AccountAddress) (sender_amount : Z) : N (Rx WithdrawResponse) :=
  r ← awaited (withdraw_async world receiver sender_amount); mret (Some (finish (fun _ => mkWithdrawResponse) r)).
Definition off_chain_pay_oneshot (receiver : AccountAddress) (sender_amount : Z) : N (Rx PayResponse) :=
  r ← awaited (off_chain_pay_async world receiver sender_amount); mret (Some (finish (fun _ => mkPayResponse) r)).

(** A command, and the answer to its responder *)
Definition command {T} (msg : NodeMessage) (pick : Answer -> option (res T)) : N (Rx T) := fun n =>
  let '(r, n') := handle_node_msg world msg n in
  (Ok match r with
      | Ok a => match pick a with Some (Ok t) => Some (inl t) | Some (Err e) => Some (inr e) | _ => None end
      | _ => None
      end, n').
Definition received {T} (rx : Rx T) : T + string := default (inr "oneshot canceled") rx.
Definition channel_balance_async (participant : AccountAddress) : N (Z + string) :=
  rx ← command (NChannelBalance participant) (fun a => match a with AAmount r => Some r | _ => None end); mret (received rx).
(** [install_package]: nobody waits for the answer. *)
Definition node_install_package (channel_script_package : ChannelScriptPackage) : N unit :=
  _ ← command (NInstall channel_script_package) (fun a => match a with AUnit r => Some r | _ => None end); mret tt.
Definition deploy_package_oneshot (module_code : bytes) : N (Rx DeployModuleResponse) :=
  command (NDeployModule module_code) (fun a => match a with AModule r => Some (t ← r; Ok (mkDeployModuleResponse t)) | _ => None end).
Definition execute_script_oneshot (receiver_address : AccountAddress) (package_name script_name : string) (force_execute : bool)
    (transaction_args : list TransactionArgument) : N (Rx ExecuteScriptResponse + string) :=
  rx ← command (NExecute receiver_address package_name script_name force_execute transaction_args) (fun a => match a with AFuture r => Some r | _ => None end);
  mret match received rx with
       | inl f => inl (Some match wait f with inl id => inl (mkExecuteScriptResponse id) | inr e => inr e end)
       | inr e => inr e
       end.
Definition node_get_txn (participant_address : AccountAddress) (channel_seq_number : Z) : N (SignedChannelTransaction + string) :=
  rx ← command (NTxnBySn participant_address channel_seq_number) (fun a => match a with ATxn r => Some r | _ => None end); mret (received rx).
Definition get_channel_transaction_proposal_oneshot (participant_address : AccountAddress) : N (Rx GetChannelTransactionProposalResponse) :=
  r ← attempt (get_channel_transaction_proposal_async participant_address);
  mret (Some match r with inl t => inl (mkGetProposalResponse t) | inr e => inr e end).
Definition channel_transaction_proposal_async (participant_address : AccountAddress) (transaction_hash : HashValue) (approve : bool) : N (EmptyResponse + string) :=
  rx ← command (NChannelTransactionProposal participant_address transaction_hash approve) (fun a => match a with AFuture r => Some r | _ => None end);
  mret match received rx with inl _ => inl mkEmptyResponse | inr e => inr e end.

(** ** [NodeService] *)

Inductive RpcStatusCode := RpcUnknown | RpcInternal.
Record RpcStatus := mkRpcStatus { status_code : RpcStatusCode; status_details : string }.
Definition failed {P} (e : string) : P + RpcStatus := inr (mkRpcStatus RpcUnknown ("Failed to process request: " +:+ e)).
(** [process_response], and the match on a [Result] that the other handlers write out *)
Definition process_response {T P} `{Message T P} (resp : Rx T) : P + RpcStatus :=
  match resp with
  | Some (inl response) => inl (into response)
  | Some (inr err) => failed err
  | None => inr (mkRpcStatus RpcInternal "Executor Internal error: sender is dropped.")
  end.
Definition respond {T P} `{Message T P} (r : T + string) : P + RpcStatus := match r with inl t => inl (into t) | inr e => failed e end.

Definition service_open_channel (req : pb_OpenChannelRequest) : N (pb_Empty + RpcStatus) :=
  request ← lift (expect_ok (try_from req));
  rx ← open_channel_oneshot (oc_remote_addr request) (oc_local_amount request) (oc_remote_amount request);
  mret (process_response rx).
Definition service_pay (req : pb_PayRequest) : N (pb_Empty + RpcStatus) :=
  request ← lift (expect_ok (try_from req));
  rx ← off_chain_pay_oneshot (py_remote_addr request) (py_amount request); mret (process_response rx).
Definition service_deposit (req : pb_DepositRequest) : N (pb_Empty + RpcStatus) :=
  request ← lift (expect_ok (try_from req));
  rx ← deposit_oneshot (dp_remote_addr request) (dp_local_amount request); mret (process_response rx).
Definition service_withdraw (req : pb_WithdrawRequest) : N (pb_Empty + RpcStatus) :=
  request ← lift (expect_ok (try_from req));
  rx ← withdraw_oneshot (wd_remote_addr request) (wd_local_amount request); mret (process_response rx).
Definition service_channel_balance (req : pb_ChannelBalanceRequest) : N (pb_ChannelBalanceResponse + RpcStatus) :=
  request ← lift (expect_ok (try_from req));
  r ← channel_balance_async (cb_remote_addr request);
  let balance := match r with inl balance => balance | inr _ => 0%Z end in
  mret (inl (into (mkChannelBalanceResponse balance))).
Definition service_install_channel_script_package (req : pb_InstallChannelScriptPackageRequest) : N (pb_Empty + RpcStatus) :=
  request ← lift (expect_ok (try_from req));
  _ ← node_install_package (ip_package request);
  mret (inl (into mkInstallResponse)).
Definition service_deploy_module (req : pb_DeployModuleRequest) : N (pb_DeployModuleResponse + RpcStatus) :=
  request ← lift (expect_ok (try_from req));
  rx ← deploy_package_oneshot (dm_module_bytes request); mret (process_response rx).
Definition service_execute_script (req : pb_ExecuteScriptRequest) : N (pb_ExecuteScriptResponse + RpcStatus) :=
  request ← lift (expect_ok (try_from req));
  r ← execute_script_oneshot (es_remote_addr request) (es_package_name request) (es_script_name request) (es_force_execute request) (es_args request);
  mret match r with inl rx => process_response rx | inr e => failed e end.
Definition service_query_transaction (req : pb_QueryTransactionQuest) : N (pb_SignedChannelTransaction + RpcStatus) :=
  request ← lift (expect_ok (try_from req));
  rx ← node_get_txn (qt_participant_address request) (qt_channel_seq_number request); mret (respond rx).
Definition service_get_channel_transaction_proposal (req : pb_ChannelBalanceRequest) : N (pb_GetChannelTransactionProposalResponse + RpcStatus) :=
  request ← lift (expect_ok (try_from req));
  rx ← get_channel_transaction_proposal_oneshot (cb_remote_addr request); mret (process_response rx).
Definition service_channel_transaction_proposal (req : pb_ChannelTransactionProposalRequest) : N (pb_Empty + RpcStatus) :=
  request ← lift (expect_ok (try_from req));
  result ← channel_transaction_proposal_async (pr_participant_address request) (pr_transaction_hash request) (pr_approve request); mret (respond result).
Definition service_add_invoice (req : pb_AddInvoiceRequest) : N (pb_AddInvoiceResponse + RpcStatus) :=
  request ← lift (expect_ok (try_from req));
  r ← attempt (add_invoice world (ai_amount request));
  mret match r with inl invoice => inl (into (mkAddInvoiceResponse (Invoice_to_string invoice))) | inr e => failed e end.
(** [send_payment] parses the invoice itself, then sends a command; it does not wait for the payment. *)
Definition pay_invoice (encoded_invoice : string) : N (EmptyResponse + string) :=
  match Invoice_from_string encoded_invoice with
  | Panic e => lift (Panic e)
  | _ =>
      r ← awaited (off_chain_pay_htlc_async_string world encoded_invoice);
      mret match r with inl (Ok _) => inl mkEmptyResponse | inl (Err e) | inr e => inr e | inl (Panic _) => inr "oneshot canceled" end
  end.
Definition service_send_payment (req : pb_PaymentRequest) : N (pb_Empty + RpcStatus) :=
  request ← lift (expect_ok (try_from req));
  r ← pay_invoice (pm_encoded_invoice request); mret (respond r).

(** ** [NodeClient] *)

(** gRPC: the client gets the response of the handler, or an error with the text of its status, or an error when
    the handler panicked and dropped its sink. *)
Context (status_text : RpcStatus -> string) (dropped_text : string).
Definition grpc {P} (r : res (P + RpcStatus)) : P + string :=
  match r with
  | Ok (inl response) => inl response
  | Ok (inr status) => inr (status_text status)
  | Err _ | Panic _ => inr dropped_text
  end.
(** The body of every method: [client] is the stub that the build generates for the handler. *)
Definition client_call {A M B P} `{Message A M, Message B P} (client : M -> N (P + RpcStatus)) (request : A) : N B := fun n =>
  let '(r, n') := client (into request) n in
  match grpc r with
  | inl proto_response => (try_from proto_response, n')
  | inr err => (Err ("GRPC error: " +:+ err), n')
  end.
Definition client_open_channel : OpenChannelRequest -> N OpenChannelResponse := client_call service_open_channel.
Definition client_pay : PayRequest -> N PayResponse := client_call service_pay.
Definition client_withdraw : WithdrawRequest -> N WithdrawResponse := client_call service_withdraw.
Definition client_channel_balance : ChannelBalanceRequest -> N ChannelBalanceResponse := client_call service_channel_balance.
Definition client_deposit : DepositRequest -> N DepositResponse := client_call service_deposit.
Definition client_install_channel_script_package : InstallChannelScriptPackageRequest -> N InstallChannelScriptPackageResponse :=
  client_call service_install_channel_script_package.
Definition client_deploy_module : DeployModuleRequest -> N DeployModuleResponse := client_call service_deploy_module.
Definition client_execute_script : ExecuteScriptRequest -> N ExecuteScriptResponse := client_call service_execute_script.
Definition client_get_channel_transaction_proposal : ChannelBalanceRequest -> N GetChannelTransactionProposalResponse :=
  client_call service_get_channel_transaction_proposal.
Definition client_channel_transaction_proposal : ChannelTransactionProposalRequest -> N EmptyResponse := client_call service_channel_transaction_proposal.
Definition client_add_invoice : AddInvoiceRequest -> N AddInvoiceResponse := client_call service_add_invoice.
Definition client_send_payment : PaymentRequest -> N EmptyResponse := client_call service_send_payment.

(** ** What the client gets *)

(** A call leaves the node as the method does, returns an answer exactly when the method has it, and an error
    otherwise. *)
Definition reaches {B T} (call : N B) (method : N T) (answer : T -> option B) : Prop := forall n,
  let '(r, n') := method n in
  exists r', call n = (r', n') /\ no_panic r' /\ forall b, r' = Ok b <-> exists t, r = Ok t /\ answer t = Some b.
Definition rx_answer {T} (rx : Rx T) : option T := match rx with Some (inl t) => Some t | _ => None end.
Definition sum_answer {T} (r : T + string) : option T := match r with inl t => Some t | inr _ => None end.

Context {LL : LibraLaws} {PCL : ProofCodecLaws}.

Lemma client_call_reaches {A M B P T} `{HA : Message A M, HB : Message B P} (wfa : A -> Prop) (wfb : B -> Prop) `{!RoundTrip A wfa, !RoundTrip B wfb}
    (method : A -> N T) (out : T -> P + RpcStatus) (answer : T -> option B) (request : A) (Q : T -> Prop) :
  wfa request -> (forall n t n', method request n = (Ok t, n') -> Q t) ->
  (forall t, Q t -> match answer t with Some b => wfb b /\ out t = inl (into b) | None => exists st, out t = inr st end) ->
  reaches (client_call (fun req => request ← lift (expect_ok (try_from req)); t ← method request; mret (out t)) request) (method request) answer.
Proof.
  intros Hwf HQ Hout n. destruct (method request n) as [r n'] eqn:E. unfold client_call, lift, mbind, stM_bind. rewrite try_from_into by done. simpl. rewrite E.
  destruct r as [t|e|e]; simpl.
  - specialize (Hout t (HQ _ _ _ E)). destruct (answer t) as [b|] eqn:Ea.
    + destruct Hout as [Hb ->]. simpl. rewrite try_from_into by done. eexists. split; [done|]. split; [done|]. intros b'. split; [intros [= <-]; eauto|].
      intros (t' & [= <-] & Ht). rewrite Ea in Ht. by injection Ht as <-.
    + destruct Hout as [st ->]. simpl. eexists. split; [done|]. split; [done|]. intros b. split; [done|]. intros (t' & [= <-] & Ht). by rewrite Ea in Ht.
  - eexists. split; [done|]. split; [done|]. intros b. split; [done|]. by intros (t & [=] & _).
  - eexists. split; [done|]. split; [done|]. intros b. split; [done|]. by intros (t & [=] & _).
Qed.
Lemma process_response_out {B P} `{HB : Message B P} (rx : Rx B) (wfb : B -> Prop) : (forall b, rx = Some (inl b) -> wfb b) ->
  match rx_answer rx with Some b => wfb b /\ process_response rx = inl (into b) | None => exists st, process_response rx = inr st end.
Proof. intros Hwf. destruct rx as [[b|e]|]; simpl; [split; [by apply Hwf|done]|by eexists..]. Qed.
Lemma respond_out {B P} `{HB : Message B P} (r : B + string) :
  match sum_answer r with Some b => True /\ respond r = inl (into b) | None => exists st, respond r = inr st end.
Proof. destruct r; simpl; [done|by eexists]. Qed.

(** The two usual handlers *)
Lemma rx_reaches {A M B P} `{HA : Message A M, HB : Message B P} (wfb : B -> Prop) `{!RoundTrip A (fun _ => True), !RoundTrip B wfb} (method : A -> N (Rx B)) request :
  (forall n b n', method request n = (Ok (Some (inl b)), n') -> wfb b) ->
  reaches (client_call (fun req => request ← lift (expect_ok (try_from req)); rx ← method request; mret (process_response rx)) request) (method request) rx_answer.
Proof.
  intros Hwf. apply (client_call_reaches (fun _ => True) wfb method process_response rx_answer request (fun rx => forall b, rx = Some (inl b) -> wfb b)); [done| |].
  - intros n rx n' E b ->. by eapply Hwf.
  - intros rx Hrx. by apply process_response_out.
Qed.
Lemma respond_reaches {A M B P} `{HA : Message A M, HB : Message B P} `{!RoundTrip A (fun _ => True), !RoundTrip B (fun _ => True)} (method : A -> N (B + string)) request :
  reaches (client_call (fun req => request ← lift (expect_ok (try_from req)); r ← method request; mret (respond r)) request) (method request) sum_answer.
Proof. apply (client_call_reaches (fun _ => True) (fun _ => True) method respond sum_answer request (fun _ => True)); [done..|]. intros r _. apply respond_out. Qed.

(** A handler that calls a method which does not panic panics exactly on a request that does not convert. *)
Lemma service_panics_iff {A M P T} `{HA : Message A M} (method : A -> N T) (out : T -> P + RpcStatus) (req : M) n :
  (forall a n, no_panic (method a n).1) ->
  panics ((request ← lift (expect_ok (try_from req)); t ← method request; mret (out t)) n).1 <-> is_ok (try_from req : res A) = false.
Proof.
  intros Hm. unfold lift, mbind, stM_bind. destruct (try_from req) as [a|e|e]; simpl; [|split; [done|by eexists]..].
  specialize (Hm a n). destruct (method a n) as [[t|e|e] n']; simpl in *; split; try done; by intros [].
Qed.
Lemma bad_address_panics req n : panics (service_open_channel req n).1 <-> is_ok (address_try_from (pb_oc_remote_addr req)) = false.
Proof.
  unfold service_open_channel. rewrite service_panics_iff.
  - unfold try_from. simpl. unfold OpenChannelRequest_try_from. by destruct (address_try_from _).
  - intros a n'. unfold open_channel_oneshot, awaited, mbind, stM_bind. by destruct (open_channel_async _ _ _ _ _).
Qed.

(** Each call of the client *)
Lemma client_open_channel_reaches : forall a x y, reaches (client_open_channel (mkOpenChannelRequest a x y)) (open_channel_oneshot a x y) rx_answer.
Proof.
  intros a x y. by apply (rx_reaches (fun _ => True) (fun r => open_channel_oneshot (oc_remote_addr r) (oc_local_amount r) (oc_remote_amount r)) (mkOpenChannelRequest a x y)).
Qed.
Lemma client_pay_reaches : forall a x, reaches (client_pay (mkPayRequest a x)) (off_chain_pay_oneshot a x) rx_answer.
Proof.
  intros a x. by apply (rx_reaches (fun _ => True) (fun r => off_chain_pay_oneshot (py_remote_addr r) (py_amount r)) (mkPayRequest a x)).
Qed.
Lemma client_deposit_reaches : forall a x, reaches (client_deposit (mkDepositRequest a x)) (deposit_oneshot a x) rx_answer.
Proof.
  intros a x. by apply (rx_reaches (fun _ => True) (fun r => deposit_oneshot (dp_remote_addr r) (dp_local_amount r)) (mkDepositRequest a x)).
Qed.
Lemma client_withdraw_reaches : forall a x, reaches (client_withdraw (mkWithdrawRequest a x)) (withdraw_oneshot a x) rx_answer.
Proof.
  intros a x. by apply (rx_reaches (fun _ => True) (fun r => withdraw_oneshot (wd_remote_addr r) (wd_local_amount r)) (mkWithdrawRequest a x)).
Qed.
Lemma client_channel_balance_reaches : forall a, reaches (client_channel_balance (mkChannelBalanceRequest a)) (channel_balance_async a)
     (fun r => Some (mkChannelBalanceResponse match r with inl z => z | inr _ => 0%Z end)).
Proof.
  intros a. by apply (client_call_reaches (fun _ => True) (fun _ => True) (fun r => channel_balance_async (cb_remote_addr r))
    (fun r => inl (into (mkChannelBalanceResponse match r with inl z => z | inr _ => 0%Z end))) _ (mkChannelBalanceRequest a) (fun _ => True)).
Qed.
Lemma client_install_reaches : forall p, reaches (client_install_channel_script_package (mkInstallRequest p)) (node_install_package p) (fun _ => Some mkInstallResponse).
Proof.
  intros p. by apply (client_call_reaches (fun _ => True) (fun _ => True) (fun r => node_install_package (ip_package r)) (fun _ => inl (into mkInstallResponse))
    _ (mkInstallRequest p) (fun _ => True)).
Qed.
Lemma client_deploy_module_reaches : forall b, reaches (client_deploy_module (mkDeployModuleRequest b)) (deploy_package_oneshot b) rx_answer.
Proof.
  intros b. by apply (rx_reaches (fun _ => True) (fun r => deploy_package_oneshot (dm_module_bytes r)) (mkDeployModuleRequest b)).
Qed.
Lemma client_execute_script_reaches : forall a p s f l, reaches (client_execute_script (mkExecuteScriptRequest a p s f l)) (execute_script_oneshot a p s f l)
     (fun r => match r with inl rx => rx_answer rx | inr _ => None end).
Proof.
  intros a p s f l. apply (client_call_reaches (fun _ => True) (fun _ => True)
    (fun r => execute_script_oneshot (es_remote_addr r) (es_package_name r) (es_script_name r) (es_force_execute r) (es_args r))
    (fun r => match r with inl rx => process_response rx | inr e => failed e end) _ (mkExecuteScriptRequest a p s f l) (fun _ => True)); [done..|].
  intros [rx|e] _; [by apply process_response_out|by eexists].
Qed.
Lemma client_get_proposal_reaches : forall a, (forall n t n', get_channel_transaction_proposal_oneshot a n = (Ok (Some (inl (mkGetProposalResponse (Some t)))), n') -> txn_wf t) ->
     reaches (client_get_channel_transaction_proposal (mkChannelBalanceRequest a)) (get_channel_transaction_proposal_oneshot a) rx_answer.
Proof.
  intros a Hwf. apply (rx_reaches (fun r => match gp_channel_transaction r with Some t => txn_wf t | None => True end)
    (fun r => get_channel_transaction_proposal_oneshot (cb_remote_addr r)) (mkChannelBalanceRequest a)).
  intros n [[t|]] n' E; [by eapply Hwf|done].
Qed.
Lemma client_transaction_proposal_reaches : forall a h b, reaches (client_channel_transaction_proposal (mkProposalRequest a h b)) (channel_transaction_proposal_async a h b) sum_answer.
Proof.
  intros a h b. apply (respond_reaches (fun r => channel_transaction_proposal_async (pr_participant_address r) (pr_transaction_hash r) (pr_approve r)) (mkProposalRequest a h b)).
Qed.
Lemma client_add_invoice_reaches : forall x, reaches (client_add_invoice (mkAddInvoiceRequest x)) (attempt (add_invoice world x))
     (fun r => mkAddInvoiceResponse ∘ Invoice_to_string <$> sum_answer r).
Proof.
  intros x. apply (client_call_reaches (fun _ => True) (fun _ => True) (fun r => attempt (add_invoice world (ai_amount r)))
    (fun r => match r with inl i => inl (into (mkAddInvoiceResponse (Invoice_to_string i))) | inr e => failed e end) _ (mkAddInvoiceRequest x) (fun _ => True)); [done..|].
  intros [i|e] _; [done|by eexists].
Qed.
Lemma client_send_payment_reaches : forall i, reaches (client_send_payment (mkPaymentRequest i)) (pay_invoice i) sum_answer.
Proof.
  intros i. apply (respond_reaches (fun r => pay_invoice (pm_encoded_invoice r)) (mkPaymentRequest i)).
Qed.

End rpc.
