(* ===== verification/Cli.v ===== *)
(** * The command line

    Models [src/cli/src]: the commands with their aliases, the dispatch of a line to a command, the loop that reads
    lines, and [SGClientProxy], which parses the arguments and calls the node ([NodeRpc]), the chain ([ChainRpc],
    [Faucet]) and the compiler ([Compiler]).  The state of the shell is the node behind the RPC client, the wallet library
    of libra, the files, the calls made to the chain, and what was printed.  A panic of a command ends the process.

    The theorems: what a line does to the node, which lines end the process, and which aliases cannot be typed. *)
From S2P Require Import Prelude Codec Substream Text NetConfig Libra SchemaDB Accumulator ChannelTypes ChannelStore TxApplier Chain ChainRpc Compiler Faucet.
From S2P Require Import ChannelStm Channel Messages Wallet Invoices Futures Stats Node NodeRpc.
From stdpp Require Import pretty.
From Stdlib Require Import Ascii.

(** ** The libraries of the command line *)

(** The block and transaction explorer of libra, behind gRPC *)
Inductive GrpcError := RpcFailure (unavailable : bool) (text : string) | OtherGrpc (text : string).
Class Explorer {L : Libra} {K : Chain} := {
  BlockSummary : Type;
  BlockDetail : Type;
  TransactionList : Type;
  format_block_summary : nat -> BlockSummary -> string;
  debug_block_detail : BlockDetail -> string;
  debug_transaction_list : TransactionList -> string;
  debug_transaction : Transaction -> string
}.

Section requests.
Context {L : Libra} {K : Chain} {EX : Explorer}.
Inductive BlockRequestItem :=
| LatestBlockHeightRequestItem
| DifficultHashRateRequestItem
| BlockIdItem (id : HashValue)
| GetBlockSummaryListRequestItem (block_id : option HashValue).
Inductive BlockResponseItem :=
| LatestBlockHeightResponseItem (height : Z)
| DifficultHashRateResponseItem (difficulty : Z)
| GetBlockByBlockIdResponseItem (resp : BlockDetail)
| GetBlockSummaryListResponseItem (blocks : list BlockSummary).
Inductive TxnRequestItem :=
| LatestVersionRequestItem
| GetTransactionListRequestItem (version : option Z)
| GetTransactionByVersionRequestItem (version : Z).
Inductive TxnResponseItem :=
| LatestVersionResponseItem (version : option Z)
| GetTransactionListResponseItem (resp : TransactionList)
| GetTransactionByVersionResponseItem (txn : option Transaction).
End requests.

(** [libra_wallet], [libra_types] and [hex] *)
Class CliOps {L : Libra} {K : Chain} := {
  WalletLibrary : Type;
  ChildNumber : Type;
  debug_child : ChildNumber -> string;
  wl_new : WalletLibrary;
  wl_new_address : stM WalletLibrary (AccountAddress * ChildNumber);
  wl_get_addresses : WalletLibrary -> res (list AccountAddress);
  wl_write_recovery : WalletLibrary -> PathBuf -> stM Disk unit;
  wl_recover : PathBuf -> Disk -> res WalletLibrary;
  address_from_hex_literal : string -> res AccountAddress;
  hash_from_hex : string -> res HashValue;
  parse_as_transaction_argument : string -> res TransactionArgument;
  hex_encode : bytes -> string;
  (* [account_resource_ext::from_bytes], then [{:?}] *)
  resource_debug : bytes -> res string;
  channel_transaction_debug : ChannelTransaction -> string;
  deploy_response_debug : TransactionWithProof -> string
}.

(** Their parsers return errors. *)
Class CliLaws {L : Libra} {K : Chain} {CO : CliOps} : Prop := {
  address_from_hex_literal_quiet s : no_panic (address_from_hex_literal s);
  hash_from_hex_quiet s : no_panic (hash_from_hex s)
}.

Section cli.
Context {L : Libra} {K : Chain} {CE : ChainEvents} {FO : FaucetOps} {HO : HashOrder} {IR : IrCompiler} {PJ : PackageJson}.
Context {CC : ChannelTxnCodec} {NP : NodeProst} {HX : Hex} {RN : Rng} {PC : ProofCodec} {EX : Explorer} {CO : CliOps}.
Context {W : Type} {WO : WalletOps W}.
Context (world : World) (wait : nat -> Z + string) (status_text : RpcStatus -> string) (dropped_text : string).
Context (chain : nat -> Transport) (watch : nat -> AccountAddress -> Z -> res (option TransactionWithProof * option AccountStateWithProof)).
Context (view_client : nat -> ChainClient).
Context (block_explorer : nat -> BlockRequestItem -> res BlockResponseItem + GrpcError) (txn_explorer : nat -> TxnRequestItem -> res TxnResponseItem + GrpcError).

(** ** [SGClientProxy] *)

Record Shell := mkShell { sh_node : Node W; sh_wallet : WalletLibrary; sh_disk : Disk; sh_calls : Calls; sh_out : list string }.
Notation C := (stM Shell).
Definition on_node {A} (m : stM (Node W) A) : C A := fun s =>
  let '(r, n) := m (sh_node s) in (r, mkShell n (sh_wallet s) (sh_disk s) (sh_calls s) (sh_out s)).
Definition on_wallet_library {A} (m : stM WalletLibrary A) : C A := fun s =>
  let '(r, w) := m (sh_wallet s) in (r, mkShell (sh_node s) w (sh_disk s) (sh_calls s) (sh_out s)).
Definition on_disk {A} (m : stM Disk A) : C A := fun s =>
  let '(r, d) := m (sh_disk s) in (r, mkShell (sh_node s) (sh_wallet s) d (sh_calls s) (sh_out s)).
Definition on_chain {A} (m : stM Calls A) : C A := fun s =>
  let '(r, c) := m (sh_calls s) in (r, mkShell (sh_node s) (sh_wallet s) (sh_disk s) c (sh_out s)).
Definition println (line : string) : C unit := modifyS (fun s => mkShell (sh_node s) (sh_wallet s) (sh_disk s) (sh_calls s) (sh_out s ++ [line])).

(** Indexing a slice *)
Definition nth_param (params : list string) (i : nat) : res string := expect (params !! i) "index out of bounds".

(** [is_address] *)
Definition is_address (data : string) : bool :=
  match hex_decode data with Ok vec => bool_decide (length vec = ADDRESS_LENGTH) | _ => false end.

Definition address_from_strings (data : string) : res AccountAddress :=
  account_vec ← hex_decode data;
  _ ← ensure (bool_decide (length account_vec = ADDRESS_LENGTH)) "The address is of invalid length. Addresses must be 32-bytes long";
  match address_try_from account_vec with Err _ => Err "The address is invalid" | r => r end.

(** [get_account_address_from_parameter]: an address, or the number of an account of the wallet *)
Definition get_account_address_from_parameter (para : string) : C AccountAddress :=
  if is_address para then lift (address_from_strings para)
  else
    account_ref_id ← lift (match parse_usize para with Err _ => Err "Unable to parse input for account_reference_id/account_address" | r => r end);
    s ← getS;
    addresses ← lift (wl_get_addresses (sh_wallet s));
    lift (expect (addresses !! Z.to_nat account_ref_id) "called `Option::unwrap()` on a `None` value").

(** [from_hex_literal] of a hash: at most 32 bytes, filled up in front *)
Definition from_hex_literal (literal : string) : res HashValue :=
  let bs := ascii_bytes literal in
  _ ← rassert (bool_decide (2 <= length bs) && negb (default false (cont <$> bs !! 2))) "byte index 2 is not a char boundary";
  let hex_string := string_of_bytes (drop 2 bs) in
  let hex_string := if bool_decide (length (drop 2 bs) mod 2 <> 0) then String "0"%char hex_string else hex_string in
  result ← hex_decode hex_string;
  let result := if bool_decide (length result < 32) then replicate (32 - length result) 0%Z ++ result else result in
  _ ← rassert (bool_decide (32 <= length result)) "assertion failed: result.len() >= 32";
  hash_from_slice result.

(** [pretty_format_error] on an error of gRPC; other errors are printed as they are. *)
Definition pretty_format_error (e : GrpcError) : string :=
  match e with
  | RpcFailure true _ => "Server unavailable, please retry and/or check if host passed to the client is running"
  | RpcFailure false text | OtherGrpc text => text
  end.

(** A call of the explorer, with the conversion of its response *)
Definition explored {A} (f : nat -> res A + GrpcError) : C A :=
  on_chain (fun c => (match f (calls_made c) with inl r => r | inr e => Err (pretty_format_error e) end, mkCalls (S (calls_made c)) (Faucet.submitted c))).

Definition create_account : C (AccountAddress * ChildNumber) := on_wallet_library wl_new_address.
Definition proxy_faucet (amount : Z) (account_str : string) : C unit :=
  address ← get_account_address_from_parameter account_str;
  on_chain (faucet_sync chain watch address amount).
Definition proxy_open_channel (params : list string) : C OpenChannelResponse :=
  _ ← lift (ensure (bool_decide (length params = 3)) "Invalid number of arguments for open channel");
  p1 ← lift (nth_param params 1); remote_addr ← lift (address_from_hex_literal p1);
  p2 ← lift (nth_param params 2); local_amount ← lift (parse_u64 p2);
  on_node (client_open_channel world wait status_text dropped_text (mkOpenChannelRequest remote_addr local_amount 0)).
Definition proxy_withdraw (params : list string) : C WithdrawResponse :=
  _ ← lift (ensure (bool_decide (length params = 3)) "Invalid number of arguments for withdraw");
  p1 ← lift (nth_param params 1); remote_addr ← lift (address_from_hex_literal p1);
  p2 ← lift (nth_param params 2); local_amount ← lift (parse_u64 p2);
  on_node (client_withdraw world wait status_text dropped_text (mkWithdrawRequest remote_addr local_amount)).
Definition proxy_deposit (params : list string) : C DepositResponse :=
  _ ← lift (ensure (bool_decide (length params = 3)) "Invalid number of arguments for deposit");
  p1 ← lift (nth_param params 1); remote_addr ← lift (address_from_hex_literal p1);
  p2 ← lift (nth_param params 2); local_amount ← lift (parse_u64 p2);
  on_node (client_deposit world wait status_text dropped_text (mkDepositRequest remote_addr local_amount)).
Definition proxy_off_chain_pay (params : list string) : C PayResponse :=
  _ ← lift (ensure (bool_decide (length params = 3)) "Invalid number of arguments for offchain pay");
  p1 ← lift (nth_param params 1); remote_addr ← lift (address_from_hex_literal p1);
  p2 ← lift (nth_param params 2); amount ← lift (parse_u64 p2);
  on_node (client_pay world wait status_text dropped_text (mkPayRequest remote_addr amount)).
Definition proxy_channel_balance (params : list string) : C ChannelBalanceResponse :=
  _ ← lift (ensure (bool_decide (length params = 2)) "Invalid number of arguments for channel balance");
  p1 ← lift (nth_param params 1); remote_addr ← lift (address_from_hex_literal p1);
  on_node (client_channel_balance world status_text dropped_text (mkChannelBalanceRequest remote_addr)).
Definition proxy_account_state (account_str : string) : C (Z * option bytes * SparseMerkleProof) :=
  address ← get_account_address_from_parameter account_str;
  on_chain (call_chain chain (fun t => rpc_account_state t address None)).

(** The compiler with the modules of the chain as they are now *)
Definition with_view {A} (m : stM ClientStateView A) : C A := fun s =>
  ((m (ClientStateView_new None (view_client (calls_made (sh_calls s))))).1, s).
Definition proxy_deploy_module (params : list string) : C DeployModuleResponse :=
  p1 ← lift (nth_param params 1); address ← get_account_address_from_parameter p1;
  p2 ← lift (nth_param params 2);
  s ← getS;
  module_source ← lift (expect_ok (read_to_string (sh_disk s) (path_new p2)));
  module_byte_code ← with_view (compile_module StateViewModuleLoader address module_source);
  on_node (client_deploy_module world status_text dropped_text (mkDeployModuleRequest module_byte_code)).

(** [install_script]: from a [.csp] file, or by compiling a directory and writing that file beside it *)
Definition install_script (params : list string) : C unit :=
  p1 ← lift (nth_param params 1); address ← get_account_address_from_parameter p1;
  p2 ← lift (nth_param params 2);
  let path := path_new p2 in
  s ← getS;
  csp ← lift (if is_file (sh_disk s) path then ext ← expect (extension path) "called `Option::unwrap()` on a `None` value"; Ok (bool_decide (ext = "csp")) else Ok false);
  package ←
    (if csp : bool then lift (b ← disk_read (sh_disk s) path; json_from_slice b)
     else on_disk (fun d =>
       let '(r, (_, d)) := compile_package_with_output StateViewModuleLoader address path (with_extension path "csp")
                             (ClientStateView_new None (view_client (calls_made (sh_calls s))), d) in (r, d)));
  _ ← on_node (client_install_channel_script_package world status_text dropped_text (mkInstallRequest package));
  mret tt.

Fixpoint parse_arguments (args : list string) : res (list TransactionArgument) :=
  match args with
  | [] => Ok []
  | arg :: args => a ← expect_ok (parse_as_transaction_argument arg); l ← parse_arguments args; Ok (a :: l)
  end.
Definition execute_installed_script (params : list string) : C unit :=
  p1 ← lift (nth_param params 1); remote_addr ← lift (address_from_hex_literal p1);
  package_name ← lift (nth_param params 2);
  script_name ← lift (nth_param params 3);
  p4 ← lift (nth_param params 4); force_execute ← lift (parse_bool p4);
  arguments ← lift (parse_arguments (drop 5 params));
  _ ← on_node (client_execute_script world wait status_text dropped_text (mkExecuteScriptRequest remote_addr package_name script_name force_execute arguments));
  mret tt.
Definition proxy_get_channel_transaction_proposal (params : list string) : C GetChannelTransactionProposalResponse :=
  p1 ← lift (nth_param params 1); remote_addr ← lift (address_from_hex_literal p1);
  on_node (client_get_channel_transaction_proposal status_text dropped_text (mkChannelBalanceRequest remote_addr)).
Definition proxy_channel_transaction_proposal (params : list string) : C EmptyResponse :=
  p1 ← lift (nth_param params 1); remote_addr ← lift (address_from_hex_literal p1);
  p2 ← lift (nth_param params 2); transaction_hash ← lift (from_hex_literal p2);
  p3 ← lift (nth_param params 3); approve ← lift (parse_bool p3);
  on_node (client_channel_transaction_proposal world status_text dropped_text (mkProposalRequest remote_addr transaction_hash approve)).
Definition proxy_add_invoice (params : list string) : C AddInvoiceResponse :=
  _ ← lift (ensure (bool_decide (length params = 2)) "Invalid number of arguments for add invoice");
  p1 ← lift (nth_param params 1); amount ← lift (parse_u64 p1);
  on_node (client_add_invoice world status_text dropped_text (mkAddInvoiceRequest amount)).
Definition proxy_send_payment (params : list string) : C EmptyResponse :=
  _ ← lift (ensure (bool_decide (length params = 2)) "Invalid number of arguments for send payment");
  p1 ← lift (nth_param params 1);
  on_node (client_send_payment world status_text dropped_text (mkPaymentRequest p1)).

(** [write_recovery] and [recover_wallet_accounts] *)
Definition write_recovery (params : list string) : C unit :=
  _ ← lift (ensure (bool_decide (length params = 2)) "Invalid number of arguments for writing recovery");
  p1 ← lift (nth_param params 1);
  s ← getS;
  on_disk (wl_write_recovery (sh_wallet s) (path_new p1)).
Definition recover_wallet_accounts (params : list string) : C (list AccountAddress) :=
  _ ← lift (ensure (bool_decide (length params = 2)) "Invalid number of arguments for recovering wallets");
  p1 ← lift (nth_param params 1);
  s ← getS;
  wallet ← lift (wl_recover (path_new p1) (sh_disk s));
  address_list ← lift (wl_get_addresses wallet);
  _ ← on_wallet_library (modifyS (fun _ => wallet));
  mret address_list.

(** *** The explorer *)

Definition wrong_type {A} : C A := lift (Err "err BlockResponseItem type.").
Definition latest_height : C Z :=
  response ← explored (fun k => block_explorer k LatestBlockHeightRequestItem);
  match response with LatestBlockHeightResponseItem height => mret height | _ => wrong_type end.
Definition block_difficulty : C Z :=
  response ← explored (fun k => block_explorer k DifficultHashRateRequestItem);
  match response with DifficultHashRateResponseItem d => mret d | _ => wrong_type end.
Definition block_detail (params : list string) : C BlockDetail :=
  _ ← lift (ensure (bool_decide (length params = 2)) "Invalid number of arguments for querying block info.");
  p1 ← lift (nth_param params 1); hash ← lift (hash_from_hex p1);
  response ← explored (fun k => block_explorer k (BlockIdItem hash));
  match response with GetBlockByBlockIdResponseItem resp => mret resp | _ => wrong_type end.
Definition get_block_summary_list_request (block_id : option string) : C (list BlockSummary) :=
  id ← match block_id with Some s => hash ← lift (hash_from_hex s); mret (Some hash) | None => mret None end;
  response ← explored (fun k => block_explorer k (GetBlockSummaryListRequestItem id));
  match response with GetBlockSummaryListResponseItem blocks => mret blocks | _ => wrong_type end.
Definition latest_version : C Z :=
  response ← explored (fun k => txn_explorer k LatestVersionRequestItem);
  match response with
  | LatestVersionResponseItem (Some ver) => mret ver
  | LatestVersionResponseItem None => lift (Err "version is none.")
  | _ => lift (Err "err TxnResponseItem type.")
  end.
Definition txn_list (params : list string) : C TransactionList :=
  version ← (if bool_decide (2 <= length params) then p1 ← lift (nth_param params 1); ver ← lift (parse_u64 p1); mret (Some ver) else mret None);
  response ← explored (fun k => txn_explorer k (GetTransactionListRequestItem version));
  match response with
  | GetTransactionListResponseItem resp => mret resp
  | _ => lift (Err "err GetTransactionListResponse type.")
  end.
Definition txn_by_version (params : list string) : C Transaction :=
  _ ← lift (ensure (bool_decide (length params = 2)) "Invalid number of arguments for querying transaction.");
  p1 ← lift (nth_param params 1); version ← lift (parse_u64 p1);
  response ← explored (fun k => txn_explorer k (GetTransactionByVersionRequestItem version));
  match response with
  | GetTransactionByVersionResponseItem (Some t) => mret t
  | GetTransactionByVersionResponseItem None => lift (Err "txn is none.")
  | _ => lift (Err "err TxnResponseItem type.")
  end.

(** ** Commands *)

(** The trait [Command] *)
Record Command := mkCommand { get_aliases : list string; get_params_help : string; get_description : string; execute : list string -> C unit }.

(** [match call { Ok(x) => .., Err(e) => .. }]: an error is reported, a panic is not caught. *)
Definition on_result {A} (call : C A) (ok : A -> C unit) (err : string -> C unit) : C unit := fun s =>
  match call s with
  | (Ok a, s) => ok a s
  | (Err e, s) => err e s
  | (Panic e, s) => (Panic e, s)
  end.
Definition report_error (msg e : string) : C unit := println ("[ERROR] " +:+ msg +:+ ": " +:+ e).
(** [if params.len() < n { println!(..); return; }] *)
Definition at_least (n : nat) (params : list string) (msg : string) (rest : C unit) : C unit :=
  if bool_decide (length params < n) then println msg else rest.

(** [print_subcommand_help] and [subcommand_execute] *)
Definition nl : string := String "010"%char EmptyString.
Definition help_line (cmd : Command) : string :=
  String.concat " | " (get_aliases cmd) +:+ " " +:+ get_params_help cmd +:+ nl +:+ String "009"%char (get_description cmd).
Fixpoint print_help_lines (commands : list Command) : C unit :=
  match commands with [] => mret tt | cmd :: commands => _ ← println (help_line cmd); print_help_lines commands end.
Definition print_subcommand_help (parent_command : string) (commands : list Command) : C unit :=
  _ ← println ("usage: " +:+ parent_command +:+ " <arg>" +:+ nl +:+ nl +:+ "Use the following args for this command:" +:+ nl);
  _ ← print_help_lines commands;
  println nl.
Fixpoint insert_aliases (aliases : list string) (i : nat) (commands_map : gmap string nat) : res (gmap string nat) :=
  match aliases with
  | [] => Ok commands_map
  | alias :: aliases =>
      if bool_decide (is_Some (commands_map !! alias)) then Panic "Duplicate alias"
      else insert_aliases aliases i (<[alias := i]> commands_map)
  end.
Fixpoint alias_table (commands : list Command) (i : nat) (commands_map : gmap string nat) : res (gmap string nat) :=
  match commands with
  | [] => Ok commands_map
  | cmd :: commands => commands_map ← insert_aliases (get_aliases cmd) i commands_map; alias_table commands (S i) commands_map
  end.
Definition subcommand_execute (parent_command_name : string) (commands : list Command) (params : list string) : C unit :=
  commands_map ← lift (alias_table commands 0 ∅);
  match params with
  | [] => print_subcommand_help parent_command_name commands
  | p0 :: _ =>
      match commands_map !! p0 with
      | Some idx => cmd ← lift (expect (commands !! idx) "index out of bounds"); execute cmd params
      | None => print_subcommand_help parent_command_name commands
      end
  end.
(** [execute] of the five commands that have subcommands *)
Definition execute_group (commands : list Command) (params : list string) : C unit :=
  p0 ← lift (nth_param params 0);
  subcommand_execute p0 commands (drop 1 params).

(** *** Accounts ([account_commands.rs]) *)

Definition AccountCommandCreate : Command := mkCommand ["create"; "c"] EmptyString "Create an account. Returns reference ID to use in other operations" (fun _ =>
  _ ← println ">> Creating/retrieving next account from wallet";
  on_result create_account
    (fun '(addr, index) => println ("Created/retrieved address " +:+ hex_encode (address_to_vec addr) +:+ ",index " +:+ debug_child index))
    (report_error "Error creating account")).
Definition AccountCommandMint : Command := mkCommand ["mint"; "mintb"; "m"; "mb"] "<receiver_account_ref_id>|<receiver_account_address> <number_of_coins>"
  "Mint coins to the account. Suffix 'b' is for blocking" (fun params =>
  at_least 3 params "Invalid number of arguments for mint"
    (p2 ← lift (nth_param params 2); amount ← lift (expect_ok (parse_u64 p2)); p1 ← lift (nth_param params 1);
     on_result (proxy_faucet amount p1) (fun _ => println "mint success") (report_error "Error mint account"))).
Definition AccountCommandState : Command := mkCommand ["state"; "s"] "<receiver_account_ref_id>|<receiver_account_address>" "get state of account" (fun params =>
  at_least 2 params "Invalid number of arguments for state"
    (p1 ← lift (nth_param params 1);
     on_result (proxy_account_state p1)
       (fun '(version, result, proof) =>
          match result with
          | Some data =>
              st ← lift (expect_ok (from_account_state_blob version data proof));
              match (value ← as_get st account_resource_path; match resource_debug value with Ok r => Some r | _ => None end) with
              | Some resource => println ("account state is " +:+ resource)
              | None => println "no such account state "
              end
          | None => println "no such account state "
          end)
       (report_error "Error mint account"))).
Fixpoint print_addresses (index : nat) (account_data : list AccountAddress) : C unit :=
  match account_data with
  | [] => mret tt
  | address :: account_data =>
      _ ← println ("#" +:+ pretty index +:+ " address " +:+ hex_encode (address_to_vec address)); print_addresses (S index) account_data
  end.
Definition AccountCommandRecoverWallet : Command := mkCommand ["recover"; "r"] "<file_path>" "Recover Libra wallet from the file path" (fun params =>
  _ ← println ">> Recovering Wallet";
  at_least 1 params "Invalid number of arguments for recovery"
    (on_result (recover_wallet_accounts params)
       (fun account_data =>
          _ ← println ("Wallet recovered and the first " +:+ pretty (length account_data) +:+ " child accounts were derived");
          print_addresses 0 account_data)
       (report_error "Error recovering Libra wallet"))).
Definition AccountCommandWriteRecovery : Command := mkCommand ["write"; "w"] "<file_path>" "Save Libra wallet mnemonic recovery seed to disk" (fun params =>
  _ ← println ">> Saving Libra wallet mnemonic recovery seed to disk";
  at_least 1 params "Invalid number of arguments for write"
    (on_result (write_recovery params) (fun _ => println "Saved mnemonic seed to disk") (report_error "Error writing mnemonic recovery seed to file"))).
Definition account_commands : list Command :=
  [AccountCommandCreate; AccountCommandMint; AccountCommandState; AccountCommandRecoverWallet; AccountCommandWriteRecovery].
Definition AccountCommand : Command := mkCommand ["account"; "a"] EmptyString "Account operations" (execute_group account_commands).

(** *** The node ([node_commands.rs]) *)

Definition NodeCommandOpenChannel : Command := mkCommand ["open_channel "; "oc"] "<remote_addr> <local_amount>" "open channel with remote addr" (fun params =>
  at_least 3 params "Invalid number of arguments for open channel"
    (on_result (proxy_open_channel params) (fun _ => println "open channel success") (report_error "Error open channel"))).
Definition NodeCommandDepositChannel : Command := mkCommand ["deposit"; "d"] "<remote_addr> <local_amount>" "deposit money to channel" (fun params =>
  at_least 3 params "Invalid number of arguments for deposit channel"
    (on_result (proxy_deposit params) (fun _ => println "deposit success") (report_error "Error pay account"))).
Definition NodeCommandPay : Command := mkCommand ["pay"; "p"] "<remote_addr> <amount>" "off chain pay" (fun params =>
  at_least 3 params "Invalid number of arguments for pay"
    (on_result (proxy_off_chain_pay params) (fun _ => println "pay success") (report_error "Error pay account"))).
Definition NodeCommandWithdrawChannel : Command := mkCommand ["withdraw"; "wd"] "<remote_addr> <local_amount>" "withdraw money from channel" (fun params =>
  at_least 3 params "Invalid number of arguments for withdraw from channel"
    (on_result (proxy_withdraw params) (fun _ => println "withdraw success") (report_error "Error pay account"))).
Definition NodeCommandChannelBalance : Command := mkCommand ["channel_balance "; "cb"] "<remote_addr>" "get balance of channel" (fun params =>
  at_least 2 params "Invalid number of arguments for get channel balance"
    (on_result (proxy_channel_balance params) (fun result => println ("balance is " +:+ pretty (cb_balance result))) (report_error "Error pay account"))).
(** Two commands that are not in the list of [NodeCommand] *)
Definition NodeCommandQueryProposal : Command := mkCommand ["transaction_proposal "; "tp"] "<remote_addr>" "get transaction proposal" (fun params =>
  at_least 2 params "Invalid number of arguments for get transaction proposal"
    (on_result (proxy_get_channel_transaction_proposal params)
       (fun result => match gp_channel_transaction result with
                      | Some t => println ("channel transction from " +:+ channel_transaction_debug t)
                      | None => println "no channel transaction proposal"
                      end)
       (report_error "Error pay account"))).
Definition NodeCommandProposal : Command := mkCommand ["transaction_proposal_action"; "tpa"] "<remote_addr> <transaction_hash> <approve/reject>"
  "action transaction proposal" (fun params =>
  at_least 4 params "Invalid number of arguments for action transaction proposal"
    (on_result (proxy_channel_transaction_proposal params) (fun _ => println "success!") (report_error "Error pay account"))).
Definition NodeCommandAddInvoice : Command := mkCommand ["add_invoice"; "ai"] "<amount>" "add invoice" (fun params =>
  at_least 2 params "Invalid number of arguments for add invoice"
    (on_result (proxy_add_invoice params) (fun response => println ("successfully add invoice " +:+ ai_encoded_invoice response)) (report_error "Error add invoice"))).
Definition NodeCommandSendPayment : Command := mkCommand ["send_payment"; "sp"] "<encoded_invoice>" "send payment" (fun params =>
  at_least 2 params "Invalid number of arguments for send payment"
    (on_result (proxy_send_payment params) (fun _ => println "successfully pay ") (report_error "Error payment"))).
Definition node_commands : list Command :=
  [NodeCommandOpenChannel; NodeCommandPay; NodeCommandWithdrawChannel; NodeCommandChannelBalance; NodeCommandDepositChannel;
   NodeCommandAddInvoice; NodeCommandSendPayment].
Definition NodeCommand : Command := mkCommand ["node"; "n"] EmptyString "Node operations" (execute_group node_commands).

(** *** Development ([dev_commands.rs]) *)

Definition DevCommandDeployModule : Command := mkCommand ["deploy module"; "dm"] "<module_path> " "Deploy move package" (fun params =>
  at_least 3 params "Invalid number of arguments for compilation"
    (_ ← println ">> Deploy module";
     on_result (proxy_deploy_module params) (fun resp => println ("Successfully deployed package " +:+ deploy_response_debug (dm_transaction resp))) println)).
Definition DevCommandInstallPackage : Command := mkCommand ["install package"; "ip"] "<package_file_path> | <dir_path>"
  "Install package from package_file_path, or compile and install the package from dir_path" (fun params =>
  at_least 2 params "Invalid number of arguments for compilation"
    (_ ← println ">> Install script";
     on_result (install_script params) (fun _ => println "Successfully deployed package ") println)).
Definition DevCommandExecuteInstalledScript : Command := mkCommand ["package execute"; "pe"] "remote_address package_name script_name force_execute args..."
  "Deploy move package" (fun params =>
  at_least 4 params "Invalid number of arguments for compilation"
    (_ ← println ">> Execute script";
     on_result (execute_installed_script params) (fun _ => println "Successfully execute script ") println)).
Definition dev_commands : list Command := [DevCommandDeployModule; DevCommandInstallPackage; DevCommandExecuteInstalledScript].
Definition DevCommand : Command := mkCommand ["dev"] EmptyString "Local move development" (execute_group dev_commands).

(** *** The explorer ([block_commands.rs] and [txn_commands.rs]) *)

Definition BlockLatestHeight : Command := mkCommand ["height"; "h"] EmptyString "Query latest height of block chain." (fun _ =>
  _ ← println ">> Query latest height";
  on_result latest_height (fun height => println ("latest height is : " +:+ pretty height)) (report_error "Error query latest height")).
Fixpoint print_blocks (index : nat) (blocks : list BlockSummary) : C unit :=
  match blocks with [] => mret tt | block :: blocks => _ ← println (format_block_summary index block); print_blocks (S index) blocks end.
Definition BlockList : Command := mkCommand ["blocklist"; "bl"] EmptyString "[block_id]" (fun params =>
  _ ← println ">> Query block summary list";
  let block_id := if bool_decide (1 < length params) then params !! 1 else None in
  on_result (get_block_summary_list_request block_id) (print_blocks 0) (report_error "Error query block list")).
Definition BlockDetailCommand : Command := mkCommand ["blockdetail"; "bd"] EmptyString "<block_id>" (fun params =>
  _ ← println ">> Query block info";
  on_result (block_detail params) (fun detail => println ("block detail : " +:+ debug_block_detail detail)) (report_error "Error query block detail")).
Definition BlockDifficulty : Command := mkCommand ["blockdifficulty"; "d"] EmptyString "Block Difficulty" (fun _ =>
  _ ← println ">> Query block difficulty";
  on_result block_difficulty (fun d => println ("block difficulty : " +:+ pretty d)) (report_error "Error query block difficulty")).
Definition block_commands : list Command := [BlockLatestHeight; BlockList; BlockDetailCommand; BlockDifficulty].
Definition BlockCommand : Command := mkCommand ["block"; "b"] EmptyString "Block explorer operations" (execute_group block_commands).

Definition TxnLatestVersion : Command := mkCommand ["version"; "v"] EmptyString "Query transaction latest version." (fun _ =>
  _ ← println ">> Query latest version.";
  on_result latest_version (fun version => println ("latest version is : " +:+ pretty version)) (report_error "Error latest version")).
Definition QueryTxnByVersion : Command := mkCommand ["txn"; "tx"] EmptyString "<version>" (fun params =>
  _ ← println ">> Query transaction by version.";
  on_result (txn_by_version params) (fun txn => println ("transaction is : " +:+ debug_transaction txn)) (report_error "Error latest version")).
Definition TxnList : Command := mkCommand ["txnlist"; "tl"] EmptyString "[version]" (fun params =>
  _ ← println ">> Query transaction list.";
  on_result (txn_list params) (fun l => println ("transaction list : " +:+ debug_transaction_list l)) (report_error "Error latest version")).
Definition txn_commands : list Command := [TxnLatestVersion; QueryTxnByVersion; TxnList].
Definition TxnCommand : Command := mkCommand ["transaction"; "t"] EmptyString "Transaction explorer operations" (execute_group txn_commands).

(** ** The loop ([main.rs]) *)

(** [get_commands]: an alias of a later command replaces that of an earlier one. *)
Definition commands : list Command := [AccountCommand; NodeCommand; DevCommand; TxnCommand; BlockCommand].
Fixpoint insert_all (cmd : Command) (aliases : list string) (alias_to_cmd : gmap string Command) : gmap string Command :=
  match aliases with [] => alias_to_cmd | alias :: aliases => insert_all cmd aliases (<[alias := cmd]> alias_to_cmd) end.
Definition alias_to_cmd : gmap string Command := fold_left (fun m cmd => insert_all cmd (get_aliases cmd) m) commands ∅.

(** [parse_cmd] *)
Definition parse_cmd (cmd_str : string) : list string := map trim (Text.split " " (trim cmd_str)).

Definition print_help (client_info : string) (commands : list Command) : C unit :=
  _ ← println client_info;
  _ ← println ("usage: <command> <args>" +:+ nl +:+ nl +:+ "Use the following commands:" +:+ nl);
  _ ← print_help_lines commands;
  _ ← println ("help | h " +:+ nl +:+ String "009"%char "Prints this help");
  _ ← println ("quit | q! " +:+ nl +:+ String "009"%char "Exit this client");
  println nl.

(** What [readline] returns *)
Inductive Readline := Line (line : string) | Interrupted | Eof | ReadlineErr (err : string).

(** One turn of the loop; [true] goes on. *)
Definition turn (cli_info : string) (readline : Readline) : C bool :=
  match readline with
  | Line line =>
      let params := parse_cmd line in
      p0 ← lift (nth_param params 0);
      match alias_to_cmd !! p0 with
      | Some cmd => _ ← execute cmd params; mret true
      | None =>
          if bool_decide (p0 = "quit" \/ p0 = "q!") then mret false
          else if bool_decide (p0 = "help" \/ p0 = "h") then _ ← print_help cli_info commands; mret true
          else if bool_decide (p0 = EmptyString) then mret true
          else _ ← println ("Unknown command: " +:+ debug_str p0); mret true
      end
  | Interrupted => _ ← println "CTRL-C"; mret false
  | Eof => _ ← println "CTRL-D"; mret false
  | ReadlineErr err => _ ← println ("Error: " +:+ err); mret false
  end.
Fixpoint cli_loop (cli_info : string) (inputs : list Readline) : C unit :=
  match inputs with
  | [] => mret tt
  | readline :: inputs => go ← turn cli_info readline; if go : bool then cli_loop cli_info inputs else mret tt
  end.
(** [main]: the help is printed first. *)
Definition cli_main (cli_info : string) (inputs : list Readline) : C unit :=
  _ ← print_help cli_info commands;
  _ ← println ("Please, input commands: " +:+ nl);
  cli_loop cli_info inputs.

(** ** Lines and words *)

Lemma parse_cmd_words ws : ws <> [] -> Forall word ws -> parse_cmd (Text.join " "%char ws) = ws.
Proof.
  intros Hne Hws. destruct (join_ends ws Hne Hws) as (b & m & e & E & El & Hb & He). unfold parse_cmd. rewrite (trim_graphic _ b m e) by done.
  rewrite split_join by (done || (eapply Forall_impl; [exact Hws|apply word_no_blank])). rewrite <-(map_id ws) at 2.
  apply map_ext_Forall. eapply Forall_impl; [exact Hws|]. apply trim_word.
Qed.
Lemma parse_cmd_no_blank line w : w ∈ parse_cmd line -> has_char " "%char w = false.
Proof.
  unfold parse_cmd. intros (v & -> & Hv)%list_elem_of_fmap. apply trim_no_char.
  exact (proj1 (Forall_forall _ _) (split_no_char " "%char (trim line)) v Hv).
Qed.
Lemma parse_cmd_nonempty line : parse_cmd line <> [].
Proof. unfold parse_cmd. intros H%map_eq_nil. by apply split_nonempty in H. Qed.

Lemma turn_command info p0 rest cmd s : Forall word (p0 :: rest) -> alias_to_cmd !! p0 = Some cmd ->
  turn info (Line (Text.join " "%char (p0 :: rest))) s = (_ ← execute cmd (p0 :: rest); mret true) s.
Proof. intros Hw Ha. unfold turn. rewrite parse_cmd_words by done. unfold lift, mbind at 1, stM_bind at 1. simpl. by rewrite Ha. Qed.
Lemma group_command cmds m idx cmd g c rest s : alias_table cmds 0 ∅ = Ok m -> m !! c = Some idx -> cmds !! idx = Some cmd ->
  execute_group cmds (g :: c :: rest) s = execute cmd (c :: rest) s.
Proof.
  intros Ht Hm Hi. unfold execute_group, subcommand_execute, lift. unfold mbind at 1, stM_bind at 1. simpl.
  unfold mbind at 1, stM_bind at 1. rewrite Ht, Hm. unfold mbind at 1, stM_bind at 1. by rewrite Hi.
Qed.

(** The aliases of the groups and of the commands of the node *)
Lemma group_aliases :
  (forall g, g ∈ ["node"; "n"] -> alias_to_cmd !! g = Some NodeCommand) /\ (forall g, g ∈ ["account"; "a"] -> alias_to_cmd !! g = Some AccountCommand) /\
  (forall g, g ∈ ["dev"] -> alias_to_cmd !! g = Some DevCommand) /\ (forall g, g ∈ ["transaction"; "t"] -> alias_to_cmd !! g = Some TxnCommand) /\
  (forall g, g ∈ ["block"; "b"] -> alias_to_cmd !! g = Some BlockCommand).
Proof. split_and!; intros g Hg; repeat (apply elem_of_cons in Hg as [->|Hg]; [reflexivity|]); by apply elem_of_nil in Hg. Qed.

(** A table of aliases without repetition *)
Lemma insert_aliases_Ok aliases i m0 : NoDup aliases -> (forall a, a ∈ aliases -> m0 !! a = None) ->
  exists m, insert_aliases aliases i m0 = Ok m /\ forall a, m !! a = if decide (a ∈ aliases) then Some i else m0 !! a.
Proof.
  revert m0. induction aliases as [|x aliases IH]; intros m0; cbn [insert_aliases].
  - intros _ _. exists m0. split; [done|]. intros a. by rewrite decide_False by set_solver.
  - intros [Hx Hnd]%NoDup_cons Hm. rewrite bool_decide_eq_false_2 by (rewrite Hm by set_solver; by intros []).
    destruct (IH (<[x := i]> m0) Hnd) as (m & Em & Hl). { intros a Ha. rewrite lookup_insert_ne by set_solver. apply Hm. set_solver. }
    exists m. split; [done|]. intros a. rewrite Hl. destruct (decide (a = x)) as [->|Hne].
    + rewrite lookup_insert_eq. repeat case_decide; set_solver.
    + rewrite lookup_insert_ne by done. repeat case_decide; set_solver.
Qed.
Lemma alias_table_Ok cmds k m0 : NoDup (concat (get_aliases <$> cmds)) -> (forall a, a ∈ concat (get_aliases <$> cmds) -> m0 !! a = None) ->
  exists m, alias_table cmds k m0 = Ok m /\ (forall i cmd a, cmds !! i = Some cmd -> a ∈ get_aliases cmd -> m !! a = Some (k + i)) /\
  (forall a, a ∉ concat (get_aliases <$> cmds) -> m !! a = m0 !! a).
Proof.
  revert k m0. induction cmds as [|c cmds IH]; intros k m0; simpl.
  - intros _ _. by exists m0.
  - intros (Hnd & Hdis & Hnd')%NoDup_app Hm. destruct (insert_aliases_Ok (get_aliases c) k m0 Hnd) as (m1 & -> & H1); [intros; apply Hm; set_solver|].
    destruct (IH (S k) m1 Hnd') as (m & Em & Hin & Hout).
    { intros a Ha. rewrite H1, decide_False by naive_solver. apply Hm. set_solver. }
    exists m. rstep. split_and!; [done| |].
    + intros [|i] cmd a; simpl; [|intros; rewrite Nat.add_succ_r; by eapply Hin]. intros [= <-] Ha. rewrite Hout, H1, decide_True, Nat.add_0_r by naive_solver. done.
    + intros a Ha. rewrite Hout, H1, decide_False by set_solver. done.
Qed.
Lemma group_alias cmds i cmd g c rest s : NoDup (concat (get_aliases <$> cmds)) -> cmds !! i = Some cmd -> c ∈ get_aliases cmd ->
  execute_group cmds (g :: c :: rest) s = execute cmd (c :: rest) s.
Proof.
  intros Hnd Hi Hc. destruct (alias_table_Ok cmds 0 ∅ Hnd) as (m & Em & Hin & _); [by intros; rewrite lookup_empty|].
  eapply group_command; [done|by eapply Hin|done].
Qed.
Lemma aliases_NoDup : NoDup (concat (get_aliases <$> account_commands)) /\ NoDup (concat (get_aliases <$> node_commands)) /\
  NoDup (concat (get_aliases <$> dev_commands)) /\ NoDup (concat (get_aliases <$> txn_commands)) /\ NoDup (concat (get_aliases <$> block_commands)) /\
  NoDup (concat (get_aliases <$> commands)).
Proof. split_and!; apply (bool_decide_unpack _); vm_compute; exact I. Qed.

(** ** What a line does to the node *)

(** The line runs [method] of the node, and changes nothing else; it prints [ok] of the answer, if there is one, and
    otherwise an error. *)
Definition line_does {B T} (info line : string) (method : stM (Node W) T) (answer : T -> option B) (ok : B -> string) (msg : string) : Prop := forall s,
  let '(r, n') := method (sh_node s) in
  exists printed, turn info (Line line) s = (Ok true, mkShell n' (sh_wallet s) (sh_disk s) (sh_calls s) (sh_out s ++ [printed])) /\
    match (match r with Ok t => answer t | _ => None end) with
    | Some b => printed = ok b
    | None => exists e, printed = "[ERROR] " +:+ msg +:+ ": " +:+ e
    end.

Lemma guarded_call {A} n params msg (m : C A) call ok err s : n <= length params -> (forall s, m s = on_node call s) ->
  at_least n params msg (on_result m ok err) s = on_result (on_node call) ok err s.
Proof. intros Hn Hm. unfold at_least, on_result. by rewrite bool_decide_eq_false_2, Hm by lia. Qed.
Lemma in_consts (l : list string) (P : string -> Prop) `{!forall w, Decision (P w)} c : c ∈ l -> forallb (fun w => bool_decide (P w)) l = true -> P c.
Proof. intros Hc Hl. rewrite forallb_forall in Hl. apply list_elem_of_In, Hl in Hc. by apply bool_decide_eq_true in Hc. Qed.
Lemma const_word l c : c ∈ l -> forallb (fun w => bool_decide (word w)) l = true -> word c.
Proof. apply in_consts. Qed.
Lemma node_line_does {B T} info g c rest i cmd (call : stM (Node W) B) (method : stM (Node W) T) answer ok msg :
  g ∈ ["node"; "n"] -> node_commands !! i = Some cmd -> c ∈ get_aliases cmd -> Forall word (g :: c :: rest) ->
  (forall s, execute cmd (c :: rest) s = on_result (on_node call) (fun b => println (ok b)) (report_error msg) s) ->
  reaches call method answer -> line_does info (Text.join " "%char (g :: c :: rest)) method answer ok msg.
Proof.
  intros Hg Hi Hc Hw Hex Hr s. specialize (Hr (sh_node s)). destruct (method (sh_node s)) as [r n'] eqn:Em. destruct Hr as (r' & Ec & Hnp & Hiff).
  rewrite (turn_command info g (c :: rest) NodeCommand) by (done || by apply group_aliases). unfold mbind at 1, stM_bind at 1.
  change (execute NodeCommand) with (execute_group node_commands). rewrite (group_alias node_commands i cmd) by (done || apply aliases_NoDup).
  rewrite Hex. unfold on_result, on_node. rewrite Ec. destruct r' as [b|e|e]; [| |by destruct Hnp].
  - destruct (proj1 (Hiff b) eq_refl) as (t & -> & Ht). eexists. split; [reflexivity|]. by rewrite Ht.
  - eexists. split; [reflexivity|]. destruct (match r with Ok t => answer t | _ => None end) as [b|] eqn:Ea; [|by eexists].
    destruct r as [t| |]; [|done..]. by pose proof (proj2 (Hiff b) (ex_intro _ t (conj eq_refl Ea))).
Qed.

(** ** Properties *)

Context {LL : LibraLaws} {PCL : ProofCodecLaws}.

(** C32: the lines of the command line that open a channel, pay, deposit, withdraw, ask for a balance, add an invoice and
    pay one, with either name of the group and every alias that can be typed, run exactly the method of the node with
    the address and the amount of the line, through parser, dispatch, RPC client and service; they change nothing else
    of the shell, never end it, and print the answer of the method, or its error. *)
Theorem typed_commands_reach_node info g a addr x i : g ∈ ["node"; "n"] -> word a -> address_from_hex_literal a = Ok addr -> in_u64 x -> word i ->
  line_does info (Text.join " "%char [g; "oc"; a; pretty x]) (open_channel_oneshot world wait addr x 0) rx_answer (fun _ => "open channel success") "Error open channel" /\
  (forall c, c ∈ ["pay"; "p"] -> line_does info (Text.join " "%char [g; c; a; pretty x])
    (off_chain_pay_oneshot world wait addr x) rx_answer (fun _ => "pay success") "Error pay account") /\
  (forall c, c ∈ ["deposit"; "d"] -> line_does info (Text.join " "%char [g; c; a; pretty x])
    (deposit_oneshot world wait addr x) rx_answer (fun _ => "deposit success") "Error pay account") /\
  (forall c, c ∈ ["withdraw"; "wd"] -> line_does info (Text.join " "%char [g; c; a; pretty x])
    (withdraw_oneshot world wait addr x) rx_answer (fun _ => "withdraw success") "Error pay account") /\
  line_does info (Text.join " "%char [g; "cb"; a]) (channel_balance_async world addr)
    (fun r => Some (mkChannelBalanceResponse match r with inl z => z | inr _ => 0%Z end)) (fun result => "balance is " +:+ pretty (cb_balance result)) "Error pay account" /\
  (forall c, c ∈ ["add_invoice"; "ai"] -> line_does info (Text.join " "%char [g; c; pretty x])
    (attempt (add_invoice world x)) (fun r => mkAddInvoiceResponse ∘ Invoice_to_string <$> sum_answer r)
    (fun response => "successfully add invoice " +:+ ai_encoded_invoice response) "Error add invoice") /\
  (forall c, c ∈ ["send_payment"; "sp"] -> line_does info (Text.join " "%char [g; c; i])
    (pay_invoice world i) sum_answer (fun _ => "successfully pay ") "Error payment").
Proof.
  intros Hg Ha Haddr Hx Hi. pose proof (const_word _ _ Hg eq_refl) as Hgw.
  assert (Hpx : parse_u64 (pretty x) = Ok x) by (by apply parse_pretty). pose proof (pretty_word x (proj1 Hx)) as Hpw.
  assert (Hw3 : forall c, word c -> Forall word [g; c; a; pretty x]) by (intros; repeat (apply List.Forall_cons; [done|]); constructor).
  assert (Hw2 : forall c y, word c -> word y -> Forall word [g; c; y]) by (intros; repeat (apply List.Forall_cons; [done|]); constructor).
  split_and!.
  - eapply (node_line_does info g "oc" [a; pretty x] 0); [done|reflexivity|set_solver|by apply Hw3, (const_word ["oc"]); [set_solver|]| |apply (client_open_channel_reaches world wait status_text dropped_text)].
    intros s. apply guarded_call; [simpl; lia|]. intros s'. unfold proxy_open_channel, lift, mbind, stM_bind. simpl. rewrite Haddr. simpl. by rewrite Hpx.
  - intros c Hc. eapply (node_line_does info g c [a; pretty x] 1); [done|reflexivity|done|by apply Hw3; eapply const_word| |apply (client_pay_reaches world wait status_text dropped_text)].
    intros s. apply guarded_call; [simpl; lia|]. intros s'. unfold proxy_off_chain_pay, lift, mbind, stM_bind. simpl. rewrite Haddr. simpl. by rewrite Hpx.
  - intros c Hc. eapply (node_line_does info g c [a; pretty x] 4); [done|reflexivity|done|by apply Hw3; eapply const_word| |apply (client_deposit_reaches world wait status_text dropped_text)].
    intros s. apply guarded_call; [simpl; lia|]. intros s'. unfold proxy_deposit, lift, mbind, stM_bind. simpl. rewrite Haddr. simpl. by rewrite Hpx.
  - intros c Hc. eapply (node_line_does info g c [a; pretty x] 2); [done|reflexivity|done|by apply Hw3; eapply const_word| |apply (client_withdraw_reaches world wait status_text dropped_text)].
    intros s. apply guarded_call; [simpl; lia|]. intros s'. unfold proxy_withdraw, lift, mbind, stM_bind. simpl. rewrite Haddr. simpl. by rewrite Hpx.
  - eapply (node_line_does info g "cb" [a] 3); [done|reflexivity|set_solver|by apply Hw2; [apply (const_word ["cb"]); [set_solver|]|]| |apply (client_channel_balance_reaches world status_text dropped_text)].
    intros s. apply guarded_call; [simpl; lia|]. intros s'. unfold proxy_channel_balance, lift, mbind, stM_bind. simpl. by rewrite Haddr.
  - intros c Hc. eapply (node_line_does info g c [pretty x] 5); [done|reflexivity|done|by apply Hw2; [eapply const_word|]| |apply (client_add_invoice_reaches world status_text dropped_text)].
    intros s. apply guarded_call; [simpl; lia|]. intros s'. unfold proxy_add_invoice, lift, mbind, stM_bind. simpl. by rewrite Hpx.
  - intros c Hc. eapply (node_line_does info g c [i] 6); [done|reflexivity|done|by apply Hw2; [eapply const_word|]| |apply (client_send_payment_reaches world status_text dropped_text)].
    intros s. by apply guarded_call; [simpl; lia|].
Qed.

(** *** Names that cannot be typed *)

(** The line prints, and does nothing else. *)
Definition only_prints (info line : string) : Prop := forall s, exists out, out <> [] /\
  turn info (Line line) s = (Ok true, mkShell (sh_node s) (sh_wallet s) (sh_disk s) (sh_calls s) (sh_out s ++ out)).

Lemma print_help_lines_out cmds s : exists out, print_help_lines cmds s = (Ok tt, mkShell (sh_node s) (sh_wallet s) (sh_disk s) (sh_calls s) (sh_out s ++ out)).
Proof.
  revert s. induction cmds as [|cmd cmds IH]; intros s; simpl; [exists []; rewrite app_nil_r; by destruct s|].
  unfold println, modifyS, mbind, stM_bind. edestruct IH as [out ->]. simpl. eexists. by rewrite <-(assoc_L (++)).
Qed.
Lemma print_subcommand_help_out g cmds s : exists out, out <> [] /\
  print_subcommand_help g cmds s = (Ok tt, mkShell (sh_node s) (sh_wallet s) (sh_disk s) (sh_calls s) (sh_out s ++ out)).
Proof.
  unfold print_subcommand_help, println, modifyS, mbind, stM_bind. cbn [fst snd]. edestruct print_help_lines_out as [out ->]. simpl.
  eexists. rewrite <-!(assoc_L (++)). split; [|done]. done.
Qed.
Lemma group_unknown cmds g c rest s : NoDup (concat (get_aliases <$> cmds)) -> c ∉ concat (get_aliases <$> cmds) ->
  execute_group cmds (g :: c :: rest) s = print_subcommand_help g cmds s.
Proof.
  intros Hnd Hc. destruct (alias_table_Ok cmds 0 ∅ Hnd) as (m & Em & _ & Hout); [by intros; rewrite lookup_empty|].
  unfold execute_group, subcommand_execute, lift. unfold mbind at 1, stM_bind at 1. simpl. unfold mbind at 1, stM_bind at 1.
  by rewrite Em, Hout, lookup_empty.
Qed.
Lemma unknown_only_prints info g cmd cmds c rest : alias_to_cmd !! g = Some cmd -> execute cmd = execute_group cmds -> NoDup (concat (get_aliases <$> cmds)) ->
  c ∉ concat (get_aliases <$> cmds) -> Forall word (g :: c :: rest) -> only_prints info (Text.join " "%char (g :: c :: rest)).
Proof.
  intros Hg Hex Hnd Hc Hw s. rewrite (turn_command info g (c :: rest) cmd) by done. rewrite Hex. unfold mbind at 1, stM_bind at 1.
  rewrite group_unknown by done. destruct (print_subcommand_help_out g cmds s) as (out & Hne & ->). by exists out.
Qed.

(** five of the names of commands contain a blank: [open_channel ], [channel_balance ], [deploy module], [install package]
    and [package execute].  A line is split at its blanks, so no word of a line is such a name: whatever is typed, these
    aliases select nothing.  Typing the name without the blank prints the help and does nothing; neither do the two
    commands on proposals, which no list contains, by any of their names. *)
Theorem names_with_blanks_unreachable info :
  (forall line alias, alias ∈ ["open_channel "; "channel_balance "; "transaction_proposal "; "deploy module"; "install package"; "package execute"] ->
     alias ∈ concat (get_aliases <$> (NodeCommandQueryProposal :: node_commands ++ dev_commands)) /\ alias ∉ parse_cmd line) /\
  (forall g c rest, g ∈ ["node"; "n"] ->
     c ∈ ["open_channel"; "channel_balance"; "transaction_proposal"; "tp"; "transaction_proposal_action"; "tpa"] -> Forall word rest ->
     only_prints info (Text.join " "%char (g :: c :: rest))) /\
  (forall c rest, c ∈ ["deploy"; "install"; "package"] -> Forall word rest -> only_prints info (Text.join " "%char ("dev" :: c :: rest))).
Proof.
  destruct aliases_NoDup as (_ & Hn & Hd & _). split_and!.
  - intros line alias Ha. split; [apply (in_consts _ (fun w => w ∈ concat (get_aliases <$> (NodeCommandQueryProposal :: node_commands ++ dev_commands))) _ Ha); by vm_compute|]. intros Hp%parse_cmd_no_blank.
    pose proof (in_consts _ (fun w => has_char " "%char w = true) _ Ha eq_refl) as Hb. simpl in Hb. congruence.
  - intros g c rest Hg Hc Hr. apply (unknown_only_prints info g NodeCommand node_commands); [by apply group_aliases|done|done|apply (in_consts _ (fun w => w ∉ concat (get_aliases <$> node_commands)) _ Hc); by vm_compute|].
    apply List.Forall_cons; [by eapply const_word|]. by apply List.Forall_cons; [eapply const_word|].
  - intros c rest Hc Hr. apply (unknown_only_prints info "dev" DevCommand dev_commands); [by apply group_aliases; set_solver|done|done|apply (in_consts _ (fun w => w ∉ concat (get_aliases <$> dev_commands)) _ Hc); by vm_compute|].
    apply List.Forall_cons; [by eapply (const_word ["dev"]); [set_solver|]|]. by apply List.Forall_cons; [eapply const_word|].
Qed.

(** *** Lines that end the shell *)

Definition quiet {A} (m : C A) : Prop := forall s, no_panic (m s).1.

Lemma quiet_bind {A B} (m : C A) (k : A -> C B) : quiet m -> (forall a, quiet (k a)) -> quiet (m ≫= k).
Proof. intros Hm Hk s. unfold mbind, stM_bind. specialize (Hm s). destruct (m s) as [[a|e|e] s']; [apply Hk|done|done]. Qed.
Lemma quiet_lift {A} (r : res A) : no_panic r -> quiet (lift r).
Proof. by intros Hr s. Qed.
Lemma quiet_ret {A} (a : A) : quiet (mret a).
Proof. done. Qed.
Lemma quiet_println line : quiet (println line).
Proof. done. Qed.
Lemma quiet_report msg e : quiet (report_error msg e).
Proof. done. Qed.
Lemma quiet_on_result {A} (call : C A) ok msg : quiet call -> (forall a, quiet (ok a)) -> quiet (on_result call ok (report_error msg)).
Proof. intros Hc Hok s. unfold on_result. specialize (Hc s). destruct (call s) as [[a|e|e] s']; [apply Hok|done|done]. Qed.
Lemma quiet_at_least n params msg m : (n <= length params -> quiet m) -> quiet (at_least n params msg m).
Proof. intros Hm. unfold at_least. case_bool_decide; [apply quiet_println|]. apply Hm. lia. Qed.
Lemma quiet_ensure {A} b e (k : C A) : (b = true -> quiet k) -> quiet (_ ← lift (ensure b e); k).
Proof. intros Hk. destruct b; [|done]. intros s. by apply Hk. Qed.
Lemma quiet_param {A} params i (k : string -> C A) : i < length params -> (forall p, quiet (k p)) -> quiet (p ← lift (nth_param params i); k p).
Proof. intros [p Hp]%lookup_lt_is_Some_2 Hk s. unfold nth_param, lift, mbind, stM_bind. rewrite Hp. apply Hk. Qed.
Lemma quiet_on_node {B T} (call : stM (Node W) B) (method : stM (Node W) T) answer : reaches call method answer -> quiet (on_node call).
Proof.
  intros Hr s. specialize (Hr (sh_node s)). destruct (method (sh_node s)) as [r n']. destruct Hr as (r' & Ec & Hnp & _). unfold on_node. by rewrite Ec.
Qed.
Lemma quiet_explored {A} (f : nat -> res A + GrpcError) : (forall k r, f k = inl r -> no_panic r) -> quiet (explored f).
Proof. intros Hf s. unfold explored, on_chain. simpl. destruct (f _) as [r|e] eqn:E; simpl; [by eapply Hf|done]. Qed.
Lemma parse_digits_quiet max s acc : no_panic (parse_digits max s acc).
Proof. revert acc. induction s as [|c s IH]; intros acc; simpl; [done|]. destruct (digit c); [|done]. case_bool_decide; [apply IH|done]. Qed.
Lemma parse_u64_quiet s : no_panic (parse_u64 s).
Proof.
  unfold parse_u64, parse_unsigned. destruct s as [|c s]; [done|]. destruct c as [[] [] [] [] [] [] [] []]; try apply parse_digits_quiet.
  destruct s; [done|apply parse_digits_quiet].
Qed.
#[local] Hint Resolve quiet_lift quiet_ret quiet_println quiet_report parse_u64_quiet : core.

Context {CL : CliLaws}.
#[local] Hint Resolve address_from_hex_literal_quiet hash_from_hex_quiet : core.

(** A call of the node with an address and an amount, or with less *)
Ltac quiet_call reaches :=
  apply quiet_at_least; intros Hlen; apply quiet_on_result; [|auto]; apply quiet_ensure; intros Hn%bool_decide_eq_true;
  repeat (apply quiet_param; [lia|intros ?]; try (apply quiet_bind; [by auto|intros ?])); eapply quiet_on_node, reaches.
Lemma quiet_node_commands : Forall (fun cmd => forall params, quiet (execute cmd params)) node_commands.
Proof.
  repeat (apply List.Forall_cons; [intros params; simpl|]); [..|constructor].
  - quiet_call (client_open_channel_reaches world wait status_text dropped_text).
  - quiet_call (client_pay_reaches world wait status_text dropped_text).
  - quiet_call (client_withdraw_reaches world wait status_text dropped_text).
  - quiet_call (client_channel_balance_reaches world status_text dropped_text).
  - quiet_call (client_deposit_reaches world wait status_text dropped_text).
  - quiet_call (client_add_invoice_reaches world status_text dropped_text).
  - quiet_call (client_send_payment_reaches world status_text dropped_text).
Qed.

Section explorer.
Hypothesis block_explorer_quiet : forall k req r, block_explorer k req = inl r -> no_panic r.
Hypothesis txn_explorer_quiet : forall k req r, txn_explorer k req = inl r -> no_panic r.

Lemma quiet_print_blocks k blocks : quiet (print_blocks k blocks).
Proof. revert k. induction blocks as [|b blocks IH]; intros k; simpl; [done|]. by apply quiet_bind; [|intros]. Qed.
Ltac quiet_explore :=
  unfold latest_height, block_difficulty, block_detail, get_block_summary_list_request, latest_version, txn_list, txn_by_version, wrong_type;
  repeat match goal with
  | |- forall _, _ => intros ?
  | |- quiet (println _) => apply quiet_println
  | |- quiet (mret _) => apply quiet_ret
  | |- quiet (print_blocks _ _) => apply quiet_print_blocks
  | |- quiet (explored _) => apply quiet_explored; intros ? ?; first [by apply block_explorer_quiet | by apply txn_explorer_quiet]
  | |- quiet (on_result _ _ _) => apply quiet_on_result
  | |- quiet (lift (ensure _ _) ≫= _) => apply quiet_ensure; intros ?%bool_decide_eq_true
  | |- quiet (lift (nth_param _ _) ≫= _) => apply quiet_param; [lia|]
  | |- quiet (lift _) => apply quiet_lift; by auto
  | |- quiet (_ ≫= _) => apply quiet_bind
  | |- quiet (if bool_decide _ then _ else _) => case_bool_decide
  | |- quiet (match _ with _ => _ end) => case_match
  end.
Lemma quiet_block_commands : Forall (fun cmd => forall params, quiet (execute cmd params)) block_commands.
Proof.
  unfold block_commands, BlockLatestHeight, BlockList, BlockDetailCommand, BlockDifficulty. repeat (apply List.Forall_cons; [intros params; cbn [execute]; quiet_explore|]).
  constructor.
Qed.
Lemma quiet_txn_commands : Forall (fun cmd => forall params, quiet (execute cmd params)) txn_commands.
Proof.
  unfold txn_commands, TxnLatestVersion, QueryTxnByVersion, TxnList. repeat (apply List.Forall_cons; [intros params; cbn [execute]; quiet_explore|]).
  constructor.
Qed.

Lemma quiet_group cmds params : params <> [] -> NoDup (concat (get_aliases <$> cmds)) -> Forall (fun cmd => forall params, quiet (execute cmd params)) cmds ->
  quiet (execute_group cmds params).
Proof.
  intros Hp Hnd Hq s. assert (Hhelp : forall g, no_panic (print_subcommand_help g cmds s).1).
  { intros g. by destruct (print_subcommand_help_out g cmds s) as (out & _ & ->). }
  destruct params as [|g [|c rest]]; [done| |].
  - unfold execute_group, subcommand_execute, lift, mbind, stM_bind. destruct (alias_table_Ok cmds 0 ∅ Hnd) as (m & Em & _); [by intros; rewrite lookup_empty|].
    simpl. rewrite Em. apply Hhelp.
  - destruct (decide (c ∈ concat (get_aliases <$> cmds))) as [Hc|Hc]; [|rewrite group_unknown by done; apply Hhelp].
    apply list_elem_of_In, in_concat in Hc as (l & (cmd & <- & Hcmd)%in_map_iff & Hc). apply list_elem_of_In in Hcmd, Hc.
    destruct (proj1 (list_elem_of_lookup _ _) Hcmd) as [i Hi]. rewrite (group_alias cmds i cmd) by done. by apply (proj1 (Forall_forall _ _) Hq cmd Hcmd).
Qed.
Lemma alias_to_cmd_inv a cmd : alias_to_cmd !! a = Some cmd -> cmd ∈ commands /\ a ∈ get_aliases cmd.
Proof.
  assert (Hins : forall c l m b d, insert_all c l m !! b = Some d -> (b ∈ l /\ d = c) \/ m !! b = Some d).
  { intros c l. induction l as [|x l IH]; intros m b d; simpl; [by right|]. intros [[? ->]|H]%IH; [left; set_solver|].
    apply lookup_insert_Some in H as [[-> ->]|[_ ?]]; [left; set_solver|by right]. }
  unfold alias_to_cmd. intros H. cut (forall l m, fold_left (fun m c => insert_all c (get_aliases c) m) l m !! a = Some cmd -> (cmd ∈ l /\ a ∈ get_aliases cmd) \/ m !! a = Some cmd).
  { intros Hc. apply Hc in H as [?|H]; [done|]. by rewrite lookup_empty in H. }
  clear H. intros l. induction l as [|c l IH]; intros m; simpl; [by right|]. intros [[? ?]|H]%IH; [left; set_solver|].
  apply Hins in H as [[? ->]|H]; [left; set_solver|by right].
Qed.

(** no line of the groups [node], [block] and [transaction], and no line that is not a command, ends the shell,
    whatever its words are, as long as the answers of the explorer can be decoded without a panic: every error is
    printed. *)
Theorem node_and_explorer_lines_never_panic info line s : (forall g, head (parse_cmd line) = Some g -> g ∉ ["account"; "a"; "dev"]) ->
  no_panic (turn info (Line line) s).1.
Proof.
  intros Hg. pose proof (parse_cmd_nonempty line) as Hne. unfold turn. destruct (parse_cmd line) as [|p0 rest]; [done|]. specialize (Hg p0 eq_refl).
  change (no_panic ((match alias_to_cmd !! p0 with
    | Some cmd => _ ← execute cmd (p0 :: rest); mret true
    | None => if bool_decide (p0 = "quit" \/ p0 = "q!") then mret false
              else if bool_decide (p0 = "help" \/ p0 = "h") then _ ← print_help info commands; mret true
              else if bool_decide (p0 = EmptyString) then mret true else _ ← println ("Unknown command: " +:+ debug_str p0); mret true
    end) s).1).
  destruct (alias_to_cmd !! p0) as [cmd|] eqn:Ea.
  - apply quiet_bind; [|done]. apply alias_to_cmd_inv in Ea as [Hc Ha]. destruct aliases_NoDup as (_ & Hn & _ & Ht & Hb & _).
    repeat (apply elem_of_cons in Hc as [->|Hc]); [set_solver| |set_solver| | |by apply elem_of_nil in Hc].
    + by apply (quiet_group node_commands); [|..|apply quiet_node_commands].
    + by apply (quiet_group txn_commands); [|..|apply quiet_txn_commands].
    + by apply (quiet_group block_commands); [|..|apply quiet_block_commands].
  - by repeat case_bool_decide.
Qed.
End explorer.

Lemma at_least_pass n params msg m : n <= length params -> at_least n params msg m = m.
Proof. intros Hn. unfold at_least. by rewrite bool_decide_eq_false_2 by lia. Qed.
Lemma parse_usize_pretty k : in_u64 k -> parse_usize (pretty k) = Ok k.
Proof. apply parse_pretty. Qed.
#[local] Opaque is_address address_from_strings parse_u64 parse_usize.
Lemma line_panics info g gcmd cmds i cmd c rest s e : alias_to_cmd !! g = Some gcmd -> execute gcmd = execute_group cmds ->
  NoDup (concat (get_aliases <$> cmds)) -> cmds !! i = Some cmd -> c ∈ get_aliases cmd -> Forall word (g :: c :: rest) ->
  (execute cmd (c :: rest) s).1 = Panic e -> (turn info (Line (Text.join " "%char (g :: c :: rest))) s).1 = Panic e.
Proof.
  intros Hg Hex Hnd Hi Hc Hw Hp. rewrite (turn_command info g (c :: rest) gcmd), Hex by done. unfold mbind at 1, stM_bind at 1.
  rewrite (group_alias cmds i cmd) by done. destruct (execute cmd (c :: rest) s) as [r s']. simpl in Hp. by subst r.
Qed.

(** lines that end the shell although the guard of their command lets them pass.  The guards of [dev ip] and [dev pe] ask
    for one word less than the command reads; [account mint] unwraps the number that it parses, and the number of an
    account that the wallet does not have is unwrapped as well. *)
Theorem weak_guards_end_the_shell info s :
  (forall a addr, word a -> is_address a = true -> address_from_strings a = Ok addr ->
     (turn info (Line (Text.join " "%char ["dev"; "ip"; a])) s).1 = Panic "index out of bounds") /\
  (forall a addr p n, Forall word [a; p; n] -> address_from_hex_literal a = Ok addr ->
     (turn info (Line (Text.join " "%char ["dev"; "pe"; a; p; n])) s).1 = Panic "index out of bounds") /\
  (forall a x e, word a -> word x -> parse_u64 x = Err e -> (turn info (Line (Text.join " "%char ["account"; "mint"; a; x])) s).1 = Panic e) /\
  (forall k l, in_u64 k -> is_address (pretty k) = false -> wl_get_addresses (sh_wallet s) = Ok l -> (Z.of_nat (length l) <= k)%Z ->
     (turn info (Line (Text.join " "%char ["account"; "state"; pretty k])) s).1 = Panic "called `Option::unwrap()` on a `None` value").
Proof.
  destruct aliases_NoDup as (Hac & _ & Hd & _). assert (Hcw : forall c, c ∈ ["dev"; "ip"; "pe"; "account"; "mint"; "state"] -> word c) by (intros; by eapply const_word).
  assert (Hw : forall g c rest, g ∈ ["dev"; "account"] -> c ∈ ["ip"; "pe"; "mint"; "state"] -> Forall word rest -> Forall word (g :: c :: rest)).
  { intros g c rest Hg Hc Hr. do 2 (apply List.Forall_cons; [apply Hcw; set_solver|]). done. }
  split_and!.
  - intros a addr Ha Hi Ea. apply (line_panics info "dev" DevCommand dev_commands 1 DevCommandInstallPackage "ip" [a]);
      [by apply group_aliases; set_solver|done|done|done|set_solver|apply Hw; [set_solver..|by constructor]|].
    cbn [execute DevCommandInstallPackage]. rewrite at_least_pass by (simpl; lia). unfold on_result, install_script, get_account_address_from_parameter.
    unfold lift, mbind, stM_bind. cbn. rewrite Hi. by rewrite Ea.
  - intros a addr p n Hws Ea. apply (line_panics info "dev" DevCommand dev_commands 2 DevCommandExecuteInstalledScript "pe" [a; p; n]);
      [by apply group_aliases; set_solver|done|done|done|set_solver|by apply Hw; [set_solver..|]|].
    cbn [execute DevCommandExecuteInstalledScript]. rewrite at_least_pass by (simpl; lia). unfold on_result, execute_installed_script, lift, mbind, stM_bind. cbn. by rewrite Ea.
  - intros a x e Ha Hx Ep. apply (line_panics info "account" AccountCommand account_commands 1 AccountCommandMint "mint" [a; x]);
      [by apply group_aliases; set_solver|done|done|done|set_solver|apply Hw; [set_solver..|by constructor; [|constructor; [|constructor]]]|].
    cbn [execute AccountCommandMint]. rewrite at_least_pass by (simpl; lia). unfold lift, mbind, stM_bind. cbn. by rewrite Ep.
  - intros k l Hk Hi El Hlen. apply (line_panics info "account" AccountCommand account_commands 2 AccountCommandState "state" [pretty k]);
      [by apply group_aliases; set_solver|done|done|done|set_solver|apply Hw; [set_solver..|constructor; [by apply pretty_word; destruct Hk|constructor]]|].
    cbn [execute AccountCommandState]. rewrite at_least_pass by (simpl; lia). unfold on_result, proxy_account_state, get_account_address_from_parameter.
    unfold lift, mbind, stM_bind. cbn. rewrite Hi, parse_usize_pretty by done. cbn. rewrite El. cbn. by rewrite lookup_ge_None_2 by lia.
Qed.
End cli.
