(* ===== verification/AntRouter.v ===== *)
(** * Ant routing

    Models [src/router/ant/src]: a node that looks for a path exchanges seeds with the target, and both
    send ants along their channels.  An ant carries the hops it has made; where an ant of the one meets an
    ant of the other, the two lists together go to the searcher, which orders them to a path.

    A router is the state of [AntRouterInner] with its spawned searches.  A handler runs to its end before
    the next one, except that it may wait for ever for the lock of the statistics; a search stops where it
    awaits the answer of the target and the delay for the ants.

    The theorem: in any network of such routers, whatever messages are lost, repeated or reordered, a path
    that a search returns leads from the searcher to the target over channels that the wallets listed. *)
From S2P Require Import Prelude Codec Libra SchemaDB Accumulator ChannelTypes ChannelStore TxApplier Chain ChannelStm Channel Messages Wallet.
From S2P Require Import Invoices Futures Stats Node.

(** [StdRng::seed_from_u64(ts).gen::<u128>()] *)
Class SeedRng := random_u128 : Z -> Z.
(** Whether a [HashMap] compares a key with a stored one.  [SValue] is equal up to its first byte, but
    hashes all of them, so that equal keys are compared only when their hashes happen to agree. *)
Class SValueHash := s_probe : SValue -> SValue -> bool.

(** ** [path_finder.rs] *)

Section path_finder.
Context {L : Libra} {SH : SValueHash}.

(** [HashMap<SValue, Vec<BalanceQueryResponse>>] *)
Definition SeedManager : Type := list (SValue * list BalanceQueryResponse).
Definition seed_find (key : SValue) (m : SeedManager) : option (nat * (SValue * list BalanceQueryResponse)) :=
  list_find (fun e => s_probe key e.1 && SValue_eqb key e.1) m.
Definition contains_key (key : SValue) (m : SeedManager) : bool :=
  match seed_find key m with Some _ => true | None => false end.
Definition seed_remove (key : SValue) (m : SeedManager) : option (list BalanceQueryResponse) * SeedManager :=
  match seed_find key m with
  | Some (i, (_, v)) => (Some v, base.delete i m)
  | None => (None, m)
  end.
Definition seed_insert (key : SValue) (value : list BalanceQueryResponse) (m : SeedManager) : SeedManager :=
  match seed_find key m with
  | Some (i, (k, _)) => <[i := (k, value)]> m
  | None => m ++ [(key, value)]
  end.

Definition match_or_add (key : SValue) (value : list BalanceQueryResponse) : stM SeedManager (option (list BalanceQueryResponse)) :=
  m ← getS;
  if contains_key key m then mret None
  else
    let peer := get_peer key in
    if contains_key peer m then
      let '(result, m) := seed_remove peer m in
      _ ← modifyS (fun _ => m);
      result ← lift (expect result "should have key");
      mret (Some (result ++ value))
    else
      _ ← modifyS (seed_insert key value);
      mret None.

(** [PathStore] *)
Definition PathStore : Type := gmap HashValue (list AntFinalMessage).
Definition add_path (r : HashValue) (path : AntFinalMessage) : stM PathStore unit :=
  m ← getS;
  match m !! r with
  | None => modifyS <[r := [path]]>
  | Some vec => modifyS (fun m => <[r := vec ++ [path]]> (base.delete r m))
  end.
Definition take_path (r : HashValue) (m : PathStore) : option (list AntFinalMessage) * PathStore := (m !! r, base.delete r m).

(** ** [seed_generator.rs] *)

Definition generate_random_u128 {SR : SeedRng} (unix_ts : Z) : Z := random_u128 unix_ts.
Record SValueGenerator := mkGenerator { sender_r : Z; receiver_r : Z }.
Definition generator_bytes (g : SValueGenerator) : bytes := u128_to_le_bytes (sender_r g) ++ u128_to_le_bytes (receiver_r g).
Definition generator_get_r (g : SValueGenerator) : HashValue := hasher "TestOnlyHasher" (generator_bytes g).
Definition get_s (g : SValueGenerator) (is_sender : bool) : SValue :=
  mkSValue ((if is_sender then 0%Z else 1%Z) :: generator_bytes g).
End path_finder.

(** ** Ordering the hops of a path *)

Section path.
Context {L : Libra}.

(** [find_response]: the last response that touches [local] is taken from the list. *)
Definition find_response (local : AccountAddress) (response_list : list BalanceQueryResponse)
    : option (BalanceQueryResponse * list BalanceQueryResponse) :=
  let touches response := bool_decide (local_addr response = local) || bool_decide (remote_addr response = local) in
  let index := foldl (fun index e => if touches e.2 : bool then Some e.1 else index) None (imap pair response_list) in
  i ← index;
  response ← response_list !! i;
  let rest := base.delete i response_list in
  Some (if bool_decide (remote_addr response = local) then (revert response, rest) else (response, rest)).

(** [format_response_list]: the loop; each turn but the last shortens the list. *)
Fixpoint format_loop (fuel : nat) (seed : AccountAddress) (last : AccountAddress) (response_list : list BalanceQueryResponse)
    : list BalanceQueryResponse :=
  match fuel with
  | 0 => []
  | S fuel =>
      match find_response seed response_list with
      | Some (balance_response, rest) =>
          balance_response :: (if bool_decide (remote_addr balance_response = last) then []
                               else format_loop fuel (remote_addr balance_response) last rest)
      | None => []
      end
  end.
Definition format_response_list (resp : AntFinalMessage) (start last : AccountAddress) : list BalanceQueryResponse :=
  format_loop (S (length (af_list resp))) start last (af_list resp).

(** The numbers of a response are 64 bits wide: see [pressure_bound]. *)
Definition i128_max : Z := 2 ^ 127 - 1.
Definition pressure (balances : list BalanceQueryResponse) : Z :=
  foldl (fun p b => (p + total_pay_amount b + remote_balance b - local_balance b)%Z) 0%Z balances.

(** [find_path_by_pressure] and [RouterInner::find_path] keep one path for each pressure. *)
Definition least_pressure (l : list (list BalanceQueryResponse)) : option (list BalanceQueryResponse) :=
  let '(balance_map, min_pressure) := foldl (fun acc balances =>
    let '(balance_map, min_pressure) := acc in
    let p := pressure balances in
    (<[p := balances]> balance_map, if bool_decide (p < min_pressure)%Z then p else min_pressure))
    (∅ : gmap Z (list BalanceQueryResponse), i128_max) l in
  balance_map !! min_pressure.
Definition find_path_by_pressure (paths : list AntFinalMessage) (start last : AccountAddress) : res (list BalanceQueryResponse) :=
  match least_pressure ((fun path => format_response_list path start last) <$> paths) with
  | Some t => Ok t
  | None => Err "no path find"
  end.
End path.

(** ** [AntRouterInner] *)

Section ant_router.
Context {L : Libra} {K : Chain} {SR : SeedRng} {SH : SValueHash} {HO : HashOrder}.
Context {W : Type} {WO : WalletOps W}.

(** A spawned [find_path], by the point where it awaits something; [Responded] with the answer that it
    sends, or [None] where it ends with its responder dropped. *)
Inductive Search :=
| AwaitSeed (future : nat) (request_hash : HashValue) (start last : AccountAddress)
| AwaitAnts (s_generator : SValueGenerator) (start last : AccountAddress)
| AwaitStats (start last : AccountAddress)
| Responded (start last : AccountAddress) (answer : option (res (list BalanceQueryResponse))).

Record AntRouterInner := mkAntRouter {
  ar_wallet : W;
  ar_outbox : list (AccountAddress * RouterNetworkMessage);
  ar_network_open : bool;
  seed_manager : SeedManager;
  ar_processor : MessageProcessor RouterNetworkMessage;
  ar_timers : list HashValue;
  ar_future_timeout : Z;
  ar_stats : StatsInner;
  path_store : PathStore;
  searches : list Search
}.
Definition AntRouter_new (w : W) (st : StatsInner) (timeout : Z) : AntRouterInner :=
  mkAntRouter w [] true [] MessageProcessor_new [] timeout st ∅ [].
Notation A := (taskM AntRouterInner).

Definition set_ar_wallet x (n : AntRouterInner) : AntRouterInner :=
  mkAntRouter x (ar_outbox n) (ar_network_open n) (seed_manager n) (ar_processor n) (ar_timers n) (ar_future_timeout n) (ar_stats n) (path_store n) (searches n).
Definition set_ar_outbox x (n : AntRouterInner) : AntRouterInner :=
  mkAntRouter (ar_wallet n) x (ar_network_open n) (seed_manager n) (ar_processor n) (ar_timers n) (ar_future_timeout n) (ar_stats n) (path_store n) (searches n).
Definition set_seed_manager x (n : AntRouterInner) : AntRouterInner :=
  mkAntRouter (ar_wallet n) (ar_outbox n) (ar_network_open n) x (ar_processor n) (ar_timers n) (ar_future_timeout n) (ar_stats n) (path_store n) (searches n).
Definition set_ar_processor x (n : AntRouterInner) : AntRouterInner :=
  mkAntRouter (ar_wallet n) (ar_outbox n) (ar_network_open n) (seed_manager n) x (ar_timers n) (ar_future_timeout n) (ar_stats n) (path_store n) (searches n).
Definition set_ar_timers x (n : AntRouterInner) : AntRouterInner :=
  mkAntRouter (ar_wallet n) (ar_outbox n) (ar_network_open n) (seed_manager n) (ar_processor n) x (ar_future_timeout n) (ar_stats n) (path_store n) (searches n).
Definition set_ar_stats x (n : AntRouterInner) : AntRouterInner :=
  mkAntRouter (ar_wallet n) (ar_outbox n) (ar_network_open n) (seed_manager n) (ar_processor n) (ar_timers n) (ar_future_timeout n) x (path_store n) (searches n).
Definition set_path_store x (n : AntRouterInner) : AntRouterInner :=
  mkAntRouter (ar_wallet n) (ar_outbox n) (ar_network_open n) (seed_manager n) (ar_processor n) (ar_timers n) (ar_future_timeout n) (ar_stats n) x (searches n).
Definition set_searches x (n : AntRouterInner) : AntRouterInner :=
  mkAntRouter (ar_wallet n) (ar_outbox n) (ar_network_open n) (seed_manager n) (ar_processor n) (ar_timers n) (ar_future_timeout n) (ar_stats n) (path_store n) x.

(** The wallet, the statistics and the network, which the router only calls. *)
Definition ask_wallet {T} (m : stM W T) : A T := fun n => let '(r, w) := m (ar_wallet n) in (Some r, set_ar_wallet w n).
Definition ask_pressure (channel : DirectedChannel) : A Z := fun n =>
  let '(r, s) := payment_pressure channel (ar_stats n) in (r, set_ar_stats s n).
Definition ant_send (to : AccountAddress) (m : RouterNetworkMessage) : A unit :=
  n ← sync getS;
  if ar_network_open n then sync (modifyS (fun n => set_ar_outbox (ar_outbox n ++ [(to, m)]) n))
  else task_lift (Err "send failed because receiver is gone").
Definition ant_get : A AntRouterInner := sync getS.
Definition ant_modify (f : AntRouterInner -> AntRouterInner) : A unit := sync (modifyS f).

(** [send_ant_query_message] *)
Fixpoint send_ants (s : SValue) (peer_id : AccountAddress) (balance_list : list BalanceQueryResponse) (l : list AccountAddress) : A unit :=
  match l with
  | [] => mret tt
  | participant :: l =>
      n ← ant_get;
      let account := wo_account (ar_wallet n) in
      let already_send_set := (remote_addr <$> balance_list) ++ (local_addr <$> balance_list) in
      if bool_decide (participant ∈ already_send_set) then send_ants s peer_id balance_list l
      else
        total_amount ← ask_pressure (account, participant);
        local_balance ← ask_wallet (wo_channel_balance participant);
        remote_balance ← ask_wallet (wo_participant_channel_balance participant);
        _ ← ant_send participant (MAntQueryMessage (mkAntQuery s peer_id
              (balance_list ++ [mkBalanceResponse account participant local_balance remote_balance total_amount])));
        send_ants s peer_id balance_list l
  end.
Definition send_ant_query_message (s : SValue) (peer_id : AccountAddress) (balance_list : list BalanceQueryResponse) : A unit :=
  all_channels ← ask_wallet wo_get_all_channels;
  send_ants s peer_id balance_list (hs_iter all_channels).

Definition on_seed_manager {T} (m : stM SeedManager T) : A T := fun n =>
  let '(r, s) := m (seed_manager n) in (Some r, set_seed_manager s n).
Definition handle_ant_query_message (message : AntQueryMessage) : A unit :=
  r ← on_seed_manager (match_or_add (aq_s_value message) (aq_list message));
  match r with
  | Some t => ant_send (aq_sender_addr message) (MAntFinalMessage (mkAntFinal (get_r (aq_s_value message)) t))
  | None => send_ant_query_message (aq_s_value message) (aq_sender_addr message) (aq_list message)
  end.

Definition handle_exchange_seed_message_request (unix_ts : Z) (request : ExchangeSeedMessageRequest) (peer_id : AccountAddress) : A unit :=
  let receiver_seed := generate_random_u128 unix_ts in
  let s_generator := mkGenerator (sq_sender_seed request) receiver_seed in
  let s := get_s s_generator false in
  let response := mkSeedResponse (sq_sender_seed request) receiver_seed in
  _ ← send_ant_query_message s peer_id [];
  ant_send peer_id (MExchangeSeedMessageResponse response).
Definition handle_exchange_seed_message_response (response : ExchangeSeedMessageResponse) : A unit :=
  ant_modify (fun n => set_ar_processor
    (send_response (seed_response_request_hash response) (MExchangeSeedMessageResponse response) (ar_processor n)) n).
Definition handle_ant_final_message (response : AntFinalMessage) : A unit := fun n =>
  let '(r, s) := add_path (af_r_value response) response (path_store n) in (Some r, set_path_store s n).

Definition ant_handle_network_msg (unix_ts : Z) (peer_id : AccountAddress) (msg : RouterNetworkMessage) : A unit :=
  match msg with
  | MExchangeSeedMessageResponse response => handle_exchange_seed_message_response response
  | MAntFinalMessage response => handle_ant_final_message response
  | MExchangeSeedMessageRequest request => handle_exchange_seed_message_request unix_ts request peer_id
  | MAntQueryMessage message => handle_ant_query_message message
  | _ => task_lift (Err "should not be here")
  end.

(** [message_processor.rs] of the router: a timeout sends an error to the future. *)
Definition router_remove_future (hash : HashValue) (m : MessageProcessor RouterNetworkMessage) : res (MessageProcessor RouterNetworkMessage) :=
  match tx_map m !! hash with
  | Some tx => if bool_decide (tx ∈ gone m) then Panic "send failed because receiver is gone" else Ok (deliver hash tx (inr time_out) m)
  | None => Ok m
  end.

(** [MessageFuture::poll]: the task of a search keeps a sender of its own while it waits. *)
Definition router_poll_future (m : MessageProcessor RouterNetworkMessage) (i : nat) : Poll RouterNetworkMessage :=
  match delivered m !! i with
  | Some (inl v) => Ready v
  | Some (inr e) => Failed e
  | None => NotReady
  end.

(** *** [find_path] *)

(** Up to the await of the answer. *)
Definition ant_find_path (unix_ts : Z) (start last : AccountAddress) : A unit :=
  let sender_seed := generate_random_u128 unix_ts in
  let message := mkSeedRequest sender_seed in
  let request_hash := seed_request_hash message in
  _ ← ant_send last (MExchangeSeedMessageRequest message);
  n ← ant_get;
  let '(i, p) := channel (ar_processor n) in
  _ ← ant_modify (set_ar_processor (add_future request_hash i p));
  _ ← (if bool_decide (ar_future_timeout n = 0%Z) then mret tt
       else ant_modify (fun n => set_ar_timers (ar_timers n ++ [request_hash]) n));
  ant_modify (fun n => set_searches (searches n ++ [AwaitSeed i request_hash start last]) n).

Definition set_search (k : nat) (s : Search) (n : AntRouterInner) : AntRouterInner := set_searches (<[k := s]> (searches n)) n.

(** The answer of the target has arrived: up to the delay. *)
Definition poll_seed (k : nat) (n : AntRouterInner) : AntRouterInner :=
  match searches n !! k with
  | Some (AwaitSeed i _ start last) =>
      let done n := set_ar_processor (receiver_dropped i (ar_processor n)) n in
      match router_poll_future (ar_processor n) i with
      | NotReady => n
      | Failed _ => set_search k (Responded start last None) (done n)
      | Ready (MExchangeSeedMessageResponse resp) =>
          let s_generator := mkGenerator (ss_sender_seed resp) (ss_receiver_seed resp) in
          match send_ant_query_message (get_s s_generator true) start [] (done n) with
          | (Some (Ok _), n') => set_search k (AwaitAnts s_generator start last) n'
          | (Some _, n') => set_search k (Responded start last None) n'
          | (None, n') => set_search k (AwaitStats start last) n'
          end
      | Ready _ => set_search k (Responded start last (Some (Err "no path found"))) (done n)
      end
  | _ => n
  end.
(** The delay has passed. *)
Definition end_search (k : nat) (n : AntRouterInner) : AntRouterInner :=
  match searches n !! k with
  | Some (AwaitAnts s_generator start last) =>
      let '(paths, s) := take_path (generator_get_r s_generator) (path_store n) in
      let answer := match paths with
                    | Some resp => find_path_by_pressure resp start last
                    | None => Err "no path found"
                    end in
      set_search k (Responded start last (Some answer)) (set_path_store s n)
  | _ => n
  end.
(** The delay of a timer has passed. *)
Definition ant_timer (hash : HashValue) (n : AntRouterInner) : AntRouterInner :=
  match router_remove_future hash (ar_processor n) with Ok p => set_ar_processor p n | _ => n end.
End ant_router.
#[global] Arguments AntRouterInner {L} W.

(** ** A network of routers *)

Section ant_network.
Context {L : Libra} {K : Chain} {SR : SeedRng} {SH : SValueHash} {HO : HashOrder}.
Context {W : Type} {WO : WalletOps W}.
Implicit Types (n : AntRouterInner W) (a b : AccountAddress).

(** What a router does next.  [XOutside]: its wallet, the statistics and the network service do something
    of their own. *)
Inductive ant_action :=
| XSearch (unix_ts : Z) (last : AccountAddress)
| XDeliver (unix_ts : Z) (from : AccountAddress) (msg : RouterNetworkMessage)
| XPoll (k : nat)
| XEnd (k : nat)
| XTimer (hash : HashValue)
| XOutside (w : W) (st : StatsInner) (network_open : bool).
Definition ant_act (x : ant_action) (n : AntRouterInner W) : AntRouterInner W :=
  match x with
  | XSearch ts last => (ant_find_path ts (wo_account (ar_wallet n)) last n).2
  | XDeliver ts from msg => (ant_handle_network_msg ts from msg n).2
  | XPoll k => poll_seed k n
  | XEnd k => end_search k n
  | XTimer hash => ant_timer hash n
  | XOutside w st o =>
      mkAntRouter w (ar_outbox n) o (seed_manager n) (ar_processor n) (ar_timers n) (ar_future_timeout n) st (path_store n) (searches n)
  end.

(** What happened so far: who asked whom under the hash of a seed, who looks for whom under the hash of a
    pair of seeds, and the channels that the wallets listed. *)
Record History := mkHistory {
  h_asked : gmap HashValue (AccountAddress * AccountAddress);
  h_paired : gmap HashValue (AccountAddress * AccountAddress);
  h_listed : AccountAddress -> AccountAddress -> Prop
}.
(** The routers, and the messages in flight as (sender, receiver, message). *)
Record AntNet := mkAntNet {
  an_nodes : gmap AccountAddress (AntRouterInner W);
  an_flight : list (AccountAddress * AccountAddress * RouterNetworkMessage);
  an_history : History
}.
Implicit Types (net : AntNet) (h : History).

Definition ant_lists n : gset AccountAddress :=
  match (wo_get_all_channels (ar_wallet n)).1 with Ok X => X | _ => ∅ end.
Definition drawn_hash (unix_ts : Z) : HashValue := seed_request_hash (mkSeedRequest (generate_random_u128 unix_ts)).
Definition pair_hash (unix_ts : Z) (request : ExchangeSeedMessageRequest) : HashValue :=
  generator_get_r (mkGenerator (sq_sender_seed request) (generate_random_u128 unix_ts)).

(** A message is delivered only if it is in flight; the seed that is drawn does not collide with an
    earlier one; the account of a wallet does not change. *)
Definition ant_allowed net a n (x : ant_action) : Prop :=
  match x with
  | XSearch ts last => h_asked (an_history net) !! drawn_hash ts = None
  | XDeliver ts from msg => (from, a, msg) ∈ an_flight net /\
      match msg with MExchangeSeedMessageRequest rq => h_paired (an_history net) !! pair_hash ts rq = None | _ => True end
  | XOutside w _ _ => wo_account w = wo_account (ar_wallet n)
  | _ => True
  end.
Definition ant_record a n (x : ant_action) h : History := mkHistory
  (match x with XSearch ts last => <[drawn_hash ts := (a, last)]> (h_asked h) | _ => h_asked h end)
  (match x with
   | XDeliver ts from (MExchangeSeedMessageRequest rq) => <[pair_hash ts rq := (from, a)]> (h_paired h)
   | _ => h_paired h
   end)
  (fun b c => h_listed h b c \/ (b = a /\ c ∈ ant_lists n)).

(** One router acts; of the messages in flight and the new ones any may be lost, repeated or reordered. *)
Inductive ant_step : AntNet -> AntNet -> Prop :=
| AntStep net a n x flight : an_nodes net !! a = Some n -> ant_allowed net a n x ->
    (forall from b msg, (from, b, msg) ∈ flight ->
       (from, b, msg) ∈ an_flight net \/ from = a /\ (b, msg) ∈ ar_outbox (ant_act x n)) ->
    ant_step net (mkAntNet (<[a := set_ar_outbox [] (ant_act x n)]> (an_nodes net)) flight (ant_record a n x (an_history net))).

(** Routers at work from the start. *)
Definition ant_start net : Prop :=
  (forall a n, an_nodes net !! a = Some n -> exists w st timeout, n = AntRouter_new w st timeout /\ wo_account w = a) /\
  an_flight net = [] /\ h_asked (an_history net) = ∅ /\ h_paired (an_history net) = ∅.

(** Hops one after the other from one node to another. *)
Fixpoint hops a (l : list BalanceQueryResponse) b : Prop :=
  match l with
  | [] => a = b
  | r :: l => local_addr r = a /\ hops (remote_addr r) l b
  end.
End ant_network.

(** ** Ordering the hops: every node but the ends has an even number of hops *)

(** The last index with a property. *)
Lemma last_index_spec {T} (f : T -> bool) (l : list T) :
  match foldl (fun index (p : nat * T) => if f p.2 : bool then Some p.1 else index) None (imap pair l) with
  | Some i => exists x, l !! i = Some x /\ f x = true
  | None => forall x, x ∈ l -> f x = false
  end.
Proof.
  induction l as [|x l IH] using rev_ind; [by intros x ?%elem_of_nil|].
  rewrite imap_app, foldl_app. simpl. rewrite Nat.add_0_r. destruct (f x) eqn:Ex.
  { exists x. by rewrite list_lookup_middle. }
  destruct (foldl _ _ (imap pair l)) as [i|].
  - destruct IH as (y & Hy & Hf). exists y. split; [|done]. by apply lookup_app_l_Some.
  - intros y [Hy|Hy%list_elem_of_singleton]%elem_of_app; [by apply IH|by subst].
Qed.

Section trail.
Context {L : Libra}.
Implicit Types (r : BalanceQueryResponse) (l : list BalanceQueryResponse) (x v e : AccountAddress).

Definition touches v r : bool := bool_decide (local_addr r = v) || bool_decide (remote_addr r = v).
(** Whether the number of ends of hops at [x] is odd. *)
Definition ends_at x r : bool := xorb (bool_decide (local_addr r = x)) (bool_decide (remote_addr r = x)).
Definition odd_at x l : bool := foldr (fun r b => xorb (ends_at x r) b) false l.
Definition is_at x v : bool := bool_decide (x = v).

Lemma odd_at_app x l1 l2 : odd_at x (l1 ++ l2) = xorb (odd_at x l1) (odd_at x l2).
Proof. induction l1 as [|r l1 IH]; simpl; [by destruct (odd_at x l2)|]. by rewrite IH, xorb_assoc. Qed.
#[global] Instance odd_at_perm x : Proper ((≡ₚ) ==> (=)) (odd_at x).
Proof.
  intros l1 l2 H. induction H; simpl; [done|by f_equal| |congruence].
  rewrite <-!xorb_assoc. f_equal. apply xorb_comm.
Qed.
Lemma odd_touches x l : odd_at x l = true -> exists r, r ∈ l /\ touches x r = true.
Proof.
  induction l as [|r l IH]; simpl; [done|]. intros H. destruct (touches x r) eqn:E; [exists r; split; [left|done]|].
  destruct IH as (r' & ? & ?); [|exists r'; split; [by right|done]].
  unfold touches in E. unfold ends_at in H. apply orb_false_iff in E as [E1 E2].
  rewrite E1, E2 in H. by destruct (odd_at x l).
Qed.
Lemma ends_at_revert x r : ends_at x (revert r) = ends_at x r.
Proof. apply xorb_comm. Qed.

Lemma hops_app a l1 l2 b c : hops a l1 b -> hops b l2 c -> hops a (l1 ++ l2) c.
Proof. revert a. induction l1 as [|r l1 IH]; intros a; simpl; [by intros ->|]. intros [? ?] ?. split; eauto. Qed.
Lemma hops_odd a l b x : hops a l b -> odd_at x l = xorb (is_at x a) (is_at x b).
Proof.
  revert a. induction l as [|r l IH]; intros a; simpl; [intros ->; by rewrite xorb_nilpotent|].
  intros [<- H]. rewrite (IH _ H). unfold ends_at, is_at.
  repeat case_bool_decide; by try congruence.
Qed.

Lemma find_response_spec v l :
  match find_response v l with
  | Some (r, rest) => exists r0, l ≡ₚ r0 :: rest /\ local_addr r = v /\ (r = r0 \/ r = revert r0)
  | None => forall r, r ∈ l -> touches v r = false
  end.
Proof.
  unfold find_response. cbv zeta. pose proof (last_index_spec (touches v) l) as H. unfold touches in *. simpl.
  destruct (foldl _ _ _) as [i|]; simpl; [|exact H].
  destruct H as (r & Hr & Ht). rewrite Hr. simpl.
  apply orb_true_iff in Ht. rewrite !bool_decide_eq_true in Ht.
  case_bool_decide as E1; simpl; exists r; (split_and!; [by apply delete_Permutation| |auto]); [done|]. by destruct Ht.
Qed.

(** The hops of [l] that a path uses, each once and in one of its directions. *)
Definition uses l path : Prop := exists used rest, l ≡ₚ used ++ rest /\ Forall2 (fun r u => r = u \/ r = revert u) path used.

Lemma format_loop_trail fuel v e l : length l < fuel -> (forall x, odd_at x l = xorb (is_at x v) (is_at x e)) ->
  v <> e \/ (exists r, r ∈ l /\ touches v r = true) ->
  let path := format_loop fuel v e l in path <> [] /\ hops v path e /\ uses l path.
Proof.
  revert v l. induction fuel as [|fuel IH]; intros v l Hlen Hodd Hgo; [lia|]. simpl.
  assert (exists r, r ∈ l /\ touches v r = true) as (r1 & Hin1 & Ht1).
  { destruct Hgo as [Hne|?]; [|done]. apply odd_touches. rewrite Hodd. unfold is_at. by repeat case_bool_decide. }
  pose proof (find_response_spec v l) as Hf. destruct (find_response v l) as [[r rest]|]; [|by rewrite Hf in Ht1].
  destruct Hf as (r0 & Hp & Hv & Hr). split; [done|].
  assert (forall x, ends_at x r0 = xorb (is_at x v) (is_at x (remote_addr r))) as He.
  { intros x. transitivity (ends_at x r).
    - destruct Hr as [->| ->]; [done|]. by rewrite ends_at_revert.
    - unfold ends_at, is_at. rewrite Hv. f_equal; by apply bool_decide_ext. }
  case_bool_decide as Hend.
  { split; [by split|]. exists [r0], rest. split; [done|]. by constructor; [|constructor]. }
  destruct (IH (remote_addr r) rest) as (_ & Hh & used & rest' & Hp' & Hu).
  - apply Permutation_length in Hp. simpl in Hp. lia.
  - intros x. specialize (Hodd x). rewrite Hp in Hodd. simpl in Hodd. rewrite He in Hodd.
    destruct (is_at x v), (is_at x e), (is_at x (remote_addr r)), (odd_at x rest); done.
  - by left.
  - split; [by split|]. exists (r0 :: used), rest'. split; [by rewrite Hp, Hp'|]. by constructor.
Qed.

(** Hops of two ants that met. *)
Definition meets x e l : Prop := exists l1 l2 m, l ≡ₚ l1 ++ l2 /\ l1 <> [] /\ hops x l1 m /\ hops e l2 m.

Lemma format_response_list_trail resp v e : meets v e (af_list resp) ->
  let path := format_response_list resp v e in path <> [] /\ hops v path e /\ uses (af_list resp) path.
Proof.
  intros (l1 & l2 & m & Hl & Hne & H1 & H2). apply format_loop_trail; [lia| |].
  - intros x. rewrite Hl, odd_at_app, (hops_odd _ _ _ x H1), (hops_odd _ _ _ x H2).
    destruct (is_at x v), (is_at x e), (is_at x m); done.
  - right. destruct l1 as [|r l1]; [done|]. destruct H1 as [Hv _]. exists r. rewrite Hl. split; [by left|].
    unfold touches. by rewrite bool_decide_eq_true_2.
Qed.

(** *** The path with the least pressure *)

Lemma pressure_app l r : pressure (l ++ [r]) = (pressure l + total_pay_amount r + remote_balance r - local_balance r)%Z.
Proof. unfold pressure. by rewrite foldl_app. Qed.
(** With numbers of 64 bits, no list that fits into memory overflows the 128 bits of a pressure. *)
Lemma pressure_bound l : Forall (fun r => in_u64 (local_balance r) /\ in_u64 (remote_balance r) /\ in_u64 (total_pay_amount r)) l ->
  (Z.of_nat (length l) < 2 ^ 61)%Z -> (- i128_max <= pressure l < i128_max)%Z.
Proof.
  intros Hl Hlen.
  assert (- u64_max * Z.of_nat (length l) <= pressure l <= 2 * u64_max * Z.of_nat (length l))%Z as Hb; [|unfold u64_max, i128_max in *; lia].
  clear Hlen. induction l as [|r l IH] using rev_ind; [done|]. apply Forall_app in Hl as [Hl Hr].
  apply Forall_cons in Hr as [(H1 & H2 & H3) _]. specialize (IH Hl). rewrite pressure_app, length_app. unfold in_u64, u64_max in *. simpl. lia.
Qed.

Lemma least_pressure_spec ls : (forall l, l ∈ ls -> pressure l < i128_max)%Z ->
  match least_pressure ls with
  | Some t => t ∈ ls /\ forall l, l ∈ ls -> (pressure t <= pressure l)%Z
  | None => ls = []
  end.
Proof.
  intros Hmax. unfold least_pressure.
  set (step := fun (acc : gmap Z (list BalanceQueryResponse) * Z) balances => _).
  assert (let '(m, p) := foldl step (∅, i128_max) ls in
    (forall q t, m !! q = Some t -> t ∈ ls /\ pressure t = q) /\ (forall l, l ∈ ls -> p <= pressure l)%Z /\ (ls <> [] -> is_Some (m !! p)) /\
    (ls = [] -> m = ∅ /\ p = i128_max)) as H.
  { induction ls as [|l ls IH] using rev_ind; [split_and!; [by intros ?? ?%lookup_empty_Some|by intros ? ?%elem_of_nil|done|done]|].
    rewrite foldl_app. simpl. destruct (foldl step _ ls) as [m p].
    destruct IH as (H1 & H2 & H3 & H4); [intros l' ?; apply Hmax; set_solver|]. simpl. split_and!.
    - intros q t [[<- <-]|[_ Hq]]%lookup_insert_Some; [set_solver|]. destruct (H1 _ _ Hq). set_solver.
    - intros l' [Hl| ->%list_elem_of_singleton]%elem_of_app; [specialize (H2 l' Hl)|]; case_bool_decide; lia.
    - intros _. case_bool_decide as Hlt; [by rewrite lookup_insert_eq|].
      destruct (decide (pressure l = p)) as [<-|Hne]; [by rewrite lookup_insert_eq|]. rewrite lookup_insert_ne by done. apply H3.
      intros ->. destruct H4 as [_ ->]; [done|]. specialize (Hmax l). set_solver by lia.
    - by destruct ls. }
  destruct (foldl step _ ls) as [m p]. destruct H as (H1 & H2 & H3 & H4). destruct (m !! p) as [t|] eqn:E.
  - destruct (H1 _ _ E) as [Hin <-]. done.
  - destruct ls; [done|]. destruct H3 as [t Ht]; [done|]. congruence.
Qed.
Lemma least_pressure_in ls t : least_pressure ls = Some t -> t ∈ ls.
Proof.
  unfold least_pressure. set (step := fun (acc : gmap Z (list BalanceQueryResponse) * Z) balances => _).
  assert (forall q u, (foldl step (∅, i128_max) ls).1 !! q = Some u -> u ∈ ls) as H.
  { induction ls as [|l ls IH] using rev_ind; [simpl; by intros ?? ?%lookup_empty_Some|]. rewrite foldl_app. simpl.
    destruct (foldl step _ ls) as [m p]. simpl in *. intros q u [[_ <-]|[_ Hq]]%lookup_insert_Some; [set_solver|]. apply IH in Hq. set_solver. }
  specialize (H). destruct (foldl step _ ls) as [m p]. simpl in H. apply H.
Qed.
End trail.

(** ** The invariant of the network *)

(** The calls of a router leave the account of the wallet alone, and a key that is in a table is found. *)
Class AccountKept {L : Libra} {K : Chain} (W : Type) {WO : WalletOps W} : Prop := {
  kept_channels (w : W) : wo_account (wo_get_all_channels w).2 = wo_account w;
  kept_balance (w : W) p : wo_account (wo_channel_balance p w).2 = wo_account w;
  kept_participant_balance (w : W) p : wo_account (wo_participant_channel_balance p w).2 = wo_account w
}.
Class SValueHashLaws {SH : SValueHash} : Prop := s_probe_refl (s : SValue) : s_probe s s = true.

(** The wallet of the development keeps its account. *)
Section wallet_account.
Context {L : Libra} {B : SchemaBatches} {A : Accumulators} {C : StoreCodecs} {K : Chain} {CC : ChannelTxnCodec} {WC : WalletChain}.
Context {S : Type} {SD : SchemaDB S}.

Definition account_kept {T} (m : stM (Wallet (S := S)) T) : Prop := forall w, w_account (m w).2 = w_account w.
Lemma account_kept_bind {T U} (m : stM Wallet T) (f : T -> stM Wallet U) :
  account_kept m -> (forall v, account_kept (f v)) -> account_kept (m ≫= f).
Proof.
  intros Hm Hf w. specialize (Hm w). unfold mbind, stM_bind. destruct (m w) as [[v|e|e] w']; try done.
  transitivity (w_account w'); [apply Hf|done].
Qed.
Lemma account_kept_get {T} (f : Wallet -> stM Wallet T) : (forall w, account_kept (f w)) -> account_kept (getS ≫= f).
Proof. intros Hf w. apply Hf. Qed.
Lemma account_kept_lift {T} (r : res T) : account_kept (lift r).
Proof. by intros w. Qed.
Lemma account_kept_to_wallet {T} (m : stM Wallet T) : account_kept m -> account_kept (to_wallet m).
Proof. intros Hm w. unfold to_wallet. destruct (w_running w); [apply Hm|done]. Qed.
Lemma account_kept_ask {T} a (m : stM Channel T) : account_kept (ask a m).
Proof.
  intros w. unfold ask. destruct (w_channels w !! a) as [c|]; [|done]. destruct (m c) as [r c'].
  by destruct (stopping (ctx c')).
Qed.
Lemma account_kept_balance p x : account_kept (participant_account_balance p x).
Proof.
  unfold participant_account_balance, get_channel_resource, ask_channel, get_channel.
  apply account_kept_get; intros w. repeat (apply account_kept_bind; [|intros []] || apply account_kept_get; intros ?).
  all: try apply account_kept_lift; try apply account_kept_ask; try by intros ?.
  all: try (apply account_kept_to_wallet, account_kept_get; intros ?; apply account_kept_lift).
Qed.
Lemma at_now_account {T} (f : Env -> res unit -> stM (Wallet (S := S)) T) w : (forall env i, account_kept (f env i)) ->
  w_account (wa_wallet (at_now f w).2) = w_account (wa_wallet w).
Proof.
  intros Hf. unfold at_now. destruct (wa_world w (wa_time w)) as [env i]. specialize (Hf env i (wa_wallet w)).
  by destruct (f env i (wa_wallet w)).
Qed.
#[global] Instance wallet_account_kept : AccountKept (WalletAt (S := S)).
Proof.
  split; intros; simpl; apply at_now_account; intros.
  - apply account_kept_to_wallet, account_kept_get. intros w'. apply account_kept_bind; [apply account_kept_lift|by intros ? ?].
  - apply account_kept_get. intros w'. apply account_kept_balance.
  - apply account_kept_balance.
Qed.
End wallet_account.

Section ant_inv.
Context {L : Libra} {K : Chain} {SR : SeedRng} {SH : SValueHash} {SL : SValueHashLaws} {HO : HashOrder}.
Context {W : Type} {WO : WalletOps W} {AK : AccountKept W}.
Implicit Types (n : AntRouterInner W) (a b x y : AccountAddress) (h : History) (l : list BalanceQueryResponse).

Definition listed_hops h l : Prop := Forall (fun r => h_listed h (local_addr r) (remote_addr r)) l.

Definition ant_ok h b (s : SValue) l : Prop := exists g sender x y,
  s = get_s g sender /\ h_paired h !! generator_get_r g = Some (x, y) /\ hops (if sender : bool then x else y) l b /\ listed_hops h l.
Definition final_ok h (f : AntFinalMessage) : Prop := exists x y,
  h_paired h !! af_r_value f = Some (x, y) /\ meets x y (af_list f) /\ listed_hops h (af_list f).
Definition seeds_ok h a b (rs : ExchangeSeedMessageResponse) : Prop :=
  h_asked h !! seed_response_request_hash rs = Some (a, b) /\
  h_paired h !! generator_get_r (mkGenerator (ss_sender_seed rs) (ss_receiver_seed rs)) = Some (a, b).
Definition message_ok h from b (m : RouterNetworkMessage) : Prop :=
  match m with
  | MExchangeSeedMessageRequest rq => h_asked h !! seed_request_hash rq = Some (from, b)
  | MExchangeSeedMessageResponse rs => seeds_ok h b from rs
  | MAntQueryMessage q => ant_ok h b (aq_s_value q) (aq_list q) /\ aq_list q <> []
  | MAntFinalMessage f => final_ok h f
  | _ => True
  end.

(** A path that the searcher can pay along. *)
Definition good_path h a b path : Prop := path <> [] /\ hops a path b /\
  Forall (fun r => h_listed h (local_addr r) (remote_addr r) \/ h_listed h (remote_addr r) (local_addr r)) path.

Definition search_ok h a (p : MessageProcessor RouterNetworkMessage) (s : Search) : Prop :=
  match s with
  | AwaitSeed i hash start last => start = a /\ h_asked h !! hash = Some (a, last) /\ i < next_channel p /\
      (forall hash', tx_map p !! hash' = Some i -> hash' = hash) /\
      (forall v, delivered p !! i = Some (inl v) ->
         exists rs b, v = MExchangeSeedMessageResponse rs /\ seed_response_request_hash rs = hash /\ seeds_ok h a b rs)
  | AwaitAnts g start last => start = a /\ h_paired h !! generator_get_r g = Some (a, last)
  | AwaitStats start last => start = a
  | Responded start last (Some (Ok path)) => start = a /\ good_path h start last path
  | Responded start last _ => start = a
  end.

Record router_inv h a n : Prop := {
  ri_account : wo_account (ar_wallet n) = a;
  ri_seeds s l : (s, l) ∈ seed_manager n -> ant_ok h a s l /\ l <> [];
  ri_paths r fs f : path_store n !! r = Some fs -> f ∈ fs -> af_r_value f = r /\ final_ok h f;
  ri_bound hash i : tx_map (ar_processor n) !! hash = Some i -> i < next_channel (ar_processor n);
  ri_delivered i v : delivered (ar_processor n) !! i = Some v -> i < next_channel (ar_processor n);
  ri_searches k s : searches n !! k = Some s -> search_ok h a (ar_processor n) s
}.
Definition posts_ok h a n : Prop := forall b m, (b, m) ∈ ar_outbox n -> message_ok h a b m.
Definition ant_inv (net : AntNet (W := W)) : Prop :=
  (forall a n, an_nodes net !! a = Some n -> router_inv (an_history net) a n /\ ar_outbox n = []) /\
  (forall from b m, (from, b, m) ∈ an_flight net -> message_ok (an_history net) from b m).

(** *** What is known stays known *)

Record history_le h h' : Prop := {
  le_asked : h_asked h ⊆ h_asked h';
  le_paired : h_paired h ⊆ h_paired h';
  le_listed b c : h_listed h b c -> h_listed h' b c
}.
Lemma listed_le h h' l : history_le h h' -> listed_hops h l -> listed_hops h' l.
Proof. intros Hle Hl. eapply Forall_impl; [exact Hl|]. intros r. apply Hle. Qed.
Lemma ant_ok_le h h' b s l : history_le h h' -> ant_ok h b s l -> ant_ok h' b s l.
Proof.
  intros Hle (g & sender & x & y & -> & Hp & Hh & Hl). exists g, sender, x, y.
  split_and!; [done| |done|by eapply listed_le]. by eapply lookup_weaken, Hle.
Qed.
Lemma final_ok_le h h' f : history_le h h' -> final_ok h f -> final_ok h' f.
Proof. intros Hle (x & y & Hp & Hm & Hl). exists x, y. split_and!; [by eapply lookup_weaken, Hle|done|by eapply listed_le]. Qed.
Lemma seeds_ok_le h h' a b rs : history_le h h' -> seeds_ok h a b rs -> seeds_ok h' a b rs.
Proof. intros Hle [H1 H2]. split; (eapply lookup_weaken; [done|apply Hle]). Qed.
Lemma message_ok_le h h' a b m : history_le h h' -> message_ok h a b m -> message_ok h' a b m.
Proof.
  intros Hle. destruct m; simpl; [|apply seeds_ok_le|intros [? ?]; split; [by eapply ant_ok_le|done]|apply final_ok_le|..]; [|done..].
  all: try done. intros ?. by eapply lookup_weaken, Hle.
Qed.
Lemma search_ok_le h h' a p s : history_le h h' -> search_ok h a p s -> search_ok h' a p s.
Proof.
  intros Hle. destruct s as [i hash start e|g start e|start e|start e [[path|?|?]|]]; simpl; try done.
  - intros (? & Ha & ? & ? & Hd). split_and!; [done|by eapply lookup_weaken, Hle|done..|].
    intros v Hv. destruct (Hd v Hv) as (rs & b & ? & ? & ?). exists rs, b. split_and!; [done..|by eapply seeds_ok_le].
  - intros [? ?]. split; [done|by eapply lookup_weaken, Hle].
  - intros (? & ? & ? & Hp). split; [done|]. split_and!; [done..|]. eapply Forall_impl; [exact Hp|].
    intros r [?|?]; [left|right]; by apply Hle.
Qed.
Lemma router_inv_le h h' a n : history_le h h' -> router_inv h a n -> router_inv h' a n.
Proof.
  intros Hle [H1 H2 H3 H4 H5 H6]. split; [done| | |done|done|].
  - intros s l Hin. destruct (H2 s l Hin). split; [by eapply ant_ok_le|done].
  - intros r fs f Hr Hf. destruct (H3 r fs f Hr Hf). split; [done|by eapply final_ok_le].
  - intros k s Hk. by eapply search_ok_le, H6.
Qed.

(** *** Keys *)

Lemma generator_bytes_length g : length (generator_bytes g) = 32.
Proof. unfold generator_bytes, u128_to_le_bytes. by rewrite length_app, !length_reverse, !length_be_bytes. Qed.
Lemma get_r_get_s g sender : get_r (get_s g sender) = generator_get_r g.
Proof. done. Qed.
Lemma get_peer_get_s g sender : get_peer (get_s g sender) = get_s g (negb sender).
Proof. by destruct sender. Qed.
Lemma get_s_eqb g f g' f' : SValue_eqb (get_s g f) (get_s g' f') = true -> generator_bytes g = generator_bytes g'.
Proof.
  unfold SValue_eqb. rewrite forallb_forall. intros H. apply list_eq_same_length with 32; [apply generator_bytes_length..|].
  intros i z z' Hi Hz Hz'. assert (bool_decide (generator_bytes g !! i = generator_bytes g' !! i) = true) as Hb.
  { apply (H (S i)), in_seq. lia. }
  apply bool_decide_eq_true in Hb. congruence.
Qed.

(** *** Sending ants *)

Record sends n n' (out : list (AccountAddress * RouterNetworkMessage)) : Prop := {
  sd_account : wo_account (ar_wallet n') = wo_account (ar_wallet n);
  sd_outbox : ar_outbox n' = ar_outbox n ++ out;
  sd_seeds : seed_manager n' = seed_manager n;
  sd_processor : ar_processor n' = ar_processor n;
  sd_paths : path_store n' = path_store n;
  sd_searches : searches n' = searches n
}.
Lemma sends_refl n : sends n n [].
Proof. split; try done. by rewrite app_nil_r. Qed.
Lemma sends_trans n1 n2 n3 o1 o2 : sends n1 n2 o1 -> sends n2 n3 o2 -> sends n1 n3 (o1 ++ o2).
Proof. intros [] []. split; try congruence. rewrite (assoc_L (++)). congruence. Qed.

(** Whatever way a task ends, it has only sent messages. *)
Definition task_sends {T} a (m : taskM (AntRouterInner W) T) (P : AccountAddress -> RouterNetworkMessage -> Prop) : Prop :=
  forall n, wo_account (ar_wallet n) = a -> exists out, sends n (m n).2 out /\ forall b msg, (b, msg) ∈ out -> P b msg.
Lemma task_sends_ret {T} a (v : T) P : task_sends a (mret v) P.
Proof. intros n _. exists []. split; [apply sends_refl|by intros ?? ?%elem_of_nil]. Qed.
Lemma task_sends_bind {T U} a (m : taskM _ T) (f : T -> taskM _ U) P :
  task_sends a m P -> (forall v, task_sends a (f v) P) -> task_sends a (m ≫= f) P.
Proof.
  intros Hm Hf n Hn. destruct (Hm n Hn) as (out & Hs & Ho). unfold mbind, taskM_bind.
  destruct (m n) as [[[v|e|e]|] n']; try (by exists out).
  destruct (Hf v n') as (out' & Hs' & Ho'); [by transitivity (wo_account (ar_wallet n)); [apply Hs|]|].
  exists (out ++ out'). split; [by eapply sends_trans|]. intros b msg [?|?]%elem_of_app; eauto.
Qed.
Lemma task_sends_get {T} a (f : AntRouterInner W -> taskM _ T) P :
  (forall n, wo_account (ar_wallet n) = a -> task_sends a (f n) P) -> task_sends a (ant_get ≫= f) P.
Proof. intros Hf n Hn. by apply (Hf n Hn n). Qed.
Lemma ask_wallet_sends {T} a (m : stM W T) P : (forall w, wo_account (m w).2 = wo_account w) -> task_sends a (ask_wallet m) P.
Proof.
  intros Hm n _. exists []. unfold ask_wallet. specialize (Hm (ar_wallet n)). destruct (m (ar_wallet n)) as [r w].
  split; [|by intros ?? ?%elem_of_nil]. split; try done. simpl. by rewrite app_nil_r.
Qed.
Lemma ask_pressure_sends a c P : task_sends a (ask_pressure c) P.
Proof.
  intros n _. exists []. unfold ask_pressure. destruct (payment_pressure c (ar_stats n)) as [r st].
  split; [|by intros ?? ?%elem_of_nil]. split; try done. simpl. by rewrite app_nil_r.
Qed.
Lemma ant_send_sends a b msg (P : AccountAddress -> RouterNetworkMessage -> Prop) : P b msg -> task_sends a (ant_send b msg) P.
Proof.
  intros HP n _. unfold ant_send, mbind, taskM_bind. simpl. destruct (ar_network_open n).
  - exists [(b, msg)]. split; [by split|]. by intros ?? [= -> ->]%list_elem_of_singleton.
  - exists []. split; [apply sends_refl|by intros ?? ?%elem_of_nil].
Qed.

Definition is_ant (s : SValue) (peer_id : AccountAddress) l a (ps : list AccountAddress) b (msg : RouterNetworkMessage) : Prop :=
  exists r, msg = MAntQueryMessage (mkAntQuery s peer_id (l ++ [r])) /\ local_addr r = a /\ remote_addr r = b /\ b ∈ ps.
Lemma send_ants_sends a s peer_id l ps ps' : (forall p, p ∈ ps -> p ∈ ps') -> task_sends a (send_ants s peer_id l ps) (is_ant s peer_id l a ps').
Proof.
  induction ps as [|p ps IH]; intros Hsub; simpl; [apply task_sends_ret|].
  apply task_sends_get. intros n Hn. case_bool_decide; [apply IH; intros ? ?; apply Hsub; by right|].
  apply task_sends_bind; [apply ask_pressure_sends|intros total].
  apply task_sends_bind; [apply ask_wallet_sends; intros; apply kept_balance|intros lb].
  apply task_sends_bind; [apply ask_wallet_sends; intros; apply kept_participant_balance|intros rb].
  apply task_sends_bind; [apply ant_send_sends|intros _; apply IH; intros ? ?; apply Hsub; by right].
  eexists. split_and!; [done..|]. apply Hsub. by left.
Qed.
Lemma send_ant_query_sends n s peer_id l : exists out, sends n (send_ant_query_message s peer_id l n).2 out /\
  forall b msg, (b, msg) ∈ out -> is_ant s peer_id l (wo_account (ar_wallet n)) (elements (ant_lists n)) b msg.
Proof.
  unfold send_ant_query_message, mbind, taskM_bind, ask_wallet, ant_lists. pose proof (kept_channels (ar_wallet n)) as Hk.
  destruct (wo_get_all_channels (ar_wallet n)) as [r w]. simpl in Hk.
  assert (sends n (set_ar_wallet w n) []) as Hs by (split; try done; simpl; by rewrite app_nil_r).
  destruct r as [X|e|e]; simpl; try (exists []; split; [done|by intros ?? ?%elem_of_nil]).
  destruct (send_ants_sends (wo_account (ar_wallet n)) s peer_id l (hs_iter X) (elements X)) with (n := set_ar_wallet w n)
    as (out & Hs' & Ho); [intros p; by rewrite hs_iter_perm|done|].
  exists out. split; [by apply (sends_trans _ _ _ [] out Hs)|done].
Qed.

(** The ants that a router sends on carry hops to their receivers. *)
Lemma is_ant_ok h h' a s peer_id l ps b msg : history_le h h' -> ant_ok h a s l -> is_ant s peer_id l a ps b msg ->
  (forall c, c ∈ ps -> h_listed h' a c) -> message_ok h' a b msg.
Proof.
  intros Hle (g & sender & x & y & -> & Hp & Hh & Hl) (r & -> & Hr & <- & Hin) Hlisted. split; [|by destruct l].
  exists g, sender, x, y. split_and!; [done|by eapply lookup_weaken, Hle|by eapply hops_app|].
  apply Forall_app. split; [by eapply listed_le|]. constructor; [|constructor]. rewrite Hr. by apply Hlisted.
Qed.

(** *** Two ants meet *)

Definition keeps h a (m : SeedManager) : Prop := forall s l, (s, l) ∈ m -> ant_ok h a s l /\ l <> [].
Lemma seed_find_Some key m i k v : seed_find key m = Some (i, (k, v)) -> m !! i = Some (k, v) /\ SValue_eqb key k = true.
Proof.
  unfold seed_find. intros (Hi & Hk & _)%list_find_Some. split; [done|]. simpl in Hk.
  by apply Is_true_true, andb_true_iff in Hk as [_ ?].
Qed.
Lemma seed_find_None key m l : contains_key key m = false -> (key, l) ∉ m.
Proof.
  unfold contains_key, seed_find. destruct (list_find _ m) as [[]|] eqn:E; [done|]. intros _ Hin.
  apply list_find_None in E. rewrite Forall_forall in E. apply (E _ Hin), Is_true_true. simpl.
  rewrite s_probe_refl. simpl. apply forallb_forall. intros i _. by apply bool_decide_eq_true.
Qed.

Lemma met_final h a g f x y l g' f' l' : generator_bytes g = generator_bytes g' -> f' = negb f ->
  h_paired h !! generator_get_r g = Some (x, y) -> hops (if f : bool then x else y) l a -> hops (if f' : bool then x else y) l' a ->
  l <> [] -> l' <> [] -> listed_hops h l -> listed_hops h l' -> final_ok h (mkAntFinal (get_r (get_s g f)) (l' ++ l)).
Proof.
  intros Hg -> Hp H1 H2 Hn1 Hn2 Hl1 Hl2. exists x, y. split_and!; [done| |by apply Forall_app].
  destruct f; simpl in *; [exists l, l'|exists l', l]; exists a; split_and!; try done. apply Permutation_app_comm.
Qed.

Lemma match_or_add_ok h a key value m : keeps h a m -> ant_ok h a key value -> value <> [] ->
  let '(r, m') := match_or_add key value m in keeps h a m' /\
  match r with Ok (Some t) => final_ok h (mkAntFinal (get_r key) t) | _ => True end.
Proof.
  intros Hm Hk Hv. unfold match_or_add, mbind, stM_bind, getS. simpl.
  destruct (contains_key key m) eqn:E1; [done|]. destruct (contains_key (get_peer key) m) eqn:E2.
  - unfold contains_key in E2. unfold seed_remove. destruct (seed_find (get_peer key) m) as [[i [k v]]|] eqn:E; [|done]. simpl.
    apply seed_find_Some in E as [Hi Heq]. split.
    { intros s l Hin. apply Hm. rewrite (delete_Permutation m i _ Hi). by right. }
    destruct (Hm k v) as [(g' & f' & x' & y' & -> & Hp' & Hh' & Hl') Hne]; [by eapply list_elem_of_lookup_2|].
    destruct Hk as (g & f & x & y & -> & Hp & Hh & Hl). rewrite get_peer_get_s in Heq. apply get_s_eqb in Heq as Hg.
    assert (generator_get_r g' = generator_get_r g) as Hr by (unfold generator_get_r; by rewrite Hg).
    rewrite Hr, Hp in Hp'. injection Hp' as <- <-. eapply (met_final h a g f x y value g' f' v); try done.
    destruct (decide (f' = f)) as [->|Hne']; [|by destruct f, f']. exfalso. apply (seed_find_None _ _ v E1).
    assert (get_s g' f = get_s g f) as Hs by (unfold get_s; by rewrite Hg). rewrite Hs in Hi. by eapply list_elem_of_lookup_2.
  - simpl. split; [|done]. unfold contains_key in E1. unfold seed_insert. destruct (seed_find key m) as [[i [k v]]|]; [done|].
    intros s l [Hin|Hin]%elem_of_app; [by apply Hm|]. apply list_elem_of_singleton in Hin as [= -> ->]. done.
Qed.

(** *** The futures of the searches *)

Definition answer_ok h a (hash : HashValue) (v : RouterNetworkMessage) : Prop :=
  exists rs b, v = MExchangeSeedMessageResponse rs /\ seed_response_request_hash rs = hash /\ seeds_ok h a b rs.
Record futures_le h a (p p' : MessageProcessor RouterNetworkMessage) : Prop := {
  fl_next : next_channel p <= next_channel p';
  fl_tx hash i : tx_map p' !! hash = Some i -> i < next_channel p -> tx_map p !! hash = Some i;
  fl_delivered i v : delivered p' !! i = Some (inl v) -> delivered p !! i = Some (inl v) \/
    exists hash, tx_map p !! hash = Some i /\ answer_ok h a hash v
}.
Lemma search_ok_futures h a p p' s : futures_le h a p p' -> search_ok h a p s -> search_ok h a p' s.
Proof.
  intros Hf. destruct s as [i hash start e| | |]; try done. simpl. intros (? & ? & Hi & Htx & Hd).
  split_and!; [done..|by eapply Nat.lt_le_trans, Hf| |].
  - intros hash' H'. apply Htx. by eapply fl_tx.
  - intros v Hv. destruct (fl_delivered _ _ _ _ Hf i v Hv) as [?|(hash' & H' & Hans)]; [by apply Hd|].
    apply Htx in H' as ->. exact Hans.
Qed.

Lemma futures_le_refl h a p : futures_le h a p p.
Proof. split; [done|done|by left]. Qed.
Lemma send_response_le h a b rs p : seeds_ok h a b rs ->
  futures_le h a p (send_response (seed_response_request_hash rs) (MExchangeSeedMessageResponse rs) p).
Proof.
  intros Hok. unfold send_response. destruct (tx_map p !! _) as [tx|] eqn:E; [|apply futures_le_refl].
  case_bool_decide; [apply futures_le_refl|]. split; simpl; [done| |].
  - by intros hash i [_ ?]%lookup_delete_Some _.
  - intros i v [[<- [= <-]]|[_ ?]]%lookup_insert_Some; [right|by left]. eexists. split; [done|]. by exists rs, b.
Qed.
Lemma remove_future_le h a hash p p' : router_remove_future hash p = Ok p' -> futures_le h a p p'.
Proof.
  unfold router_remove_future. destruct (tx_map p !! hash) as [tx|]; [|intros [= <-]; apply futures_le_refl].
  case_bool_decide; [done|]. intros [= <-]. split; simpl; [done| |].
  - by intros hash' i [_ ?]%lookup_delete_Some _.
  - intros i v [[_ [=]]|[_ ?]]%lookup_insert_Some. by left.
Qed.
Lemma add_future_le h a hash p : futures_le h a p (add_future hash (next_channel p) (channel p).2).
Proof.
  unfold add_future. simpl. destruct (tx_map p !! hash); split; simpl; try (by left); try lia; [done|].
  intros hash' i [[_ <-]|[_ ?]]%lookup_insert_Some ?; [lia|done].
Qed.

(** *** The steps of a router *)

Lemma router_inv_sends h a n n' out : sends n n' out -> router_inv h a n -> router_inv h a n'.
Proof. intros [H1 H2 H3 H4 H5 H6] []. split; rewrite ?H1, ?H3, ?H4, ?H5, ?H6; done. Qed.
Lemma router_inv_search h a n k s : router_inv h a n -> search_ok h a (ar_processor n) s -> router_inv h a (set_search k s n).
Proof.
  intros [] Hs. split; try done. simpl. intros k' s' [(_ & <- & _)|[_ ?]]%list_lookup_insert_Some; eauto.
Qed.
Lemma router_inv_processor h a n p : router_inv h a n -> futures_le h a (ar_processor n) p ->
  (forall hash i, tx_map p !! hash = Some i -> i < next_channel p) -> (forall i v, delivered p !! i = Some v -> i < next_channel p) ->
  router_inv h a (set_ar_processor p n).
Proof. intros [] Hf Hb Hd. split; try done. simpl. intros k s Hk. eapply search_ok_futures; eauto. Qed.

(** A router that only sends. *)
Lemma sends_step h a n n' out : router_inv h a n -> ar_outbox n = [] -> sends n n' out ->
  (forall b m, (b, m) ∈ out -> message_ok h a b m) -> router_inv h a n' /\ posts_ok h a n'.
Proof.
  intros Hi Ho Hs Hm. split; [by eapply router_inv_sends|]. intros b m. rewrite (sd_outbox _ _ _ Hs), Ho. apply Hm.
Qed.
Lemma silent_step h a n n' : router_inv h a n' -> ar_outbox n = [] -> ar_outbox n' = ar_outbox n -> router_inv h a n' /\ posts_ok h a n'.
Proof. intros Hi Ho Hs. split; [done|]. intros b m. rewrite Hs, Ho. by intros ?%elem_of_nil. Qed.

Definition lists_of h a n : Prop := forall c, c ∈ elements (ant_lists n) -> h_listed h a c.

Lemma ant_query_step h a n q : router_inv h a n -> ar_outbox n = [] -> lists_of h a n ->
  ant_ok h a (aq_s_value q) (aq_list q) -> aq_list q <> [] ->
  let n' := (handle_ant_query_message q n).2 in router_inv h a n' /\ posts_ok h a n'.
Proof.
  intros Hi Ho Hl Hq Hne. unfold handle_ant_query_message, mbind, taskM_bind, on_seed_manager.
  pose proof (match_or_add_ok h a (aq_s_value q) (aq_list q) (seed_manager n) (ri_seeds _ _ _ Hi) Hq Hne) as Hm.
  destruct (match_or_add _ _ (seed_manager n)) as [r m]. destruct Hm as [Hk Hr].
  assert (router_inv h a (set_seed_manager m n)) as Hi' by (destruct Hi; by split).
  destruct r as [[t|]|e|e]; try by apply (silent_step h a n).
  - destruct (ant_send_sends a (aq_sender_addr q) (MAntFinalMessage (mkAntFinal (get_r (aq_s_value q)) t)) (message_ok h a) Hr
      (set_seed_manager m n)) as (out & Hs & Hout); [apply Hi|]. by eapply sends_step.
  - destruct (send_ant_query_sends (set_seed_manager m n) (aq_s_value q) (aq_sender_addr q) (aq_list q)) as (out & Hs & Hout).
    eapply sends_step; [done|done|done|]. intros b msg Hin. eapply is_ant_ok; [| |by rewrite <-(ri_account _ _ _ Hi); apply Hout|done]; [|done].
    by split.
Qed.

Lemma history_le_refl h : history_le h h.
Proof. by split. Qed.

(** A router that sends ants of its own. *)
Lemma first_ants h a n g sender peer_id x y : wo_account (ar_wallet n) = a -> lists_of h a n ->
  h_paired h !! generator_get_r g = Some (x, y) -> (if sender : bool then x else y) = a ->
  exists out, sends n (send_ant_query_message (get_s g sender) peer_id [] n).2 out /\ forall b m, (b, m) ∈ out -> message_ok h a b m.
Proof.
  intros Ha Hl Hp Hxy. destruct (send_ant_query_sends n (get_s g sender) peer_id []) as (out & Hs & Hout).
  exists out. split; [done|]. intros b m Hin. rewrite Ha in Hout.
  eapply (is_ant_ok h h a); [apply history_le_refl| |by apply Hout|done].
  exists g, sender, x, y. split_and!; [done..|]. constructor.
Qed.

Lemma seed_request_step h a n ts from rq : router_inv h a n -> ar_outbox n = [] -> lists_of h a n ->
  h_asked h !! seed_request_hash rq = Some (from, a) -> h_paired h !! pair_hash ts rq = Some (from, a) ->
  let n' := (handle_exchange_seed_message_request ts rq from n).2 in router_inv h a n' /\ posts_ok h a n'.
Proof.
  intros Hi Ho Hl Hasked Hpaired. unfold handle_exchange_seed_message_request.
  destruct (first_ants h a n (mkGenerator (sq_sender_seed rq) (generate_random_u128 ts)) false from from a (ri_account _ _ _ Hi) Hl Hpaired eq_refl)
    as (out & Hs & Hm). unfold mbind, taskM_bind.
  destruct (send_ant_query_message _ _ _ n) as [[[u|e|e]|] n1]; try by eapply sends_step.
  destruct (ant_send_sends a from (MExchangeSeedMessageResponse (mkSeedResponse (sq_sender_seed rq) (generate_random_u128 ts))) (message_ok h a)
    ltac:(by split) n1) as (out' & Hs' & Hm'); [rewrite <-(ri_account _ _ _ Hi); apply Hs|].
  eapply sends_step; [done|done|by eapply sends_trans|]. intros b m [?|?]%elem_of_app; auto.
Qed.

Lemma final_step h a n f : router_inv h a n -> ar_outbox n = [] -> final_ok h f ->
  let n' := (handle_ant_final_message f n).2 in router_inv h a n' /\ posts_ok h a n'.
Proof.
  intros Hi Ho Hf. unfold handle_ant_final_message, add_path, mbind, stM_bind, getS. simpl.
  destruct (path_store n !! af_r_value f) as [vec|] eqn:E; (apply (silent_step h a n); [|done..]);
    destruct Hi as [? ? Hp ? ? ?]; split; try done; simpl; unfold PathStore; intros r fs f' [[<- <-]|[_ H]]%lookup_insert_Some Hin.
  - apply elem_of_app in Hin as [Hin|Hin%list_elem_of_singleton]; [by eapply Hp|by subst].
  - apply lookup_delete_Some in H as [_ H]. by eapply Hp.
  - apply list_elem_of_singleton in Hin. by subst.
  - by eapply Hp.
Qed.

Lemma search_step h a n ts e : router_inv h a n -> ar_outbox n = [] -> h_asked h !! drawn_hash ts = Some (a, e) ->
  let n' := (ant_find_path ts (wo_account (ar_wallet n)) e n).2 in router_inv h a n' /\ posts_ok h a n'.
Proof.
  intros Hi Ho Hasked. unfold ant_find_path.
  destruct (ant_send_sends a e (MExchangeSeedMessageRequest (mkSeedRequest (generate_random_u128 ts))) (message_ok h a) Hasked n (ri_account _ _ _ Hi))
    as (out & Hs & Hm). unfold mbind, taskM_bind.
  destruct (ant_send _ _ n) as [[[u|?|?]|] n1]; try by eapply sends_step. simpl in Hs.
  apply (sends_step _ _ _ _ _ Hi Ho Hs) in Hm as [Hi1 Hp1]. rewrite (ri_account _ _ _ Hi).
  set (hash := seed_request_hash (mkSeedRequest (generate_random_u128 ts))).
  set (p := add_future hash (next_channel (ar_processor n1)) (channel (ar_processor n1)).2).
  pose proof (add_future_le h a hash (ar_processor n1)) as Hle.
  assert (router_inv h a (set_ar_processor p n1)) as Hi2.
  { destruct Hi1 as [? ? ? Hb Hd ?]. apply router_inv_processor; [by split|done|..]; unfold p, add_future; simpl;
      destruct (tx_map (ar_processor n1) !! hash); simpl.
    - intros ?? ?%Hb. lia.
    - intros hash' i [[_ <-]|[_ ?%Hb]]%lookup_insert_Some; lia.
    - intros ?? ?%Hd. lia.
    - intros ?? ?%Hd. lia. }
  assert (search_ok h a p (AwaitSeed (next_channel (ar_processor n1)) hash a e)) as Hs2.
  { destruct Hi1 as [? ? ? Hb Hd ?]. unfold p, add_future. simpl. destruct (tx_map (ar_processor n1) !! hash) eqn:E; simpl; split_and!; try done; try lia.
    - intros hash' H%Hb. lia.
    - intros v H%Hd. lia.
    - intros hash' [[-> _]|[_ H%Hb]]%lookup_insert_Some; [done|lia].
    - intros v H%Hd. lia. }
  unfold ant_get, ant_modify, sync, getS, modifyS, channel. simpl.
  case_bool_decide; simpl; (split; [|exact Hp1]); (destruct Hi2 as [? ? ? ? ? Hsearch]; split; try done; simpl;
    intros k s [H'|[_ H']]%lookup_app_Some; [by apply (Hsearch k)|apply list_lookup_singleton_Some in H' as [_ <-]; exact Hs2]).
Qed.

Lemma response_step h a n from rs : router_inv h a n -> ar_outbox n = [] -> seeds_ok h a from rs ->
  let n' := (handle_exchange_seed_message_response rs n).2 in router_inv h a n' /\ posts_ok h a n'.
Proof.
  intros Hi Ho Hok. apply (silent_step h a n); [|done..]. simpl.
  apply router_inv_processor; [done|by eapply send_response_le|..]; destruct Hi as [? ? ? Hb Hd ?]; unfold send_response;
    destruct (tx_map _ !! _) as [tx|] eqn:E; try case_bool_decide; simpl; try done.
  - intros hash i [_ ?]%lookup_delete_Some. by eapply Hb.
  - intros i v [[<- _]|[_ ?]]%lookup_insert_Some; [by eapply Hb|by eapply Hd].
Qed.
Lemma timer_step h a n hash : router_inv h a n -> ar_outbox n = [] ->
  let n' := ant_timer hash n in router_inv h a n' /\ posts_ok h a n'.
Proof.
  intros Hi Ho. unfold ant_timer. destruct (router_remove_future hash (ar_processor n)) as [p|e|e] eqn:E; try by apply (silent_step h a n).
  apply (silent_step h a n); [|done..]. apply router_inv_processor; [done|by eapply remove_future_le|..];
    destruct Hi as [? ? ? Hb Hd ?]; unfold router_remove_future in E; destruct (tx_map (ar_processor n) !! hash) as [tx|] eqn:Ex;
    try case_bool_decide; simplify_eq; simpl; try done.
  - intros hash' i [_ ?]%lookup_delete_Some. by eapply Hb.
  - intros i v [[<- _]|[_ ?]]%lookup_insert_Some; [by eapply Hb|by eapply Hd].
Qed.

Lemma find_path_good h fs r a b path : (forall f, f ∈ fs -> af_r_value f = r /\ final_ok h f) -> h_paired h !! r = Some (a, b) ->
  find_path_by_pressure fs a b = Ok path -> good_path h a b path.
Proof.
  intros Hfs Hp. unfold find_path_by_pressure. destruct (least_pressure _) as [t|] eqn:E; [|done]. intros [= <-].
  apply least_pressure_in, list_elem_of_fmap in E as (f & -> & Hf). destruct (Hfs f Hf) as [Hr (x & y & Hxy & Hm & Hl)].
  rewrite Hr, Hp in Hxy. injection Hxy as <- <-.
  destruct (format_response_list_trail f a b Hm) as (Hne & Hh & used & rest & Hperm & Hu). split_and!; [done..|].
  assert (listed_hops h used) as Hlu. { unfold listed_hops in *. rewrite Hperm in Hl. by apply Forall_app in Hl as [? _]. }
  clear -Hu Hlu. induction Hu as [|r u path used Hru Hu IH]; [constructor|]. apply Forall_cons in Hlu as [? ?].
  constructor; [|by apply IH]. destruct Hru as [->| ->]; [by left|by right].
Qed.
Lemma end_step h a n k : router_inv h a n -> ar_outbox n = [] -> let n' := end_search k n in router_inv h a n' /\ posts_ok h a n'.
Proof.
  intros Hi Ho. unfold end_search. destruct (searches n !! k) as [[|g start e| |]|] eqn:Ek; try by apply (silent_step h a n).
  simpl. destruct (ri_searches _ _ _ Hi k _ Ek) as [-> Hp]. apply (silent_step h a n); [|done..]. apply router_inv_search.
  - destruct Hi as [? ? Hpaths ? ? ?]. split; try done. simpl. unfold PathStore. intros r fs f [_ ?]%lookup_delete_Some. by apply Hpaths.
  - destruct (path_store n !! _) as [fs|] eqn:E; [|done]. simpl.
    destruct (find_path_by_pressure fs a e) as [path|?|?] eqn:Ef; [|done..]. split; [done|].
    eapply find_path_good; [|done|exact Ef]. intros f. by apply (ri_paths _ _ _ Hi).
Qed.

Lemma poll_step h a n k : router_inv h a n -> ar_outbox n = [] -> lists_of h a n ->
  let n' := poll_seed k n in router_inv h a n' /\ posts_ok h a n'.
Proof.
  intros Hi Ho Hl. unfold poll_seed. destruct (searches n !! k) as [[i hash start e| | |]|] eqn:Ek; try by apply (silent_step h a n).
  destruct (ri_searches _ _ _ Hi k _ Ek) as (-> & Hasked & _ & _ & Hd).
  set (n1 := set_ar_processor (receiver_dropped i (ar_processor n)) n).
  assert (router_inv h a n1) as Hi1 by (destruct Hi; by split).
  unfold router_poll_future. destruct (delivered (ar_processor n) !! i) as [[v|err]|] eqn:Ed; try by apply (silent_step h a n).
  - destruct (Hd v eq_refl) as (rs & b & -> & Hhash & [Hab Hpaired]). rewrite Hhash, Hasked in Hab. injection Hab as <-.
    destruct (first_ants h a n1 (mkGenerator (ss_sender_seed rs) (ss_receiver_seed rs)) true a a e (ri_account _ _ _ Hi1) Hl Hpaired eq_refl)
      as (out & Hs & Hm).
    destruct (sends_step h a n1 _ out Hi1 Ho Hs Hm) as [Hi2 Hp2].
    destruct (send_ant_query_message _ _ _ n1) as [[[u|?|?]|] n2]; simpl in *; (split; [by apply router_inv_search|exact Hp2]).
  - apply (silent_step h a n); [by apply router_inv_search|done..].
Qed.

Lemma outside_step h a n w st o : router_inv h a n -> ar_outbox n = [] -> wo_account w = wo_account (ar_wallet n) ->
  let n' := ant_act (XOutside w st o) n in router_inv h a n' /\ posts_ok h a n'.
Proof. intros Hi Ho Hw. apply (silent_step h a n); [|done..]. destruct Hi. split; try done. simpl. by rewrite Hw. Qed.

Lemma ant_record_le net a n (x : ant_action) : ant_allowed net a n x -> history_le (an_history net) (ant_record a n x (an_history net)).
Proof.
  intros Hx. split; simpl; [| |by left].
  - destruct x; try done. by apply insert_subseteq.
  - destruct x as [|ts from [rq| | | | |]| | | |]; try done. apply insert_subseteq, Hx.
Qed.

(** A router that acts keeps its invariant and sends only such messages. *)
Lemma ant_act_ok net a n (x : ant_action) : router_inv (an_history net) a n -> ar_outbox n = [] -> ant_allowed net a n x ->
  (forall from msg, (from, a, msg) ∈ an_flight net -> message_ok (an_history net) from a msg) ->
  let h' := ant_record a n x (an_history net) in router_inv h' a (ant_act x n) /\ posts_ok h' a (ant_act x n).
Proof.
  intros Hi Ho Hx Hf. pose proof (ant_record_le net a n x Hx) as Hle. apply (router_inv_le _ _ _ _ Hle) in Hi.
  assert (lists_of (ant_record a n x (an_history net)) a n) as Hl by (intros c ?%elem_of_elements; by right).
  destruct x as [ts e|ts from msg|k|k|hash|w st o].
  - apply search_step; [done..|]. apply lookup_insert_eq.
  - destruct Hx as [Hin Hfresh]. apply Hf, (message_ok_le _ _ _ _ _ Hle) in Hin. destruct msg as [rq|rs|q|f|rq|rs]; simpl in Hin.
    + apply seed_request_step; [done..|]. apply lookup_insert_eq.
    + by eapply response_step.
    + destruct Hin. by apply ant_query_step.
    + by apply final_step.
    + by apply (silent_step _ a n).
    + by apply (silent_step _ a n).
  - by apply poll_step.
  - by apply end_step.
  - by apply timer_step.
  - by apply outside_step.
Qed.

Lemma ant_step_inv net net' : ant_step net net' -> ant_inv net -> ant_inv net'.
Proof.
  intros [net0 a n x flight Hn Hx Hfl] [Hnodes Hflight]. destruct (Hnodes a n Hn) as [Hi Ho].
  destruct (ant_act_ok net0 a n x Hi Ho Hx (fun from msg => Hflight from a msg)) as [Hi' Hp'].
  pose proof (ant_record_le net0 a n x Hx) as Hle. split; simpl.
  - intros b m [[<- <-]|[_ Hm]]%lookup_insert_Some; [split; [destruct Hi'; by split|done]|].
    destruct (Hnodes b m Hm). split; [by eapply router_inv_le|done].
  - intros from b msg [Hin|[-> Hin]]%Hfl; [by eapply message_ok_le, Hflight|by apply Hp'].
Qed.
Lemma ant_start_inv net : ant_start net -> ant_inv net.
Proof.
  intros (Hnodes & Hfl & _ & _). split; [|rewrite Hfl; by intros ??? ?%elem_of_nil].
  intros a n Hn. destruct (Hnodes a n Hn) as (w & st & timeout & -> & Hw). split; [|done].
  split; simpl; try done; intros; simplify_map_eq; by set_solver.
Qed.
Lemma ant_reachable_inv net0 net : ant_start net0 -> rtc ant_step net0 net -> ant_inv net.
Proof. intros H0 Hr. apply ant_start_inv in H0. induction Hr; eauto using ant_step_inv. Qed.

(** ** Searches return paths *)

End ant_inv.
