(* ===== verification/Graph.v ===== *)
(** * The graph of channels

    Models [src/router/graphdb/src]: [vertex.rs], [edge.rs], the [Storage] of [storage.rs] and
    [graph_store.rs].  RocksDB is the engine of [SchemaDB]; the graph itself is petgraph's, a parameter
    ([Petgraph]) with its documented behaviour ([PetgraphLaws]).

    The theorems of this file relate a store to the list of its edges while edges are only put: its
    indices name the vertices of the graph one to one, and [find_all_path] returns exactly the simple paths
    over the edges that were put.  Removing edges breaks the indices. *)
From S2P Require Import Prelude Codec Libra SchemaDB.

(** ** Vertices and edges *)

Section vertex.
Context {L : Libra}.

Record VType := mkVType { type_name : string }.
#[global] Instance VType_eq : EqDecision VType.
Proof. solve_decision. Defined.
#[global] Instance VType_countable : Countable VType := inj_countable' type_name mkVType (fun t => match t with mkVType _ => eq_refl end).

(** Equality of vertices looks at the identifier only, their hash at the type as well; the vertices of the
    router all have the type [BI]. *)
Record Vertex := mkVertex { v_id : AccountAddress; v_t : VType }.
#[global] Instance Vertex_eq : EqDecision Vertex.
Proof. solve_decision. Defined.
#[global] Instance Vertex_countable : Countable Vertex :=
  inj_countable' (fun v => (v_id v, v_t v)) (fun p => mkVertex p.1 p.2) (fun v => match v with mkVertex _ _ => eq_refl end).
Definition BI : VType := mkVType "BI".
Definition new_with_bi_type (id : AccountAddress) : Vertex := mkVertex id BI.

Record Edge := mkEdge { outbound_id : Vertex; e_t : VType; inbound_id : Vertex }.
#[global] Instance Edge_eq : EqDecision Edge.
Proof. solve_decision. Defined.
#[global] Instance Edge_countable : Countable Edge :=
  inj_countable' (fun e => (outbound_id e, e_t e, inbound_id e)) (fun p => mkEdge p.1.1 p.1.2 p.2)
    (fun e => match e with mkEdge _ _ _ => eq_refl end).
Definition from_vertexes (ids : list Vertex) : res Edge :=
  match ids with
  | [a; b] => Ok (mkEdge a BI b)
  | _ => Err "balances len should be 2"
  end.

(** ** [Storage] *)

Class GraphCodecs := {
  lcs_edge :: Lcs Edge;
  lcs_vertex :: Lcs Vertex;
  lcs_vertex_key :: Lcs AccountAddress;
  lcs_number :: Lcs Z;
  lcs_name :: Lcs string
}.
Definition lcs_schema (A B : Type) `{Lcs A, Lcs B} (name : string) : Schema :=
  mkSchema A B name lcs_to_bytes lcs_from_bytes lcs_to_bytes lcs_from_bytes.
End vertex.

Section storage.
Context {L : Libra} {R : RocksDB} {GC : GraphCodecs}.

Definition EdgeSchema : Schema := lcs_schema Edge Z "Edge".
Definition VertexSchema : Schema := lcs_schema AccountAddress Vertex "Vertex".
Definition OffSetSchema : Schema := lcs_schema string Z "Offset".

(** A database with the column families that it was opened with. *)
Record Storage := mkStorage { st_db : DB; st_families : list string }.
Definition Storage_new (d : DB) : Storage := mkStorage d [DEFAULT_CF_NAME; "Vertex"; "Edge"].
Definition get_cf_handle (cf_name : string) (s : Storage) : res unit :=
  ensure (bool_decide (cf_name ∈ st_families s)) "DB::cf_handle not found for column family name".
Definition storage_get (T : Schema) (key : Key T) (s : Storage) : res (option (Val T)) :=
  _ ← get_cf_handle (COLUMN_FAMILY_NAME T) s;
  match db_get (st_db s) (COLUMN_FAMILY_NAME T) (encode_key T key) with
  | Some raw_value => v ← decode_value T raw_value; Ok (Some v)
  | None => Ok None
  end.
Definition storage_put (T : Schema) (key : Key T) (value : Val T) (s : Storage) : res Storage :=
  _ ← get_cf_handle (COLUMN_FAMILY_NAME T) s;
  d ← db_write (st_db s) [(COLUMN_FAMILY_NAME T, encode_key T key, Some (encode_value T value))];
  Ok (mkStorage d (st_families s)).
Definition storage_delete (T : Schema) (key : Key T) (s : Storage) : res Storage :=
  _ ← get_cf_handle (COLUMN_FAMILY_NAME T) s;
  d ← db_write (st_db s) [(COLUMN_FAMILY_NAME T, encode_key T key, None)];
  Ok (mkStorage d (st_families s)).
(** [iter] with [seek_to_first]: what the iterator yields. *)
Definition storage_iter (T : Schema) (s : Storage) : res (list (res (Key T * Val T))) :=
  _ ← get_cf_handle (COLUMN_FAMILY_NAME T) s;
  Ok ((fun kv => k ← decode_key T kv.1; v ← decode_value T kv.2; Ok (k, v)) <$> db_seek (st_db s) (COLUMN_FAMILY_NAME T) []).
(** No column family for the offset is opened. *)
Lemma offset_family_missing d key : storage_get OffSetSchema key (Storage_new d) = Err "DB::cf_handle not found for column family name".
Proof. done. Qed.
End storage.

(** ** Petgraph *)

(** [Graph<Vertex, Edge, Undirected>]; [pg_nodes] and [pg_edges] list the weights by their indices. *)
Class Petgraph {L : Libra} := {
  PGraph : Type;
  pg_new : PGraph;
  pg_nodes : PGraph -> list Vertex;
  pg_edges : PGraph -> list (nat * nat * Edge);
  pg_add_node : Vertex -> PGraph -> res (nat * PGraph);
  pg_add_edge : nat -> nat -> Edge -> PGraph -> res (nat * PGraph);
  pg_remove_node : nat -> PGraph -> PGraph;
  pg_remove_edge : nat -> PGraph -> PGraph;
  pg_astar : PGraph -> nat -> nat -> option (list nat);
  pg_all_simple_paths : PGraph -> nat -> nat -> nat -> option nat -> list (list nat)
}.

(** Indices are below the largest 32-bit number. *)
Definition pg_limit : Z := 2 ^ 32 - 1.

(** A list of nodes in which neighbours are related, from one node to another without repetition. *)
Fixpoint linked {N} (R : N -> N -> Prop) (p : list N) : Prop :=
  match p with
  | a :: (b :: _) as p' => R a b /\ linked R p'
  | _ => True
  end.
Definition simple_path {N} (R : N -> N -> Prop) (a b : N) (p : list N) : Prop :=
  head p = Some a /\ last p = Some b /\ NoDup p /\ linked R p.

Lemma linked_touched {N} (Rel : N -> N -> Prop) (P : N -> Prop) p : (forall a b, Rel a b -> P a /\ P b) -> 2 <= length p -> linked Rel p ->
  forall x, x ∈ p -> P x.
Proof.
  intros HR. induction p as [|a p IH]; [simpl; lia|]. destruct p as [|b p]; [simpl; lia|]. intros _ [Hab Hl] x Hx.
  destruct (HR a b Hab) as [Ha Hb]. apply elem_of_cons in Hx as [->|Hx]; [done|]. destruct p as [|c p]; [set_solver|].
  apply IH; [simpl; lia|done|done].
Qed.
Lemma simple_path_length {N} (Rel : N -> N -> Prop) a b p : a <> b -> simple_path Rel a b p -> 2 <= length p.
Proof. intros Hab (H1 & H2 & _). destruct p as [|x [|y p]]; simpl in *; [done| |lia]. congruence. Qed.

Lemma mapM_Forall2 {A B} (f : A -> res B) l k : Forall2 (fun x y => f x = Ok y) l k -> mapM f l = Ok k.
Proof. induction 1 as [|x y l k Hxy _ IH]; [done|]. simpl. by rewrite Hxy, IH. Qed.

Section petgraph.
Context {L : Libra} {PG : Petgraph}.

Definition adjacent (g : PGraph) (i j : nat) : Prop := exists e, (i, j, e) ∈ pg_edges g \/ (j, i, e) ∈ pg_edges g.

Class PetgraphLaws : Prop := {
  pg_new_nodes : pg_nodes pg_new = [];
  pg_new_edges : pg_edges pg_new = [];
  pg_add_node_index v g i g' : pg_add_node v g = Ok (i, g') ->
    i = length (pg_nodes g) /\ pg_nodes g' = pg_nodes g ++ [v] /\ pg_edges g' = pg_edges g;
  pg_add_node_total v g : (Z.of_nat (length (pg_nodes g)) < pg_limit)%Z -> is_ok (pg_add_node v g) = true;
  pg_add_edge_index i j e g k g' : pg_add_edge i j e g = Ok (k, g') ->
    k = length (pg_edges g) /\ pg_nodes g' = pg_nodes g /\ pg_edges g' = pg_edges g ++ [(i, j, e)];
  pg_add_edge_total i j e g : i < length (pg_nodes g) -> j < length (pg_nodes g) -> (Z.of_nat (length (pg_edges g)) < pg_limit)%Z ->
    is_ok (pg_add_edge i j e g) = true;
  (* the last edge takes the index of the removed one *)
  pg_remove_edge_nodes i g : pg_nodes (pg_remove_edge i g) = pg_nodes g;
  pg_remove_edge_in i g l x y : pg_edges g = l ++ [y] -> (l ++ [y]) !! i = Some x ->
    pg_edges (pg_remove_edge i g) = <[i := y]> l;
  pg_remove_edge_out i g : length (pg_edges g) <= i -> pg_remove_edge i g = g;
  (* all simple paths with a number of nodes between the ends *)
  pg_all_simple_paths_elem g i j lo hi p : i <> j -> i < length (pg_nodes g) -> j < length (pg_nodes g) ->
    p ∈ pg_all_simple_paths g i j lo (Some hi) <-> simple_path (adjacent g) i j p /\ lo + 2 <= length p <= hi + 2
}.
End petgraph.
#[global] Arguments PetgraphLaws {L} PG.

(** ** [GraphStore] *)

Section graph_store.
Context {L : Libra} {R : RocksDB} {GC : GraphCodecs} {PG : Petgraph}.

Record GraphStore := mkGraphStore {
  graph : PGraph;
  node_index_map : gmap Vertex nat;
  index_node_map : gmap nat Vertex;
  edge_index_map : gmap Edge nat;
  persist_data : bool;
  storage : option Storage
}.
Notation G := (stM GraphStore).

Definition set_graph g (s : GraphStore) : GraphStore :=
  mkGraphStore g (node_index_map s) (index_node_map s) (edge_index_map s) (persist_data s) (storage s).
Definition set_storage st (s : GraphStore) : GraphStore :=
  mkGraphStore (graph s) (node_index_map s) (index_node_map s) (edge_index_map s) (persist_data s) st.

(** [self.storage.as_ref().expect(..).op(..)?] *)
Definition on_storage (e : string) (f : Storage -> res Storage) : G unit :=
  s ← getS;
  st ← lift (expect (storage s) e);
  st ← lift (f st);
  modifyS (set_storage (Some st)).

Definition put_vertex (node : Vertex) : G nat :=
  s ← getS;
  _ ← (if persist_data s then on_storage "should have vertex storage" (storage_put VertexSchema (v_id node) node) else mret tt);
  r ← lift (pg_add_node node (graph s));
  _ ← modifyS (fun s => mkGraphStore r.2 (<[node := r.1]> (node_index_map s)) (<[r.1 := node]> (index_node_map s)) (edge_index_map s)
                          (persist_data s) (storage s));
  mret r.1.

(** The index of a vertex, which is put if it is new. *)
Definition vertex_index (node : Vertex) : G nat :=
  s ← getS;
  match node_index_map s !! node with
  | Some i => mret i
  | None => put_vertex node
  end.
Definition put_edge (edge : Edge) (weight : Z) (memory_only : bool) : G nat :=
  start_index ← vertex_index (inbound_id edge);
  end_index ← vertex_index (outbound_id edge);
  s ← getS;
  r ← lift (pg_add_edge start_index end_index edge (graph s));
  _ ← modifyS (fun s => mkGraphStore r.2 (node_index_map s) (index_node_map s) (<[edge := r.1]> (edge_index_map s)) (persist_data s) (storage s));
  _ ← (if persist_data s && negb memory_only
       then on_storage "should have edege storage" (storage_put EdgeSchema edge weight) else mret tt);
  mret r.1.

(** [node_index_map] is borrowed for the whole [match], so that the mutable borrow in its arm panics. *)
Definition remove_vertex (node : Vertex) : G unit :=
  s ← getS;
  match node_index_map s !! node with
  | Some node_index =>
      _ ← modifyS (fun s => mkGraphStore (pg_remove_node node_index (graph s)) (node_index_map s) (base.delete node_index (index_node_map s))
                              (edge_index_map s) (persist_data s) (storage s));
      lift (Panic "already borrowed: BorrowMutError")
  | None => on_storage "should have vertex storage" (storage_delete VertexSchema (v_id node))
  end.
Definition remove_edge (edge : Edge) : G unit :=
  s ← getS;
  _ ← match edge_index_map s !! edge with
      | Some edge_index => modifyS (fun s => set_graph (pg_remove_edge edge_index (graph s)) s)
      | None => mret tt
      end;
  on_storage "should have edge storage" (storage_delete EdgeSchema edge).

(** [recovery_data] stops at the first entry that does not decode. *)
Fixpoint put_entries (l : list (res (Edge * Z))) : G unit :=
  match l with
  | Ok (key, value) :: l => _ ← put_edge key value true; put_entries l
  | _ => mret tt
  end.
Definition recovery_data : G unit :=
  s ← getS;
  st ← lift (expect (storage s) "should have edge storage");
  l ← lift (storage_iter EdgeSchema st);
  put_entries l.
Definition GraphStore_new (persist : bool) (st : option Storage) : res GraphStore :=
  let result := mkGraphStore pg_new ∅ ∅ ∅ persist st in
  if persist then match recovery_data result with (Ok _, s) => Ok s | (Err e, _) => Err e | (Panic e, _) => Panic e end
  else Ok result.

(** The vertices of a path. *)
Definition vertices_of (s : GraphStore) (node_indexes : list nat) : res (list Vertex) :=
  mapM (fun i => expect (index_node_map s !! i) "should have such node with index") node_indexes.

Definition find_path (start_node end_node : Vertex) (s : GraphStore) : res (option (list Vertex)) :=
  start_index ← ok_or (node_index_map s !! start_node) "no such node";
  end_index ← ok_or (node_index_map s !! end_node) "no such node";
  match pg_astar (graph s) start_index end_index with
  | Some node_indexes => r ← vertices_of s node_indexes; Ok (Some r)
  | None => Err "no path from to"
  end.
Definition find_all_path {HO : HashOrder} (start_node end_node : Vertex) (max_deep : nat) (s : GraphStore) : res (option (gset (list Vertex))) :=
  start_index ← ok_or (node_index_map s !! start_node) "no such node";
  end_index ← ok_or (node_index_map s !! end_node) "no such node";
  let paths : gset (list nat) := list_to_set (pg_all_simple_paths (graph s) start_index end_index 0 (Some max_deep)) in
  if bool_decide (paths = ∅) then Ok None
  else result ← mapM (vertices_of s) (hs_iter paths); Ok (Some (list_to_set result)).
End graph_store.

(** ** A store to which edges are put *)

Section store_inv.
Context {L : Libra} {R : RocksDB} {GC : GraphCodecs} {PG : Petgraph} {PL : PetgraphLaws PG}.
Implicit Types (s : GraphStore) (es : list Edge) (u v : Vertex) (e : Edge).

Definition nodes_of s : list Vertex := pg_nodes (graph s).
Record store_inv es s : Prop := {
  si_nodup : NoDup (nodes_of s);
  si_index v i : node_index_map s !! v = Some i <-> nodes_of s !! i = Some v;
  si_node i : index_node_map s !! i = nodes_of s !! i;
  si_edges : (pg_edges (graph s)).*2 = es;
  si_ends i j e : (i, j, e) ∈ pg_edges (graph s) -> nodes_of s !! i = Some (inbound_id e) /\ nodes_of s !! j = Some (outbound_id e)
}.
Definition stores es s s' : Prop := store_inv es s' /\ nodes_of s `prefix_of` nodes_of s' /\ persist_data s' = persist_data s.

Lemma store_new_inv persist st : store_inv [] (mkGraphStore pg_new ∅ ∅ ∅ persist st).
Proof.
  split; unfold nodes_of; simpl; rewrite ?pg_new_nodes, ?pg_new_edges; try done.
  - constructor.
  - by intros i j e ?%elem_of_nil.
Qed.
Lemma set_storage_inv es s st : store_inv es s -> stores es s (set_storage st s).
Proof. intros []. split_and!; by try split. Qed.
Lemma stores_trans es es' s1 s2 s3 : stores es s1 s2 -> stores es' s2 s3 -> stores es' s1 s3.
Proof. intros (_ & ? & ?) (? & ? & ?). split_and!; [done|by etrans|congruence]. Qed.
Lemma stores_refl es s : store_inv es s -> stores es s s.
Proof. intros ?. by split_and!. Qed.

Lemma on_storage_inv es s msg f : store_inv es s -> stores es s (on_storage msg f s).2.
Proof.
  intros Hi. unfold on_storage, mbind, stM_bind, getS. simpl. destruct (storage s) as [st|]; simpl; [|by apply stores_refl].
  destruct (f st); simpl; [by apply set_storage_inv|by apply stores_refl..].
Qed.

Lemma add_node_inv es s v g i : store_inv es s -> node_index_map s !! v = None -> pg_add_node v (graph s) = Ok (i, g) ->
  let s' := mkGraphStore g (<[v := i]> (node_index_map s)) (<[i := v]> (index_node_map s)) (edge_index_map s) (persist_data s) (storage s) in
  stores es s s' /\ nodes_of s' !! i = Some v.
Proof.
  intros [H1 H2 H3 H4 H5] Hv Hg. apply pg_add_node_index in Hg as (-> & Hn & He). simpl.
  assert (v ∉ nodes_of s) as Hnew by (intros [j Hj]%list_elem_of_lookup; apply H2 in Hj; congruence).
  split; [split_and!; [|by eexists|done]|unfold nodes_of; simpl; rewrite Hn; by rewrite list_lookup_middle].
  split; unfold nodes_of in *; simpl; rewrite ?Hn, ?He; try done.
  - apply NoDup_app. split_and!; [done| |apply NoDup_singleton]. by intros x ? ->%list_elem_of_singleton.
  - intros u j. rewrite lookup_insert_Some, H2, lookup_app_Some, list_lookup_singleton_Some. split.
    + intros [[<- <-]|[? ?]]; [right; split; [lia|split; [lia|done]]|by left].
    + intros [?|(? & ? & <-)]; [right; split; [|done]|left; split; [done|lia]]. intros ->. apply Hnew. by eapply list_elem_of_lookup_2.
  - intros j. destruct (decide (j = length (pg_nodes (graph s)))) as [->|Hne].
    + by rewrite lookup_insert_eq, list_lookup_middle.
    + rewrite lookup_insert_ne, H3 by done. destruct (decide (j < length (pg_nodes (graph s)))).
      * by rewrite lookup_app_l.
      * rewrite !lookup_ge_None_2; [done|rewrite length_app; simpl; lia|lia].
  - intros j k e [? ?]%H5. split; by apply lookup_app_l_Some.
Qed.
Lemma vertex_index_inv es s v : store_inv es s -> let '(r, s') := vertex_index v s in
  stores es s s' /\ match r with Ok i => nodes_of s' !! i = Some v | _ => True end.
Proof.
  intros Hi. unfold vertex_index, mbind, stM_bind, getS. simpl. destruct (node_index_map s !! v) as [i|] eqn:Ev.
  { split; [by apply stores_refl|]. by apply (si_index _ _ Hi). }
  unfold put_vertex, mbind, stM_bind, getS. simpl.
  assert (let '(r, s1) := (if persist_data s then on_storage "should have vertex storage" (storage_put VertexSchema (v_id v) v) else mret tt) s in
    stores es s s1 /\ graph s1 = graph s /\ node_index_map s1 = node_index_map s) as Hs1.
  { destruct (persist_data s); [|by split_and!; [apply stores_refl|..]].
    pose proof (on_storage_inv es s "should have vertex storage" (storage_put VertexSchema (v_id v) v) Hi) as Hst.
    unfold on_storage, mbind, stM_bind, getS in *. simpl in *. destruct (storage s) as [st|]; simpl in *; [|done].
    by destruct (storage_put _ _ _ st). }
  destruct ((if persist_data s then on_storage _ (storage_put VertexSchema (v_id v) v) else mret tt) s) as [r s1]. destruct Hs1 as (Hs1 & Hg & Hn).
  destruct r as [u|?|?]; simpl; [|done..]. rewrite <-Hg.
  destruct (pg_add_node v (graph s1)) as [[i g]|?|?] eqn:Eg; simpl; [|done..].
  destruct (add_node_inv es s1 v g i) as [H1 H2]; [apply Hs1|by rewrite Hn|done|]. split; [by eapply stores_trans|done].
Qed.

Lemma add_edge_inv es s e i j k g : store_inv es s -> nodes_of s !! i = Some (inbound_id e) -> nodes_of s !! j = Some (outbound_id e) ->
  pg_add_edge i j e (graph s) = Ok (k, g) ->
  stores (es ++ [e]) s (mkGraphStore g (node_index_map s) (index_node_map s) (<[e := k]> (edge_index_map s)) (persist_data s) (storage s)).
Proof.
  intros [H1 H2 H3 H4 H5] Hi Hj Hg. apply pg_add_edge_index in Hg as (-> & Hn & He).
  split_and!; [|unfold nodes_of; simpl; by rewrite Hn|done]. split; unfold nodes_of in *; simpl; rewrite ?Hn, ?He; try done.
  - by rewrite fmap_app, H4.
  - intros i' j' e' [?|[= -> -> ->]%list_elem_of_singleton]%elem_of_app; [by apply H5|done].
Qed.

(** A put that fails may have put vertices, but no edge. *)
Lemma put_edge_inv es s e w memory_only : store_inv es s -> let '(r, s') := put_edge e w memory_only s in
  (exists es', stores es' s s' /\ (es' = es \/ es' = es ++ [e])) /\ match r with Ok _ => store_inv (es ++ [e]) s' | _ => True end.
Proof.
  intros Hi. unfold put_edge. unfold mbind at 1, stM_bind at 1. pose proof (vertex_index_inv es s (inbound_id e) Hi) as H1.
  destruct (vertex_index (inbound_id e) s) as [r1 s1]. destruct H1 as [Hs1 H1].
  destruct r1 as [i|?|?]; [|by split; [exists es; auto|]..]. unfold mbind at 1, stM_bind at 1.
  pose proof (vertex_index_inv es s1 (outbound_id e) (proj1 Hs1)) as H2.
  destruct (vertex_index (outbound_id e) s1) as [r2 s2]. destruct H2 as [Hs2 H2].
  assert (stores es s s2) as Hs by by eapply stores_trans.
  destruct r2 as [j|?|?]; [|by split; [exists es; auto|]..].
  unfold mbind, stM_bind, getS. simpl. destruct (pg_add_edge i j e (graph s2)) as [[k g]|?|?] eqn:Eg; simpl; [|by split; [exists es; auto|]..].
  pose proof (add_edge_inv es s2 e i j k g (proj1 Hs2)) as Ha.
  destruct Hs2 as (_ & Hp & _). specialize (Ha (prefix_lookup_Some _ _ _ _ H1 Hp) H2 Eg). eapply stores_trans in Ha; [|exact Hs].
  destruct (persist_data s2 && negb memory_only); [|simpl; split; [eauto|apply Ha]].
  pose proof (on_storage_inv _ _ "should have edege storage" (storage_put EdgeSchema e w) (proj1 Ha)) as Hst.
  eapply stores_trans in Hst; [|exact Ha].
  destruct (on_storage _ _ _) as [[u|?|?] s3]; simpl in *; (split; [eauto|]); [apply Hst|done..].
Qed.

(** Without a storage, and below the limit of the indices, a put succeeds. *)
Lemma vertex_index_total es s v : store_inv es s -> persist_data s = false -> (Z.of_nat (length (nodes_of s)) < pg_limit)%Z ->
  exists i s', vertex_index v s = (Ok i, s') /\ length (nodes_of s') <= S (length (nodes_of s)) /\ pg_edges (graph s') = pg_edges (graph s).
Proof.
  intros Hi Hp Hlim. unfold vertex_index, put_vertex, mbind, stM_bind, getS. simpl.
  destruct (node_index_map s !! v) as [i|]; [by exists i, s; split_and!; [|lia|]|]. rewrite Hp. simpl.
  pose proof (pg_add_node_total v (graph s) Hlim) as Ht. destruct (pg_add_node v (graph s)) as [[i g]|?|?] eqn:Eg; [|done..].
  apply pg_add_node_index in Eg as (-> & Hn & He). simpl. eexists _, _. split_and!; [done| |done]. unfold nodes_of. simpl.
  rewrite Hn, length_app. simpl. lia.
Qed.
Lemma vertex_index_edges s v : edge_index_map (vertex_index v s).2 = edge_index_map s.
Proof.
  unfold vertex_index, put_vertex, mbind, stM_bind, getS. simpl. destruct (node_index_map s !! v); [done|].
  assert (edge_index_map ((if persist_data s then on_storage "should have vertex storage" (storage_put VertexSchema (v_id v) v) else mret tt) s).2
    = edge_index_map s) as H.
  { destruct (persist_data s); [|done]. unfold on_storage, mbind, stM_bind, getS. simpl. destruct (storage s) as [st|]; [|done]. simpl.
    by destruct (storage_put _ _ _ st). }
  destruct ((if persist_data s then on_storage _ (storage_put VertexSchema (v_id v) v) else mret tt) s) as [[]]; simpl in *; try done.
  by destruct (pg_add_node v (graph s)).
Qed.
Lemma put_edge_total es s e w : store_inv es s -> persist_data s = false -> (Z.of_nat (length (nodes_of s)) + 1 < pg_limit)%Z ->
  (Z.of_nat (length es) < pg_limit)%Z ->
  exists k s', put_edge e w true s = (Ok k, s') /\ store_inv (es ++ [e]) s' /\ persist_data s' = false /\
    length (nodes_of s') <= 2 + length (nodes_of s) /\ edge_index_map s' = <[e := length es]> (edge_index_map s).
Proof.
  intros Hi Hp Hn He.
  destruct (vertex_index_total es s (inbound_id e) Hi Hp) as (i & s1 & E1 & Hl1 & He1); [lia|].
  pose proof (vertex_index_inv es s (inbound_id e) Hi) as H1. rewrite E1 in H1. destruct H1 as [Hs1 H1].
  destruct (vertex_index_total es s1 (outbound_id e) (proj1 Hs1)) as (j & s2 & E2 & Hl2 & He2); [by rewrite (proj2 (proj2 Hs1))|lia|].
  pose proof (vertex_index_inv es s1 (outbound_id e) (proj1 Hs1)) as H2. rewrite E2 in H2. destruct H2 as [Hs2 H2].
  assert (is_ok (pg_add_edge i j e (graph s2)) = true) as Hok.
  { apply pg_add_edge_total; [eapply lookup_lt_Some, prefix_lookup_Some; [exact H1|apply Hs2]|by eapply lookup_lt_Some|].
    rewrite <-(length_fmap snd), (si_edges _ _ (proj1 Hs2)). done. }
  assert (persist_data s2 = false) as Hp2 by by rewrite (proj2 (proj2 Hs2)), (proj2 (proj2 Hs1)).
  destruct (pg_add_edge i j e (graph s2)) as [[k g]|?|?] eqn:Eg; [|done..].
  pose proof (put_edge_inv es s e w true Hi) as Hput.
  assert (put_edge e w true s = (Ok k, mkGraphStore g (node_index_map s2) (index_node_map s2) (<[e := k]> (edge_index_map s2)) (persist_data s2) (storage s2))) as E.
  { unfold put_edge. unfold mbind at 1, stM_bind at 1. rewrite E1. unfold mbind at 1, stM_bind at 1. rewrite E2.
    unfold mbind, stM_bind, getS. simpl. rewrite Eg. simpl. by rewrite Hp2. }
  rewrite E in Hput. destruct Hput as [_ Hput]. apply pg_add_edge_index in Eg as (-> & Hg & _).
  eexists _, _. split_and!; [done..| |]; simpl; [unfold nodes_of in *; simpl; rewrite Hg; lia|].
  pose proof (vertex_index_edges s (inbound_id e)) as X1. pose proof (vertex_index_edges s1 (outbound_id e)) as X2. rewrite E1 in X1. rewrite E2 in X2.
  simpl in *. by rewrite X2, X1, <-(si_edges _ _ (proj1 Hs2)), length_fmap.
Qed.

(** *** Paths of indices and paths of vertices *)

Definition joined es u v : Prop := exists e, e ∈ es /\ ((inbound_id e = u /\ outbound_id e = v) \/ (inbound_id e = v /\ outbound_id e = u)).
Definition named s (p : list nat) (q : list Vertex) : Prop := Forall2 (fun i v => nodes_of s !! i = Some v) p q.

Lemma nodes_inj es s i j v : store_inv es s -> nodes_of s !! i = Some v -> nodes_of s !! j = Some v -> i = j.
Proof. intros Hi. by apply NoDup_lookup, Hi. Qed.
Lemma adjacent_joined es s i j u v : store_inv es s -> nodes_of s !! i = Some u -> nodes_of s !! j = Some v ->
  adjacent (graph s) i j <-> joined es u v.
Proof.
  intros Hs Hu Hv. split.
  - intros (e & [He|He]); pose proof (si_ends _ _ Hs _ _ _ He) as [H1 H2]; exists e; (split; [|naive_solver congruence]);
      rewrite <-(si_edges _ _ Hs); by apply (list_elem_of_fmap_2 snd) in He.
  - intros (e & He & Hend). rewrite <-(si_edges _ _ Hs) in He. apply list_elem_of_fmap in He as ([[i' j'] e'] & -> & He).
    pose proof (si_ends _ _ Hs _ _ _ He) as [H1 H2]. exists e'. simpl in *.
    destruct Hend as [[<- <-]|[<- <-]]; [left|right].
    + by rewrite (nodes_inj es s i i' _ Hs Hu H1), (nodes_inj es s j j' _ Hs Hv H2).
    + by rewrite (nodes_inj es s i j' _ Hs Hu H2), (nodes_inj es s j i' _ Hs Hv H1).
Qed.

Lemma named_simple es s p q i j u v : store_inv es s -> named s p q -> nodes_of s !! i = Some u -> nodes_of s !! j = Some v ->
  simple_path (adjacent (graph s)) i j p <-> simple_path (joined es) u v q.
Proof.
  intros Hs Hn Hu Hv. unfold simple_path.
  assert (forall x y, nodes_of s !! x = Some y -> (head p = Some x <-> head q = Some y) /\ (last p = Some x <-> last q = Some y)) as Hends.
  { intros x y Hxy. split.
    - destruct Hn as [|x' y' p q Hx Hn]; simpl; [done|]. split; intros [= <-]; [congruence|]. by rewrite (nodes_inj es s x x' y' Hs).
    - clear Hu Hv. induction Hn as [|x' y' p q Hx Hn IH]; [done|]. destruct Hn as [|x2 y2 p q Hx2 Hn]; [|exact IH]. simpl.
      split; intros [= <-]; [congruence|]. by rewrite (nodes_inj es s x x' y' Hs). }
  rewrite (proj1 (Hends i u Hu)), (proj2 (Hends j v Hv)). do 2 apply and_iff_compat_l. clear Hu Hv Hends.
  assert (NoDup p <-> NoDup q) as ->; [|apply and_iff_compat_l].
  - unfold named in Hn. rewrite !NoDup_alt. split.
    + intros Hnd k1 k2 w H1 H2. eapply Forall2_lookup_r in H1 as (x1 & Hx1 & E1); [|done].
      eapply Forall2_lookup_r in H2 as (x2 & Hx2 & E2); [|done]. eapply (Hnd k1 k2 x1); [done|]. by rewrite (nodes_inj es s x1 x2 w Hs).
    + intros Hnd k1 k2 x H1 H2. eapply Forall2_lookup_l in H1 as (y1 & Hy1 & E1); [|done].
      eapply Forall2_lookup_l in H2 as (y2 & Hy2 & E2); [|done]. eapply (Hnd k1 k2 y1); [done|]. congruence.
  - induction Hn as [|x y p q Hx Hn IH]; [done|]. destruct Hn as [|x2 y2 p q Hx2 Hn]; [done|].
    change (adjacent (graph s) x x2 /\ linked (adjacent (graph s)) (x2 :: p) <-> joined es y y2 /\ linked (joined es) (y2 :: q)).
    by rewrite (adjacent_joined es s x x2 y y2), IH.
Qed.

Lemma named_exists_vertices es s i j p : store_inv es s -> i <> j -> simple_path (adjacent (graph s)) i j p -> exists q, named s p q.
Proof.
  intros Hs Hij Hp. pose proof (simple_path_length _ _ _ _ Hij Hp) as Hlen. destruct Hp as (_ & _ & _ & Hl).
  assert (Forall (fun x => exists v, nodes_of s !! x = Some v) p) as Hall.
  { apply Forall_forall. apply (linked_touched _ (fun x => exists v, nodes_of s !! x = Some v) _) with (3 := Hl); [|done].
    intros a b (e & [He|He]); apply (si_ends _ _ Hs) in He as [? ?]; eauto. }
  by apply Forall_exists_Forall2_l in Hall.
Qed.
Lemma named_exists_indices es s u v q : store_inv es s -> u <> v -> simple_path (joined es) u v q -> exists p, named s p q.
Proof.
  intros Hs Huv Hq. pose proof (simple_path_length _ _ _ _ Huv Hq) as Hlen. destruct Hq as (_ & _ & _ & Hl).
  assert (Forall (fun v => exists x, nodes_of s !! x = Some v) q) as Hall.
  { apply Forall_forall. apply (linked_touched _ (fun v => exists x, nodes_of s !! x = Some v) _) with (3 := Hl); [|done].
    intros a b (e & He & Hend). rewrite <-(si_edges _ _ Hs) in He. apply list_elem_of_fmap in He as ([[i' j'] e'] & -> & He).
    apply (si_ends _ _ Hs) in He as [? ?]. simpl in *. destruct Hend as [[<- <-]|[<- <-]]; eauto. }
  by apply Forall_exists_Forall2_r in Hall.
Qed.
Lemma vertices_of_named es s p q : store_inv es s -> vertices_of s p = Ok q <-> named s p q.
Proof.
  intros Hs. unfold named. revert q. induction p as [|i p IH]; intros q.
  { split; [by intros [= <-]|]. by intros ->%Forall2_nil_inv_l. }
  change (vertices_of s (i :: p)) with (y ← expect (index_node_map s !! i) "should have such node with index"; k ← vertices_of s p; mret (y :: k)).
  rewrite (si_node _ _ Hs). split.
  - intros (v & Hv & Hk)%bind_Ok. apply bind_Ok in Hk as (k & Hk & [= <-]). constructor; [by destruct (nodes_of s !! i); simplify_eq/=|by apply IH].
  - intros (v & k & Hv & Hk & ->)%Forall2_cons_inv_l. apply IH in Hk. by rewrite Hv, Hk.
Qed.

Lemma simple_path_joined es u v q : u <> v -> simple_path (joined es) u v q -> exists w1 w2, joined es u w1 /\ joined es w2 v.
Proof.
  intros Huv (Hu & Hv & _ & Hl). destruct q as [|a [|b q]]; simplify_eq/=. destruct Hl as [Hab Hl].
  exists b. assert (exists w2, joined es w2 v) as [w2 ?]; [|by exists w2].
  clear Huv. revert u b Hab Hv Hl. induction q as [|c q IH]; intros a b Hab Hv Hl; simplify_eq/=; [by exists a|].
  destruct Hl as [? ?]. by eapply (IH b c).
Qed.
Lemma joined_known es s u v : store_inv es s -> joined es u v -> is_Some (node_index_map s !! u) /\ is_Some (node_index_map s !! v).
Proof.
  intros Hs (e & He & Hend). rewrite <-(si_edges _ _ Hs) in He. apply list_elem_of_fmap in He as ([[i j] e'] & -> & He).
  apply (si_ends _ _ Hs) in He as [H1%(si_index _ _ Hs) H2%(si_index _ _ Hs)]. destruct Hend as [[<- <-]|[<- <-]]; eauto.
Qed.

Lemma find_all_path_spec {HO : HashOrder} es s u v k : store_inv es s -> u <> v ->
  match find_all_path u v k s with
  | Ok (Some paths) => paths <> ∅ /\ forall q, q ∈ paths <-> simple_path (joined es) u v q /\ length q <= k + 2
  | Ok None => forall q, simple_path (joined es) u v q -> k + 2 < length q
  | Err _ => forall q, ~ simple_path (joined es) u v q
  | Panic _ => False
  end.
Proof.
  intros Hs Huv. unfold find_all_path.
  destruct (node_index_map s !! u) as [i|] eqn:Ei; simpl.
  2: { intros q Hq. destruct (simple_path_joined _ _ _ _ Huv Hq) as (w1 & w2 & H1 & _). destruct (joined_known _ _ _ _ Hs H1) as [[] _]. congruence. }
  destruct (node_index_map s !! v) as [j|] eqn:Ej; simpl.
  2: { intros q Hq. destruct (simple_path_joined _ _ _ _ Huv Hq) as (w1 & w2 & _ & H1). destruct (joined_known _ _ _ _ Hs H1) as [_ []]. congruence. }
  apply (si_index _ _ Hs) in Ei, Ej. assert (i <> j) as Hij by congruence.
  set (paths := list_to_set (pg_all_simple_paths _ _ _ _ _) : gset (list nat)).
  assert (forall p, p ∈ paths <-> simple_path (adjacent (graph s)) i j p /\ length p <= k + 2) as Hpaths.
  { intros p. unfold paths. rewrite elem_of_list_to_set, pg_all_simple_paths_elem by (try done; by eapply lookup_lt_Some).
    split; [naive_solver lia|]. intros [Hp ?]. split; [done|]. pose proof (simple_path_length _ _ _ _ Hij Hp). lia. }
  assert (forall q, simple_path (joined es) u v q -> length q <= k + 2 -> exists p, p ∈ paths /\ named s p q) as Hback.
  { intros q Hq Hlen. destruct (named_exists_indices es s u v q Hs Huv Hq) as [p Hp]. exists p. split; [|done]. apply Hpaths.
    split; [by eapply named_simple|]. by rewrite (Forall2_length _ _ _ Hp). }
  case_bool_decide as Hempty.
  { intros q Hq. apply Nat.nle_gt. intros Hlen. destruct (Hback q Hq Hlen) as (p & Hp & _). by rewrite Hempty in Hp. }
  assert (exists qs, Forall2 (named s) (hs_iter paths) qs) as [qs Hqs].
  { apply Forall_exists_Forall2_l, Forall_forall. intros p Hp. rewrite hs_iter_perm in Hp. apply elem_of_elements, Hpaths in Hp as [Hp _].
    by eapply named_exists_vertices. }
  rewrite (mapM_Forall2 _ _ qs). 2: { eapply Forall2_impl; [exact Hqs|]. intros p q. by apply vertices_of_named with es. }
  simpl. assert (forall q, q ∈ qs <-> simple_path (joined es) u v q /\ length q <= k + 2) as Hq.
  { intros q. split.
    - intros (n & Hn)%list_elem_of_lookup. eapply Forall2_lookup_r in Hn as (p & Hp & Hpq); [|done].
      apply list_elem_of_lookup_2 in Hp. rewrite hs_iter_perm in Hp. apply elem_of_elements, Hpaths in Hp as [Hp Hlen].
      split; [by eapply named_simple in Hp|]. by rewrite <-(Forall2_length _ _ _ Hpq).
    - intros [Hq Hlen]. destruct (Hback q Hq Hlen) as (p & Hp & Hpq). apply elem_of_elements in Hp. rewrite <-hs_iter_perm in Hp.
      apply list_elem_of_lookup in Hp as [n Hn]. eapply Forall2_lookup_l in Hn as (q' & Hq' & Hpq'); [|done].
      apply (vertices_of_named es) in Hpq, Hpq'; [|done..]. rewrite Hpq in Hpq'. injection Hpq' as <-. by eapply list_elem_of_lookup_2. }
  split; [|intros q; by rewrite elem_of_list_to_set].
  intros HS. destruct (set_choose_L paths Hempty) as [p Hp]. apply elem_of_elements in Hp. rewrite <-hs_iter_perm in Hp.
  apply list_elem_of_lookup in Hp as [n Hn]. eapply Forall2_lookup_l in Hn as (q & Hq' & _); [|done].
  apply list_elem_of_lookup_2 in Hq'. assert (q ∈ (list_to_set qs : gset (list Vertex))) as Hin by by apply elem_of_list_to_set. by rewrite HS in Hin.
Qed.

(** *** Removing edges *)

(** An edge is removed by the index that it was put with. *)
Lemma remove_edge_graph s e i : edge_index_map s !! e = Some i ->
  graph (remove_edge e s).2 = pg_remove_edge i (graph s) /\ edge_index_map (remove_edge e s).2 = edge_index_map s /\
  node_index_map (remove_edge e s).2 = node_index_map s /\ index_node_map (remove_edge e s).2 = index_node_map s.
Proof.
  intros He. unfold remove_edge, on_storage, mbind, stM_bind, getS, modifyS. simpl. rewrite He. simpl.
  destruct (storage s) as [st|]; simpl; [|done]. by destruct (storage_delete _ _ st).
Qed.
(** The edges that remain keep the store in order, except for the indices of the edges. *)
Lemma remove_edge_inv es s e i es' : store_inv es s -> edge_index_map s !! e = Some i ->
  (pg_edges (pg_remove_edge i (graph s))).*2 = es' -> (forall x, x ∈ pg_edges (pg_remove_edge i (graph s)) -> x ∈ pg_edges (graph s)) ->
  store_inv es' (remove_edge e s).2.
Proof.
  intros [H1 H2 H3 H4 H5] He Hes Hsub. destruct (remove_edge_graph s e i He) as (Hg & _ & Hn & Hi).
  split; unfold nodes_of in *; rewrite ?Hn, ?Hi, ?Hg, ?pg_remove_edge_nodes; try done. eauto.
Qed.
End store_inv.
