(* ===== verification/TableRouter.v ===== *)
(** * Table routing

    Models [src/router/src/lib.rs]: a router that keeps the graph of all channels, from the events of the
    chain, and asks the nodes of each short path for their balances, and [MixRouter] of
    [src/router/ant/src/lib.rs], which asks it first and an ant router second.

    While a task awaits the answer of another node, the messages that arrive are handled; which ones is a
    parameter of the definitions.

    The theorems: the router returns the path with the least pressure of all simple paths with at most five
    nodes between the ends over the channels that were opened, and a channel that is locked and closed takes
    another channel with it out of the graph. *)
From S2P Require Import Prelude Codec Libra SchemaDB ChannelTypes Chain Messages Futures Stats Node Graph AntRouter.

(** [CryptoHash] of an address *)
Class AddressHash {L : Libra} := address_hash : AccountAddress -> HashValue.

Section table_router.
Context {L : Libra} {K : Chain} {R : RocksDB} {GC : GraphCodecs} {PG : Petgraph} {AH : AddressHash} {HO : HashOrder}.
Context {W : Type} {WO : WalletOps W}.

Inductive ChannelChangeEvent :=
| EvOpened (channel_address : AccountAddress) (balances : gmap AccountAddress Z)
| EvLocked (channel_address : AccountAddress) (balances : gmap AccountAddress Z)
| EvClosed (channel_address : AccountAddress) (balances : gmap AccountAddress Z).

Record RouterInner := mkRouterInner {
  graph_store : GraphStore;
  ro_outbox : list (AccountAddress * RouterNetworkMessage);
  ro_network_open : bool;
  ro_wallet : W;
  ro_processor : MessageProcessor RouterNetworkMessage;
  ro_stats : StatsInner
}.
(** [TableRouter::new]; the storage is that of the graph. *)
Definition TableRouter_new (w : W) (st : StatsInner) (path : option Storage) : res RouterInner :=
  g ← expect_ok (match path with Some p => GraphStore_new true (Some p) | None => GraphStore_new false None end);
  Ok (mkRouterInner g [] true w MessageProcessor_new st).

Definition set_graph_store g (r : RouterInner) : RouterInner :=
  mkRouterInner g (ro_outbox r) (ro_network_open r) (ro_wallet r) (ro_processor r) (ro_stats r).
Definition set_ro_outbox l (r : RouterInner) : RouterInner :=
  mkRouterInner (graph_store r) l (ro_network_open r) (ro_wallet r) (ro_processor r) (ro_stats r).
Definition set_ro_wallet w (r : RouterInner) : RouterInner :=
  mkRouterInner (graph_store r) (ro_outbox r) (ro_network_open r) w (ro_processor r) (ro_stats r).
Definition set_ro_processor p (r : RouterInner) : RouterInner :=
  mkRouterInner (graph_store r) (ro_outbox r) (ro_network_open r) (ro_wallet r) p (ro_stats r).
Definition set_ro_stats s (r : RouterInner) : RouterInner :=
  mkRouterInner (graph_store r) (ro_outbox r) (ro_network_open r) (ro_wallet r) (ro_processor r) s.

(** *** Events of the chain *)

Definition OFFSET_KEY : string := "Offset".
(** The number of the first event that [start] asks for. *)
Definition start_number (r : RouterInner) : res Z :=
  match storage (graph_store r) with
  | Some s => offset ← storage_get OffSetSchema OFFSET_KEY s; Ok (default 0%Z offset)
  | None => Ok 0%Z
  end.

Definition generate_edge (balances : gmap AccountAddress Z) : res Edge :=
  from_vertexes ((fun e => new_with_bi_type e.1) <$> hm_iter balances).
Definition on_graph {T} (m : stM GraphStore T) : stM RouterInner T := fun r =>
  let '(x, g) := m (graph_store r) in (x, set_graph_store g r).
Definition handle_channel_stream (number : Z) (event : ChannelChangeEvent) : stM RouterInner unit :=
  let edge_of balances :=
    _ ← ensure (bool_decide (size balances = 2)) "balances len should be 2";
    generate_edge balances in
  _ ← match event with
      | EvOpened _ balances => edge ← lift (edge_of balances); _ ← on_graph (put_edge edge 0 true); mret tt
      | EvClosed _ balances => edge ← lift (edge_of balances); on_graph (remove_edge edge)
      | EvLocked _ balances => edge ← lift (edge_of balances); on_graph (remove_edge edge)
      end;
  r ← getS;
  match storage (graph_store r) with
  | Some s => s ← lift (storage_put OffSetSchema OFFSET_KEY number s); on_graph (modifyS (set_storage (Some s)))
  | None => mret tt
  end.
(** An error is logged. *)
Definition handle_stream (result : res (Z * ChannelChangeEvent)) : stM RouterInner unit := fun r =>
  match result with
  | Ok (u, t) => match handle_channel_stream u t r with (Err _, r') => (Ok tt, r') | x => x end
  | _ => (Ok tt, r)
  end.

(** *** Balances *)

Notation M := (taskM RouterInner).
Definition table_wallet {T} (m : stM W T) : M T := fun r => let '(x, w) := m (ro_wallet r) in (Some x, set_ro_wallet w r).
Definition table_pressure (channel : DirectedChannel) : M Z := fun r =>
  let '(x, s) := payment_pressure channel (ro_stats r) in (x, set_ro_stats s r).
Definition table_send (to : AccountAddress) (m : RouterNetworkMessage) : M unit :=
  r ← sync getS;
  if ro_network_open r then sync (modifyS (fun r => set_ro_outbox (ro_outbox r ++ [(to, m)]) r))
  else task_lift (Err "send failed because receiver is gone").

Definition handle_balance_query_request (sender_addr : AccountAddress) (msg : BalanceQueryRequest) : M unit :=
  r ← sync getS;
  if bool_decide (bq_local_addr msg = wo_account (ro_wallet r)) then
    balance ← table_wallet (wo_channel_balance (bq_remote_addr msg));
    total_amount ← table_pressure (bq_local_addr msg, bq_remote_addr msg);
    remote ← table_wallet (wo_participant_channel_balance (bq_remote_addr msg));
    table_send sender_addr
      (MBalanceQueryResponse (mkBalanceResponse (bq_local_addr msg) (bq_remote_addr msg) balance remote total_amount))
  else mret tt.
Definition handle_balance_query_response (sender_addr : AccountAddress) (msg : BalanceQueryResponse) (r : RouterInner) : RouterInner :=
  set_ro_processor (send_response (address_hash sender_addr) (MBalanceQueryResponse msg) (ro_processor r)) r.
(** [handle_router_network_msg]: an error makes the task panic. *)
Definition table_handle_network_msg (peer_id : AccountAddress) (msg : RouterNetworkMessage) : M unit :=
  match msg with
  | MBalanceQueryRequest request => fun r => let '(x, r') := handle_balance_query_request peer_id request r in (expect_ok <$> x, r')
  | MBalanceQueryResponse message => sync (modifyS (handle_balance_query_response peer_id message))
  | _ => mret tt
  end.

(** *** Paths *)

(** The responses that arrive while the balance of a hop is awaited, with their senders. *)
Context (arrivals : AccountAddress -> AccountAddress -> list (AccountAddress * BalanceQueryResponse)).

Definition query_balance (local_addr remote_addr : AccountAddress) : M BalanceQueryResponse :=
  _ ← table_send local_addr (MBalanceQueryRequest (mkBalanceRequest local_addr remote_addr));
  r ← sync getS;
  let '(i, p) := channel (ro_processor r) in
  _ ← sync (modifyS (set_ro_processor (add_future (address_hash local_addr) i p)));
  _ ← sync (modifyS (fun r => foldl (fun r m => handle_balance_query_response m.1 m.2 r) r (arrivals local_addr remote_addr)));
  response ← (fun r => (match router_poll_future (ro_processor r) i with
                        | Ready v => Some (Ok v)
                        | Failed e => Some (Err (error_text e))
                        | NotReady => None
                        end, r));
  _ ← sync (modifyS (fun r => set_ro_processor (receiver_dropped i (ro_processor r)) r));
  match response with
  | MBalanceQueryResponse data => mret data
  | _ => task_lift (Err "can't find balance")
  end.

(** The hops after the first. *)
Fixpoint query_hops (vertexes : list Vertex) : M (list BalanceQueryResponse) :=
  match vertexes with
  | local :: (remote :: _) as rest =>
      response ← query_balance (v_id local) (v_id remote);
      l ← query_hops rest;
      mret (response :: l)
  | _ => mret []
  end.
Definition vertexes_to_balance_list (vertexes : list Vertex) : M (list BalanceQueryResponse) :=
  match vertexes with
  | v1 :: (v2 :: _) as rest =>
      let first := v_id v1 in
      let second := v_id v2 in
      r ← sync getS;
      _ ← task_lift (ensure (bool_decide (first = wo_account (ro_wallet r))) "first hop should be local address");
      total_amount ← table_pressure (first, second);
      local ← table_wallet (wo_channel_balance second);
      remote ← table_wallet (wo_participant_channel_balance second);
      l ← query_hops rest;
      mret (mkBalanceResponse first second local remote total_amount :: l)
  | _ => task_lift (Err "should have at lease 1 hops")
  end.
Fixpoint balance_lists (paths : list (list Vertex)) : M (list (list BalanceQueryResponse)) :=
  match paths with
  | [] => mret []
  | path :: paths =>
      balances ← vertexes_to_balance_list path;
      l ← balance_lists paths;
      mret (balances :: l)
  end.
Definition router_find_path (paths : gset (list Vertex)) : M (list BalanceQueryResponse) :=
  l ← balance_lists (hs_iter paths);
  mret (default [] (least_pressure l)).

(** [handle_router_msg], with what the caller gets: a task that ends with an error drops the responder. *)
Definition table_find_path (start last : Vertex) : M (list BalanceQueryResponse) :=
  r ← sync getS;
  paths ← task_lift (find_all_path start last 5 (graph_store r));
  match paths with
  | Some t => router_find_path t
  | None => mret []
  end.
Definition table_find_path_by_addr (start last : AccountAddress) : M (list BalanceQueryResponse) :=
  table_find_path (new_with_bi_type start) (new_with_bi_type last).
End table_router.
#[global] Arguments RouterInner {L R PG} W.

(** ** [MixRouter] *)

Section mix_router.
Context {L : Libra}.

(** Which of the two routers gets a message. *)
Inductive RouterKind := Table | Ant.
Definition handle_network_message (network_message : RouterNetworkMessage) : RouterKind :=
  match network_message with
  | MBalanceQueryRequest _ | MBalanceQueryResponse _ => Table
  | MExchangeSeedMessageRequest _ | MExchangeSeedMessageResponse _ | MAntQueryMessage _ | MAntFinalMessage _ => Ant
  end.
(** [find_path_by_addr], by the answer of the table router and that of the ant router. *)
Definition mix_find_path_by_addr (table ant : res (list BalanceQueryResponse)) : res (list BalanceQueryResponse) :=
  match table with
  | Ok (_ :: _) => table
  | _ => ant
  end.
End mix_router.

(** ** The events of opened channels *)

Section events.
Context {L : Libra} {K : Chain} {R : RocksDB} {GC : GraphCodecs} {PG : Petgraph} {PL : PetgraphLaws PG} {AH : AddressHash} {HO : HashOrder}.
Context {W : Type} {WO : WalletOps W}.
Implicit Types (r : RouterInner W) (a b : AccountAddress).

Definition opening (e : Z * ChannelChangeEvent) : Prop := exists c bs, e.2 = EvOpened c bs /\ size bs = 2.
Definition opened (l : list (Z * ChannelChangeEvent)) a b : Prop :=
  exists n c bs, (n, EvOpened c bs) ∈ l /\ a ∈ dom bs /\ b ∈ dom bs /\ a <> b.
Definition run_events (l : list (Z * ChannelChangeEvent)) r : RouterInner W := foldl (fun r e => (handle_stream (Ok e) r).2) r l.

Lemma generate_edge_ends (bs : gmap AccountAddress Z) : size bs = 2 -> exists a b,
  generate_edge bs = Ok (mkEdge (new_with_bi_type a) BI (new_with_bi_type b)) /\ a <> b /\ forall x, x ∈ dom bs <-> x = a \/ x = b.
Proof.
  intros Hsize. unfold generate_edge. pose proof (hm_iter_perm bs) as Hp. pose proof (NoDup_hm_iter_fst bs) as Hnd.
  assert (length (hm_iter bs) = 2) as Hlen by by rewrite Hp, length_map_to_list.
  destruct (hm_iter bs) as [|[a x] [|[b y] [|]]]; try done. simpl in *. exists a, b. split; [done|].
  assert (forall k, k ∈ dom bs <-> k = a \/ k = b) as Hdom; [|split; [|done]].
  - intros k. rewrite elem_of_dom. split.
    + intros [z Hz]. apply elem_of_map_to_list in Hz. rewrite <-Hp in Hz. set_solver.
    + intros [->| ->]; [exists x|exists y]; apply elem_of_map_to_list; rewrite <-Hp; set_solver.
  - apply NoDup_cons in Hnd as [Hnd _]. set_solver.
Qed.

Lemma joined_snoc es e u v : joined (es ++ [e]) u v <-> joined es u v \/ joined [e] u v.
Proof. unfold joined. setoid_rewrite elem_of_app. naive_solver. Qed.
Lemma opened_snoc l e a b : opened (l ++ [e]) a b <-> opened l a b \/ opened [e] a b.
Proof. unfold opened. setoid_rewrite elem_of_app. naive_solver. Qed.
Lemma opened_edge n c (bs : gmap AccountAddress Z) a b u v : a <> b -> (forall x, x ∈ dom bs <-> x = a \/ x = b) ->
  joined [mkEdge (new_with_bi_type a) BI (new_with_bi_type b)] u v <->
  exists x y, u = new_with_bi_type x /\ v = new_with_bi_type y /\ opened [(n, EvOpened c bs)] x y.
Proof.
  intros Hab Hdom. split.
  - intros (e & ->%list_elem_of_singleton & Hend). destruct Hend as [[<- <-]|[<- <-]]; eexists _, _; (split_and!; [done..|]);
      exists n, c, bs; rewrite !Hdom; (split; [by left|]); split_and!; auto.
  - intros (x & y & -> & -> & n' & c' & bs' & [= -> -> ->]%list_elem_of_singleton & Hx & Hy & Hxy). rewrite Hdom in Hx, Hy.
    eexists. split; [by left|]. simpl. destruct Hx as [->| ->], Hy as [->| ->]; naive_solver.
Qed.

Record opened_inv l r0 r : Prop := {
  oi_edges : exists es, store_inv es (graph_store r) /\ length es = length l /\ forall u v, joined es u v <->
    exists a b, u = new_with_bi_type a /\ v = new_with_bi_type b /\ opened l a b;
  oi_persist : persist_data (graph_store r) = false;
  oi_nodes : length (nodes_of (graph_store r)) <= 2 * length l;
  oi_same : r = set_graph_store (graph_store r) r0;
  oi_storage : storage (graph_store r) = None
}.
Lemma put_edge_storage e s : persist_data s = false -> storage s = None -> storage (put_edge e 0 true s).2 = None.
Proof.
  intros Hp Hs.
  assert (forall v s, persist_data s = false -> storage s = None -> storage (vertex_index v s).2 = None /\ persist_data (vertex_index v s).2 = false) as Hv.
  { clear. intros v s Hp Hs. unfold vertex_index, put_vertex, mbind, stM_bind, getS. simpl. destruct (node_index_map s !! v); [done|].
    rewrite Hp. simpl. by destruct (pg_add_node v (graph s)). }
  unfold put_edge. unfold mbind at 1, stM_bind at 1. destruct (Hv (inbound_id e) s Hp Hs) as [Hs1 Hp1].
  destruct (vertex_index (inbound_id e) s) as [[i|?|?] s1]; try done. unfold mbind at 1, stM_bind at 1.
  destruct (Hv (outbound_id e) s1 Hp1 Hs1) as [Hs2 Hp2].
  destruct (vertex_index (outbound_id e) s1) as [[j|?|?] s2]; try done. simpl in *.
  unfold mbind, stM_bind, getS. simpl. destruct (pg_add_edge i j e (graph s2)); simpl; try done. by rewrite andb_false_r.
Qed.

Lemma handle_opening es n c bs r e : store_inv es (graph_store r) -> persist_data (graph_store r) = false -> storage (graph_store r) = None ->
  size bs = 2 -> generate_edge bs = Ok e -> (Z.of_nat (length (nodes_of (graph_store r))) + 1 < pg_limit)%Z -> (Z.of_nat (length es) < pg_limit)%Z ->
  exists g, handle_stream (Ok (n, EvOpened c bs)) r = (Ok tt, set_graph_store g r) /\ store_inv (es ++ [e]) g /\ persist_data g = false /\
    storage g = None /\ length (nodes_of g) <= 2 + length (nodes_of (graph_store r)) /\
    edge_index_map g = <[e := length es]> (edge_index_map (graph_store r)).
Proof.
  intros Hs Hp Hst Hsize Hg Hl1 Hl2. destruct (put_edge_total es (graph_store r) e 0 Hs Hp) as (k & g & Eput & Hs' & Hp' & Hn' & Hi'); [done..|].
  pose proof (put_edge_storage e (graph_store r) Hp Hst) as Hst'. rewrite Eput in Hst'. simpl in Hst'. exists g. split; [|done].
  unfold handle_stream, handle_channel_stream, mbind, stM_bind, lift, getS, on_graph. simpl.
  rewrite bool_decide_eq_true_2 by done. simpl. rewrite Hg, Eput. simpl. by rewrite Hst'.
Qed.

Lemma run_opens_inv l r0 : graph_store r0 = mkGraphStore pg_new ∅ ∅ ∅ false None -> Forall opening l ->
  (2 * Z.of_nat (length l) < pg_limit)%Z -> opened_inv l r0 (run_events l r0).
Proof.
  intros H0. induction l as [|e l IH] using rev_ind; intros Hl Hlim.
  { split; simpl; try (by rewrite H0); [|rewrite H0; unfold nodes_of; simpl; by rewrite pg_new_nodes|by destruct r0].
    exists []. rewrite H0. split_and!; [apply store_new_inv|done|]. intros u v. split; [by intros (e & ?%elem_of_nil & _)|].
    by intros (a & b & _ & _ & (n & c & bs & ?%elem_of_nil & _)). }
  apply Forall_app in Hl as [Hl He]. apply Forall_cons in He as [(c & bs & He & Hsize) _]. rewrite length_app in Hlim. simpl in Hlim.
  destruct IH as [(es & Hs & Hlen & Hj) Hp Hn Hsame Hst]; [done|lia|]. unfold run_events in *. rewrite foldl_app. cbn [foldl].
  set (r := foldl _ r0 l) in *. destruct e as [n ev]. simpl in He. subst ev.
  destruct (generate_edge_ends bs Hsize) as (a & b & Hg & Hab & Hdom).
  destruct (handle_opening es n c bs r _ Hs Hp Hst Hsize Hg) as (g & -> & Hs' & Hp' & Hst' & Hn' & _); [lia|lia|].
  simpl. split; simpl; [|done| |by rewrite Hsame|done].
  - eexists. split_and!; [done|rewrite !length_app, Hlen; done|]. intros u v.
    rewrite joined_snoc, Hj, (opened_edge n c bs a b u v Hab Hdom). setoid_rewrite opened_snoc. clear. naive_solver.
  - rewrite length_app. simpl. lia.
Qed.
End events.

(** ** The route of a router that saw channels being opened *)

(** Wallets that report the balances [f]. *)
Class ReadableWallet {L : Libra} {K : Chain} {W : Type} {WO : WalletOps W} (f : AccountAddress -> AccountAddress -> BalanceQueryResponse)
    (I : W -> Prop) : Prop := {
  rw_balance w b : I w -> exists w', wo_channel_balance b w = (Ok (local_balance (f (wo_account w) b)), w') /\ I w' /\ wo_account w' = wo_account w;
  rw_participant_balance w b : I w ->
    exists w', wo_participant_channel_balance b w = (Ok (remote_balance (f (wo_account w) b)), w') /\ I w' /\ wo_account w' = wo_account w
}.

Section route.
Context {L : Libra} {K : Chain} {R : RocksDB} {GC : GraphCodecs} {PG : Petgraph} {PL : PetgraphLaws PG} {AH : AddressHash} {HO : HashOrder}.
Context {W : Type} {WO : WalletOps W}.
Context (f : AccountAddress -> AccountAddress -> BalanceQueryResponse) (I : W -> Prop) {RW : ReadableWallet f I}.
Implicit Types (r : RouterInner W) (a b start : AccountAddress) (q : list Vertex).

(** Each node answers for its own channels, and no payment is on its way over those of [start]. *)
Definition honest start : Prop := forall a b, local_addr (f a b) = a /\ remote_addr (f a b) = b /\
  in_u64 (local_balance (f a b)) /\ in_u64 (remote_balance (f a b)) /\ in_u64 (total_pay_amount (f a b)) /\ total_pay_amount (f start b) = 0%Z.
Definition answering a b : list (AccountAddress * BalanceQueryResponse) := [(a, f a b)].

Fixpoint hops_of (p : list AccountAddress) : list BalanceQueryResponse :=
  match p with
  | a :: (b :: _) as rest => f a b :: hops_of rest
  | _ => []
  end.

Record ready start (g : GraphStore) r : Prop := {
  rd_graph : graph_store r = g;
  rd_open : ro_network_open r = true;
  rd_wallet : I (ro_wallet r);
  rd_account : wo_account (ro_wallet r) = start;
  rd_stats : ro_stats r = mkStatsInner false ∅;
  rd_waiting : tx_map (ro_processor r) = ∅;
  rd_gone i : i ∈ gone (ro_processor r) -> i < next_channel (ro_processor r)
}.

Lemma query_balance_ok start g r a b : ready start g r ->
  exists r', query_balance answering a b r = (Some (Ok (f a b)), r') /\ ready start g r'.
Proof.
  intros [H1 H2 H3 H4 H5 H6 H7]. unfold query_balance, table_send, mbind, taskM_bind, sync, getS, modifyS, channel. simpl. rewrite H2. simpl.
  unfold add_future. simpl. rewrite H6, lookup_empty. simpl. unfold handle_balance_query_response, send_response. simpl.
  rewrite lookup_insert_eq. rewrite bool_decide_eq_false_2 by (intros ?%H7; lia). unfold router_poll_future. simpl.
  rewrite lookup_insert_eq. eexists. split; [done|]. split; try done; simpl.
  - by rewrite delete_insert_eq, delete_empty.
  - intros i [->%elem_of_singleton|?%H7]%elem_of_union; lia.
Qed.
Lemma query_hops_ok start g r q : ready start g r ->
  exists r', query_hops answering q r = (Some (Ok (hops_of (v_id <$> q))), r') /\ ready start g r'.
Proof.
  revert r. induction q as [|u q IH]; intros r Hr; [by exists r|]. destruct q as [|v q]; [by exists r|].
  destruct (query_balance_ok start g r (v_id u) (v_id v) Hr) as (r1 & E1 & Hr1). destruct (IH r1 Hr1) as (r2 & E2 & Hr2).
  exists r2. split; [|done]. change (query_hops answering (u :: v :: q) r) with
    ((response ← query_balance answering (v_id u) (v_id v); l ← query_hops answering (v :: q); mret (response :: l)) r).
  unfold mbind, taskM_bind. by rewrite E1, E2.
Qed.
#[local] Arguments query_hops : simpl never.
Lemma vertexes_ok start g r u v q : honest start -> ready start g r -> v_id u = start ->
  exists r', vertexes_to_balance_list answering (u :: v :: q) r = (Some (Ok (hops_of (v_id <$> u :: v :: q))), r') /\ ready start g r'.
Proof.
  intros Hf [H1 H2 H3 H4 H5 H6 H7] Hu. unfold vertexes_to_balance_list, mbind, taskM_bind. simpl. unfold sync, getS. simpl.
  rewrite bool_decide_eq_true_2 by congruence. simpl. unfold table_pressure. rewrite H5, payment_pressure_idle. simpl.
  unfold table_wallet. simpl. destruct (rw_balance (ro_wallet r) (v_id v) H3) as (w1 & E1 & Hw1 & Ha1). rewrite E1. simpl.
  destruct (rw_participant_balance w1 (v_id v) Hw1) as (w2 & E2 & Hw2 & Ha2). rewrite E2. simpl.
  set (r2 := set_ro_wallet w2 _). assert (ready start g r2) as Hr2 by (split; try done; simpl; congruence).
  destruct (query_hops_ok start g r2 (v :: q) Hr2) as (r3 & E3 & Hr3). rewrite E3. exists r3. split; [|done]. rewrite Ha1, H4, Hu. simpl.
  do 4 f_equal. destruct (Hf start (v_id v)) as (Hl & Hrm & _ & _ & _ & Ht). by destruct (f start (v_id v)); simplify_eq/=.
Qed.
Lemma balance_lists_ok start g r qs : honest start -> ready start g r ->
  (forall q, q ∈ qs -> exists u v q', q = u :: v :: q' /\ v_id u = start) ->
  exists r', balance_lists answering qs r = (Some (Ok ((fun q => hops_of (v_id <$> q)) <$> qs)), r') /\ ready start g r'.
Proof.
  intros Hf. revert r. induction qs as [|q qs IH]; intros r Hr Hqs; [by exists r|].
  destruct (Hqs q) as (u & v & q' & -> & Hu); [by left|]. destruct (vertexes_ok start g r u v q' Hf Hr Hu) as (r1 & E1 & Hr1).
  destruct (IH r1 Hr1) as (r2 & E2 & Hr2); [intros ? ?; apply Hqs; by right|]. exists r2. split; [|done].
  change (balance_lists answering ((u :: v :: q') :: qs) r) with
    ((balances ← vertexes_to_balance_list answering (u :: v :: q'); l ← balance_lists answering qs; mret (balances :: l)) r).
  unfold mbind, taskM_bind. by rewrite E1, E2.
Qed.

(** Paths of vertices and paths of addresses. *)
#[local] Instance bi_inj : Inj (=) (=) new_with_bi_type.
Proof. by intros a b [= ->]. Qed.
Lemma bi_simple es l a b (p : list AccountAddress) :
  (forall u v, joined es u v <-> exists a b, u = new_with_bi_type a /\ v = new_with_bi_type b /\ opened l a b) ->
  simple_path (joined es) (new_with_bi_type a) (new_with_bi_type b) (new_with_bi_type <$> p) <-> simple_path (opened l) a b p.
Proof.
  intros Hj. unfold simple_path. rewrite fmap_last, (NoDup_fmap new_with_bi_type).
  assert (head (new_with_bi_type <$> p) = Some (new_with_bi_type a) <-> head p = Some a) as ->.
  { destruct p; simpl; [done|]. split; intros [= ->]; done. }
  assert (new_with_bi_type <$> last p = Some (new_with_bi_type b) <-> last p = Some b) as ->.
  { destruct (last p); simpl; [|done]. split; intros [= ->]; done. }
  do 3 apply and_iff_compat_l. induction p as [|x p IH]; [done|]. destruct p as [|y p]; [done|].
  change (joined es (new_with_bi_type x) (new_with_bi_type y) /\ linked (joined es) (new_with_bi_type <$> y :: p) <->
    opened l x y /\ linked (opened l) (y :: p)). rewrite IH, Hj. naive_solver.
Qed.
Lemma bi_path es l a b q :
  (forall u v, joined es u v <-> exists a b, u = new_with_bi_type a /\ v = new_with_bi_type b /\ opened l a b) -> a <> b ->
  simple_path (joined es) (new_with_bi_type a) (new_with_bi_type b) q -> exists p, q = new_with_bi_type <$> p.
Proof.
  intros Hj Hab Hq. assert (new_with_bi_type a <> new_with_bi_type b) as Hne by (intros ?%bi_inj; done).
  pose proof (simple_path_length _ _ _ _ Hne Hq) as Hlen. destruct Hq as (_ & _ & _ & Hl). exists (v_id <$> q).
  rewrite <-list_fmap_compose, <-(list_fmap_id q) at 1. apply list_fmap_ext. intros i v Hv. apply list_elem_of_lookup_2 in Hv.
  revert v Hv. apply (linked_touched _ (fun v => v = new_with_bi_type (v_id v)) q) with (3 := Hl); [|done].
  by intros u v (x & y & -> & -> & _)%Hj.
Qed.
Lemma v_id_bi (p : list AccountAddress) : v_id <$> (new_with_bi_type <$> p) = p.
Proof. rewrite <-list_fmap_compose. apply list_fmap_id. Qed.

Lemma hops_of_pressure start p : honest start -> length p <= 7 -> (pressure (hops_of p) < i128_max)%Z.
Proof.
  intros Hf Hlen. assert (length (hops_of p) <= length p) as Hl.
  { clear. induction p as [|a [|b p] IH]; simpl in *; lia. }
  apply pressure_bound; [|lia]. clear Hlen Hl. induction p as [|a [|b p] IH]; simpl; try constructor; [|done].
  destruct (Hf a b) as (_ & _ & ? & ? & ? & _). done.
Qed.

Definition short l a b (p : list AccountAddress) : Prop := simple_path (opened l) a b p /\ length p <= 7.

Lemma least_route l start last ls : honest start -> start <> last -> ls <> [] ->
  (forall x, x ∈ ls <-> exists p, short l start last p /\ x = hops_of p) ->
  exists (x : BalanceQueryResponse) route p, least_pressure ls = Some (x :: route) /\ short l start last p /\ x :: route = hops_of p /\
    forall p', short l start last p' -> (pressure (x :: route) <= pressure (hops_of p'))%Z.
Proof.
  intros Hf Hne Hnil Hls. pose proof (least_pressure_spec ls) as Hleast.
  assert (forall x, x ∈ ls -> (pressure x < i128_max)%Z) as Hmax by (intros x (p & [_ Hlen] & ->)%Hls; by eapply hops_of_pressure).
  destruct (least_pressure ls) as [t|]; [|by specialize (Hleast Hmax)]. destruct (Hleast Hmax) as [Ht Hmin].
  apply Hls in Ht as (p & Hp & ->). destruct (hops_of p) as [|b route] eqn:Eh.
  - exfalso. destruct p as [|x [|y p]]; [by destruct Hp as [[] _]| |done]. destruct Hp as [(H1 & H2 & _) _]. simplify_eq/=.
  - exists b, route, p. split_and!; [done..|]. intros p' Hp'. apply Hmin, Hls. eauto.
Qed.
Lemma router_find_path_ok l start last g r paths : honest start -> start <> last -> ready start g r -> paths <> ∅ ->
  (forall q, q ∈ paths <-> exists p, q = new_with_bi_type <$> p /\ short l start last p) ->
  exists (x : BalanceQueryResponse) route p r', router_find_path answering paths r = (Some (Ok (x :: route)), r') /\ short l start last p /\ x :: route = hops_of p /\
    forall p', short l start last p' -> (pressure (x :: route) <= pressure (hops_of p'))%Z.
Proof.
  intros Hf Hne Hr HS Hin. assert (forall q, q ∈ hs_iter paths <-> q ∈ paths) as Hiter by (intros q; by rewrite hs_iter_perm, elem_of_elements).
  destruct (balance_lists_ok start g r (hs_iter paths) Hf Hr) as (r' & E & _).
  { intros q (p & -> & Hp & _)%Hiter%Hin. destruct p as [|x [|y p]]; [by destruct Hp| |].
    - destruct Hp as (H1 & H2 & _). simplify_eq/=.
    - destruct Hp as [[= ->] _]. by eexists _, _, _. }
  destruct (least_route l start last ((fun q => hops_of (v_id <$> q)) <$> hs_iter paths) Hf Hne) as (b & route & p & El & Hp).
  - intros Hnil%fmap_nil_inv. destruct (set_choose_L paths HS) as [q Hq%Hiter]. rewrite Hnil in Hq. by apply elem_of_nil in Hq.
  - intros x. rewrite list_elem_of_fmap. split.
    + intros (q & -> & (p & -> & Hp)%Hiter%Hin). exists p. by rewrite v_id_bi.
    + intros (p & Hp & ->). exists (new_with_bi_type <$> p). rewrite v_id_bi, Hiter, Hin. eauto.
  - exists b, route, p, r'. split; [|done]. unfold router_find_path, mbind, taskM_bind. by rewrite E, El.
Qed.

End route.

(** ** Removing a channel that was locked *)

Section removal.
Context {L : Libra} {K : Chain} {R : RocksDB} {GC : GraphCodecs} {PG : Petgraph} {PL : PetgraphLaws PG} {AH : AddressHash} {HO : HashOrder}.
Context {W : Type} {WO : WalletOps W}.
Implicit Types (r : RouterInner W) (s : GraphStore).

(** The event of a channel that was put removes the edge with the index of the put. *)
Lemma handle_removal n ev r bs c e : (ev = EvLocked c bs \/ ev = EvClosed c bs) -> size bs = 2 -> generate_edge bs = Ok e ->
  storage (graph_store r) = None -> graph_store (handle_stream (Ok (n, ev)) r).2 = (remove_edge e (graph_store r)).2.
Proof.
  intros Hev Hsize Hg Hst. unfold handle_stream, handle_channel_stream, mbind, stM_bind, lift, getS, on_graph.
  destruct Hev as [->| ->]; rewrite bool_decide_eq_true_2 by done; simpl; rewrite Hg;
    unfold remove_edge, on_storage, mbind, stM_bind, getS, modifyS; simpl; destruct (edge_index_map _ !! e); simpl; by rewrite Hst.
Qed.

Lemma two_edges s (e1 e2 : Edge) : e1 <> e2 -> store_inv [e1; e2] s -> edge_index_map s !! e1 = Some 0 ->
  let s3 := (remove_edge e1 s).2 in store_inv [e2] s3 /\ store_inv [] (remove_edge e1 s3).2.
Proof.
  intros Hne Hs H1. simpl. destruct (remove_edge_graph s e1 0 H1) as (Hg & He & _ & _).
  destruct (pg_edges (graph s)) as [|x1 [|x2 [|]]] eqn:Es; pose proof (si_edges _ _ Hs) as H2; rewrite Es in H2; try done.
  injection H2 as Hx1 Hx2.
  assert (pg_edges (pg_remove_edge 0 (graph s)) = [x2]) as E3 by by rewrite (pg_remove_edge_in 0 (graph s) [x1] x1 x2).
  assert (store_inv [e2] (remove_edge e1 s).2) as Hs3.
  { eapply remove_edge_inv; [done|done|by rewrite E3, <-Hx2|]. intros x. rewrite E3, Es. set_solver. }
  split; [done|]. assert (pg_edges (pg_remove_edge 0 (graph (remove_edge e1 s).2)) = []) as E4.
  { rewrite (pg_remove_edge_in 0 _ [] x2 x2); [done| |done]. by rewrite Hg, E3. }
  eapply remove_edge_inv; [done|by rewrite He|by rewrite E4|]. intros x. rewrite E4. by intros ?%elem_of_nil.
Qed.

(** a router without storage is told that two channels were opened, then that the first one is locked.
    The second one is still found between its two ends.  When it is then told that the first one is closed,
    as every locked channel eventually is, it forgets the second one: no path is found between its ends,
    although that channel is open. *)
Theorem closing_locked_channel_drops_another n1 n2 n3 n4 c1 c2 (bs1 bs2 : gmap AccountAddress Z) w st r0 a b :
  size bs1 = 2 -> size bs2 = 2 -> dom bs1 <> dom bs2 -> a ∈ dom bs2 -> b ∈ dom bs2 -> a <> b ->
  TableRouter_new w st None = Ok r0 ->
  let find r := find_all_path (new_with_bi_type a) (new_with_bi_type b) 5 (graph_store r) in
  let r3 := run_events [(n1, EvOpened c1 bs1); (n2, EvOpened c2 bs2); (n3, EvLocked c1 bs1)] r0 in
  let r4 := (handle_stream (Ok (n4, EvClosed c1 bs1)) r3).2 in
  (exists paths, find r3 = Ok (Some paths) /\ [new_with_bi_type a; new_with_bi_type b] ∈ paths) /\
  ~ exists paths, find r4 = Ok (Some paths).
Proof.
  intros Hs1 Hs2 Hdom Ha Hb Hab [= <-] find r3 r4. set (r0 := mkRouterInner _ _ _ _ _ _) in *.
  destruct (generate_edge_ends bs1 Hs1) as (a1 & b1 & Hg1 & _ & Hd1). destruct (generate_edge_ends bs2 Hs2) as (a2 & b2 & Hg2 & Hab2 & Hd2).
  set (e1 := mkEdge (new_with_bi_type a1) BI (new_with_bi_type b1)) in *. set (e2 := mkEdge (new_with_bi_type a2) BI (new_with_bi_type b2)) in *.
  assert (e1 <> e2) as Hne. { intros [= -> ->]. apply Hdom, set_eq. intros x. by rewrite Hd1, Hd2. }
  assert (length (nodes_of (graph_store r0)) = 0) as Hn0 by (unfold nodes_of; simpl; by rewrite pg_new_nodes).
  destruct (handle_opening [] n1 c1 bs1 r0 e1) as (g1 & E1 & I1 & P1 & S1 & N1 & X1);
    [apply store_new_inv|done..|rewrite Hn0; unfold pg_limit; lia|done|].
  destruct (handle_opening [e1] n2 c2 bs2 (set_graph_store g1 r0) e2) as (g2 & E2 & I2 & P2 & S2 & N2 & X2);
    [done..|simpl; unfold pg_limit; lia|done|].
  set (r2 := set_graph_store g2 (set_graph_store g1 r0)).
  assert (r3 = (handle_stream (Ok (n3, EvLocked c1 bs1)) r2).2) as Er3.
  { unfold r3, run_events. cbn [foldl]. rewrite E1. cbn [snd]. by rewrite E2. }
  assert (graph_store r3 = (remove_edge e1 g2).2) as G3 by (rewrite Er3; by eapply (handle_removal n3 _ r2); [left|..]).
  assert (storage (graph_store r3) = None) as S3.
  { rewrite G3. unfold remove_edge, on_storage, mbind, stM_bind, getS, modifyS. simpl. destruct (edge_index_map g2 !! e1); simpl; by rewrite S2. }
  assert (graph_store r4 = (remove_edge e1 (graph_store r3)).2) as G4 by (by eapply (handle_removal n4 _ r3); [right|..]).
  destruct (two_edges g2 e1 e2 Hne I2) as [I3 I4]; [rewrite X2; simpl; by rewrite lookup_insert_ne, X1, lookup_insert_eq by done|].
  rewrite <-G3 in I3, I4. rewrite <-G4 in I4. assert (new_with_bi_type a <> new_with_bi_type b) as Hab' by (by intros [= ->]).
  assert (joined [e2] (new_with_bi_type a) (new_with_bi_type b)) as Hj.
  { exists e2. split; [by left|]. simpl. rewrite Hd2 in Ha, Hb. destruct Ha as [->| ->], Hb as [->| ->]; auto; done. }
  assert (simple_path (joined [e2]) (new_with_bi_type a) (new_with_bi_type b) [new_with_bi_type a; new_with_bi_type b]) as Hp.
  { split_and!; try done. apply NoDup_cons. split; [|apply NoDup_singleton]. by intros ?%list_elem_of_singleton. }
  split.
  - pose proof (find_all_path_spec _ _ _ _ 5 I3 Hab') as H3. fold (find r3) in H3. destruct (find r3) as [[paths|]|e|e].
    + exists paths. split; [done|]. apply H3. split; [done|simpl; lia].
    + apply H3 in Hp. simpl in Hp. lia.
    + by apply H3 in Hp.
    + done.
  - intros [paths Hf]. pose proof (find_all_path_spec _ _ _ _ 5 I4 Hab') as H4. fold (find r4) in H4. rewrite Hf in H4.
    destruct H4 as [Hnil H4]. destruct (set_choose_L paths Hnil) as [q [Hq _]%H4].
    destruct (simple_path_joined _ _ _ _ Hab' Hq) as (w1 & _ & (e & ?%elem_of_nil & _) & _). done.
Qed.
End removal.
