(* ===== verification/RouterServer.v ===== *)
(** * The running routers

    Models the tasks of the routers: [AntRouter::start] with the loop of [AntRouterInner::start], [MixRouter::start] with
    its loop ([src/router/ant/src/lib.rs]), and [TableRouter::start] with the loop of [RouterInner::start]
    ([src/router/src/lib.rs]).  A loop waits for whichever of its channels has something first, and spawns a task for it;
    that of [MixRouter] hands a message on to one of the other two.

    The theorems: each message reaches the router that it is meant for, once and in order, and a table router that cannot
    start takes the whole [MixRouter] with it. *)
From S2P Require Import Prelude Codec Libra SchemaDB Accumulator ChannelTypes ChannelStore TxApplier Chain ChannelStm Channel Messages Wallet.
From S2P Require Import Invoices Futures Stats Node NodeServer AntRouter Graph TableRouter.

Section router_loops.
Context {L : Libra}.

(** ** The loops of the two routers *)

(** What was spawned: the handler of a message, of a search with the number of its responder, and of an event of the chain *)
Inductive RouterTask :=
| HandleNetworkMsg (peer_id : AccountAddress) (msg : RouterNetworkMessage)
| FindPath (id : nat) (start last : AccountAddress)
| HandleStream (event : res (Z * ChannelChangeEvent)).
Record RouterLoop := mkRouterLoop {
  rl_network : Receiver (AccountAddress * RouterNetworkMessage);
  rl_commands : Receiver (nat * (AccountAddress * AccountAddress));
  rl_control : Receiver unit;
  (* the next items of [get_channel_events] *)
  rl_stream : list (res (Z * ChannelChangeEvent));
  rl_state : LoopState;
  rl_tasks : list RouterTask
}.
Definition RouterLoop_new : RouterLoop := mkRouterLoop rx_new rx_new rx_new [] NotStarted [].
Definition stop_loop (l : RouterLoop) : RouterLoop := mkRouterLoop rx_gone rx_gone rx_gone [] Stopped (rl_tasks l).

(** [AntRouter::start] *)
Definition ant_router_start (l : RouterLoop) : res RouterLoop :=
  match rl_state l with
  | NotStarted => Ok (mkRouterLoop (rl_network l) (rl_commands l) (rl_control l) [] Running (rl_tasks l))
  | _ => Panic "should have inner"
  end.
(** [TableRouter::start]: the task ends at once if the number of the first event cannot be read; [events] is what the
    stream gives from a number on. *)
Definition table_router_start (start_number : res Z) (events : Z -> list (res (Z * ChannelChangeEvent))) (l : RouterLoop) : res RouterLoop :=
  match rl_state l with
  | NotStarted =>
      match start_number with
      | Ok n => Ok (mkRouterLoop (rl_network l) (rl_commands l) (rl_control l) (events n) Running (rl_tasks l))
      | Err _ | Panic _ => Ok (stop_loop l)
      end
  | _ => Panic "should have inner"
  end.

Inductive Branch := OnMessage | OnFindPath | OnStream | OnControl.
(** A branch of [select!] in [RouterInner::start] *)
Definition table_router_loop (b : Branch) (l : RouterLoop) : option RouterLoop :=
  match rl_state l, b with
  | Running, OnMessage =>
      '((peer_id, msg), rx) ← rx_next (rl_network l);
      Some (mkRouterLoop rx (rl_commands l) (rl_control l) (rl_stream l) Running (rl_tasks l ++ [HandleNetworkMsg peer_id msg]))
  | Running, OnFindPath =>
      '((id, (start, last)), rx) ← rx_next (rl_commands l);
      Some (mkRouterLoop (rl_network l) rx (rl_control l) (rl_stream l) Running (rl_tasks l ++ [FindPath id start last]))
  | Running, OnStream =>
      match rl_stream l with
      | event :: events => Some (mkRouterLoop (rl_network l) (rl_commands l) (rl_control l) events Running (rl_tasks l ++ [HandleStream event]))
      | [] => None
      end
  | Running, OnControl => _ ← rx_next (rl_control l); Some (stop_loop l)
  | _, _ => None
  end.
(** The same in [AntRouterInner::start], which has no stream *)
Definition ant_router_loop (b : Branch) (l : RouterLoop) : option RouterLoop :=
  match b with OnStream => None | _ => table_router_loop b l end.

(** [find_path_by_addr] sends the search, and [shutdown] the event. *)
Definition send_find_path (id : nat) (start last : AccountAddress) (l : RouterLoop) : res RouterLoop :=
  rx ← unbounded_send (id, (start, last)) (rl_commands l);
  Ok (mkRouterLoop (rl_network l) rx (rl_control l) (rl_stream l) (rl_state l) (rl_tasks l)).
Definition router_shutdown (l : RouterLoop) : res RouterLoop :=
  rx ← unbounded_send tt (rl_control l);
  Ok (mkRouterLoop (rl_network l) (rl_commands l) rx (rl_stream l) (rl_state l) (rl_tasks l)).
Definition send_to_router (peer_id : AccountAddress) (msg : RouterNetworkMessage) (l : RouterLoop) : res RouterLoop :=
  rx ← unbounded_send (peer_id, msg) (rl_network l);
  Ok (mkRouterLoop rx (rl_commands l) (rl_control l) (rl_stream l) (rl_state l) (rl_tasks l)).

(** ** [MixRouter] *)

Record MixRouter := mkMixRouter {
  mx_network : Receiver (AccountAddress * RouterNetworkMessage);
  mx_control : Receiver unit;
  mx_state : LoopState;
  mx_table : RouterLoop;
  mx_ant : RouterLoop
}.
(** [MixRouter::new] *)
Definition MixRouter_new : MixRouter := mkMixRouter rx_new rx_new NotStarted RouterLoop_new RouterLoop_new.
(** [MixRouter::start] *)
Definition mix_router_start (start_number : res Z) events (m : MixRouter) : res MixRouter :=
  match mx_state m with
  | NotStarted =>
      table ← table_router_start start_number events (mx_table m);
      ant ← ant_router_start (mx_ant m);
      Ok (mkMixRouter (mx_network m) (mx_control m) Running table ant)
  | _ => Panic "already taken"
  end.
(** [MixRouter::handle_network_message]: the message goes to one of the two; an error ends the loop ([?]). *)
Definition hand_on (peer_id : AccountAddress) (msg : RouterNetworkMessage) (m : MixRouter) : MixRouter :=
  let r := match handle_network_message msg with
           | Table => table ← send_to_router peer_id msg (mx_table m); Ok (mkMixRouter (mx_network m) (mx_control m) (mx_state m) table (mx_ant m))
           | Ant => ant ← send_to_router peer_id msg (mx_ant m); Ok (mkMixRouter (mx_network m) (mx_control m) (mx_state m) (mx_table m) ant)
           end in
  match r with Ok m' => m' | _ => mkMixRouter rx_gone rx_gone Stopped (mx_table m) (mx_ant m) end.
(** A branch of [select!] in [MixRouter::start_network] *)
Definition mix_router_loop (b : Branch) (m : MixRouter) : option MixRouter :=
  match mx_state m, b with
  | Running, OnMessage =>
      '((peer_id, msg), rx) ← rx_next (mx_network m);
      Some (hand_on peer_id msg (mkMixRouter rx (mx_control m) Running (mx_table m) (mx_ant m)))
  | Running, OnControl => _ ← rx_next (mx_control m); Some (mkMixRouter rx_gone rx_gone Stopped (mx_table m) (mx_ant m))
  | _, _ => None
  end.
(** [MixRouter::shutdown] *)
Definition mix_router_shutdown (m : MixRouter) : res unit * MixRouter :=
  match router_shutdown (mx_table m) with
  | Ok table =>
      let m := mkMixRouter (mx_network m) (mx_control m) (mx_state m) table (mx_ant m) in
      match router_shutdown (mx_ant m) with
      | Ok ant =>
          let m := mkMixRouter (mx_network m) (mx_control m) (mx_state m) (mx_table m) ant in
          match unbounded_send tt (mx_control m) with
          | Ok rx => (Ok tt, mkMixRouter (mx_network m) rx (mx_state m) (mx_table m) (mx_ant m))
          | r => (_ ← r; Ok tt, m)
          end
      | r => (_ ← r; Ok tt, m)
      end
  | r => (_ ← r; Ok tt, m)
  end.

(** ** Runs *)

Inductive MixAction :=
| MReceive (peer_id : AccountAddress) (msg : RouterNetworkMessage)
| MFindPath (kind : RouterKind) (id : nat) (start last : AccountAddress)
| MShutdown
| MMix (b : Branch)
| MTable (b : Branch)
| MAnt (b : Branch).
Definition mix_step (a : MixAction) (m : MixRouter) : option MixRouter :=
  let with_table t := mkMixRouter (mx_network m) (mx_control m) (mx_state m) t (mx_ant m) in
  let with_ant t := mkMixRouter (mx_network m) (mx_control m) (mx_state m) (mx_table m) t in
  match a with
  | MReceive peer_id msg => Some (mkMixRouter (try_send (peer_id, msg) (mx_network m)) (mx_control m) (mx_state m) (mx_table m) (mx_ant m))
  | MFindPath Table id start last => Some match send_find_path id start last (mx_table m) with Ok t => with_table t | _ => m end
  | MFindPath Ant id start last => Some match send_find_path id start last (mx_ant m) with Ok t => with_ant t | _ => m end
  | MShutdown => Some (mix_router_shutdown m).2
  | MMix b => mix_router_loop b m
  | MTable b => with_table <$> table_router_loop b (mx_table m)
  | MAnt b => with_ant <$> ant_router_loop b (mx_ant m)
  end.
Fixpoint mix_run (acts : list MixAction) (m : MixRouter) : option MixRouter :=
  match acts with [] => Some m | a :: acts => m' ← mix_step a m; mix_run acts m' end.

Definition received (acts : list MixAction) : list (AccountAddress * RouterNetworkMessage) :=
  omap (fun a => match a with MReceive peer_id msg => Some (peer_id, msg) | _ => None end) acts.
Definition of_kind (kind : RouterKind) (l : list (AccountAddress * RouterNetworkMessage)) : list (AccountAddress * RouterNetworkMessage) :=
  List.filter (fun x => match handle_network_message x.2, kind with Table, Table | Ant, Ant => true | _, _ => false end) l.
(** The messages that a router has spawned handlers for, in this order *)
Definition handed (l : RouterLoop) : list (AccountAddress * RouterNetworkMessage) :=
  omap (fun t => match t with HandleNetworkMsg peer_id msg => Some (peer_id, msg) | _ => None end) (rl_tasks l).

(** ** Messages reach the router that they are meant for *)

Definition sub_ok (kind : RouterKind) (taken : list (AccountAddress * RouterNetworkMessage)) (l : RouterLoop) : Prop :=
  (rl_state l = Running -> rx_alive (rl_network l) = true) /\
  (if rx_alive (rl_network l) then of_kind kind taken = handed l ++ rx_queue (rl_network l) else handed l `prefix_of` of_kind kind taken).

Lemma of_kind_app kind l l' : of_kind kind (l ++ l') = of_kind kind l ++ of_kind kind l'.
Proof. apply List.filter_app. Qed.
Lemma handed_tasks nw c ct st x l ts : handed (mkRouterLoop nw c ct st x (rl_tasks l ++ ts)) =
  handed l ++ omap (fun t => match t with HandleNetworkMsg peer_id msg => Some (peer_id, msg) | _ => None end) ts.
Proof. apply omap_app. Qed.

Lemma loop_sub_ok kind taken b l l' : sub_ok kind taken l -> table_router_loop b l = Some l' -> sub_ok kind taken l'.
Proof.
  intros [Hal Hq] H. unfold table_router_loop in H. destruct (rl_state l) eqn:Es; try done. specialize (Hal eq_refl). rewrite Hal in Hq. destruct b.
  - destruct (rx_next (rl_network l)) as [[[p m] rx]|] eqn:E; simplify_eq/=. apply rx_next_Some in E as [Eq El]. split; simpl; [by rewrite El|].
    rewrite El, Hal, handed_tasks, Hq, Eq. simpl. by rewrite <-(assoc_L (++)).
  - destruct (rx_next (rl_commands l)) as [[[id [x y]] rx]|] eqn:E; simplify_eq/=. split; simpl; [done|]. by rewrite Hal, handed_tasks, app_nil_r.
  - destruct (rl_stream l) as [|e es]; simplify_eq/=. split; simpl; [done|]. by rewrite Hal, handed_tasks, app_nil_r.
  - destruct (rx_next (rl_control l)); simplify_eq/=. split; [done|]. simpl. rewrite Hq. by exists (rx_queue (rl_network l)).
Qed.
Lemma send_sub_ok kind taken p msg l l' : sub_ok kind taken l -> of_kind kind [(p, msg)] = [(p, msg)] -> send_to_router p msg l = Ok l' ->
  sub_ok kind (taken ++ [(p, msg)]) l'.
Proof.
  intros [Hal Hq] Hk H. unfold send_to_router in H. destruct (unbounded_send _ _) as [rx| |] eqn:E; [|done|done]. injection H as <-.
  apply unbounded_send_Ok in E as [El ->]. rewrite El in Hq. split; simpl; [done|]. rewrite of_kind_app, Hk, Hq. unfold handed. simpl. by rewrite <-(assoc_L (++)).
Qed.
Lemma other_sub_ok kind taken l x : sub_ok kind taken l -> of_kind kind [x] = [] \/ rx_alive (rl_network l) = false -> sub_ok kind (taken ++ [x]) l.
Proof.
  intros [Hal Hq] Hx. split; [done|]. rewrite of_kind_app. destruct Hx as [->|Hf]; [by rewrite app_nil_r|]. rewrite Hf in *. by apply prefix_app_r.
Qed.
Lemma command_sub_ok kind taken l l' : sub_ok kind taken l -> rl_network l' = rl_network l -> rl_state l' = rl_state l -> rl_tasks l' = rl_tasks l -> sub_ok kind taken l'.
Proof. intros [Hal Hq] En Es Et. unfold sub_ok, handed in *. by rewrite En, Es, Et. Qed.

Record dispatched (acts : list MixAction) (m : MixRouter) : Prop := {
  dispatched_alive : mx_state m = Running -> rx_alive (mx_network m) = true;
  dispatched_taken : exists taken rest, received acts = taken ++ rest /\ (rx_alive (mx_network m) = true -> rest = rx_queue (mx_network m)) /\
    sub_ok Table taken (mx_table m) /\ sub_ok Ant taken (mx_ant m)
}.

Lemma send_fails p msg l e : send_to_router p msg l = Err e \/ send_to_router p msg l = Panic e -> rx_alive (rl_network l) = false.
Proof. unfold send_to_router, unbounded_send. by destruct (rx_alive (rl_network l)); intros [?|?]. Qed.
Lemma hand_on_dispatched acts p msg rx m rest taken : received acts = taken ++ (p, msg) :: rest -> rx_queue rx = rest -> rx_alive rx = true ->
  sub_ok Table taken (mx_table m) -> sub_ok Ant taken (mx_ant m) ->
  dispatched (acts ++ [MMix OnMessage]) (hand_on p msg (mkMixRouter rx (mx_control m) Running (mx_table m) (mx_ant m))).
Proof.
  intros Hr Hq Hal Ht Ha. assert (Hr' : received (acts ++ [MMix OnMessage]) = (taken ++ [(p, msg)]) ++ rest).
  { unfold received in *. by rewrite omap_app, app_nil_r, Hr, <-(assoc_L (++)). }
  unfold hand_on. destruct (handle_network_message msg) eqn:Ek; simpl.
  - assert (Hkt : of_kind Table [(p, msg)] = [(p, msg)]) by (unfold of_kind; simpl; by rewrite Ek).
    assert (Hka : of_kind Ant [(p, msg)] = []) by (unfold of_kind; simpl; by rewrite Ek).
    destruct (send_to_router p msg (mx_table m)) as [t|e|e] eqn:Es; simpl; (split; [done|]); exists (taken ++ [(p, msg)]), rest; (split_and!; [done| | |by apply other_sub_ok; auto]); simpl; try done.
    + by eapply send_sub_ok.
    + apply other_sub_ok; [done|right; eapply send_fails; eauto].
    + apply other_sub_ok; [done|right; eapply send_fails; eauto].
  - assert (Hkt : of_kind Table [(p, msg)] = []) by (unfold of_kind; simpl; by rewrite Ek).
    assert (Hka : of_kind Ant [(p, msg)] = [(p, msg)]) by (unfold of_kind; simpl; by rewrite Ek).
    destruct (send_to_router p msg (mx_ant m)) as [t|e|e] eqn:Es; simpl; (split; [done|]); exists (taken ++ [(p, msg)]), rest; (split_and!; [done| |by apply other_sub_ok; auto|]); simpl; try done.
    + by eapply send_sub_ok.
    + apply other_sub_ok; [done|right; eapply send_fails; eauto].
    + apply other_sub_ok; [done|right; eapply send_fails; eauto].
Qed.
Lemma received_other acts a : match a with MReceive _ _ => False | _ => True end -> received (acts ++ [a]) = received acts.
Proof. unfold received. rewrite omap_app. by destruct a; rewrite ?app_nil_r. Qed.
Lemma shutdown_sub_ok kind taken l l' : sub_ok kind taken l -> router_shutdown l = Ok l' -> sub_ok kind taken l'.
Proof. intros Hl H. unfold router_shutdown in H. destruct (unbounded_send _ _); simplify_eq/=. by apply (command_sub_ok _ _ l). Qed.
Lemma find_path_sub_ok kind taken id x y l l' : sub_ok kind taken l -> send_find_path id x y l = Ok l' -> sub_ok kind taken l'.
Proof. intros Hl H. unfold send_find_path in H. destruct (unbounded_send _ _); simplify_eq/=. by apply (command_sub_ok _ _ l). Qed.

Lemma mix_step_dispatched acts a m m' : dispatched acts m -> mix_step a m = Some m' -> dispatched (acts ++ [a]) m'.
Proof.
  intros [Hal (taken & rest & Hr & Hq & Ht & Ha)] H. destruct a as [p msg|[] id x y| |b|b|b]; simpl in H.
  - simplify_eq. destruct (try_send_queue (mx_network m) (p, msg)) as [Hl Hs]. split; simpl; [by rewrite Hl|]. exists taken, (rest ++ [(p, msg)]).
    rewrite Hl. split_and!; [unfold received in *; by rewrite omap_app, Hr, <-(assoc_L (++))| |done|done]. intros E. by rewrite (Hs E), (Hq E).
  - simplify_eq. destruct (send_find_path id x y (mx_table m)) eqn:E; (split; [done|]); exists taken, rest; rewrite received_other by done; split_and!; try done.
    by eapply find_path_sub_ok.
  - simplify_eq. destruct (send_find_path id x y (mx_ant m)) eqn:E; (split; [done|]); exists taken, rest; rewrite received_other by done; split_and!; try done.
    by eapply find_path_sub_ok.
  - simplify_eq. unfold mix_router_shutdown. destruct (router_shutdown (mx_table m)) as [t|e|e] eqn:Et; simpl.
    2-3: split; [done|]; exists taken, rest; by rewrite received_other.
    pose proof (shutdown_sub_ok _ _ _ _ Ht Et) as Ht'. destruct (router_shutdown (mx_ant m)) as [an|e|e] eqn:Ea; simpl.
    2-3: split; [done|]; exists taken, rest; by rewrite received_other.
    pose proof (shutdown_sub_ok _ _ _ _ Ha Ea) as Ha'. destruct (unbounded_send tt (mx_control m)); simpl; (split; [done|]); exists taken, rest; by rewrite received_other.
  - unfold mix_router_loop in H. destruct (mx_state m) eqn:Es; try done. specialize (Hal eq_refl). destruct b; try done.
    + destruct (rx_next (mx_network m)) as [[[p msg] rx]|] eqn:E; simplify_eq/=. apply rx_next_Some in E as [Eq El].
      apply (hand_on_dispatched _ _ _ _ m (rx_queue rx) taken); [by rewrite Hr, (Hq Hal), Eq|done|by rewrite El|done|done].
    + destruct (rx_next (mx_control m)); simplify_eq/=. split; [done|]. exists taken, rest. by rewrite received_other.
  - apply fmap_Some in H as (t & E & ->). split; [done|]. exists taken, rest. rewrite received_other by done. split_and!; try done. by eapply loop_sub_ok.
  - apply fmap_Some in H as (t & E & ->). split; [done|]. exists taken, rest. rewrite received_other by done. split_and!; try done.
    eapply loop_sub_ok; [done|]. by destruct b.
Qed.
Lemma mix_run_dispatched acts : forall acts0 m m', dispatched acts0 m -> mix_run acts m = Some m' -> dispatched (acts0 ++ acts) m'.
Proof.
  induction acts as [|a acts IH]; intros acts0 m m' Hd H; simpl in H; [simplify_eq; by rewrite app_nil_r|].
  apply bind_Some in H as (m1 & Hs & H). rewrite (cons_middle a), (assoc_L (++)). apply (IH _ m1); [by eapply mix_step_dispatched|done].
Qed.
Lemma mix_start_dispatched sn events m : mix_router_start sn events MixRouter_new = Ok m -> dispatched [] m.
Proof. unfold mix_router_start, table_router_start. simpl. destruct sn; simpl; intros; simplify_eq; (split; [done|]); exists [], []; split_and!; try done; (split; [done|by exists []]). Qed.

(** the messages that the node hands to a started [MixRouter] are taken in the order in which they came.  Those on
    balances go to the table router and those on seeds and ants to the ant router, each in its order and exactly once:
    while such a router runs, its handlers so far and its channel are all that was taken of its kind, and after its end
    its handlers are a prefix. *)
Theorem mix_router_dispatches sn events m acts m' : mix_router_start sn events MixRouter_new = Ok m -> mix_run acts m = Some m' ->
  exists taken rest, received acts = taken ++ rest /\ (mx_state m' = Running -> rest = rx_queue (mx_network m')) /\
  forall kind, let l := match kind with Table => mx_table m' | Ant => mx_ant m' end in
    (rl_state l = Running -> of_kind kind taken = handed l ++ rx_queue (rl_network l)) /\ handed l `prefix_of` of_kind kind taken.
Proof.
  intros Hst%mix_start_dispatched Hrun. destruct (mix_run_dispatched _ _ _ _ Hst Hrun) as [Hal (taken & rest & Hr & Hq & Ht & Ha)].
  assert (Hsub : forall kind l, sub_ok kind taken l -> (rl_state l = Running -> of_kind kind taken = handed l ++ rx_queue (rl_network l)) /\ handed l `prefix_of` of_kind kind taken).
  { intros kind l [Hl Hx]. split; [intros E; by rewrite (Hl E) in Hx|]. destruct (rx_alive (rl_network l)); [|done]. rewrite Hx. by eexists. }
  exists taken, rest. split_and!; [done|by auto|]. intros []; simpl; by apply Hsub.
Qed.

(** ** A table router that cannot start *)

Record half_dead (acts : list MixAction) (m : MixRouter) : Prop := {
  half_dead_table : rl_state (mx_table m) = Stopped /\ rx_alive (rl_network (mx_table m)) = false;
  half_dead_alive : mx_state m = Running -> rx_alive (mx_network m) = true;
  half_dead_taken : exists taken rest, received acts = taken ++ rest /\ of_kind Table taken = [] /\
    (rx_alive (mx_network m) = true -> rest = rx_queue (mx_network m)) /\ sub_ok Ant taken (mx_ant m)
}.

Lemma half_dead_hand_on acts p msg m rx taken : half_dead acts m -> received acts = taken ++ (p, msg) :: rx_queue rx -> of_kind Table taken = [] ->
  rx_alive rx = true -> sub_ok Ant taken (mx_ant m) ->
  half_dead (acts ++ [MMix OnMessage]) (hand_on p msg (mkMixRouter rx (mx_control m) Running (mx_table m) (mx_ant m))).
Proof.
  intros [[Hts Htd] _ _] Hr Hk Hal Ha. unfold hand_on. destruct (handle_network_message msg) eqn:Ek; simpl.
  - unfold send_to_router at 1, unbounded_send. rewrite Htd. simpl. split; [done..|]. exists taken, ((p, msg) :: rx_queue rx). by rewrite received_other.
  - assert (Hkt : of_kind Table [(p, msg)] = []) by (unfold of_kind; simpl; by rewrite Ek).
    assert (Hka : of_kind Ant [(p, msg)] = [(p, msg)]) by (unfold of_kind; simpl; by rewrite Ek).
    destruct (send_to_router p msg (mx_ant m)) as [t|e|e] eqn:Es; simpl; (split; [done..|]); exists (taken ++ [(p, msg)]), (rx_queue rx);
      rewrite received_other, of_kind_app, Hk, Hkt, Hr, <-(assoc_L (++)) by done; simpl; split_and!; try done.
    + by eapply send_sub_ok.
    + apply other_sub_ok; [done|right; eapply send_fails; eauto].
    + apply other_sub_ok; [done|right; eapply send_fails; eauto].
Qed.
Lemma half_dead_step acts a m m' : half_dead acts m -> mix_step a m = Some m' -> half_dead (acts ++ [a]) m'.
Proof.
  intros Hh H. pose proof Hh as [[Hts Htd] Hal (taken & rest & Hr & Hk & Hq & Ha)]. destruct a as [p msg|[] id x y| |b|b|b]; simpl in H.
  - simplify_eq. destruct (try_send_queue (mx_network m) (p, msg)) as [Hl Hs]. split; simpl; [done|by rewrite Hl|]. exists taken, (rest ++ [(p, msg)]).
    rewrite Hl. split_and!; [unfold received in *; by rewrite omap_app, Hr, <-(assoc_L (++))|done| |done]. intros E. by rewrite (Hs E), (Hq E).
  - simplify_eq. unfold send_find_path. destruct (unbounded_send _ _); (split; [done..|]); exists taken, rest; by rewrite received_other.
  - simplify_eq. destruct (send_find_path id x y (mx_ant m)) eqn:E; (split; [done..|]); exists taken, rest; rewrite received_other by done; split_and!; try done.
    by eapply find_path_sub_ok.
  - simplify_eq. unfold mix_router_shutdown. destruct (router_shutdown (mx_table m)) as [t|e|e] eqn:Et; simpl.
    2-3: split; [done..|]; exists taken, rest; by rewrite received_other.
    assert (Ht : rl_state t = Stopped /\ rx_alive (rl_network t) = false) by (unfold router_shutdown in Et; destruct (unbounded_send _ _); by simplify_eq/=).
    destruct (router_shutdown (mx_ant m)) as [an|e|e] eqn:Ea; simpl.
    2-3: split; [done..|]; exists taken, rest; by rewrite received_other.
    pose proof (shutdown_sub_ok _ _ _ _ Ha Ea) as Ha'. destruct (unbounded_send tt (mx_control m)); simpl; (split; [done..|]); exists taken, rest; by rewrite received_other.
  - unfold mix_router_loop in H. destruct (mx_state m) eqn:Es; try done. specialize (Hal eq_refl). destruct b; try done.
    + destruct (rx_next (mx_network m)) as [[[p msg] rx]|] eqn:E; simplify_eq/=. apply rx_next_Some in E as [Eq El].
      apply (half_dead_hand_on _ _ _ m rx taken); [done|by rewrite Hr, (Hq Hal), Eq|done|by rewrite El|done].
    + destruct (rx_next (mx_control m)); simplify_eq/=. split; [done..|]. exists taken, rest. by rewrite received_other.
  - apply fmap_Some in H as (t & E & ->). unfold table_router_loop in E. by rewrite Hts in E.
  - apply fmap_Some in H as (t & E & ->). split; [done..|]. exists taken, rest. rewrite received_other by done. split_and!; try done.
    eapply loop_sub_ok; [done|]. by destruct b.
Qed.
Lemma half_dead_run acts : forall acts0 m m', half_dead acts0 m -> mix_run acts m = Some m' -> half_dead (acts0 ++ acts) m'.
Proof.
  induction acts as [|a acts IH]; intros acts0 m m' Hd H; simpl in H; [simplify_eq; by rewrite app_nil_r|].
  apply bind_Some in H as (m1 & Hs & H). rewrite (cons_middle a), (assoc_L (++)). apply (IH _ m1); [by eapply half_dead_step|done].
Qed.

(** A table router whose first event number cannot be read ends at once, without an error to anyone.  The first message on a
    balance that arrives then ends the [MixRouter]: the ant router gets no message that comes after it. *)
Theorem table_failure_ends_routing e events m acts m' before p msg after :
  mix_router_start (Err e) events MixRouter_new = Ok m -> mix_run acts m = Some m' ->
  received acts = before ++ (p, msg) :: after -> handle_network_message msg = Table -> handed (mx_ant m') `prefix_of` of_kind Ant before.
Proof.
  intros Hst Hrun Hr Hk. assert (Hd : half_dead [] m).
  { unfold mix_router_start, table_router_start in Hst. simpl in Hst. simplify_eq. split; [done..|]. by exists [], []. }
  destruct (half_dead_run _ _ _ _ Hd Hrun) as [_ _ (taken & rest & Hr' & Hkt & _ & [_ Ha])]. simpl in Hr'. rewrite Hr in Hr'.
  assert (Hp : handed (mx_ant m') `prefix_of` of_kind Ant taken) by (destruct (rx_alive _); [rewrite Ha; by eexists|done]).
  apply app_eq_inv in Hr' as [(k & -> & _)|(k & -> & Hx)]; [rewrite of_kind_app; by apply prefix_app_r|].
  destruct k as [|y k]; [by rewrite app_nil_r in Hp|]. simplify_eq/=. rewrite of_kind_app in Hkt. unfold of_kind in Hkt. simpl in Hkt. rewrite Hk in Hkt.
  by apply app_eq_nil in Hkt as [_ ?].
Qed.
End router_loops.
