(* ===== verification/Startup.v ===== *)
(** * Starting a node

    Models the configuration ([src/sgconfig/src/config.rs]), the key file ([src/node/src/wallet_utils.rs]), the paths of
    the build ([src/node/src/utils.rs]), [build_network_service] ([src/sgnetwork/src/net.rs]) and the start of the
    process ([src/node/src/main.rs]): wallet, router and node are made from one configuration and one key, and a failure
    on the way is a panic.

    The theorems: what a node that starts is made of, and when the root of the workspace is found. *)
From S2P Require Import Prelude Codec Substream Text NetConfig Libra SchemaDB Accumulator ChannelTypes ChannelStore TxApplier Chain Compiler Overlay.
From S2P Require Import ChannelStm Channel Messages Wallet Invoices Futures Stats Node NodeServer AntRouter Graph TableRouter RouterServer.
From Stdlib Require Import Ascii.

(** ** The configuration *)

Record WalletConfig := mkWalletConfig { chain_address : string; chain_port : Z; store_dir : string }.
Definition WalletConfig_default : WalletConfig := mkWalletConfig "localhost" 8000 "sgstore".
Record NetworkConfig := mkNetworkConfig { listen : string; seeds : list string }.
Record RpcConfig := mkRpcConfig {
  rpc_address : string;
  rpc_port : Z;
  rpc_timeout : Z;
  rpc_auto_approve : bool;
  router_type : string;
  rpc_path : option string
}.
Record RestConfig := mkRestConfig { rest_address : string; rest_port : Z }.
Record NodeConfig := mkNodeConfig { rpc_config : RpcConfig; net_config : NetworkConfig; wallet : WalletConfig; rest_config : RestConfig }.

(** [toml::from_str] *)
Class Toml := toml_from_str : string -> res NodeConfig.
Definition load_from {T : Toml} (d : Disk) (config_file : string) : res NodeConfig :=
  content ← read_to_string d (path_new config_file);
  toml_from_str content.

Definition get_test_config (addr : string) (port rest_port timeout : Z) (auto_approve : bool) (router_type : string) (path : option string) : NodeConfig :=
  mkNodeConfig (mkRpcConfig addr port timeout auto_approve router_type path) (mkNetworkConfig "/ip4/127.0.0.1/tcp/8000" [])
    (mkWalletConfig addr port (store_dir WalletConfig_default)) (mkRestConfig addr rest_port).

(** ** The key file *)

(** [libra_wallet] and [libra_crypto] *)
Class WalletKeys {L : Libra} := {
  Mnemonic : Type;
  KeyFactory : Type;
  Ed25519PrivateKey : Type;
  mnemonic_from : string -> res Mnemonic;
  (* [KeyFactory::new(&Seed::new(mnemonic, salt))] *)
  key_factory_new : Mnemonic -> string -> res KeyFactory;
  private_child_raw : KeyFactory -> Z -> res Ed25519PrivateKey;
  keypair_of_private : Ed25519PrivateKey -> KeyPair;
  private_key_bytes : KeyPair -> bytes;
  account_of_public_key : Ed25519PublicKey -> AccountAddress
}.

Section keys.
Context {L : Libra} {WK : WalletKeys}.

(** [BufRead::read_line]: the bytes to the first newline and with it *)
Fixpoint line_bytes (b : bytes) : bytes :=
  match b with
  | [] => []
  | c :: b => if bool_decide (c = 10)%Z then [c] else c :: line_bytes b
  end.
Definition read_line (b : bytes) : res string := ok_or (from_utf8 (line_bytes b)) "stream did not contain valid UTF-8".

Definition new_from_mnemonic (mnemonic : Mnemonic) : res KeyFactory := expect_ok (key_factory_new mnemonic "LIBRA").
Definition recover (d : Disk) (input_file_path : string) : res KeyFactory :=
  input ← disk_read d (path_new input_file_path);
  line ← read_line input;
  let parts := split ";" line in
  _ ← ensure (bool_decide (length parts = 2)) "Invalid entry";
  part ← expect (parts !! 0) "index out of bounds";
  mnemonic ← mnemonic_from part;
  new_from_mnemonic mnemonic.
Definition get_keypair (key_factory : KeyFactory) (child_num : Z) : res KeyPair :=
  priv_key ← private_child_raw key_factory child_num;
  Ok (keypair_of_private priv_key).
(** [load_from_keyfile] *)
Definition load_from_keyfile (d : Disk) (faucet_account_file : string) (child_num : Z) : res KeyPair :=
  wallet_library ← expect_ok (recover d faucet_account_file);
  expect_ok (get_keypair wallet_library child_num).
End keys.

(** ** The paths of the build *)

(** [PathBuf::pop] *)
Definition path_pop (p : PathBuf) : PathBuf := if bool_decide (p = ["/"]) then p else take (length p - 1) p.
Definition ends_with (p : PathBuf) (name : string) : bool := bool_decide (last p = Some name).
(** [build_dir]: the directory of the executable, above [deps] *)
Definition build_dir (current_exe : option PathBuf) : res PathBuf :=
  path ← expect current_exe "Can't find the build directory. Cannot continue running tests";
  let path := path_pop path in
  Ok (if ends_with path "deps" then path_pop path else path).
(** [workspace_root]; [None]: the loop has not ended within the fuel. *)
Fixpoint find_target (fuel : nat) (path : PathBuf) : option PathBuf :=
  match fuel with
  | 0 => None
  | S fuel => if ends_with path "target" then Some path else find_target fuel (path_pop path)
  end.
Definition workspace_root (fuel : nat) (current_exe : option PathBuf) : res (option PathBuf) :=
  path ← build_dir current_exe;
  Ok (path_pop <$> find_target fuel path).

(** ** The process *)

Section process.
Context {L : Libra} {B : SchemaBatches} {A : Accumulators} {C : StoreCodecs} {K : Chain} {CC : ChannelTxnCodec} {WC : WalletChain}.
Context {S : Type} {SD : SchemaDB S} {HO : HashOrder} {IR : IrCompiler} {T : Toml} {WK : WalletKeys}.
Context {NP : NodeProst} {HX : Hex} {RN : Rng} {PI : PeerIds} {NK : NodeKeys} {Multiaddr : Type}.
(** What [SgStorage::new] returns ([Storage]), the scripts that are shipped, [str::parse] of an address *)
Context (open_storage : AccountAddress -> string -> res (AccountAddress -> S)) (scripts_dir : IncludedDir) (parse_multiaddr : string -> res Multiaddr).
Notation WalletAt := (WalletAt (S := S)).

(** [create_wallet], with [Wallet::new_with_client] *)
Definition create_wallet (keypair : KeyPair) (wallet_config : WalletConfig) : res (Wallet (S := S)) :=
  let account_address := account_of_public_key (public_key keypair) in
  sgdb ← open_storage account_address (store_dir wallet_config);
  script_registry ← (registry_build scripts_dir tt).1;
  Ok (wallet_new account_address keypair script_registry sgdb).

(** [start_wallet] *)
Definition start_wallet : stM WalletAt unit :=
  _ ← at_now (fun env interest => wallet_started env interest);
  enabled ← at_now (fun _ _ => to_wallet is_channel_feature_enabled);
  if negb enabled then _ ← at_now (fun env _ => to_wallet (enable_channel env)); mret tt else mret tt.

(** [build_network_service]: the configuration of the network *)
Definition build_network_service (cfg : NetworkConfig) (key_pair : KeyPair) : res (NetworkConfiguration Multiaddr) :=
  listen_address ← expect_ok (parse_multiaddr (listen cfg));
  boot_nodes ← convert_boot_nodes (seeds cfg);
  secret ← match sk_from_bytes (private_key_bytes key_pair) with inl secret => Ok secret | inr e => Panic e end;
  let d := NetworkConfiguration_default (Multiaddr := Multiaddr) in
  Ok (mkNetworkConfiguration (config_path d) (net_config_path d) [listen_address] (public_addresses d) boot_nodes (KeyEd25519 (SecretInput secret))
        (nc_in_peers d) (nc_out_peers d) (nc_reserved_nodes d) (non_reserved_mode d) (nc_client_version d) (node_name d) (transport d)).

(** [str::to_uppercase]; no other character than an ASCII letter becomes one of the letters of [TABLE] and [ANT]. *)
Definition ascii_upper (c : ascii) : ascii :=
  let n := nat_of_ascii c in if bool_decide (97 <= n <= 122) then ascii_of_nat (n - 32) else c.
Fixpoint to_uppercase (s : string) : string := match s with EmptyString => EmptyString | String c s => String (ascii_upper c) (to_uppercase s) end.

(** The router of a node: its loops, and for the ants the time that they have *)
Inductive NodeRouter := UseTable (l : RouterLoop) | UseAnt (l : RouterLoop) (timeout : Z) | UseMix (m : MixRouter) (ant_timeout : Z).
Definition gen_router (start_number : res Z) events (timeout : Z) (router_type : string) : res NodeRouter :=
  let router_type := to_uppercase router_type in
  if bool_decide (router_type = "TABLE") then router ← expect_ok (table_router_start start_number events RouterLoop_new); Ok (UseTable router)
  else if bool_decide (router_type = "ANT") then router ← expect_ok (ant_router_start RouterLoop_new); Ok (UseAnt router (timeout / 2))
  else router ← expect_ok (mix_router_start start_number events MixRouter_new); Ok (UseMix router (timeout / 2)).
(** [gen_node]; [start_number] is the number that the storage of the table router has. *)
Definition gen_node (start_number : option string -> res Z) events (w : WalletAt) (rpc : RpcConfig) : res (Server (W := WalletAt) * NodeRouter) :=
  router ← gen_router (start_number (rpc_path rpc)) events (rpc_timeout rpc) (router_type rpc);
  Ok (Server_new (Node_new w (rpc_auto_approve rpc) (rpc_timeout rpc)), router).

(** [main], to the node before [start_server]; every error is unwrapped. *)
Definition prepare (d : Disk) (config_dir key_path : string) (child_num : Z) (chain : nat -> Env * res unit) start_number events
    : res (NodeConfig * NetworkConfiguration Multiaddr * Server (W := WalletAt) * NodeRouter) :=
  config ← expect_ok (load_from d (config_dir +:+ "/node.toml"));
  keypair ← load_from_keyfile d key_path child_num;
  network ← build_network_service (net_config config) keypair;
  w ← expect_ok (create_wallet keypair (wallet config));
  let '(r, w) := start_wallet (mkWalletAt w chain 0) in
  _ ← expect_ok r;
  '(server, router) ← expect_ok (gen_node start_number events w (rpc_config config));
  Ok (config, network, server, router).
(** [main], to the running node *)
Definition launch (d : Disk) (config_dir key_path : string) (child_num : Z) chain start_number events world answers
    : res (NodeConfig * NetworkConfiguration Multiaddr * Server (W := WalletAt) * NodeRouter) :=
  '(config, network, server, router) ← prepare d config_dir key_path child_num chain start_number events;
  server ← server_start world answers server;
  Ok (config, network, server, router).

(** ** What a started node is made of *)

(** Starting a wallet changes neither its account nor its key nor its scripts. *)
Definition identity (w : Wallet (S := S)) : AccountAddress * KeyPair * PackageRegistry := (w_account w, w_keypair w, w_registry w).
Definition same_identity {X} (m : stM (Wallet (S := S)) X) : Prop := forall w, identity (m w).2 = identity w.

Lemma same_bind {X Y} (m : stM (Wallet (S := S)) X) (f : X -> stM (Wallet (S := S)) Y) : same_identity m -> (forall x, same_identity (f x)) -> same_identity (m ≫= f).
Proof. intros Hm Hf w. specialize (Hm w). unfold mbind, stM_bind. destruct (m w) as [[x|e|e] w']; [|done..]. rewrite <-Hm. apply Hf. Qed.
Lemma same_ask {X} a (m : stM (Channel (S := S)) X) : same_identity (Wallet.ask a m).
Proof. intros w. unfold Wallet.ask. destruct (w_channels w !! a) as [c|]; [|done]. destruct (m c) as [r c']. by destruct (Channel.stopping (ctx c')). Qed.
Lemma same_spawn_channel env interest a ps : same_identity (spawn_channel env interest a ps).
Proof.
  intros w. unfold spawn_channel, mbind, stM_bind, getS, lift. destruct (load _ _ _ _ _ _) as [c|e|e]; [|done..]. unfold start_channel_actor.
  destruct (bootstrap env c) as [[[]|e|e] c']; [|done..]. exact (same_ask a (started env interest) (set_channels <[a := c']> w)).
Qed.
Lemma same_spawn_all env interest l : same_identity (spawn_all env interest l).
Proof. induction l as [|a l IH]; [by intros w|]. apply same_bind; [apply same_spawn_channel|by intros _]. Qed.
Lemma same_stopped w : identity (wallet_stopped w) = identity w.
Proof.
  unfold wallet_stopped. change (identity (fold_left (fun w a => drop_channel a w) (elements (dom (w_channels w))) w) = identity w).
  generalize (elements (dom (w_channels w))) as l. intros l. revert w. induction l as [|a l IH]; intros w; simpl; [done|]. by rewrite IH.
Qed.
Lemma same_wallet_started env interest : same_identity (wallet_started env interest).
Proof.
  intros w. unfold wallet_started. destruct (get_account_state _ _ _) as [st|e|e]; [|apply same_stopped|done].
  destruct (as_get st user_channels_path) as [blob|]; [|done]. unfold lift, mbind, stM_bind.
  destruct (expect_ok (decode_user_channels blob)) as [l|e|e]; simpl; [|by rewrite same_stopped|done].
  pose proof (same_spawn_all env interest l (set_enabled true w)) as H. destruct (spawn_all env interest l (set_enabled true w)) as [[[]|e|e] w']; simpl in *; try done.
  by rewrite same_stopped.
Qed.
Lemma start_wallet_Ok w w' : start_wallet w = (Ok tt, w') ->
  identity (wa_wallet w') = identity (wa_wallet w) /\ channel_enabled (wa_wallet w') = true /\ w_running (wa_wallet w') = true.
Proof.
  unfold start_wallet, at_now, to_wallet, is_channel_feature_enabled, mbind, stM_bind, getS, mret, stM_ret. destruct (wa_world w (wa_time w)) as [env i]. simpl.
  pose proof (same_wallet_started env i (wa_wallet w)) as Hs. destruct (wallet_started env i (wa_wallet w)) as [[[]|e|e] w1]; simpl in *; [|done..].
  destruct (wa_world w _) as [env1 i1]. destruct (w_running w1) eqn:Er; [|done]. destruct (channel_enabled w1) eqn:Ec; simpl; [by intros [= <-]|].
  destruct (wa_world w _) as [env2 i2]. rewrite Er. unfold enable_channel, mbind, stM_bind, getS, lift, modifyS, mret, stM_ret. rewrite Ec. simpl.
  destruct (sequence_number env2 w1) as [n|e|e]; simpl; [|done..]. destruct (sign_enable_txn _ _ _ _ _ _) as [t|e|e]; simpl; [|done..].
  destruct (submit_transaction _ _) as [[]|e|e]; simpl; [|done..]. destruct (watch_transaction _ _ _) as [pr|e|e]; simpl; [|done..].
  intros [= <-]. simpl. by rewrite <-Hs.
Qed.

Lemma convert_boot_nodes_never_errs l e : convert_boot_nodes l <> Err e.
Proof.
  revert e. induction l as [|x l IH]; intros e; [done|]. change (convert_boot_nodes (x :: l)) with (y ← convert_boot_node x; k ← convert_boot_nodes l; Ok (y :: k)).
  unfold convert_boot_node at 1. destruct (rsplit_slash x) as [[addr account]|]; [|done]. simpl. destruct (address_from_str account) as [a| |]; simpl; [|done..].
  destruct (convert_account_address_to_peer_id a) as [q| |]; simpl; [|done..]. destruct (convert_boot_nodes l) as [k|e'|e']; simpl; [done|congruence|done].
Qed.

(** The router that a type stands for *)
Definition router_of (timeout : Z) (router_type : string) (r : NodeRouter) : Prop :=
  match r with
  | UseTable _ => to_uppercase router_type = "TABLE"
  | UseAnt _ t => to_uppercase router_type = "ANT" /\ t = (timeout / 2)%Z
  | UseMix _ t => to_uppercase router_type <> "TABLE" /\ to_uppercase router_type <> "ANT" /\ t = (timeout / 2)%Z
  end.
Lemma gen_router_of sn events timeout ty : (forall e, gen_router sn events timeout ty <> Err e) /\
  (forall r, gen_router sn events timeout ty = Ok r -> router_of timeout ty r).
Proof.
  unfold gen_router. case_bool_decide; [|case_bool_decide].
  - destruct (table_router_start _ _ _); simpl; (split; [done|]); by intros r [= <-].
  - split; [done|]. by intros r [= <-].
  - destruct (mix_router_start _ _ _); simpl; (split; [done|]); by intros r [= <-].
Qed.
Lemma expect_ok_cases {X} (m : res X) : (exists x, m = Ok x /\ expect_ok m = Ok x) \/ (exists e, expect_ok m = Panic e).
Proof. destruct m; simpl; eauto. Qed.
Lemma load_from_keyfile_cases d file n : (exists factory kp, recover d file = Ok factory /\ get_keypair factory n = Ok kp /\ load_from_keyfile d file n = Ok kp) \/
  (exists e, load_from_keyfile d file n = Panic e).
Proof.
  unfold load_from_keyfile. destruct (expect_ok_cases (recover d file)) as [(f & Hf & ->)|[e ->]]; simpl; [|eauto].
  destruct (expect_ok_cases (get_keypair f n)) as [(kp & Hk & ->)|[e ->]]; eauto 10.
Qed.
Lemma build_network_service_cases cfg kp : (exists c secret, build_network_service cfg kp = Ok c /\ sk_from_bytes (private_key_bytes kp) = inl secret /\
    node_key c = KeyEd25519 (SecretInput secret) /\ convert_boot_nodes (seeds cfg) = Ok (boot_nodes c)) \/ (exists e, build_network_service cfg kp = Panic e).
Proof.
  unfold build_network_service. destruct (expect_ok_cases (parse_multiaddr (listen cfg))) as [(a & _ & ->)|[e ->]]; simpl; [|eauto].
  pose proof (convert_boot_nodes_never_errs (seeds cfg)) as Hc. destruct (convert_boot_nodes (seeds cfg)) as [b|e|e]; simpl; [|by destruct (Hc e)|eauto].
  destruct (sk_from_bytes (private_key_bytes kp)) as [secret|e]; simpl; [|eauto]. left. eexists _, secret. split_and!; done.
Qed.

(** C40: the process does not start with an error that it goes on with: every failure on the way ends it.  A node that starts
    has the configuration of its file.  Its account, the key that signs for it and its identity in the network are those of
    one key pair, the child of that number of the mnemonic in the key file; its wallet runs and has channels enabled; its
    timeout, its approval and the kind of its router are those of the configuration. *)
Theorem node_starts_as_configured d config_dir key_path child_num chain sn events :
  (forall e, prepare d config_dir key_path child_num chain sn events <> Err e) /\
  (forall config network server router, prepare d config_dir key_path child_num chain sn events = Ok (config, network, server, router) ->
   load_from d (config_dir +:+ "/node.toml") = Ok config /\
   exists factory kp secret, recover d key_path = Ok factory /\ get_keypair factory child_num = Ok kp /\
   let w := wa_wallet (n_wallet (sv_node server)) in
   w_account w = account_of_public_key (public_key kp) /\ w_keypair w = kp /\ channel_enabled w = true /\ w_running w = true /\
   sk_from_bytes (private_key_bytes kp) = inl secret /\ node_key network = KeyEd25519 (SecretInput secret) /\
   convert_boot_nodes (seeds (net_config config)) = Ok (boot_nodes network) /\
   default_future_timeout (sv_node server) = rpc_timeout (rpc_config config) /\ auto_approve (sv_node server) = rpc_auto_approve (rpc_config config) /\
   router_of (rpc_timeout (rpc_config config)) (router_type (rpc_config config)) router).
Proof.
  unfold prepare. destruct (expect_ok_cases (load_from d (config_dir +:+ "/node.toml"))) as [(config & Hc & ->)|[e ->]]; simpl; [|done].
  destruct (load_from_keyfile_cases d key_path child_num) as [(factory & kp & Hf & Hk & ->)|[e ->]]; simpl; [|done].
  destruct (build_network_service_cases (net_config config) kp) as [(network & secret & -> & Hs & Hn & Hb)|[e ->]]; simpl; [|done].
  destruct (expect_ok_cases (create_wallet kp (wallet config))) as [(w & Hw & ->)|[e ->]]; simpl; [|done].
  destruct (start_wallet (mkWalletAt w chain 0)) as [r w'] eqn:Est. destruct (expect_ok_cases r) as [([] & -> & ->)|[e ->]]; simpl; [|done].
  unfold gen_node. destruct (gen_router_of (sn (rpc_path (rpc_config config))) events (rpc_timeout (rpc_config config)) (router_type (rpc_config config))) as [Hne Hok].
  destruct (gen_router _ _ _ _) as [router|e|e]; simpl; [|done|done]. split; [done|]. intros ? ? ? ? [= <- <- <- <-]. split; [done|].
  exists factory, kp, secret. simpl. apply start_wallet_Ok in Est as (Hid & Hen & Hrun). unfold create_wallet in Hw.
  apply bind_Ok_iff in Hw as (dbs & _ & (reg & _ & [= <-])%bind_Ok_iff). injection Hid as -> -> _. split_and!; try done. by apply Hok.
Qed.
End process.

(** ** The root of the workspace *)

Lemma path_pop_snoc (p : PathBuf) x : p ++ [x] <> ["/"] -> path_pop (p ++ [x]) = p.
Proof. intros Hp. unfold path_pop. rewrite bool_decide_eq_false_2 by done. rewrite length_app, Nat.add_sub. by rewrite take_app_length. Qed.
Lemma path_pop_incl p x : x ∈ path_pop p -> x ∈ p.
Proof. unfold path_pop. case_bool_decide; [done|]. intros [i Hi]%list_elem_of_lookup. apply lookup_take_Some in Hi as [Hi _]. by eapply list_elem_of_lookup_2. Qed.
Lemma ends_with_snoc p x name : ends_with (p ++ [x]) name = bool_decide (x = name).
Proof. unfold ends_with. rewrite last_snoc. by apply bool_decide_ext; split; [intros [= ->]|intros ->]. Qed.

Lemma find_target_found pre post fuel : "target" ∉ post -> length post < fuel -> find_target fuel (pre ++ "target" :: post) = Some (pre ++ ["target"]).
Proof.
  revert fuel. induction post as [|x post IH] using rev_ind; intros fuel Hn Hf; (destruct fuel as [|fuel]; [lia|]); simpl.
  - by rewrite ends_with_snoc, bool_decide_eq_true_2.
  - rewrite length_app in Hf. simpl in Hf. rewrite app_comm_cons, (assoc_L (++)), ends_with_snoc, bool_decide_eq_false_2 by set_solver.
    rewrite path_pop_snoc; [apply IH; [set_solver|lia]|]. intros H. apply (f_equal length) in H. rewrite !length_app in H. simpl in H. lia.
Qed.
Lemma find_target_lost fuel p : "target" ∉ p -> find_target fuel p = None.
Proof.
  revert p. induction fuel as [|fuel IH]; intros p Hp; [done|]. simpl. unfold ends_with. rewrite bool_decide_eq_false_2 by (intros Hl; by apply Hp, last_Some_elem_of).
  apply IH. by intros ?%path_pop_incl.
Qed.

(** [workspace_root] returns the directory above the last [target] on the path of the executable, after at most as many turns as the
    path is long.  An executable that is not below such a directory makes it search for ever: popping the root leaves
    the root. *)
Theorem workspace_root_or_endless exe dir : build_dir exe = Ok dir ->
  (forall pre post, dir = pre ++ "target" :: post -> "target" ∉ post -> pre <> [] ->
     forall fuel, length dir <= fuel -> workspace_root fuel exe = Ok (Some pre)) /\
  ("target" ∉ dir -> forall fuel, workspace_root fuel exe = Ok None).
Proof.
  intros Hd. unfold workspace_root. rewrite Hd. simpl. split.
  - intros pre post -> Hn Hp fuel Hf. rewrite length_app in Hf. simpl in Hf. rewrite find_target_found by (done || lia). simpl.
    rewrite path_pop_snoc; [done|]. intros H. destruct pre as [|x [|]]; simplify_eq/=.
  - intros Hn fuel. by rewrite find_target_lost.
Qed.
