(* ===== verification/Watcher.v ===== *)
(** * Watching the chain

    Models [src/sgwallet/src/data_stream.rs], [chain_watcher/mod.rs] and [txn_stream.rs],
    [channel_event_watcher.rs], [channel/channel_event_stream.rs], [channel_event_loop] of
    [channel/channel.rs] and [utils/contract.rs], all under [src/sgwallet/src]: a stream that asks the chain
    for numbered items and backs off when there are none, the streams of transactions and of events made
    from it, and the actor that hands the transactions to its subscribers.

    The futures that a stream polls and the channels of the subscribers are modelled by their state; time is
    a parameter of every poll.  The theorems: a stream gives every item once, in the order of the numbers;
    every subscriber that keeps its receiver is sent the transactions that it is interested in, each once
    and in the order of the chain. *)
From S2P Require Import Prelude Codec Libra ChannelTypes Chain ChainRpc TableRouter.

(** ** [DataStream] *)

(** [backoff::ExponentialBackoff]: the intervals are positive, and a backoff that was just reset has one. *)
Class Backoff := {
  ExponentialBackoff : Type;
  ExponentialBackoff_default : ExponentialBackoff;
  next_backoff : Z -> ExponentialBackoff -> option Z * ExponentialBackoff;
  backoff_reset : Z -> ExponentialBackoff -> ExponentialBackoff
}.
Class BackoffLaws {BO : Backoff} : Prop := {
  next_backoff_positive now b d b' : next_backoff now b = (Some d, b') -> (0 < d)%Z;
  next_backoff_reset now b : is_Some (next_backoff now (backoff_reset now b)).1
}.

Section stream.
Context {BO : Backoff} {T : Type}.

(** [DataQuery::query(version, limit)] at one moment; [None] is a future that is not ready. *)
Definition Query : Type := Z -> Z -> option (res (gmap Z T)).
(** [Poll::Pending] and [Poll::Ready(Some(r))]: no stream of this file ends. *)
Inductive StreamPoll := Pending | Yield (r : res T).

(** [delay] holds the time at which the [Delay] is over. *)
Record DataStream := mkDataStream {
  stream_number : Z;
  stream_limit : Z;
  delay : option Z;
  backoff : ExponentialBackoff;
  cache : gmap Z T
}.
Implicit Types s : DataStream.

Definition DataStream_new (start_version limit : Z) : DataStream :=
  mkDataStream start_version limit None ExponentialBackoff_default ∅.
Definition set_delay (d : option Z) s : DataStream := mkDataStream (stream_number s) (stream_limit s) d (backoff s) (cache s).
Definition set_backoff b s : DataStream := mkDataStream (stream_number s) (stream_limit s) (delay s) b (cache s).
Definition set_cache c s : DataStream := mkDataStream (stream_number s) (stream_limit s) (delay s) (backoff s) c.
Definition set_number n s : DataStream := mkDataStream n (stream_limit s) (delay s) (backoff s) (cache s).

(** [try_backoff]; a new [Delay] is polled in the same instant. *)
Definition try_backoff (now : Z) : stM DataStream unit := fun s =>
  match next_backoff now (backoff s) with
  | (Some d, b) =>
      let s := set_delay None (set_backoff b s) in
      if bool_decide (d <= 0)%Z then (Panic "internal error: entered unreachable code", s)
      else (Ok tt, set_delay (Some (now + d)%Z) s)
  | (None, b) => (Err "backoff timout", set_backoff b s)
  end.
Definition backing_off (now : Z) : stM DataStream StreamPoll := fun s =>
  match try_backoff now s with
  | (Ok _, s) => (Ok Pending, s)
  | (Err e, s) => (Ok (Yield (Err e)), s)
  | (Panic e, s) => (Panic e, s)
  end.
(** [s.cache.remove(&s.start_number)] with the step to the next number *)
Definition take_cached : stM DataStream (option T) := fun s =>
  match cache s !! stream_number s with
  | Some v =>
      let s := set_cache (base.delete (stream_number s) (cache s)) s in
      match add_u64 (stream_number s) 1 with
      | Ok n => (Ok (Some v), set_number n s)
      | Err e => (Err e, s)
      | Panic e => (Panic e, s)
      end
  | None => (Ok None, s)
  end.

Definition delay_over (now : Z) s : bool :=
  match delay s with Some d => bool_decide (d <= now)%Z | None => true end.
Definition ask_chain (now : Z) (q : Query) : stM DataStream StreamPoll :=
  s ← getS;
  _ ← lift (rassert (bool_decide (cache s = ∅)) "assertion failed: s.cache.is_empty()");
  match q (stream_number s) (stream_limit s) with
  | None => mret Pending
  | Some (Ok data) =>
      _ ← modifyS (fun s => set_backoff (backoff_reset now (backoff s)) s);
      if bool_decide (data = ∅) then backing_off now
      else
        _ ← modifyS (set_cache data);
        v ← take_cached;
        v ← lift (expect v "internal error: entered unreachable code");
        mret (Yield (Ok v))
  | Some (Err _) => backing_off now
  | Some (Panic e) => lift (Panic e)
  end.
(** [poll_next] *)
Definition stream_poll_next (now : Z) (q : Query) : stM DataStream StreamPoll :=
  v ← take_cached;
  match v with
  | Some v => mret (Yield (Ok v))
  | None =>
      s ← getS;
      if delay_over now s then ask_chain now q else mret Pending
  end.

(** Polls at the given times with what the chain answers then. *)
Fixpoint run_stream (polls : list (Z * Query)) s : list (res StreamPoll) * DataStream :=
  match polls with
  | [] => ([], s)
  | (now, q) :: polls =>
      let '(r, s) := stream_poll_next now q s in
      let '(l, s) := run_stream polls s in
      (r :: l, s)
  end.
Definition items (l : list (res StreamPoll)) : list T := omap (fun r => match r with Ok (Yield (Ok v)) => Some v | _ => None end) l.

(** ** Lemmas *)

Variable item_at : Z -> T -> Prop.
(** What the chain answers is a run of its items from the number asked for. *)
Definition run_of (start : Z) (m : gmap Z T) : Prop :=
  exists k, (0 <= k)%Z /\ (start + k <= u64_max)%Z /\ (forall n, is_Some (m !! n) <-> (start <= n < start + k)%Z) /\
    forall n v, m !! n = Some v -> item_at n v.
Definition faithful (q : Query) : Prop := forall start limit, (start <= u64_max)%Z ->
  match q start limit with Some (Ok m) => run_of start m | Some (Panic _) => False | _ => True end.

Definition stream_inv s : Prop := run_of (stream_number s) (cache s).
Lemma stream_inv_max s : stream_inv s -> (stream_number s <= u64_max)%Z.
Proof. intros (k & ? & ? & _). lia. Qed.
Lemma run_of_empty start : (start <= u64_max)%Z -> run_of start ∅.
Proof.
  intros H. exists 0%Z. split_and!; [lia..| |].
  - intros n. rewrite lookup_empty. split; [intros []%is_Some_None|lia].
  - intros n v. by rewrite lookup_empty.
Qed.
Lemma stream_new_inv start limit : (start <= u64_max)%Z -> stream_inv (DataStream_new start limit).
Proof. apply run_of_empty. Qed.

(** One item is taken, or the cache is empty. *)
Lemma take_cached_inv s : stream_inv s ->
  (exists v, cache s !! stream_number s = Some v /\ item_at (stream_number s) v /\
     take_cached s = (Ok (Some v), set_number (stream_number s + 1) (set_cache (base.delete (stream_number s) (cache s)) s)) /\
     run_of (stream_number s + 1) (base.delete (stream_number s) (cache s))) \/
  (cache s = ∅ /\ take_cached s = (Ok None, s)).
Proof.
  intros (k & Hk & Hmax & Hdom & Hat). unfold take_cached. destruct (cache s !! stream_number s) as [v|] eqn:E.
  - left. exists v. assert (0 < k)%Z by (assert (is_Some (cache s !! stream_number s)) as ?%Hdom by eauto; lia).
    split; [done|]. split; [by apply Hat|]. rewrite add_u64_Ok by (simpl; lia). split; [done|].
    exists (k - 1)%Z. split_and!; [lia..| |].
    + intros n. destruct (decide (n = stream_number s)) as [->|Hne].
      * rewrite lookup_delete_eq. split; [intros []%is_Some_None|lia].
      * rewrite lookup_delete_ne by done. rewrite Hdom. lia.
    + intros n w [_ Hn]%lookup_delete_Some. by apply Hat.
  - right. split; [|done]. apply map_empty. intros n. apply eq_None_not_Some. intros Hn%Hdom.
    assert (is_Some (cache s !! stream_number s)) as [? ?] by (apply Hdom; lia). congruence.
Qed.

Context {BL : BackoffLaws}.
Lemma backing_off_eq now s : exists r b d, backing_off now s = (Ok r, set_delay d (set_backoff b s)) /\
  (r = Pending \/ exists e, r = Yield (Err e)).
Proof.
  unfold backing_off, try_backoff. destruct (next_backoff now (backoff s)) as [[d|] b] eqn:E.
  - apply next_backoff_positive in E. rewrite bool_decide_eq_false_2 by lia. exists Pending, b, (Some (now + d)%Z). split; [done|by left].
  - exists (Yield (Err "backoff timout")), b, (delay s). split; [done|eauto].
Qed.

(** What a poll may do to a stream. *)
Definition polled s (r : StreamPoll) s' : Prop :=
  stream_inv s' /\ stream_limit s' = stream_limit s /\
  match r with
  | Yield (Ok v) => item_at (stream_number s) v /\ stream_number s' = (stream_number s + 1)%Z
  | Yield (Panic _) => False
  | _ => stream_number s' = stream_number s
  end.
Lemma backing_off_polled now s : stream_inv s -> exists r s', backing_off now s = (Ok r, s') /\ polled s r s'.
Proof.
  intros I. destruct (backing_off_eq now s) as (r & b & d & -> & Hr). do 2 eexists. split; [done|].
  split; [done|]. split; [done|]. by destruct Hr as [->|[e ->]].
Qed.
Lemma ask_chain_polled now q s : stream_inv s -> cache s = ∅ -> faithful q -> exists r s', ask_chain now q s = (Ok r, s') /\ polled s r s'.
Proof.
  intros I Hc Hq. specialize (Hq (stream_number s) (stream_limit s) (stream_inv_max s I)). unfold ask_chain, mbind, stM_bind, getS, lift, modifyS.
  rewrite bool_decide_eq_true_2 by done. simpl. destruct (q _ _) as [[data|e|e]|]; [|by apply backing_off_polled|done|by exists Pending, s; split_and!].
  case_bool_decide as Hd.
  { destruct (backing_off_polled now (set_backoff (backoff_reset now (backoff s)) s)) as (r & s' & -> & H); [done|]. eauto. }
  set (s1 := set_cache data (set_backoff (backoff_reset now (backoff s)) s)).
  destruct (take_cached_inv s1) as [(v & _ & Hv & E & Hr)|[E _]]; [done| |done]. rewrite E. simpl. do 2 eexists. split; [done|]. by split.
Qed.
Lemma poll_next_polled now q s : stream_inv s -> faithful q -> exists r s', stream_poll_next now q s = (Ok r, s') /\ polled s r s'.
Proof.
  intros I Hq. unfold stream_poll_next, mbind, stM_bind. destruct (take_cached_inv s I) as [(v & _ & Hv & E & Hr)|[Hc E]]; rewrite E; simpl.
  - do 2 eexists. split; [done|]. by split.
  - destruct (delay_over now s); [by apply ask_chain_polled|]. by exists Pending, s; split_and!.
Qed.
(** A poll gives the next item when there is one and no delay runs. *)
Lemma poll_next_progress now q s m : stream_inv s -> faithful q ->
  cache s <> ∅ \/ delay_over now s = true /\ q (stream_number s) (stream_limit s) = Some (Ok m) /\ m <> ∅ ->
  exists v s', stream_poll_next now q s = (Ok (Yield (Ok v)), s').
Proof.
  intros I Hq Hp. unfold stream_poll_next, mbind, stM_bind. destruct (take_cached_inv s I) as [(v & _ & Hv & E & Hr)|[Hc E]]; rewrite E; simpl; [by eauto|].
  destruct Hp as [?|(-> & Hm & Hne)]; [done|]. specialize (Hq (stream_number s) (stream_limit s) (stream_inv_max s I)). rewrite Hm in Hq.
  unfold ask_chain, mbind, stM_bind, getS, lift, modifyS. rewrite bool_decide_eq_true_2, Hm by done. simpl. rewrite bool_decide_eq_false_2 by done.
  set (s1 := set_cache m (set_backoff (backoff_reset now (backoff s)) s)).
  destruct (take_cached_inv s1) as [(v & _ & Hv & E1 & Hr)|[E1 _]]; [done| |done]. rewrite E1. simpl. eauto.
Qed.

Lemma run_stream_polled polls s : stream_inv s -> Forall (fun p => faithful p.2) polls ->
  let '(out, s') := run_stream polls s in
  Forall no_panic out /\ stream_inv s' /\ stream_limit s' = stream_limit s /\
  stream_number s' = (stream_number s + Z.of_nat (length (items out)))%Z /\
  forall i v, items out !! i = Some v -> item_at (stream_number s + Z.of_nat i) v.
Proof.
  intros I Hf. revert s I. induction Hf as [|[now q] polls Hq Hf IH]; intros s I; simpl.
  { split_and!; [done..|lia|done]. }
  destruct (poll_next_polled now q s I Hq) as (r & s1 & -> & I1 & El & Hr). specialize (IH s1 I1). simpl.
  destruct (run_stream polls s1) as [out s']. destruct IH as (Hn & I' & El' & En & Hat).
  split; [by constructor|]. split; [done|]. split; [congruence|].
  destruct r as [|[v|e|e]]; [by rewrite <-Hr| |by rewrite <-Hr|done]. destruct Hr as [Hv Hn1].
  change (items (Ok (Yield (Ok v)) :: out)) with (v :: items out). split; [simpl; lia|].
  intros [|i] w; simpl; [intros [= <-]; by rewrite Z.add_0_r|]. intros Hw%Hat.
  by replace (stream_number s + Z.of_nat (S i))%Z with (stream_number s1 + Z.of_nat i)%Z by lia.
Qed.
End stream.
Arguments DataStream {BO} T.
Arguments Query : clear implicits.
Arguments StreamPoll : clear implicits.

(** ** The streams of the chain *)

Section queries.
Context {L : Libra} {K : Chain} {CE : ChainEvents} {BO : Backoff}.
Implicit Types t : Transport.

Record TransactionWithInfo := mkTransactionWithInfo {
  twi_txn : Transaction;
  twi_txn_info : TransactionInfo;
  twi_version : Z;
  twi_events : list ContractEvent;
  twi_block_height : Z
}.

(** [response_items.remove(0).try_into()?] *)
Definition first_item (resp : UpdateToLatestLedgerResponse) : res ResponseItem :=
  item ← expect (head resp) "removal index"; item.

(** [TxnQuerier::get_block_hight] *)
Definition get_block_hight t (start_version : Z) : res Z :=
  resp ← update_to_latest_ledger t (build_request (GetAccountState association_address) (Some start_version));
  item ← first_item resp;
  a ← into_get_account_state_response item;
  blob ← ok_or (asp_blob a) "association account not exists!";
  resp ← from_account_state_blob (asp_version a) blob (asp_proof a);
  block_meta ← match as_get resp block_meta_data_path with
               | Some b => h ← decode_block_meta_height b; Ok (Some h)
               | None => Ok None
               end;
  ok_or block_meta "block meta resource should exists".

(** [TxnQuerier::query] *)
Definition add_txn t (first_version : Z) (c : gmap Z TransactionWithInfo) (e : nat * (Transaction * TransactionInfo * list ContractEvent))
    : res (gmap Z TransactionWithInfo) :=
  let '(pos, ((txn, info), events)) := e in
  version ← add_u64 first_version (Z.of_nat pos);
  block_height ← get_block_hight t version;
  Ok (<[version := mkTransactionWithInfo txn info version events block_height]> c).
Definition txn_query t (version limit : Z) : res (gmap Z TransactionWithInfo) :=
  resp ← update_to_latest_ledger t (build_request (GetTransactions version limit true) None);
  item ← first_item resp;
  txns ← into_get_transactions_response item;
  match tl_first_transaction_version txns with
  | None => Ok ∅
  | Some first_version =>
      events ← expect (tl_events txns) "called `Option::unwrap()` on a `None` value";
      foldM (add_txn t first_version) ∅ (imap pair (zip (zip (tl_transactions txns) (tl_infos txns)) events))
  end.

(** [ChannelEventQurier::query] on the path of a channel, [ChainClientEventQuerier::query] on the global one *)
Definition event_query (access_path : AccessPath) t (version limit : Z) : res (gmap Z EventWithProof) :=
  resp ← update_to_latest_ledger t (build_request (GetEventsByEventAccessPath access_path version true limit) None);
  item ← first_item resp;
  events ← into_get_events_by_access_path_response item;
  Ok (foldl (fun m evt => <[event_sequence_number (ewp_event evt) := evt]> m) ∅ events.1).
Definition channel_event_query (channel_address : AccountAddress) : Transport -> Z -> Z -> res (gmap Z EventWithProof) :=
  event_query (new_for_channel_event channel_address).
Definition global_event_query : Transport -> Z -> Z -> res (gmap Z EventWithProof) := event_query new_for_channel_global_event.

(** ** Events of channels *)

(** [parse_channel_event], of [channel_event_watcher.rs] and of [contract.rs] *)
Definition parse_channel_event (event : ContractEvent) : res ChannelEvent :=
  match event_struct_tag event with
  | Some s =>
      _ ← rassert (bool_decide (channel_event_struct_tag = s)) "assertion failed: `(left == right)`";
      decode_channel_event (event_data event)
  | None => Err "channel event type should not be"
  end.

(** [ChainClientEventQuerier::get_account_state] and [get_channel_change] *)
Definition event_account_state t (addr : AccountAddress) (version : option Z) : res (option (gmap bytes bytes)) :=
  resp ← update_to_latest_ledger t (build_request (GetAccountState addr) version);
  item ← first_item resp;
  s ← into_get_account_state_response item;
  match asp_blob s with
  | Some b => m ← account_state_blob_map b; Ok (Some m)
  | None => Ok None
  end.
Definition get_channel_change t (evt_with_proof : EventWithProof) : res (Z * ChannelChangeEvent) :=
  channel_event ← parse_channel_event (ewp_event evt_with_proof);
  let version := ewp_transaction_version evt_with_proof in
  state ← event_account_state t (ce_channel_address channel_event) (Some version);
  match state with
  | None => Err "channel state should exists"
  | Some s =>
      value ← ok_or (s !! channel_data_path) "channel resource should exists";
      resource ← decode_channel_resource value;
      let balances := foldl (fun m (e : AccountAddress * Z) => <[e.1 := e.2]> m) (∅ : gmap AccountAddress Z)
                        (zip (resource_participants resource) (ce_balances channel_event)) in
      e ← match ce_stage channel_event with
          | 0%Z => Ok (EvOpened (ce_channel_address channel_event) balances)
          | 1%Z => Ok (EvLocked (ce_channel_address channel_event) balances)
          | 2%Z => Ok (EvClosed (ce_channel_address channel_event) balances)
          | _ => Panic "internal error: entered unreachable code"
          end;
      Ok (event_sequence_number (ewp_event evt_with_proof), e)
  end.
(** [get_channel_events]: an item of the stream passes through [get_channel_change] when it is polled. *)
Definition get_channel_events t (now : Z) : stM (DataStream EventWithProof) (StreamPoll (Z * ChannelChangeEvent)) :=
  r ← stream_poll_next now (fun version limit => Some (global_event_query t version limit));
  match r with
  | Pending => mret Pending
  | Yield evt =>
      match evt ≫= get_channel_change t with
      | Panic e => lift (Panic e)
      | r => mret (Yield r)
      end
  end.

(** [channel_event_loop]: the message that an item of the stream becomes; errors are logged. *)
Record ChannelStageChange := mkStageChange { scg_stage : Z; scg_version : Z; scg_event_number : Z }.
Definition stage_change (evt : res EventWithProof) : res ChannelStageChange :=
  t ← evt;
  evt ← parse_channel_event (ewp_event t);
  Ok (mkStageChange (ce_stage evt) (ewp_transaction_version t) (event_sequence_number (ewp_event t))).

(** *** A chain that answers as it is documented to *)

(** An answer has an item for the request, and nothing that is decoded panics. *)
Definition answers_ok t : Prop :=
  (forall req, match update_to_latest_ledger t req with
               | Ok (item :: _) => no_panic item
               | Ok [] | Panic _ => False
               | Err _ => True
               end) /\
  (forall b, no_panic (account_state_blob_map b)) /\ (forall b, no_panic (decode_block_meta_height b)).

Definition TxnData : Type := Transaction * TransactionInfo * list ContractEvent.
(** The transactions of an answer are those of the chain from the version that was asked for. *)
Definition serves_transactions (chain : Z -> option TxnData) t : Prop := forall start limit l rest, (start <= u64_max)%Z ->
  update_to_latest_ledger t (build_request (GetTransactions start limit true) None) = Ok (Ok (TransactionsResponse l) :: rest) ->
  forall v, tl_first_transaction_version l = Some v -> v = start /\
  exists events, tl_events l = Some events /\
    let data := zip (zip (tl_transactions l) (tl_infos l)) events in
    (start + Z.of_nat (length data) <= u64_max)%Z /\ forall i x, data !! i = Some x -> chain (start + Z.of_nat i)%Z = Some x.
Definition serves_events (access_path : AccessPath) (chain : Z -> option EventWithProof) t : Prop := forall start limit l s rest, (start <= u64_max)%Z ->
  update_to_latest_ledger t (build_request (GetEventsByEventAccessPath access_path start true limit) None) = Ok (Ok (EventsResponse l s) :: rest) ->
  (start + Z.of_nat (length l) <= u64_max)%Z /\
  forall i x, l !! i = Some x -> event_sequence_number (ewp_event x) = (start + Z.of_nat i)%Z /\ chain (start + Z.of_nat i)%Z = Some x.

Definition txn_at (chain : Z -> option TxnData) (n : Z) (x : TransactionWithInfo) : Prop :=
  twi_version x = n /\ chain n = Some (twi_txn x, twi_txn_info x, twi_events x).

(** The next number of a run. *)
Lemma run_of_insert {T} (P : Z -> T -> Prop) start (m : gmap Z T) k x :
  (0 <= k)%Z -> (start + k + 1 <= u64_max)%Z ->
  (forall n, is_Some (m !! n) <-> (start <= n < start + k)%Z) -> (forall n v, m !! n = Some v -> P n v) -> P (start + k)%Z x ->
  (forall n, is_Some (<[(start + k)%Z := x]> m !! n) <-> (start <= n < start + (k + 1))%Z) /\
  (forall n v, <[(start + k)%Z := x]> m !! n = Some v -> P n v).
Proof.
  intros Hk Hmax Hdom HP Hx. split.
  - intros n. destruct (decide (n = start + k)%Z) as [->|Hne]; [rewrite lookup_insert_eq; split; [lia|eauto]|].
    rewrite lookup_insert_ne by done. rewrite Hdom. lia.
  - intros n v [[<- <-]|[_ Hn]]%lookup_insert_Some; eauto.
Qed.

Lemma first_item_no_panic t req : answers_ok t -> no_panic (update_to_latest_ledger t req ≫= first_item).
Proof. intros [H _]. specialize (H req). destruct (update_to_latest_ledger t req) as [[|[] l]|e|e]; done. Qed.
Lemma get_block_hight_no_panic t v : answers_ok t -> no_panic (get_block_hight t v).
Proof.
  intros H. pose proof (first_item_no_panic t (build_request (GetAccountState association_address) (Some v)) H) as Hi. unfold get_block_hight.
  destruct (update_to_latest_ledger t _) as [resp|e|e]; [|done..]. simpl in *. apply no_panic_bind; [done|]. intros item.
  apply no_panic_bind; [by destruct item|]. intros a. apply no_panic_bind; [by destruct (asp_blob a)|]. intros blob.
  destruct H as (_ & Hb & Hd). apply no_panic_bind; [apply no_panic_bind; [apply Hb|done]|]. intros st.
  apply no_panic_bind; [|by intros []]. destruct (as_get st _); [|done]. by apply no_panic_bind; [apply Hd|].
Qed.

Lemma add_txns_run t chain start l j c : answers_ok t -> (0 <= j)%Z -> (start + j + Z.of_nat (length l) <= u64_max)%Z ->
  (forall n, is_Some (c !! n) <-> (start <= n < start + j)%Z) -> (forall n v, c !! n = Some v -> txn_at chain n v) ->
  (forall i x, l !! i = Some x -> chain (start + j + Z.of_nat i)%Z = Some x) ->
  match foldM (add_txn t start) c (imap (fun i x => (Z.to_nat j + i, x)) l) with
  | Ok m => run_of (txn_at chain) start m
  | Panic _ => False
  | Err _ => True
  end.
Proof.
  intros Ha. revert j c. induction l as [|[[txn info] events] l IH]; intros j c Hj Hmax Hdom HP Hl.
  { exists j. simpl in *. split_and!; [done|lia|done|done]. }
  simpl imap. cbn [foldM add_txn]. simpl length in Hmax.
  rewrite Nat.add_0_r, Z2Nat.id, add_u64_Ok by lia. simpl.
  pose proof (get_block_hight_no_panic t (start + j) Ha) as Hb. destruct (get_block_hight t (start + j)) as [h|e|e]; [|done..]. simpl.
  set (x := mkTransactionWithInfo txn info (start + j) events h).
  destruct (run_of_insert (txn_at chain) start c j x) as [H1 H2]; [done|lia|done|done| |].
  { split; [done|]. specialize (Hl 0 (txn, info, events) eq_refl). by rewrite Z.add_0_r in Hl. }
  specialize (IH (j + 1)%Z _ ltac:(lia) ltac:(lia) H1 H2).
  assert (forall i y, l !! i = Some y -> chain (start + (j + 1) + Z.of_nat i)%Z = Some y) as Hl'.
  { intros i y Hy. rewrite <-(Hl (S i) y Hy). f_equal. lia. }
  specialize (IH Hl'). erewrite imap_ext; [exact IH|]. intros i y _. simpl. f_equal. lia.
Qed.
Lemma txn_query_faithful t chain : answers_ok t -> serves_transactions chain t ->
  faithful (txn_at chain) (fun version limit => Some (txn_query t version limit)).
Proof.
  intros Ha Hs start limit Hst. unfold txn_query. pose proof (first_item_no_panic t (build_request (GetTransactions start limit true) None) Ha) as Hn.
  specialize (Hs start limit). destruct (update_to_latest_ledger t _) as [[|[item|e|e] rest]|e|e]; simpl in *; try done.
  destruct item as [| | |l]; simpl; try done. specialize (Hs l rest Hst eq_refl).
  destruct (tl_first_transaction_version l) as [v|]; simpl; [|by apply run_of_empty].
  destruct (Hs v eq_refl) as (-> & events & -> & Hmax & Hat). simpl.
  pose proof (add_txns_run t chain start (zip (zip (tl_transactions l) (tl_infos l)) events) 0 ∅ Ha) as H.
  change (imap pair) with (imap (fun (i : nat) (x : TxnData) => (Z.to_nat 0 + i, x))). unfold TxnData in *.
  destruct (foldM _ _ _); [apply H|done|apply H]; try lia; try done; rewrite ?Z.add_0_r; try done.
  all: intros n; rewrite ?lookup_empty; try done; split; [intros []%is_Some_None|lia].
Qed.

Definition event_at (chain : Z -> option EventWithProof) (n : Z) (x : EventWithProof) : Prop :=
  event_sequence_number (ewp_event x) = n /\ chain n = Some x.
Lemma add_events_run chain start l j c : (0 <= j)%Z -> (start + j + Z.of_nat (length l) <= u64_max)%Z ->
  (forall n, is_Some (c !! n) <-> (start <= n < start + j)%Z) -> (forall n v, c !! n = Some v -> event_at chain n v) ->
  (forall i x, l !! i = Some x -> event_at chain (start + j + Z.of_nat i) x) ->
  run_of (event_at chain) start (foldl (fun m evt => <[event_sequence_number (ewp_event evt) := evt]> m) c l).
Proof.
  revert j c. induction l as [|x l IH]; intros j c Hj Hmax Hdom HP Hl; simpl in *; [exists j; split_and!; [done|lia|done|done]|].
  pose proof (Hl 0 x eq_refl) as Hx. rewrite Z.add_0_r in Hx. rewrite (proj1 Hx).
  destruct (run_of_insert (event_at chain) start c j x) as [H1 H2]; [done|lia|done..|].
  apply (IH (j + 1)%Z); [lia|lia|done|done|]. intros i y Hy. specialize (Hl (S i) y Hy).
  by replace (start + (j + 1) + Z.of_nat i)%Z with (start + j + Z.of_nat (S i))%Z by lia.
Qed.
Lemma event_query_faithful access_path t chain : answers_ok t -> serves_events access_path chain t ->
  faithful (event_at chain) (fun version limit => Some (event_query access_path t version limit)).
Proof.
  intros Ha Hs start limit Hst. unfold event_query.
  pose proof (first_item_no_panic t (build_request (GetEventsByEventAccessPath access_path start true limit) None) Ha) as Hn.
  specialize (Hs start limit). destruct (update_to_latest_ledger t _) as [[|[item|e|e] rest]|e|e]; simpl in *; try done.
  destruct item as [| |l s|]; simpl; try done. destruct (Hs l s rest Hst eq_refl) as [Hmax Hat].
  apply (add_events_run chain start l 0); [lia|lia|intros n; rewrite lookup_empty; split; [intros []%is_Some_None|lia]|done|].
  intros i x Hx. rewrite Z.add_0_r. by apply Hat.
Qed.
End queries.

(** ** [ChainWatcher] *)

Section watcher.
Context {L : Libra} {K : Chain} {CE : ChainEvents} {BO : Backoff} {HO : HashOrder}.

Definition Interest : Type := TransactionWithInfo -> bool.
(** The sending end of a channel, which is a number. *)
Inductive Trans := Oneshot (c : nat) | Mpsc (c : nat).
Record DownStream := mkDownStream { interest : Interest; sink : Trans }.

(** A channel: what is in its buffer, what its receiver took, and whether the receiver was dropped.  The
    buffer of [mpsc::channel(1024)] has one more place for its only sender. *)
Record WChan := mkWChan { wc_buffer : list TransactionWithInfo; wc_taken : list TransactionWithInfo; wc_dropped : bool }.
Definition MPSC_CAPACITY : nat := 1025.

(** The actor with the task that polls the stream for it, and its subscribers.  [delivering] is the
    transaction that the handler of [NewTxn] hands out with the tags that are left; the task waits for the
    handler, and so does every other message.  The last two fields are a record of what happened: the
    transactions so far, and for each channel its kind, its interest and how many there were before it. *)
Record ChainWatcher := mkWatcher {
  down_streams : gmap Z DownStream;
  txn_stream : DataStream TransactionWithInfo;
  w_chans : gmap nat WChan;
  delivering : option (TransactionWithInfo * list Z);
  cw_running : bool;
  handled : list TransactionWithInfo;
  subscribed : gmap nat (bool * Interest * nat)
}.
Implicit Types w : ChainWatcher.

(** [ChainWatcher::new] with [start] *)
Definition ChainWatcher_new (start_version limit : Z) : ChainWatcher :=
  mkWatcher ∅ (DataStream_new start_version limit) ∅ None true [] ∅.

Definition set_down_streams d w : ChainWatcher :=
  mkWatcher d (txn_stream w) (w_chans w) (delivering w) (cw_running w) (handled w) (subscribed w).
Definition set_chan (c : nat) (ch : WChan) w : ChainWatcher :=
  mkWatcher (down_streams w) (txn_stream w) (<[c := ch]> (w_chans w)) (delivering w) (cw_running w) (handled w) (subscribed w).
Definition set_delivering d w : ChainWatcher :=
  mkWatcher (down_streams w) (txn_stream w) (w_chans w) d (cw_running w) (handled w) (subscribed w).

Definition chan_of (s : Trans) : nat := match s with Oneshot c | Mpsc c => c end.
Definition chan_dropped w (c : nat) : bool := match w_chans w !! c with Some ch => wc_dropped ch | None => true end.

(** [is_oneshot] and [is_closed] *)
Definition is_oneshot (d : DownStream) : bool := match sink d with Oneshot _ => true | Mpsc _ => false end.
Definition is_closed w (d : DownStream) : bool := chan_dropped w (chan_of (sink d)).

(** [add_interest] *)
Definition add_interest (tag : Z) (interest : Interest) (sink : Trans) w : bool * ChainWatcher :=
  match down_streams w !! tag with
  | Some s => if negb (is_closed w s) then (false, w) else (true, set_down_streams (<[tag := mkDownStream interest sink]> (down_streams w)) w)
  | None => (true, set_down_streams (<[tag := mkDownStream interest sink]> (down_streams w)) w)
  end.
(** [ChainWatcherHandle::add_interest] and [add_interest_oneshot]: the receiver is dropped when the tag is in use. *)
Definition handle_add_interest (oneshot : bool) (tag : Z) (interest : Interest) w : res nat * ChainWatcher :=
  if negb (cw_running w) then (Err "task is already stopped", w)
  else
    let c := fresh (dom (w_chans w)) in
    let '(succ, w') := add_interest tag interest (if oneshot then Oneshot c else Mpsc c) w in
    if succ
    then (Ok c, mkWatcher (down_streams w') (txn_stream w') (<[c := mkWChan [] [] false]> (w_chans w')) (delivering w') (cw_running w')
                  (handled w') (<[c := (oneshot, interest, length (handled w'))]> (subscribed w')))
    else (Err "an interest with same tag already exists", w').

(** Handler of [Cleanup] *)
Definition cleanup w : ChainWatcher := set_down_streams (filter (fun kv => is_closed w kv.2 = false) (down_streams w)) w.

(** [handle_txn]: the tags of the interested streams are listed first *)
Definition interested_stream (t : TransactionWithInfo) w : list Z :=
  hs_iter (dom (filter (fun kv => interest kv.2 t = true) (down_streams w))).
Definition handle_txn (txn : res TransactionWithInfo) w : ChainWatcher :=
  match txn with
  | Ok t =>
      mkWatcher (down_streams w) (txn_stream w) (w_chans w) (Some (t, interested_stream t w)) (cw_running w)
        (handled w ++ [t]) (subscribed w)
  | _ => w
  end.
(** then each gets the transaction; [None] waits for a full channel. *)
Definition chan_push (c : nat) (t : TransactionWithInfo) w : ChainWatcher :=
  match w_chans w !! c with
  | Some ch => set_chan c (mkWChan (wc_buffer ch ++ [t]) (wc_taken ch) (wc_dropped ch)) w
  | None => w
  end.
Definition chan_full w (c : nat) : bool :=
  match w_chans w !! c with Some ch => bool_decide (MPSC_CAPACITY <= length (wc_buffer ch)) | None => false end.
Definition deliver (t : TransactionWithInfo) (tag : Z) w : option (res ChainWatcher) :=
  match down_streams w !! tag with
  | None => Some (Panic "down stream should exists")
  | Some down_stream =>
      let w1 := set_down_streams (base.delete tag (down_streams w)) w in
      match sink down_stream with
      | Oneshot c => Some (Ok (if chan_dropped w c then w1 else chan_push c t w1))
      | Mpsc c =>
          if chan_dropped w c then Some (Ok w1)
          else if chan_full w c then None
          else Some (Ok (set_down_streams (<[tag := down_stream]> (base.delete tag (down_streams w))) (chan_push c t w1)))
      end
  end.
Definition deliver_next w : res ChainWatcher :=
  match delivering w with
  | None => Ok w
  | Some (_, []) => Ok (set_delivering None w)
  | Some (t, tag :: rest) =>
      match deliver t tag w with
      | Some r => w' ← r; Ok (set_delivering (Some (t, rest)) w')
      | None => Ok w
      end
  end.

(** The task of [started]: the stream is polled when the actor has answered for the item before. *)
Definition idle w : bool := cw_running w && match delivering w with None => true | Some _ => false end.
Definition poll_txns (now : Z) (q : Query TransactionWithInfo) w : res ChainWatcher :=
  if negb (idle w) then Ok w
  else
    let '(r, s) := stream_poll_next now q (txn_stream w) in
    let w := mkWatcher (down_streams w) s (w_chans w) (delivering w) (cw_running w) (handled w) (subscribed w) in
    match r with
    | Ok (Yield txn) => Ok (handle_txn txn w)
    | Ok Pending => Ok w
    | Err e => Err e
    | Panic e => Panic e
    end.

(** A receiver takes a transaction, or is dropped. *)
Definition receive (c : nat) w : ChainWatcher :=
  match w_chans w !! c with
  | Some (mkWChan (t :: l) taken false) => set_chan c (mkWChan l (taken ++ [t]) false) w
  | _ => w
  end.
Definition drop_receiver (c : nat) w : ChainWatcher :=
  match w_chans w !! c with
  | Some ch => set_chan c (mkWChan (wc_buffer ch) (wc_taken ch) true) w
  | None => w
  end.
Definition stop_watcher w : ChainWatcher :=
  mkWatcher (down_streams w) (txn_stream w) (w_chans w) (delivering w) false (handled w) (subscribed w).

(** ** Histories *)

Inductive watch_event :=
| WAdd (oneshot : bool) (tag : Z) (interest : Interest)
| WCleanup
| WPoll (now : Z) (t : Transport)
| WDeliver
| WReceive (c : nat)
| WDrop (c : nat)
| WStop.
(** Messages wait while a transaction is handed out. *)
Definition watch_step w (e : watch_event) : res ChainWatcher :=
  match e with
  | WAdd oneshot tag interest => Ok (if idle w then (handle_add_interest oneshot tag interest w).2 else w)
  | WCleanup => Ok (if idle w then cleanup w else w)
  | WPoll now t => poll_txns now (fun version limit => Some (txn_query t version limit)) w
  | WDeliver => deliver_next w
  | WReceive c => Ok (receive c w)
  | WDrop c => Ok (drop_receiver c w)
  | WStop => Ok (if idle w then stop_watcher w else w)
  end.
Definition run_watcher (start limit : Z) (l : list watch_event) : res ChainWatcher := foldM watch_step (ChainWatcher_new start limit) l.

(** What a subscriber should have been sent of the transactions [l]. *)
Definition matching (oneshot : bool) (p : Interest) (l : list TransactionWithInfo) : list TransactionWithInfo :=
  let l := filter (fun t => p t = true) l in if oneshot then take 1 l else l.
Definition contents (ch : WChan) : list TransactionWithInfo := wc_taken ch ++ wc_buffer ch.

(** ** Invariant *)

Context {BL : BackoffLaws} (P : Z -> TransactionWithInfo -> Prop).

(** The channel has a sender, and the transaction in hand is still to be sent to it. *)
Definition live w (c : nat) : Prop := exists tag d, down_streams w !! tag = Some d /\ chan_of (sink d) = c.
Definition waits w (c : nat) : Prop := exists t rest tag d, delivering w = Some (t, rest) /\ tag ∈ rest /\
  down_streams w !! tag = Some d /\ chan_of (sink d) = c.

(** What a subscriber that keeps its receiver has: everything but for a transaction that it waits for. *)
Definition up_to_date w (c : nat) (oneshot : bool) (p : Interest) (seen : list TransactionWithInfo) (ch : WChan) : Prop :=
  (waits w c /\ live w c /\ exists h t rest, delivering w = Some (t, rest) /\ seen = h ++ [t] /\ p t = true /\ contents ch = matching oneshot p h /\ (oneshot = true -> contents ch = [])) \/
  (~ waits w c /\ contents ch = matching oneshot p seen /\ (live w c <-> oneshot = false \/ contents ch = [])).

Record watch_inv (start : Z) w : Prop := {
  wi_stream : stream_inv P (txn_stream w);
  wi_number : stream_number (txn_stream w) = (start + Z.of_nat (length (handled w)))%Z;
  wi_handled i x : handled w !! i = Some x -> P (start + Z.of_nat i) x;
  wi_down tag d : down_streams w !! tag = Some d -> exists born, subscribed w !! chan_of (sink d) = Some (is_oneshot d, interest d, born);
  wi_inj tag1 tag2 d1 d2 : down_streams w !! tag1 = Some d1 -> down_streams w !! tag2 = Some d2 ->
    chan_of (sink d1) = chan_of (sink d2) -> tag1 = tag2;
  wi_dom c : is_Some (w_chans w !! c) <-> is_Some (subscribed w !! c);
  wi_delivering t rest : delivering w = Some (t, rest) -> NoDup rest /\
    forall tag, tag ∈ rest -> exists d, down_streams w !! tag = Some d /\ interest d t = true;
  wi_born c oneshot p born : subscribed w !! c = Some (oneshot, p, born) -> born <= length (handled w);
  wi_sub c oneshot p born ch : subscribed w !! c = Some (oneshot, p, born) -> w_chans w !! c = Some ch -> wc_dropped ch = false ->
    up_to_date w c oneshot p (drop born (handled w)) ch
}.

Lemma idle_true w : idle w = true <-> cw_running w = true /\ delivering w = None.
Proof. unfold idle. destruct (cw_running w), (delivering w); simpl; naive_solver. Qed.
Lemma idle_waits w c : delivering w = None -> ~ waits w c.
Proof. intros H (t & rest & tag & d & E & _). congruence. Qed.

(** A subscriber is as it was if its sender is and the same is waited for. *)
Lemma up_to_date_ext w w' c oneshot p seen ch ch' :
  (waits w c <-> waits w' c) -> (live w c <-> live w' c) -> delivering w' = delivering w -> contents ch = contents ch' ->
  up_to_date w c oneshot p seen ch -> up_to_date w' c oneshot p seen ch'.
Proof. intros H1 H2 H3 H4. unfold up_to_date. rewrite H1, H2, H3, H4. done. Qed.
Lemma same_senders w w' c : down_streams w' = down_streams w -> delivering w' = delivering w ->
  (waits w c <-> waits w' c) /\ (live w c <-> live w' c).
Proof. intros E1 E2. unfold waits, live. by rewrite E1, E2. Qed.

Lemma receive_inv start c w : watch_inv start w -> watch_inv start (receive c w).
Proof.
  intros I. unfold receive. destruct (w_chans w !! c) as [[[|t l] taken []]|] eqn:E; try done.
  split; simpl; try apply I.
  - intros c'. rewrite <-(wi_dom _ _ I). destruct (decide (c' = c)) as [->|]; [rewrite lookup_insert_eq, E; naive_solver|by rewrite lookup_insert_ne].
  - intros c' os p b ch Hs Hch Hd. apply lookup_insert_Some in Hch as [[<- <-]|[Hne Hch]].
    + eapply up_to_date_ext; [..|by eapply (wi_sub _ _ I)]; [by apply same_senders|by apply same_senders|done|]. unfold contents. simpl. by rewrite <-(assoc_L app).
    + by eapply up_to_date_ext; [..|by eapply (wi_sub _ _ I)]; [apply same_senders|apply same_senders|..].
Qed.
Lemma drop_receiver_inv start c w : watch_inv start w -> watch_inv start (drop_receiver c w).
Proof.
  intros I. unfold drop_receiver. destruct (w_chans w !! c) as [ch|] eqn:E; [|done]. split; simpl; try apply I.
  - intros c'. rewrite <-(wi_dom _ _ I). destruct (decide (c' = c)) as [->|]; [rewrite lookup_insert_eq, E; naive_solver|by rewrite lookup_insert_ne].
  - intros c' os p b ch' Hs Hch Hd. apply lookup_insert_Some in Hch as [[<- <-]|[Hne Hch]]; [done|].
    by eapply up_to_date_ext; [..|by eapply (wi_sub _ _ I)]; [apply same_senders|apply same_senders|..].
Qed.
Lemma stop_inv start w : watch_inv start w -> watch_inv start (stop_watcher w).
Proof. intros I. split; simpl; apply I. Qed.
Lemma cleanup_inv start w : watch_inv start w -> delivering w = None -> watch_inv start (cleanup w).
Proof.
  intros I Hd. split; simpl; try apply I.
  - intros tag d [Ht _]%map_lookup_filter_Some. by apply (wi_down _ _ I tag).
  - intros tag1 tag2 d1 d2 [H1 _]%map_lookup_filter_Some [H2 _]%map_lookup_filter_Some. by apply (wi_inj _ _ I).
  - by rewrite Hd.
  - intros c os p b ch Hs Hch Hk. apply (up_to_date_ext w _ c os p _ ch); [| |done|done|by apply (wi_sub _ _ I c os p b)].
    + split; intros Hw; exfalso; [by apply (idle_waits w c Hd)|by apply (idle_waits (cleanup w) c Hd)].
    + split; intros (tag & d & Ht & Hc); exists tag, d; (split; [|done]).
      * apply map_lookup_filter_Some. split; [done|]. unfold is_closed, chan_dropped. simpl. by rewrite Hc, Hch.
      * by apply map_lookup_filter_Some in Ht as [? _].
Qed.

Lemma matching_app_no oneshot p h t : p t = false -> matching oneshot p (h ++ [t]) = matching oneshot p h.
Proof. intros Hp. unfold matching. rewrite filter_app, filter_cons_False, filter_nil, app_nil_r by congruence. done. Qed.
Lemma matching_app_full p h t : matching true p h <> [] -> matching true p (h ++ [t]) = matching true p h.
Proof. unfold matching. rewrite filter_app. by destruct (filter _ h). Qed.
Lemma matching_app_hit oneshot p h t : p t = true -> (oneshot = true -> matching oneshot p h = []) ->
  matching oneshot p (h ++ [t]) = matching oneshot p h ++ [t].
Proof.
  intros Hp Ho. unfold matching in *. rewrite filter_app, (filter_cons_True _ t []), filter_nil by done. destruct oneshot; [|done].
  specialize (Ho eq_refl). by destruct (filter _ h).
Qed.

(** A new subscription takes a free tag, or that of a closed one. *)
Lemma subscribe_inv start tag d c w : watch_inv start w -> delivering w = None -> w_chans w !! c = None -> chan_of (sink d) = c ->
  (forall d', down_streams w !! tag = Some d' -> is_closed w d' = true) ->
  watch_inv start (mkWatcher (<[tag := d]> (down_streams w)) (txn_stream w) (<[c := mkWChan [] [] false]> (w_chans w)) (delivering w)
    (cw_running w) (handled w) (<[c := (is_oneshot d, interest d, length (handled w))]> (subscribed w))).
Proof.
  intros I Hd Hc Ed Hclosed.
  assert (subscribed w !! c = None) as Hc'.
  { apply eq_None_not_Some. rewrite <-(wi_dom _ _ I), Hc. by intros []%is_Some_None. }
  assert (forall tag' d, down_streams w !! tag' = Some d -> chan_of (sink d) <> c) as Hfresh.
  { intros tag' d' Ht Ec. destruct (wi_down _ _ I tag' d' Ht) as [b Hb]. congruence. }
  split; simpl; try apply I.
  - intros tag' d' [[<- <-]|[_ Ht]]%lookup_insert_Some; [rewrite Ed, lookup_insert_eq; eauto|].
    rewrite lookup_insert_ne by (intros E; by apply (Hfresh tag' d' Ht)). by apply (wi_down _ _ I tag').
  - intros tag1 tag2 d1 d2 [[<- <-]|[_ H1]]%lookup_insert_Some [[<- <-]|[_ H2]]%lookup_insert_Some E; [done|..|by apply (wi_inj _ _ I tag1 tag2 d1 d2)].
    + rewrite Ed in E. by destruct (Hfresh tag2 d2 H2).
    + rewrite Ed in E. by destruct (Hfresh tag1 d1 H1).
  - intros c'. destruct (decide (c' = c)) as [->|Hne]; [rewrite !lookup_insert_eq; naive_solver|rewrite !lookup_insert_ne by done; apply I].
  - by rewrite Hd.
  - intros c' os p b [[<- [= <- <- <-]]|[_ Hs]]%lookup_insert_Some; [done|]. by apply (wi_born _ _ I c' os p).
  - intros c' os p b ch Hs Hch Hk. destruct (decide (c' = c)) as [->|Hne].
    + rewrite lookup_insert_eq in Hs. rewrite lookup_insert_eq in Hch. simplify_eq. right. rewrite drop_all. split; [by apply idle_waits|]. split.
      { by destruct (is_oneshot d). }
      split; [by right|]. intros _. exists tag, d. simpl. by rewrite lookup_insert_eq.
    + rewrite lookup_insert_ne in Hs by done. rewrite lookup_insert_ne in Hch by done. apply (up_to_date_ext w _ c' os p _ ch); [| |done|done|by apply (wi_sub _ _ I c' os p b)].
      { split; intros Hw; exfalso; revert Hw; by apply idle_waits. }
      split; intros (tag' & d' & Ht & Hc2).
      * exists tag', d'. split; [|done]. simpl. rewrite lookup_insert_ne; [done|]. intros <-. specialize (Hclosed d' Ht).
        unfold is_closed, chan_dropped in Hclosed. rewrite Hc2, Hch in Hclosed. congruence.
      * simpl in Ht. apply lookup_insert_Some in Ht as [[<- <-]|[_ Ht]]; [congruence|]. by exists tag', d'.
Qed.
Lemma handle_add_inv start oneshot tag p w : watch_inv start w -> delivering w = None ->
  watch_inv start (handle_add_interest oneshot tag p w).2.
Proof.
  intros I Hd. unfold handle_add_interest. destruct (cw_running w); [|done]. simpl. set (c := fresh (dom (w_chans w))).
  assert (w_chans w !! c = None) as Hc by (apply not_elem_of_dom, is_fresh).
  set (d := mkDownStream p (if oneshot then Oneshot c else Mpsc c)).
  assert (chan_of (sink d) = c /\ is_oneshot d = oneshot) as [Ed Eo] by by destruct oneshot.
  pose proof (subscribe_inv start tag d c w I Hd Hc Ed) as H. rewrite Eo in H.
  unfold add_interest. destruct (down_streams w !! tag) as [d'|] eqn:Ht; [destruct (is_closed w d') eqn:Hcl; [|done]|]; simpl.
  all: apply H; intros d2 E2; congruence.
Qed.

(** A new transaction. *)
Lemma handle_txn_inv start t s w : watch_inv start w -> delivering w = None ->
  stream_inv P s -> stream_number s = (start + Z.of_nat (S (length (handled w))))%Z -> P (start + Z.of_nat (length (handled w))) t ->
  watch_inv start (mkWatcher (down_streams w) s (w_chans w) (Some (t, interested_stream t w)) (cw_running w) (handled w ++ [t]) (subscribed w)).
Proof.
  intros I Hd Is En HP.
  assert (forall tag, tag ∈ interested_stream t w <-> exists d, down_streams w !! tag = Some d /\ interest d t = true) as Hint.
  { intros tag. unfold interested_stream. rewrite elem_of_hs_iter, elem_of_dom. unfold is_Some. setoid_rewrite map_lookup_filter_Some. done. }
  split; simpl; try apply I; try done.
  - rewrite length_app. simpl. lia.
  - intros i x [Hi|[Hi Hx]]%lookup_app_Some; [by apply (wi_handled _ _ I)|]. apply list_lookup_singleton_Some in Hx as [Hi0 <-].
    by replace i with (length (handled w)) by lia.
  - intros t' rest [= <- <-]. split; [apply NoDup_hs_iter|]. intros tag. apply Hint.
  - intros c os p b Hs. rewrite length_app. simpl. pose proof (wi_born _ _ I c os p b Hs). lia.
  - intros c os p b ch Hs Hch Hk. rewrite drop_app_le by by apply (wi_born _ _ I c os p b).
    destruct (wi_sub _ _ I c os p b ch Hs Hch Hk) as [[Hw _]|(_ & Hc & Hl)]; [by apply idle_waits in Hw|].
    set (w' := mkWatcher _ _ _ _ _ _ _). assert (live w' c <-> live w c) as El by done.
    assert (waits w' c <-> live w c /\ p t = true) as Ew.
    { split.
      - intros (t' & rest & tag & d & [= <- <-] & Htag & Ht & Hcd). apply Hint in Htag as (d' & Ht' & Hp). simpl in Ht. assert (d' = d) as -> by congruence.
        destruct (wi_down _ _ I tag d Ht) as [b' Hb]. split; [by exists tag, d|]. congruence.
      - intros [(tag & d & Ht & Hcd) Hp]. destruct (wi_down _ _ I tag d Ht) as [b' Hb]. exists t, (interested_stream t w), tag, d.
        split; [done|]. split; [|done]. apply Hint. exists d. split; [done|]. congruence. }
    unfold up_to_date. rewrite Ew, El. destruct (p t) eqn:Hp; [|right; rewrite matching_app_no by done; naive_solver].
    destruct (decide (os = false \/ contents ch = [])) as [Ho|Ho].
    + left. split; [naive_solver|]. split; [naive_solver|]. exists (drop b (handled w)), t, (interested_stream t w). split_and!; [done..|]. intros ->. naive_solver.
    + right. destruct os; [|naive_solver]. rewrite matching_app_full by (rewrite <-Hc; naive_solver). naive_solver.
Qed.

(** One of the interested streams gets the transaction, or loses its sender. *)
Definition after_delivery (t : TransactionWithInfo) (tag : Z) (rest : list Z) w w' : Prop :=
  txn_stream w' = txn_stream w /\ handled w' = handled w /\ subscribed w' = subscribed w /\ delivering w' = Some (t, rest) /\
  (forall tag', tag' <> tag -> down_streams w' !! tag' = down_streams w !! tag') /\
  exists d, down_streams w !! tag = Some d /\
    let c := chan_of (sink d) in
    (forall c', c' <> c -> w_chans w' !! c' = w_chans w !! c') /\
    ((chan_dropped w c = true /\ w_chans w' = w_chans w /\ down_streams w' !! tag = None) \/
     exists ch, w_chans w !! c = Some ch /\ wc_dropped ch = false /\
       w_chans w' !! c = Some (mkWChan (wc_buffer ch ++ [t]) (wc_taken ch) false) /\
       down_streams w' !! tag = if is_oneshot d then None else Some d).
Lemma deliver_after t tag rest w : is_Some (down_streams w !! tag) ->
  deliver t tag w = None \/ exists w', deliver t tag w = Some (Ok w') /\ after_delivery t tag rest w (set_delivering (Some (t, rest)) w').
Proof.
  intros [d Hd]. unfold deliver. rewrite Hd. unfold after_delivery, chan_dropped, chan_full, chan_push, is_oneshot.
  destruct (sink d) as [c|c] eqn:Es; simpl.
  - right. destruct (w_chans w !! c) as [[buf tk []]|] eqn:Ec; simpl; eexists; (split; [done|]); simpl; rewrite ?Ec; simpl; split_and!; try done.
    all: try (intros; by rewrite lookup_delete_ne).
    all: exists d; rewrite Es; simpl; (split; [done|]); (split; [intros; by rewrite ?lookup_insert_ne|]).
    1, 3: left; by rewrite Ec, lookup_delete_eq.
    right. exists (mkWChan buf tk false). by rewrite Ec, lookup_insert_eq, lookup_delete_eq.
  - destruct (w_chans w !! c) as [[buf tk []]|] eqn:Ec; simpl; [right|case_bool_decide; [by left|right]|right]; eexists; (split; [done|]); simpl; rewrite ?Ec; simpl; split_and!; try done.
    all: try (intros; by rewrite ?lookup_insert_ne, ?lookup_delete_ne).
    all: exists d; rewrite Es; simpl; (split; [done|]); (split; [intros; by rewrite ?lookup_insert_ne|]).
    1, 3: left; by rewrite Ec, lookup_delete_eq.
    right. exists (mkWChan buf tk false). by rewrite Ec, !lookup_insert_eq.
Qed.
Section delivery.
Context (start : Z) (t : TransactionWithInfo) (tag : Z) (rest : list Z) (w w' : ChainWatcher) (d : DownStream).
Hypothesis I : watch_inv start w.
Hypothesis Hdel : delivering w = Some (t, tag :: rest).
Hypothesis Hdel' : delivering w' = Some (t, rest).
Hypothesis Htag : down_streams w !! tag = Some d.
Hypothesis Hother : forall tag', tag' <> tag -> down_streams w' !! tag' = down_streams w !! tag'.
Hypothesis Hsame : forall d', down_streams w' !! tag = Some d' -> d' = d.

Lemma delivery_tag : tag ∉ rest.
Proof. destruct (wi_delivering _ _ I _ _ Hdel) as [Hnd _]. by apply NoDup_cons in Hnd as [? _]. Qed.
(** The senders of the other channels are the same. *)
Lemma delivery_sender tag' d' : down_streams w' !! tag' = Some d' -> down_streams w !! tag' = Some d'.
Proof. intros H. destruct (decide (tag' = tag)) as [->|Hne]; [by rewrite (Hsame d' H)|by rewrite <-Hother]. Qed.
Lemma delivery_others c : c <> chan_of (sink d) -> (waits w c <-> waits w' c) /\ (live w c <-> live w' c).
Proof.
  intros Hc.
  assert (forall tag' d', down_streams w !! tag' = Some d' -> chan_of (sink d') = c -> tag' <> tag /\ down_streams w' !! tag' = Some d') as Hto.
  { intros tag' d' Ht Ec. assert (tag' <> tag) by (intros ->; congruence). by rewrite Hother. }
  split; split.
  - intros (t' & r & tag' & d' & E & Hin & Ht & Ec). destruct (Hto tag' d' Ht Ec) as [Hne Ht']. rewrite Hdel in E. injection E as <- <-.
    exists t, rest, tag', d'. set_solver.
  - intros (t' & r & tag' & d' & E & Hin & Ht & Ec). rewrite Hdel' in E. injection E as <- <-. exists t, (tag :: rest), tag', d'.
    split; [done|]. split; [set_solver|]. split; [by apply delivery_sender|done].
  - intros (tag' & d' & Ht & Ec). destruct (Hto tag' d' Ht Ec) as [_ ?]. by exists tag', d'.
  - intros (tag' & d' & Ht & Ec). exists tag', d'. split; [by apply delivery_sender|done].
Qed.
Lemma delivery_up_to_date c oneshot p seen ch : c <> chan_of (sink d) -> up_to_date w c oneshot p seen ch -> up_to_date w' c oneshot p seen ch.
Proof.
  intros Hc H. destruct (delivery_others c Hc) as [Ew El]. unfold up_to_date in *. rewrite Ew, El in H.
  destruct H as [(Hw & Hl & h & t' & r & E & H)|H]; [left|by right]. split; [done|]. split; [done|]. exists h, t', rest. split; [|done]. congruence.
Qed.
(** The receiver of the transaction. *)
Lemma delivered_up_to_date oneshot p born ch : subscribed w !! chan_of (sink d) = Some (oneshot, p, born) ->
  w_chans w !! chan_of (sink d) = Some ch -> wc_dropped ch = false -> down_streams w' !! tag = (if is_oneshot d then None else Some d) ->
  up_to_date w' (chan_of (sink d)) oneshot p (drop born (handled w)) (mkWChan (wc_buffer ch ++ [t]) (wc_taken ch) false).
Proof.
  intros Hs Hch Hk Htag'. destruct (wi_down _ _ I tag d Htag) as [b' Hb]. rewrite Hs in Hb. injection Hb as -> -> ->.
  assert (waits w (chan_of (sink d))) as Hwait by (exists t, (tag :: rest), tag, d; set_solver).
  destruct (wi_sub _ _ I _ _ _ _ _ Hs Hch Hk) as [(_ & _ & h & t' & r & E & Hseen & Hp & Hcont & Ho)|[Hn _]]; [|done].
  rewrite Hdel in E. injection E as <- <-.
  assert (forall tag' d', down_streams w' !! tag' = Some d' -> chan_of (sink d') = chan_of (sink d) -> tag' = tag) as Huniq.
  { intros tag' d' Ht Ec. by apply (wi_inj _ _ I tag' tag d' d); [apply delivery_sender|..]. }
  right. split_and!.
  - intros (t' & r & tag' & d' & E & Hin & Ht & Ec). rewrite (Huniq tag' d' Ht Ec) in Hin. rewrite Hdel' in E. injection E as <- <-.
    by apply delivery_tag.
  - rewrite Hseen, matching_app_hit, <-Hcont; [|done|by rewrite <-Hcont]. unfold contents. simpl. by rewrite (assoc_L app).
  - assert (contents (mkWChan (wc_buffer ch ++ [t]) (wc_taken ch) false) <> []) as Hne.
    { unfold contents. simpl. intros [_ [_ E]%app_nil]%app_nil. done. }
    split; [|intros [E|E]; [|done]; rewrite E in Htag'; by exists tag, d].
    intros (tag' & d' & Ht & Ec). left. rewrite (Huniq tag' d' Ht Ec), Htag' in Ht. by destruct (is_oneshot d).
Qed.
End delivery.

Lemma delivery_inv start t tag rest w w' : watch_inv start w -> delivering w = Some (t, tag :: rest) -> after_delivery t tag rest w w' ->
  watch_inv start w'.
Proof.
  intros I Hdel (E1 & E2 & E3 & Hdel' & Hother & d & Htag & Hch & Hcase).
  assert (forall d', down_streams w' !! tag = Some d' -> d' = d) as Hsame.
  { intros d' Ht. destruct Hcase as [(_ & _ & E)|(ch & _ & _ & _ & E)]; [congruence|]. destruct (is_oneshot d); congruence. }
  pose proof (delivery_sender tag w w' d Htag Hother Hsame) as Hsend.
  split; rewrite ?E1, ?E2, ?E3; try apply I.
  - intros tag' d' Ht. by apply (wi_down _ _ I tag'), Hsend.
  - intros tag1 tag2 d1 d2 H1 H2. by apply (wi_inj _ _ I); apply Hsend.
  - intros c. rewrite <-(wi_dom _ _ I). destruct (decide (c = chan_of (sink d))) as [->|Hne]; [|by rewrite Hch].
    destruct Hcase as [(_ & -> & _)|(ch & Ec & _ & Ec' & _)]; [done|]. rewrite Ec, Ec'. naive_solver.
  - intros t' r E. rewrite Hdel' in E. injection E as <- <-. destruct (wi_delivering _ _ I _ _ Hdel) as [Hnd Hall].
    apply NoDup_cons in Hnd as [Hn Hnd]. split; [done|]. intros tag' Hin. destruct (Hall tag') as (d' & Ht & Hp); [by right|].
    exists d'. rewrite Hother by set_solver. done.
  - intros c os p b ch' Hs Hc' Hk. destruct (decide (c = chan_of (sink d))) as [->|Hne].
    + destruct Hcase as [(Hdr & Ec & _)|(ch & Ec & Hk' & Ec' & Et)].
      * rewrite Ec in Hc'. unfold chan_dropped in Hdr. rewrite Hc' in Hdr. congruence.
      * rewrite Ec' in Hc'. injection Hc' as <-. by eapply delivered_up_to_date.
    + rewrite Hch in Hc' by done. eapply delivery_up_to_date; eauto. by apply (wi_sub _ _ I c os p b).
Qed.
Lemma deliver_next_inv start w : watch_inv start w -> exists w', deliver_next w = Ok w' /\ watch_inv start w'.
Proof.
  intros I. unfold deliver_next. destruct (delivering w) as [[t [|tag rest]]|] eqn:Hd; [|..|by eauto].
  - eexists. split; [done|]. split; simpl; try apply I; try done. intros c os p b ch Hs Hch Hk.
    destruct (wi_sub _ _ I c os p b ch Hs Hch Hk) as [[(t' & r & tag & d & E & Hin & _) _]|H]; [rewrite Hd in E; set_solver|].
    right. split; [by apply idle_waits|]. apply H.
  - destruct (wi_delivering _ _ I _ _ Hd) as [_ Hall]. destruct (Hall tag) as (d & Htag & _); [by left|].
    destruct (deliver_after t tag rest w) as [->|(w' & -> & Ha)]; [by eauto..|]. eexists. split; [done|]. by eapply delivery_inv.
Qed.
Lemma poll_txns_inv start now q w : watch_inv start w -> faithful P q -> exists w', poll_txns now q w = Ok w' /\ watch_inv start w'.
Proof.
  intros I Hq. unfold poll_txns. destruct (idle w) eqn:Hi; simpl; [|by eauto]. apply idle_true in Hi as [_ Hd].
  destruct (poll_next_polled P now q (txn_stream w) (wi_stream _ _ I) Hq) as (r & s & -> & Is & _ & Hr).
  rewrite (wi_number _ _ I) in Hr. destruct r as [|[t|e|e]]; eexists; (split; [done|]).
  - by split; simpl; rewrite ?Hr; try apply I.
  - destruct Hr as [HP En]. simpl. change (interested_stream t _) with (interested_stream t w). apply handle_txn_inv; [done..|lia|done].
  - by split; simpl; rewrite ?Hr; try apply I.
  - done.
Qed.
Definition event_ok (e : watch_event) : Prop :=
  match e with WPoll _ t => faithful P (fun version limit => Some (txn_query t version limit)) | _ => True end.
Lemma watch_step_inv start w e : watch_inv start w -> event_ok e -> exists w', watch_step w e = Ok w' /\ watch_inv start w'.
Proof.
  intros I Hq. destruct e as [os tag p| |now t| |c|c|]; simpl; [..|by apply poll_txns_inv|by apply deliver_next_inv| | |].
  1, 2, 5: destruct (idle w) eqn:Hi; [apply idle_true in Hi as [_ Hd]|by eauto].
  all: eexists; (split; [done|]); eauto using handle_add_inv, cleanup_inv, stop_inv, receive_inv, drop_receiver_inv.
Qed.
Lemma watcher_new_inv start limit : (start <= u64_max)%Z -> watch_inv start (ChainWatcher_new start limit).
Proof.
  intros H. split; simpl; try done; [by apply stream_new_inv|lia|]. intros c. rewrite !lookup_empty. done.
Qed.
Lemma run_watcher_inv start w l : watch_inv start w -> Forall event_ok l -> exists w', foldM watch_step w l = Ok w' /\ watch_inv start w'.
Proof.
  intros I H. revert w I. induction H as [|e l He _ IH]; intros w I; simpl; [by eauto|].
  destruct (watch_step_inv start w e I He) as (w' & -> & I'). simpl. by apply IH.
Qed.
Lemma deliver_next_waits start w t tag rest : watch_inv start w -> delivering w = Some (t, tag :: rest) -> deliver_next w = Ok w ->
  exists c, chan_full w c = true /\ chan_dropped w c = false.
Proof.
  intros I Hd E. unfold deliver_next in E. rewrite Hd in E. destruct (deliver t tag w) as [[w'|e|e]|] eqn:Ed; [|done..|].
  - apply Ok_inj, (f_equal delivering) in E. simpl in E. rewrite Hd in E. injection E as E. apply (f_equal length) in E. simpl in E. lia.
  - unfold deliver in Ed. destruct (down_streams w !! tag) as [d|]; [|done]. destruct (sink d) as [c|c]; [done|].
    destruct (chan_dropped w c) eqn:E1; [done|]. destruct (chan_full w c) eqn:E2; [|done]. eauto.
Qed.
End watcher.

(** ** Properties *)

Section properties.
Context {L : Libra} {K : Chain} {CE : ChainEvents} {BO : Backoff} {BL : BackoffLaws} {HO : HashOrder}.

(** C27: poll the stream of the events of a channel at any times, while the chain answers, fails or has
    nothing new.  The stream does not panic, and the events that it gives are those of the chain from the
    number it was started with, each once and without gaps.  It gives the next event as soon as it is
    polled after its delay and the chain has it. *)
Theorem event_stream_in_order channel_address chain start limit (polls : list (Z * Transport)) : (start <= u64_max)%Z ->
  Forall (fun p => answers_ok p.2 /\ serves_events (new_for_channel_event channel_address) chain p.2) polls ->
  let ask t := fun version limit => Some (channel_event_query channel_address t version limit) in
  let '(out, s) := run_stream (prod_map id ask <$> polls) (DataStream_new start limit) in
  Forall no_panic out /\
  (forall i evt, items out !! i = Some evt -> chain (start + Z.of_nat i)%Z = Some evt /\ event_sequence_number (ewp_event evt) = (start + Z.of_nat i)%Z) /\
  (forall now t m, answers_ok t -> serves_events (new_for_channel_event channel_address) chain t -> delay_over now s = true ->
     channel_event_query channel_address t (start + Z.of_nat (length (items out))) limit = Ok m -> m <> ∅ ->
     exists evt s', stream_poll_next now (ask t) s = (Ok (Yield (Ok evt)), s')).
Proof.
  intros Hst Hp ask. pose proof (run_stream_polled (event_at chain) (prod_map id ask <$> polls) (DataStream_new start limit)) as H.
  destruct (run_stream _ _) as [out s]. destruct H as (H1 & I & El & En & Hat); [by apply stream_new_inv| |].
  { apply Forall_fmap. eapply Forall_impl; [exact Hp|]. intros [now t] [Ha Hs]. by apply event_query_faithful. }
  split; [done|]. split; [intros i evt Hi; destruct (Hat i evt Hi); done|].
  intros now t m Ha Hs Hd Hm Hne. apply (poll_next_progress (event_at chain) now (ask t) s m); [done|by apply event_query_faithful|].
  right. simpl in *. rewrite En, El. unfold ask. by rewrite Hm.
Qed.

(** C10: let transactions arrive from the chain, subscriptions be made and dropped, messages be taken and the
    watcher be stopped, in any order.  Nothing panics.  The transactions that the watcher handles are those
    of the chain from the version it was started with, each once and without gaps.  A subscriber that keeps
    its receiver has been sent, when the watcher is not busy with a transaction, exactly the transactions
    since its subscription that it is interested in, in order, or the first of them if it asked for one.
    The watcher is held up only by a subscriber that keeps its receiver and leaves its channel full. *)
Theorem subscribers_see_every_match chain start limit l : (start <= u64_max)%Z ->
  Forall (fun e => match e with WPoll _ t => answers_ok t /\ serves_transactions chain t | _ => True end) l ->
  exists w, run_watcher start limit l = Ok w /\
    (forall i x, handled w !! i = Some x -> txn_at chain (start + Z.of_nat i) x) /\
    (forall c oneshot p born ch, subscribed w !! c = Some (oneshot, p, born) -> w_chans w !! c = Some ch -> wc_dropped ch = false ->
       delivering w = None -> wc_taken ch ++ wc_buffer ch = matching oneshot p (drop born (handled w))) /\
    (forall t tag rest, delivering w = Some (t, tag :: rest) -> deliver_next w = Ok w -> exists c, chan_full w c = true /\ chan_dropped w c = false).
Proof.
  intros Hst Hl. destruct (run_watcher_inv (txn_at chain) start (ChainWatcher_new start limit) l) as (w & E & I); [by apply watcher_new_inv| |].
  { eapply Forall_impl; [exact Hl|]. intros [] H; try done. simpl. by apply txn_query_faithful; apply H. }
  exists w. split; [done|]. split; [apply I|]. split.
  - intros c os p b ch Hs Hch Hk Hd. destruct (wi_sub _ _ _ I c os p b ch Hs Hch Hk) as [[Hw _]|(_ & Hc & _)]; [|done].
    exfalso. by apply (idle_waits w c Hd).
  - intros t tag rest. by apply (deliver_next_waits (txn_at chain) start).
Qed.
End properties.
