(* ===== verification/Instances.v ===== *)
(** * Concrete parameters

    One instance of each class of parameters, with its laws: an in-memory storage engine, schema batches
    as nested maps, and a small libra in which a signature is the pair of the signer's key and the signed
    hash.  They show that the assumptions of the development can hold and let its definitions run. *)
From stdpp Require Import sorting fin finite.
From S2P Require Import Prelude Codec Libra SchemaDB.

(** ** The storage engine *)

Definition entry_le (a b : bytes * bytes) : Prop := bytes_le a.1 b.1 = true.
#[local] Instance entry_le_dec : RelDecision entry_le.
Proof. intros a b. unfold entry_le. apply _. Defined.
#[local] Instance entry_le_total : Total entry_le.
Proof. intros a b. apply bytes_le_total. Qed.
#[local] Instance entry_le_trans : Transitive entry_le.
Proof. intros a b c. apply bytes_le_trans. Qed.

Definition sorted_entries (m : gmap bytes bytes) : list (bytes * bytes) := merge_sort entry_le (map_to_list m).

Notation mem_db := (gmap string (gmap bytes bytes)).
Definition mem_table (d : mem_db) (cf : string) : gmap bytes bytes := default ∅ (d !! cf).
Definition mem_op (d : mem_db) (op : batch_op) : mem_db :=
  <[op.1.1 := match op.2 with
              | Some v => <[op.1.2 := v]> (mem_table d op.1.1)
              | None => base.delete op.1.2 (mem_table d op.1.1)
              end]> d.
Definition mem_seek (d : mem_db) (cf : string) (k : bytes) : list (bytes * bytes) :=
  List.filter (fun e => bytes_le k e.1) (sorted_entries (mem_table d cf)).
Definition mem_prev_ok (d : mem_db) (cf : string) (t : bytes) (k : bytes) : bool :=
  existsb (fun e : bytes * bytes => bytes_le e.1 t) (sorted_entries (mem_table d cf)) &&
  forallb (fun e : bytes * bytes => implb (bytes_le e.1 t) (bytes_le e.1 k)) (sorted_entries (mem_table d cf)).
Definition mem_seek_for_prev (d : mem_db) (cf : string) (t : bytes) : list (bytes * bytes) :=
  List.filter (fun e => mem_prev_ok d cf t e.1) (sorted_entries (mem_table d cf)).
Definition mem_in_range (b e k : bytes) : bool := bytes_le b k && negb (bytes_le e k).

Definition mem_rocks : RocksDB := {|
  DB := mem_db;
  db_get := fun d cf k => mem_table d cf !! k;
  db_write := fun d ops => Ok (fold_left mem_op ops d);
  db_delete_range := fun d cf b e =>
    Ok (<[cf := filter (fun kv : bytes * bytes => mem_in_range b e kv.1 = false) (mem_table d cf)]> d);
  db_seek := mem_seek;
  db_seek_for_prev := mem_seek_for_prev
|}.

Lemma elem_of_sorted_entries m k v : (k, v) ∈ sorted_entries m <-> m !! k = Some v.
Proof. unfold sorted_entries. by rewrite (merge_sort_Permutation entry_le), elem_of_map_to_list. Qed.

Lemma keys_sorted_sorted_entries m : keys_sorted (sorted_entries m).
Proof.
  assert (NoDup (sorted_entries m).*1) as Hnd.
  { unfold sorted_entries. rewrite (merge_sort_Permutation entry_le). apply NoDup_fst_map_to_list. }
  pose proof (StronglySorted_merge_sort entry_le (map_to_list m)) as Hs.
  fold (sorted_entries m) in Hs. revert Hnd Hs. unfold keys_sorted.
  induction (sorted_entries m) as [|e l IH]; intros Hnd Hs; [constructor|].
  rewrite fmap_cons in *. apply NoDup_cons in Hnd as [Hni Hnd].
  apply StronglySorted_inv in Hs as [Hs Ha]. constructor; [auto|].
  rewrite Forall_fmap, Forall_forall. rewrite Forall_forall in Ha. intros e' He'.
  apply bytes_le_neq_lt; [by apply Ha|]. simpl. intros E. apply Hni. rewrite E.
  by apply list_elem_of_fmap_2.
Qed.

Lemma mem_table_insert d cf t cf' : mem_table (<[cf := t]> d) cf' = if decide (cf' = cf) then t else mem_table d cf'.
Proof.
  unfold mem_table. case_decide as Hd; [subst; by rewrite lookup_insert_eq|by rewrite lookup_insert_ne].
Qed.

Lemma mem_op_get d op cf k :
  mem_table (mem_op d op) cf !! k = if bool_decide (op.1 = (cf, k)) then op.2 else mem_table d cf !! k.
Proof.
  destruct op as [[cf' k'] v]. unfold mem_op. rewrite mem_table_insert. simpl.
  case_decide as Hcf; [subst cf'|by rewrite bool_decide_eq_false_2 by congruence].
  destruct (decide (k' = k)) as [->|Hk].
  - rewrite bool_decide_eq_true_2 by done. destruct v; [apply lookup_insert_eq|apply lookup_delete_eq].
  - rewrite bool_decide_eq_false_2 by congruence. destruct v; [by apply lookup_insert_ne|by apply lookup_delete_ne].
Qed.

Lemma mem_seek_elem d cf k k' v : (k', v) ∈ mem_seek d cf k <-> mem_table d cf !! k' = Some v /\ bytes_le k k' = true.
Proof. unfold mem_seek. by rewrite list_elem_of_In, filter_In, <-list_elem_of_In, elem_of_sorted_entries. Qed.

Lemma mem_prev_ok_spec d cf t k : mem_prev_ok d cf t k = true <->
  (exists k0, is_Some (mem_table d cf !! k0) /\ bytes_le k0 t = true) /\
  (forall k0, is_Some (mem_table d cf !! k0) -> bytes_le k0 t = true -> bytes_le k0 k = true).
Proof.
  unfold mem_prev_ok. rewrite andb_true_iff, existsb_exists, forallb_forall. split.
  - intros [([k0 v0] & Hin & Ht) Hall]. rewrite <-list_elem_of_In, elem_of_sorted_entries in Hin.
    split; [exists k0; eauto|]. intros k1 [v1 Hk1] Hk1t. specialize (Hall (k1, v1)).
    rewrite <-list_elem_of_In, elem_of_sorted_entries in Hall. specialize (Hall Hk1). simpl in Hall.
    by rewrite Hk1t in Hall.
  - intros [(k0 & [v0 Hk0] & Ht) Hall]. split.
    + exists (k0, v0). by rewrite <-list_elem_of_In, elem_of_sorted_entries.
    + intros [k1 v1]. rewrite <-list_elem_of_In, elem_of_sorted_entries. simpl. intros Hk1.
      destruct (bytes_le k1 t) eqn:E; [|done]. simpl. apply Hall; [eauto|done].
Qed.

Lemma mem_rocks_laws : @RocksDBLaws mem_rocks.
Proof.
  split; simpl.
  - intros d ops d' cf k [= <-]. unfold apply_ops. revert d. induction ops as [|op ops IH]; intros d; simpl; [done|].
    rewrite IH. f_equal. apply mem_op_get.
  - done.
  - intros d cf b e d' cf' k [= <-]. rewrite mem_table_insert.
    destruct (decide (cf' = cf)) as [->|Hcf]; [|case_decide; [naive_solver|done]].
    apply option_eq. intros v. rewrite map_lookup_filter_Some. unfold mem_in_range, bytes_lt. simpl.
    case_decide as Hd.
    + destruct Hd as (_ & -> & ->). simpl. naive_solver.
    + split; [tauto|]. intros Hv. split; [done|]. destruct (bytes_le b k), (bytes_le e k); simpl; tauto.
  - intros d cf k. apply keys_sorted_filter, keys_sorted_sorted_entries.
  - intros d cf k k' v. apply mem_seek_elem.
  - intros d cf k. apply keys_sorted_filter, keys_sorted_sorted_entries.
  - intros d cf t k' v. unfold mem_seek_for_prev.
    rewrite list_elem_of_In, filter_In, <-list_elem_of_In, elem_of_sorted_entries. simpl.
    by rewrite mem_prev_ok_spec.
Qed.

(** ** Schema batches *)

Notation map_batch := (gmap (string * bytes) (option bytes)).

Definition map_batches : SchemaBatches := {|
  SchemaBatch := map_batch;
  batch_new := ∅;
  batch_put := fun cf k v b => <[(cf, k) := Some v]> b;
  batch_delete := fun cf k b => <[(cf, k) := None]> b;
  batch_rows := fun b => map (fun e : (string * bytes) * option bytes => (e.1.1, [(e.1.2, e.2)])) (map_to_list b)
|}.

Lemma map_batch_ops (l : list ((string * bytes) * option bytes)) :
  rows_ops (map (fun e => (e.1.1, [(e.1.2, e.2)])) l) = l.
Proof. induction l as [|[[cf k] op] l IH]; simpl; [done|]. by f_equal. Qed.

Lemma map_batches_laws : @SchemaBatchesLaws map_batches.
Proof.
  split; simpl; intros *; rewrite ?map_batch_ops, ?elem_of_map_to_list.
  - apply NoDup_fst_map_to_list.
  - intros Hin. change (map ?f ?l) with (fmap f l) in Hin.
    apply list_elem_of_fmap in Hin as (e & -> & _). done.
  - by rewrite lookup_empty.
  - rewrite lookup_insert_Some. naive_solver.
  - rewrite lookup_insert_Some. naive_solver.
Qed.

(** ** A small libra

    Addresses are single bytes, a hash is the salt with the hashed bytes, a key pair is its number and a
    signature the pair of the key and the hash. *)

Notation toy_addr := (fin 256).
Notation toy_hash := (string * bytes)%type.
Notation toy_arg := (toy_addr + Z + bytes)%type.
(** The address of a channel is that of one of its participants. *)
Definition toy_channel_address (X : gset toy_addr) : toy_addr := default 0%fin (head (elements X)).

Definition to_blob {A} `{Countable A} (a : A) : bytes := [Zpos (encode a)].
Definition of_blob {A} `{Countable A} (b : bytes) : res A :=
  match b with [Zpos p] => ok_or (decode p) "blob" | _ => Err "blob" end.

Lemma of_to_blob {A} `{Countable A} (a : A) : of_blob (to_blob a) = Ok a.
Proof. simpl. by rewrite decode_encode. Qed.

Definition toy_addr_vec (a : toy_addr) : bytes := [Z.of_nat (fin_to_nat a)].
Definition toy_addr_from (b : bytes) : res toy_addr :=
  match b with
  | [z] => match decide (Z.to_nat z < 256)%nat with left h => Ok (nat_to_fin h) | right _ => Err "address" end
  | _ => Err "address"
  end.

(** A write set has at most one item.  A witness is its sequence number, write set and signatures; a
    payload body its four parts. *)
Notation toy_ws := (option (nat * WriteOp)).
Record toy_witness := mkToyWitness { tw_seq : Z; tw_ws : toy_ws; tw_sigs : list (Z * toy_hash) }.
Record toy_body := mkToyBody { tb_channel : toy_addr; tb_proposer : toy_addr; tb_action : string; tb_witness : toy_witness }.
Record toy_payload := mkToyPayload { tp_body : toy_body; tp_keys : list Z; tp_sigs : list (option (Z * toy_hash)) }.
Record toy_txn := mkToyTxn { tt_sender : toy_addr; tt_seq : Z; tt_payload : option toy_payload }.
Record toy_output := mkToyOutput { to_ws : toy_ws; to_travel : bool }.

#[global] Instance WriteOp_countable : Countable WriteOp.
Proof.
  refine (inj_countable' (fun o => match o with Value v => Some v | Deletion => None end)
            (fun o => match o with Some v => Value v | None => Deletion end) _).
  by intros [].
Defined.
#[global] Instance toy_witness_eq : EqDecision toy_witness.
Proof. solve_decision. Defined.
#[global] Instance toy_body_eq : EqDecision toy_body.
Proof. solve_decision. Defined.
#[global] Instance toy_payload_eq : EqDecision toy_payload.
Proof. solve_decision. Defined.
#[global] Instance toy_txn_eq : EqDecision toy_txn.
Proof. solve_decision. Defined.
#[global] Instance toy_output_eq : EqDecision toy_output.
Proof. solve_decision. Defined.
#[global] Instance toy_witness_countable : Countable toy_witness.
Proof.
  refine (inj_countable' (fun w => (tw_seq w, tw_ws w, tw_sigs w)) (fun w => mkToyWitness w.1.1 w.1.2 w.2) _).
  by intros [].
Defined.
#[global] Instance toy_body_countable : Countable toy_body.
Proof.
  refine (inj_countable' (fun b => (tb_channel b, tb_proposer b, tb_action b, tb_witness b))
            (fun b => mkToyBody b.1.1.1 b.1.1.2 b.1.2 b.2) _).
  by intros [].
Defined.

Definition toy_libra : Libra := {|
  AccountAddress := toy_addr; ADDRESS_LENGTH := 1;
  address_to_vec := toy_addr_vec; address_try_from := toy_addr_from;
  address_from_participants := toy_channel_address;
  HashValue := toy_hash; HashValue_default := (String.EmptyString, []);
  hash_to_vec := to_blob; hash_from_slice := of_blob;
  Ed25519PublicKey := Z; pk_to_bytes := to_blob; pk_try_from := of_blob;
  Ed25519Signature := Z * toy_hash; sig_to_bytes := to_blob; sig_try_from := of_blob;
  KeyPair := Z; public_key := fun k => k; sign_message := fun k h => (k, h);
  verify_signature := fun k h s => ensure (bool_decide (s = (k, h))) "signature";
  hasher := pair; from_sha3_256 := pair "sha3";
  AccessPath := nat; path_address := fun _ => nat_to_fin (p:=0) (n:=256) (Nat.lt_0_succ 255);
  path_path := fun p => [Z.of_nat p];
  path_participant := fun p => match decide (p < 256)%nat with left h => Some (nat_to_fin h) | right _ => None end;
  is_channel_resource := fun p => bool_decide (p < 512)%nat;
  WriteSet := toy_ws; WriteSet_default := None; ws_iter := option_list;
  ws_get := fun w p => (list_to_map (option_list w) : gmap nat WriteOp) !! p;
  ws_freeze := fun l => match l with [] => Ok None | [x] => Ok (Some x) | _ => Err "write set" end;
  TransactionArgument := toy_arg; TransactionArgument_Address := fun a => inl (inl a);
  TransactionArgument_U64 := fun n => inl (inr n); TransactionArgument_ByteArray := inr;
  arg_U64 := fun a => match a with inl (inr n) => Some n | _ => None end;
  arg_ByteArray := fun a => match a with inr b => Some b | _ => None end;
  pb_TransactionArgument := toy_arg; arg_into := fun a => a; arg_try_from := Ok;
  ContractEvent := Z; StatusCode := Z;
  WitnessData := Z * toy_ws; WitnessData_new := pair;
  witness_data_hash_of := fun w => ("WitnessData", to_blob w);
  Witness := toy_witness; Witness_new := fun w s => mkToyWitness w.1 w.2 s;
  Witness_default := mkToyWitness 0 None []; witness_channel_sequence_number := tw_seq; witness_write_set := tw_ws;
  ScriptAction := string; ScriptAction_new_call := fun m f _ => m.2 +:+ "." +:+ f; ScriptAction_new_code := fun _ _ => "code";
  Identifier_ok := fun _ => true;
  ChannelTransactionPayloadBody := toy_body; PayloadBody_new := mkToyBody;
  payload_body_hash := fun b => ("PayloadBody", to_blob b); payload_body_witness := tb_witness;
  ChannelTransactionPayload := toy_payload; ChannelPayload_new := mkToyPayload;
  payload_is_authorized := fun p => forallb (fun s => bool_decide (is_Some s)) (tp_sigs p);
  payload_public_keys := tp_keys; payload_channel_address := fun p => tb_channel (tp_body p);
  payload_proposer := fun p => tb_proposer (tp_body p); payload_witness := fun p => tb_witness (tp_body p);
  payload_channel_sequence_number := fun p => tw_seq (tb_witness (tp_body p));
  SignedTransaction := toy_txn; channel_payload := tt_payload; txn_sender := tt_sender; txn_sequence_number := tt_seq;
  raw_txn_hash := fun t => ("RawTransaction", [tt_seq t]);
  sign_raw_txn := fun _ sender seq p _ _ _ => Ok (mkToyTxn sender seq (Some p));
  TransactionOutput := toy_output; output_write_set := to_ws; output_events := fun _ => [];
  output_major_status := fun _ => 0%Z; output_gas_used := fun _ => 1%Z; is_travel_txn := to_travel
|}.

Lemma toy_verify (k : Z) (h : toy_hash) : ensure (bool_decide ((k, h) = (k, h))) "signature" = Ok tt.
Proof. by rewrite bool_decide_eq_true_2. Qed.

Lemma toy_addr_roundtrip (a : toy_addr) : toy_addr_from (toy_addr_vec a) = Ok a.
Proof.
  unfold toy_addr_from, toy_addr_vec. pose proof (fin_to_nat_lt a) as Ha. case_decide as Hd; [|lia].
  f_equal. apply (inj fin_to_nat). rewrite fin_to_nat_to_fin. lia.
Qed.

Lemma toy_addr_ok (a : toy_addr) : bytes_ok (toy_addr_vec a).
Proof. pose proof (fin_to_nat_lt a). repeat constructor; unfold u8_max; lia. Qed.

Lemma toy_addr_from_no_panic b : no_panic (toy_addr_from b).
Proof. unfold toy_addr_from. destruct b as [|z [|]]; [done| |done]. by case_decide. Qed.

Lemma of_blob_no_panic {A} `{Countable A} b : no_panic (of_blob b : res A).
Proof. destruct b as [|[|p|] [|]]; simpl; try done. by destruct (decode p). Qed.

Lemma toy_libra_laws : @LibraLaws toy_libra.
Proof.
  split; intros;
    solve [apply toy_addr_roundtrip|apply toy_addr_from_no_panic|exact (of_blob_no_panic (A := toy_hash) _)
          |exact (of_blob_no_panic (A := Z) _)|exact (of_blob_no_panic (A := Z * toy_hash) _)|apply toy_addr_ok|exact (of_to_blob (A := toy_hash) _)
          |exact (of_to_blob (A := Z) _)|exact (of_to_blob (A := Z * toy_hash) _)|apply toy_verify|by destruct ws|done].
Qed.

(** ** Witnesses of the storage theorems *)

Section witnesses.
#[local] Existing Instances toy_libra toy_libra_laws mem_rocks mem_rocks_laws map_batches map_batches_laws.

Definition demo_schema : Schema :=
  mkSchema Z bytes DEFAULT_CF_NAME encode_u64_key decode_u64_key (fun v => v) Ok.
Definition demo_db (a : toy_addr) : ChannelDB := mkChannelDB (mkSgStorage (∅ : mem_db) 0%fin) a.
Definition demo_batch : SchemaBatch := put demo_schema 2%Z [20%Z] (put demo_schema 1%Z [10%Z] batch_new).
Definition demo_written : ChannelDB :=
  with_rocks (demo_db 7%fin) (fold_left mem_op (map (prefix_op (demo_db 7%fin)) (rows_ops (batch_rows demo_batch))) ∅).

#[local] Instance demo_storable : StorableSchema demo_schema.
Proof.
  split; [left|]. intros k. simpl. split; [done|]. apply be_bytes_ok.
Qed.

Lemma demo_batch_ok : batch_ok demo_batch.
Proof. apply (batch_ok_put demo_schema), (batch_ok_put demo_schema), batch_ok_new. Qed.

Lemma demo_db_ok (a : toy_addr) : fin_to_nat a <> 255 -> cdb_ok (demo_db a).
Proof.
  intros Ha. split; [|intros cf k _ [v Hv]; done].
  intros Hall. apply Forall_cons in Hall as [E _]. cbv beta in E. change (Z.of_nat (fin_to_nat a) = 255%Z) in E. lia.
Qed.

Lemma demo_write : cdb_write_schemas (demo_db 7%fin) demo_batch = Ok demo_written.
Proof. rewrite cdb_write_eq by apply demo_batch_ok. reflexivity. Qed.

Lemma channel_db_read_your_writes_witness : cdb_get demo_schema demo_written 2%Z = Ok (Some [20%Z]).
Proof.
  rewrite (channel_db_read_your_writes demo_schema (demo_db 7%fin) demo_batch demo_written 2%Z
    (demo_db_ok 7%fin ltac:(done)) demo_batch_ok ltac:(left) demo_write). by vm_compute.
Defined.

Lemma channel_db_iterates_witness :
  exists found raw, cdb_iter demo_schema (demo_db 7%fin) SeekLast = Ok (found, decode_entry demo_schema <$> raw) /\
    keys_sorted raw.
Proof.
  destruct (channel_db_iterates demo_schema (demo_db 7%fin) SeekLast (demo_db_ok 7%fin ltac:(done)) ltac:(left))
    as (found & raw & H1 & H2 & _).
  by exists found, raw.
Defined.

Lemma channel_db_isolated_witness :
  cdb_get demo_schema (mkChannelDB (inner demo_written) 8%fin) 2%Z = cdb_get demo_schema (demo_db 8%fin) 2%Z.
Proof.
  apply (channel_db_isolated (demo_db 7%fin) (demo_db 8%fin) demo_batch demo_written eq_refl ltac:(done)
    demo_batch_ok (demo_db_ok 7%fin ltac:(done)) (demo_db_ok 8%fin ltac:(done)) demo_write demo_schema ltac:(left)).
Defined.

Definition ones_db : ChannelDB :=
  mkChannelDB (mkSgStorage ({[DEFAULT_CF_NAME := {[prefix_key [255%Z] (encode_u64_key 5) := [1%Z]]}]} : mem_db) 0%fin) 255%fin.

Lemma seek_to_last_misses_all_ones_witness :
  cdb_get demo_schema ones_db 5%Z = Ok (Some [1%Z]) /\
  exists found, cdb_iter demo_schema ones_db SeekLast = Ok (found, []).
Proof.
  split; [by vm_compute|].
  apply (seek_to_last_misses_all_ones demo_schema ones_db).
  - repeat constructor.
  - left.
  - intros k [v Hv]. exists 5%Z. unfold cdb_view in Hv. simpl in Hv. unfold mem_table in Hv. simpl in Hv.
    rewrite lookup_singleton_eq in Hv. simpl in Hv. apply lookup_singleton_Some in Hv as [E _].
    unfold prefix_key, cdb_prefix in E. simpl in E. by injection E as <-.
Defined.
End witnesses.
