(* ===== verification/NetWitnesses.v ===== *)
(** * The network theorems at work

    A transport that keeps what it was given and delivers what it was made with, with its laws, and the
    theorems on substreams, handlers and the behaviour applied to concrete runs. *)
From S2P Require Import Prelude Codec PeersState Peerset Substream ProtoHandler CustomProto.

(** ** A transport in memory *)

Record mem_stream := mkMemStream { ms_taken : list bytes; ms_incoming : list bytes; ms_ended : bool }.

#[global] Instance mem_framed : Framed := {|
  Inner := mem_stream;
  inner_start_send p := fun i =>
    if bool_decide (length (ms_taken i) < 3)
    then (Ok SinkReady, mkMemStream (ms_taken i ++ [p]) (ms_incoming i) (ms_ended i)) else (Ok (SinkNotReady p), i);
  inner_poll_complete := fun i => (Ok (Ready tt), i);
  inner_close := fun i => (Ok (Ready tt), i);
  inner_poll := fun i =>
    match ms_incoming i with
    | d :: l => (Ok (Ready (Some d)), mkMemStream (ms_taken i) l (ms_ended i))
    | [] => (Ok (if ms_ended i then Ready None else NotReady), i)
    end
|}.

#[global] Instance mem_framed_laws : FramedLaws.
Proof.
  refine {| accepted := (ms_taken : Inner -> list bytes); finished := fun i : Inner => ms_incoming i = [] /\ ms_ended i = true |}.
  - intros p i. simpl. by case_bool_decide.
  - done.
  - done.
  - intros [t [|d l] []]; done.
  - intros [t l e] [Hl He]. simpl in *. by subst.
Defined.

(** Four packets: the transport takes three, the fourth waits; one message is received. *)
Definition demo_socket : @Inner mem_framed := mkMemStream [] [[7]%Z] false.
Definition demo_ops : list ss_op := [SsSend [1%Z]; SsSend [2%Z]; SsPoll; SsSend [3%Z]; SsSend [4%Z]; SsPoll].

Lemma substream_sends_in_order_witness :
  exists outs s, ss_run demo_ops (upgrade_inbound demo_socket 1) = (Ok outs, s) /\
    ms_taken (inner s) ++ send_queue s = sent demo_ops /\ length (send_queue s) = 1.
Proof.
  destruct (substream_sends_in_order demo_socket 1 demo_ops _ (or_introl eq_refl)) as [_ Hr].
  assert (exists outs s, ss_run demo_ops (upgrade_inbound demo_socket 1) = (Ok outs, s) /\ length (send_queue s) = 1)
    as (outs & s & E & Hl) by (eexists _, _; vm_compute; split; reflexivity).
  exists outs, s. split; [exact E|]. split; [|exact Hl]. destruct (Hr outs s E) as [Hs _]. exact Hs.
Defined.

(** A handler that is enabled with a substream, passes on a message and loses its only substream. *)
Definition demo_stream : RegisteredProtocolSubstream := upgrade_inbound (mkMemStream [] [[7]%Z] true : @Inner mem_framed) 1.
Definition demo_handler_inputs : list handler_input :=
  [HNegotiated demo_stream; HTold Enable; HPoll (Ok NotReady); HPoll (Ok NotReady); HTold (SendCustomMessage [5%Z]);
   HPoll (Ok NotReady); HDialError UpgrTimeout; HTold Disable; HPoll (Ok NotReady)].

Lemma handler_keeps_contract_witness :
  exists os o p, handler_run demo_handler_inputs (into_handler (RegisteredProtocol_new [1%Z] [1%Z]) Listener) = Ok (os, o) /\
    observes (mkPhase false false) os = Some p /\
    os = [Told Enable; Reported (CustomProtocolOpen 1); Reported (CustomMessage [7%Z]); Told (SendCustomMessage [5%Z]);
          Reported (CustomProtocolClosed "All substreams have been closed by the remote"); Told Disable;
          Reported (ProtocolError false "upgrade error")].
Proof.
  destruct (handler_keeps_contract (RegisteredProtocol_new [1%Z] [1%Z]) Listener demo_handler_inputs) as (os & o & p & Hr & Ho).
  - intros s. unfold demo_handler_inputs. rewrite !elem_of_cons, elem_of_nil. intros Hs.
    exists (mkMemStream [] [[7]%Z] true : @Inner mem_framed), 1%Z. left. repeat destruct Hs as [Hs|Hs]; try discriminate; [by injection Hs as ->|done].
  - exists os, o, p. split; [exact Hr|]. split; [exact Ho|]. vm_compute in Hr. by injection Hr as <- _.
Defined.

Lemma inbound_substream_forgets_enable_witness :
  exists h sh, handler_run ([HTold Disable; HTold Enable; HNegotiated demo_stream] ++ [HPoll (Ok NotReady); HPoll (Ok NotReady)])
      (into_handler (RegisteredProtocol_new [1%Z] [1%Z]) Dialer) = Ok ([Told Disable; Told Enable], Some h) /\
    h_state h = DisabledState sh false.
Proof.
  destruct (inbound_substream_forgets_enable (RegisteredProtocol_new [1%Z] [1%Z]) Dialer demo_stream (Ok NotReady)
    [HPoll (Ok NotReady); HPoll (Ok NotReady)]) as [_ (h & sh & Hr & Hs & _)].
  - exists (mkMemStream [] [[7]%Z] true : @Inner mem_framed), 1%Z. by left.
  - repeat constructor.
  - exists h, sh. split; [exact Hr|exact Hs].
Defined.

(** ** The behaviour *)

#[local] Existing Instance canonical_order.

(** Peer 1 is dialled, connects, opens, sends a message and leaves; peer 4 comes in and is banned for a
    protocol error. *)
Definition demo_inputs : list (input nat string) :=
  [IPoll no_timer; IPoll no_timer; IConnected 1 (PointDialer "one"); IPoll no_timer; IPoll no_timer; IPoll no_timer;
   INode 1 (CustomProtocolOpen 1); INode 1 (CustomMessage [7%Z]); IPoll no_timer; IConnected 4 remote; IPoll no_timer;
   IPoll no_timer; IPoll no_timer; INode 4 (ProtocolError true "bad"); IDisconnectPeer 2; ISendPacket 1 [8%Z]; IDiscovered [5];
   IPoll no_timer; IDisconnected 1 5; IPoll no_timer].

Definition demo_run : res (list (BehaviourAction (PeerId := nat) (Multiaddr := string)) * CustomProto nat string * gmap nat phase) :=
  cp ← start demo_clock [1%Z] [1%Z] demo_cfg; cp_run demo_clock timely 20 demo_inputs cp ∅.

Lemma demo_inputs_known : Forall (fun i => input_ids i ⊆ demo_universe) demo_inputs.
Proof. unfold demo_inputs, demo_universe. repeat constructor; simpl; set_solver. Qed.



