(* ===== verification/Witnesses.v ===== *)
(** * The channel theorems at work

    Concrete parameters for the channel (accumulators that keep their leaves, serialization by an
    injection into bit lists, a chain whose VM increments the sequence number of the channel) with their
    laws, and the channel theorems applied to concrete channels. *)
From stdpp Require Import sorting fin finite.
From S2P Require Import Prelude Codec Libra SchemaDB Accumulator ChannelTypes ChannelStore TxApplier Chain ChannelStm Channel Instances.

(** ** Serialization *)

Fixpoint pos_bytes (p : positive) : bytes :=
  match p with xH => [2%Z] | xO q => 0%Z :: pos_bytes q | xI q => 1%Z :: pos_bytes q end.
Fixpoint bytes_pos (b : bytes) : positive :=
  match b with
  | 0%Z :: r => xO (bytes_pos r)
  | 1%Z :: r => xI (bytes_pos r)
  | _ => xH
  end.

Lemma bytes_pos_bytes p : bytes_pos (pos_bytes p) = p.
Proof. induction p; simpl; congruence. Qed.

Lemma pos_bytes_ok p : bytes_ok (pos_bytes p).
Proof. induction p; simpl; repeat constructor; try done; unfold u8_max; lia. Qed.

Lemma pos_bytes_nonempty p : pos_bytes p <> [].
Proof. by destruct p. Qed.

Definition countable_lcs (T : Type) `{Countable T} : Lcs T.
Proof.
  refine {| lcs_to_bytes := fun x => pos_bytes (encode x);
            lcs_from_bytes := fun b => ok_or (decode (bytes_pos b)) "lcs" |}.
  - intros x. by rewrite bytes_pos_bytes, decode_encode.
  - intros x. apply pos_bytes_ok.
  - intros x. apply pos_bytes_nonempty.
Defined.

(** ** Accumulators

    One node, whose hash is the list of the leaves. *)

Section toy_accumulators.
#[local] Existing Instance toy_libra.

Definition toy_root (salt : string) (ls : list toy_hash) : toy_hash := (salt, to_blob ls).
Definition toy_nodes (ls : list toy_hash) : list (unit * toy_hash) :=
  match ls with [] => [] | _ => [(tt, ("node", to_blob ls))] end.
Definition toy_leaves (reader : unit -> res toy_hash) (n : Z) : res (list toy_hash) :=
  if bool_decide (n = 0%Z) then Ok [] else h ← reader tt; of_blob h.2.

Definition toy_accumulators : @Accumulators toy_libra := {|
  Position := unit; to_postorder_index := fun _ => 0%Z; from_postorder_index := fun _ => tt;
  to_inorder_index := fun _ => 0%Z; from_inorder_index := fun _ => tt;
  AccumulatorProof := Z; AccumulatorConsistencyProof := Z;
  acc_append := fun salt reader n hs =>
    ls ← toy_leaves reader n; Ok (toy_root salt (ls ++ hs), toy_nodes (ls ++ hs));
  acc_get_proof := fun _ _ _ i => Ok i; acc_get_consistency_proof := fun _ _ _ i => Ok i;
  acc_get_frozen_subtree_hashes := fun _ reader n => toy_leaves reader n;
  InMemoryAccumulator := string * list toy_hash;
  mem_new := fun salt ls _ => Ok (salt, ls); mem_default := fun salt => (salt, []);
  mem_append := fun a hs => (a.1, a.2 ++ hs); mem_root_hash := fun a => toy_root a.1 a.2;
  mem_num_leaves := fun a => Z.of_nat (length a.2)
|}.

Lemma toy_leaves_ok (reader : unit -> res toy_hash) ls : (forall p h, (p, h) ∈ toy_nodes ls -> reader p = Ok h) ->
  toy_leaves reader (Z.of_nat (length ls)) = Ok ls.
Proof.
  intros Hr. unfold toy_leaves. destruct ls as [|x ls]; [done|]. rewrite bool_decide_eq_false_2 by (simpl; lia).
  rewrite (Hr tt ("node", to_blob (x :: ls))) by (simpl; left). rstep. apply of_to_blob.
Qed.

Lemma toy_accumulators_laws : @AccumulatorsLaws toy_libra toy_accumulators.
Proof.
  refine (@Build_AccumulatorsLaws toy_libra toy_accumulators toy_root (fun _ ls => ls) (fun _ => toy_nodes)
    (fun salt a ls => a = (salt, ls)) _ _ _ _ _ _ _ _ _ _ _ _ _ _); simpl; try done.
  - by intros [].
  - by intros [].
  - intros salt reader ls hs Hr. exists (toy_nodes (ls ++ hs)). split_and!.
    + by rewrite (toy_leaves_ok reader ls Hr).
    + destruct (ls ++ hs); simpl; repeat constructor. apply not_elem_of_nil.
    + intros reader' H1 _. apply H1.
  - intros salt reader ls. apply toy_leaves_ok.
  - eauto.
  - eauto.
  - eauto.
  - by intros salt a ls hs ->.
  - by intros salt a ls ->.
  - by intros salt a ls ->.
Defined.
End toy_accumulators.

(** ** Codecs *)

Section toy_codecs.
#[local] Existing Instance toy_libra.

#[global] Instance toy_payload_countable : Countable toy_payload.
Proof. refine (inj_countable' (fun p => (tp_body p, tp_keys p, tp_sigs p)) (fun x => mkToyPayload x.1.1 x.1.2 x.2) _). by intros []. Defined.
#[global] Instance toy_txn_countable : Countable toy_txn.
Proof. refine (inj_countable' (fun t => (tt_sender t, tt_seq t, tt_payload t)) (fun x => mkToyTxn x.1.1 x.1.2 x.2) _). by intros []. Defined.
#[global] Instance toy_output_countable : Countable toy_output.
Proof. refine (inj_countable' (fun o => (to_ws o, to_travel o)) (fun x => mkToyOutput x.1 x.2) _). by intros []. Defined.

Definition op_code (o : ChannelOp) : Z * (toy_addr * string * string) :=
  match o with
  | Open => (0%Z, (0%fin, String.EmptyString, String.EmptyString))
  | Execute p s => (1%Z, (0%fin, p, s))
  | OpAction a m f => (2%Z, (a, m, f))
  | Close => (3%Z, (0%fin, String.EmptyString, String.EmptyString))
  end.
Definition op_decode (c : Z * (toy_addr * string * string)) : ChannelOp :=
  match c.1 with
  | 0%Z => Open
  | 1%Z => Execute c.2.1.2 c.2.2
  | 2%Z => OpAction c.2.1.1 c.2.1.2 c.2.2
  | _ => Close
  end.
#[global] Instance toy_op_countable : Countable ChannelOp.
Proof. refine (inj_countable' op_code op_decode _). by intros []. Defined.
#[global] Instance toy_channel_txn_countable : Countable ChannelTransaction.
Proof.
  refine (inj_countable' (fun t : ChannelTransaction => ((ct_version t, ct_channel_address t : toy_addr, ct_channel_sequence_number t, ct_operator t),
            (ct_args t : list toy_arg, ct_proposer t : toy_addr, ct_sequence_number t, ct_expiration_time t)))
          (fun x => let '((a, b, c, d), (e, f, g, h)) := x in mkChannelTransaction a b c d e f g h) _).
  by intros [].
Defined.
#[global] Instance toy_proposal_countable : Countable ChannelTransactionProposal.
Proof.
  refine (inj_countable' (fun p : ChannelTransactionProposal => (channel_txn p, proposer_public_key p : Z, proposer_signature p : Z * toy_hash))
            (fun x => mkProposal x.1.1 x.1.2 x.2) _).
  by intros [].
Defined.
#[global] Instance toy_sigs_countable : Countable ChannelTransactionSigs.
Proof.
  refine (inj_countable' (fun s : ChannelTransactionSigs => ((sigs_address s : toy_addr, sigs_public_key s : Z, channel_payload_signature s : Z * toy_hash),
              (witness_data_hash s : toy_hash, witness_data_signature s : Z * toy_hash, travel_output_witness_signature s : option (Z * toy_hash))))
            (fun x => mkSigs x.1.1.1 x.1.1.2 x.1.2 x.2.1.1 x.2.1.2 x.2.2) _).
  by intros [].
Defined.
Definition lifecycle_of (z : Z) : ProposalLifecycle :=
  match z with 0%Z => Created | 1%Z => Negotiating | 2%Z => Agreed | 3%Z => Applying | _ => Traveling end.
#[global] Instance toy_lifecycle_countable : Countable ProposalLifecycle.
Proof. refine (inj_countable' lifecycle_rank lifecycle_of _). by intros []. Defined.
#[global] Instance toy_pending_countable : Countable PendingTransaction.
Proof.
  refine (inj_countable' (fun p : PendingTransaction => (pt_proposal p, pt_output p : toy_output, map_to_list (pt_signatures p) : list (toy_addr * ChannelTransactionSigs), pt_lifecycle p))
            (fun x => mkPending x.1.1.1 x.1.1.2 (list_to_map x.1.2) x.2) _).
  intros [? ? sigs ?]. f_equal. simpl. apply list_to_map_to_list.
Defined.
#[global] Instance toy_signed_eq : EqDecision SignedChannelTransaction.
Proof. solve_decision. Defined.
#[global] Instance toy_applied_eq : EqDecision AppliedChannelTxn.
Proof. solve_decision. Defined.
Definition applied_code (a : AppliedChannelTxn) : (ChannelTransaction * list (toy_addr * ChannelTransactionSigs)) + toy_txn :=
  match a with Offchain t => inl (raw_tx t, map_to_list (sct_signatures t)) | Travel t => inr t end.
Definition applied_decode (x : (ChannelTransaction * list (toy_addr * ChannelTransactionSigs)) + toy_txn) : AppliedChannelTxn :=
  match x with inl (t, l) => Offchain (mkSignedChannelTransaction t (list_to_map l)) | inr t => Travel t end.
#[global] Instance toy_applied_countable : Countable AppliedChannelTxn.
Proof.
  refine (inj_countable' applied_code applied_decode _).
  intros [[t l]|t]; [|done]. simpl. do 2 f_equal. apply list_to_map_to_list.
Defined.
#[global] Instance toy_info_eq : EqDecision ChannelTransactionInfo.
Proof. solve_decision. Defined.
#[global] Instance toy_info_countable : Countable ChannelTransactionInfo.
Proof.
  refine (inj_countable' (fun i : ChannelTransactionInfo => ((signed_transaction_hash i : toy_hash, write_set_root_hash i : toy_hash, event_root_hash i : toy_hash),
             (ti_major_status i : Z, ti_travel i, ti_gas_used i)))
           (fun x => mkTxnInfo x.1.1.1 x.1.1.2 x.1.2 x.2.1.1 x.2.1.2 x.2.2) _).
  by intros [].
Defined.
#[global] Instance toy_ledger_info_eq : EqDecision LedgerInfo.
Proof. solve_decision. Defined.
#[global] Instance toy_ledger_info_countable : Countable LedgerInfo.
Proof.
  refine (inj_countable' (fun i : LedgerInfo => (li_version i, transaction_accumulator_hash i : toy_hash, li_epoch i, timestamp_usecs i))
           (fun x => mkLedgerInfo x.1.1.1 x.1.1.2 x.1.2 x.2) _).
  by intros [].
Defined.

Definition toy_codecs : @StoreCodecs toy_libra.
Proof.
  refine {| lcs_txn_info := countable_lcs ChannelTransactionInfo;
            lcs_applied_txn := countable_lcs AppliedChannelTxn;
            lcs_ledger_info := countable_lcs LedgerInfo;
            lcs_write_set_item := countable_lcs (nat * WriteOp);
            lcs_pending_txn := countable_lcs PendingTransaction;
            lcs_participant_key := countable_lcs (option Z);
            lcs_address := countable_lcs toy_addr;
            lcs_string := countable_lcs string;
            tba_encode_key := fun k : toy_addr * Z => pos_bytes (encode k);
            tba_decode_key := fun b => ok_or (decode (bytes_pos b)) "key";
            tba_encode_value := fun v : Z => pos_bytes (encode v);
            tba_decode_value := fun b => ok_or (decode (bytes_pos b)) "value" |}.
  intros k. split; [apply pos_bytes_nonempty|apply pos_bytes_ok].
Defined.

Definition toy_txn_codec : @ChannelTxnCodec toy_libra := countable_lcs ChannelTransaction.
End toy_codecs.

(** ** The chain

    Its VM writes the next sequence number of the channel into the mirror resource, at path 0. *)

Section toy_chain.
#[local] Existing Instance toy_libra.

Definition toy_byte (b : bytes) : res Z := match b with [z] => Ok z | _ => Err "resource" end.
Definition toy_output_of (t : toy_txn) : toy_output :=
  mkToyOutput (Some (0, Value [match tt_payload t with Some p => (tw_seq (tb_witness (tp_body p)) + 1)%Z | None => 0%Z end])) false.

Definition toy_chain : @Chain toy_libra := {|
  SparseMerkleProof := unit; SparseMerkleProof_empty := tt;
  account_state_blob_map := fun b => Ok {[ [600%Z] := b ]};
  mirror_path := fun _ => 0; channel_path := fun _ => 1; locked_by_path := fun _ => 2; account_path := fun _ => 600;
  decode_mirror_sequence_number := toy_byte;
  ChannelResource := Z; decode_channel_resource := toy_byte;
  resource_opened := fun r => bool_decide (r = 0%Z); resource_locked := fun r => bool_decide (r = 1%Z);
  resource_closed := fun r => bool_decide (r = 2%Z); resource_sequence_number := fun r => r; resource_event_count := fun r => r;
  decode_time_lock := toy_byte; decode_account_sequence_number := toy_byte;
  AccountAddress_default := (0%fin : toy_addr); core_code_address := (0%fin : toy_addr); account_module_name := "LibraAccount";
  execute_block := fun _ t => Ok [toy_output_of t];
  output_status := fun _ => Keep (0%Z : @StatusCode toy_libra); EXECUTED := (0%Z : @StatusCode toy_libra)
|}.

Lemma toy_chain_laws : @ChainLaws toy_libra toy_chain.
Proof.
  split.
  - intros kp kp' sender n payload gas price ex t H. exists t. exact H.
  - intros kp kp' sender n payload gas price ex t t' view H H'. change (@Ok toy_txn (mkToyTxn sender n (Some payload)) = Ok t) in H.
    change (@Ok toy_txn (mkToyTxn sender n (Some payload)) = Ok t') in H'. congruence.
Qed.
End toy_chain.

(** ** Witnesses *)

Section channel_witnesses.
#[local] Existing Instances toy_libra toy_libra_laws mem_rocks mem_rocks_laws map_batches map_batches_laws
  toy_accumulators toy_accumulators_laws toy_codecs toy_chain toy_chain_laws toy_txn_codec.

Definition alice : @AccountAddress toy_libra := (1%fin : toy_addr).
Definition bob : @AccountAddress toy_libra := (2%fin : toy_addr).
Definition parts : gset AccountAddress := {[ bob; alice ]}.
Notation demo := (demo_db 7%fin).

Lemma parts_nonempty : parts <> ∅.
Proof. set_solver. Qed.
Lemma demo_ok : sdb_ok demo.
Proof. by apply demo_db_ok. Qed.
Lemma demo_empty cf k : sdb_view demo cf k = None.
Proof. done. Qed.

Lemma mem_write_total (db : ChannelDB) b : batch_ok b -> exists db', sdb_write_schemas db b = Ok db'.
Proof. intros Hb. simpl. rewrite cdb_write_eq by done. simpl. eauto. Qed.

Lemma demo_store : exists s, ChannelStore_new parts demo = Ok s /\ ledger s [] /\ dom (cs_participant_keys s) = parts /\
  latest_ledger_info s = None.
Proof.
  destruct (new_store_ok demo parts demo_ok demo_empty) as (b & Hb & Hnew & _).
  destruct (mem_write_total demo b Hb) as [db' Hdb]. destruct (Hnew db' Hdb) as [Hl Hs]. eexists. split_and!; [done..| |done].
  apply dom_gset_to_gmap.
Qed.

Lemma demo_open : exists t : TxApplier (S := ChannelDB), open_applier parts demo = Ok t /\
  ChannelStore.participant_addresses (ta_store t) = parts.
Proof.
  destruct demo_store as (s & Hs & _ & Hd & Hi). unfold open_applier. rewrite Hs. rstep.
  unfold TxApplier_new, get_startup_info. rewrite Hi. simpl. eauto.
Qed.

Definition demo_txn (n : Z) : ChannelTransaction := mkChannelTransaction 5 (0%fin : toy_addr) n Open [] alice 3 0.
Definition demo_commit (n : Z) : TC :=
  mkToCommit (Offchain (mkSignedChannelTransaction (demo_txn n) ∅)) (None : toy_ws) [] (0%Z : @StatusCode toy_libra) 1.
Definition demo_pending : PendingTransaction :=
  mkPending (mkProposal (demo_txn 0) (1%Z : @Ed25519PublicKey toy_libra) ((1%Z, (String.EmptyString, [])) : @Ed25519Signature toy_libra))
    (mkToyOutput None false) ∅ Negotiating.
Definition demo_ops : list store_op := [OpSavePending demo_pending true; OpApply (demo_commit 0) 10; OpApply (demo_commit 7) 10; OpClearPending].

Lemma demo_ops_ok : Forall op_ok demo_ops.
Proof. repeat constructor; simpl; eauto; done. Qed.

Lemma demo_inv : exists t : TxApplier (S := ChannelDB), applier_inv t [] None /\
  ChannelStore.participant_addresses (ta_store t) = parts.
Proof.
  destruct demo_open as (t & Ht & Hp). exists t. split; [|done].
  by apply (proj2 (open_fresh demo parts demo_ok demo_empty parts_nonempty)).
Qed.

Lemma demo_inv_one : exists t : TxApplier (S := ChannelDB), applier_inv t [demo_commit 0] None.
Proof.
  destruct demo_inv as (t & Ht & _). destruct (apply_ok t [] None (demo_commit 0) 10 Ht) as (b & Hb & Hok & _); [done..|].
  destruct (mem_write_total (cs_db (ta_store t)) b Hb) as [db' Hdb]. destruct (Hok db' Hdb) as (t' & _ & Hinv & _). by exists t'.
Qed.

Lemma crash_recovery_witness : exists t t' txs p t'', open_applier parts demo = Ok t /\
  run_ops t ([], None) demo_ops = Ok (t', (txs, p)) /\ open_applier ∅ (cs_db (ta_store t')) = Ok t''.
Proof.
  destruct demo_open as (t & Ht & _).
  destruct (crash_recovery demo parts ∅ t demo_ops demo_ok demo_empty parts_nonempty Ht demo_ops_ok ltac:(done))
    as (t' & txs & p & Hr & t'' & Ho & _).
  exists t, t', txs, p, t''. split; [exact Ht|]. split; [exact Hr|exact Ho].
Defined.

Lemma apply_exactly_next_witness : exists t : TxApplier (S := ChannelDB), apply t (demo_commit 1) 10 = Err "tx channel seq number mismatched".
Proof.
  destruct demo_inv as (t & Ht & _). exists t.
  destruct (apply_exactly_next t [] None (demo_commit 1) 10 1 Ht eq_refl) as [H _]. apply H. discriminate.
Defined.

Lemma applied_history_readable_witness : exists t : TxApplier (S := ChannelDB),
  get_write_set_by_version (cs_db (ta_store t)) 0 = Ok (None : @WriteSet toy_libra).
Proof.
  destruct demo_inv_one as [t Ht]. exists t. apply (applied_history_readable t [demo_commit 0] None 0 (demo_commit 0) false Ht eq_refl).
Defined.

(** *** State machines *)

Definition demo_registry : PackageRegistry :=
  mkRegistry (mkScriptCode "open" String.EmptyString []) ∅ (mkScriptCode "close" String.EmptyString []).
Definition demo_stm (kp : Z) (a : AccountAddress) : ChannelStm :=
  ChannelStm_new (0%fin : toy_addr) a parts (kp : @KeyPair toy_libra) demo_registry.
Definition demo_client : ChainClient :=
  mkChainClient (fun _ _ => Ok (5%Z, Some [9%Z], tt)) (fun _ => Ok tt) (fun _ _ => Err "no transaction")
    (fun _ _ => Err "no transaction") (fun _ _ _ => Err "no transaction").
Definition demo_env : Env := mkEnv _ _ demo_client 1000 10.
Definition demo_out : TransactionOutput := (mkToyOutput (Some (0, Value [1%Z])) false : @TransactionOutput toy_libra).

Definition demo_prop : ChannelTransactionProposal :=
  match generate_proposal demo_env (demo_stm 11 alice) Open [] with
  | Ok p => p
  | _ => mkProposal (demo_txn 0) (0%Z : @Ed25519PublicKey toy_libra) ((0%Z, (String.EmptyString, [])) : @Ed25519Signature toy_libra)
  end.
Lemma demo_prop_ok : generate_proposal demo_env (demo_stm 11 alice) Open [] = Ok demo_prop.
Proof. vm_compute. reflexivity. Qed.

Lemma demo_sequence kp a : channel_sequence_number (demo_stm kp a) = Ok 0%Z.
Proof. reflexivity. Qed.
Definition demo_action : @ScriptAction toy_libra := "ChannelScript.open".
Lemma demo_action_ok : channel_op_to_action demo_registry Open [] = Ok demo_action.
Proof. reflexivity. Qed.

Lemma demo_sigs kp a : exists s, generate_txn_sigs (demo_stm kp a) (demo_txn 0) demo_out = Ok s.
Proof. by eapply (generate_txn_sigs_total (demo_stm kp a) (demo_txn 0) demo_out 0 demo_action). Qed.

Definition demo_created : PendingTransaction := mkPending (mkProposal (demo_txn 0) (proposer_public_key demo_prop) (proposer_signature demo_prop)) demo_out ∅ Created.
Definition demo_negotiating : PendingTransaction := set_lifecycle Negotiating demo_created.

Lemma signature_accepted_iff_valid_witness : exists s p',
  handle_proposal_signature (demo_stm 11 alice) demo_created (channel_txn_hash (demo_txn 0)) s = Ok p'.
Proof.
  destruct (demo_sigs 11 alice) as [s Hs].
  destruct (generate_txn_sigs_valid (demo_stm 11 alice) (demo_txn 0) demo_out s 0 eq_refl ltac:(unfold u64_max; lia) Hs) as [_ Hv].
  assert (pending_wf (demo_stm 11 alice) 0 demo_created) as Hwf.
  { split; [reflexivity|intros a s' H; cbn [pt_signatures demo_created] in H; by rewrite lookup_empty in H|reflexivity|by intros []]. }
  destruct (proj1 (signature_accepted_iff_valid (demo_stm 11 alice) demo_created s 0 eq_refl ltac:(unfold u64_max; lia) Hwf
    (lookup_empty _) (or_introl eq_refl)) Hv) as (p' & Hp & _).
  exists s, p'. exact Hp.
Defined.

Lemma honest_participants_agree_witness : exists final, pt_lifecycle final = Agreed /\ dom (pt_signatures final) = parts.
Proof.
  assert (exists body sig out, execute_proposal demo_env (demo_stm 11 alice) demo_prop = Ok (body, sig, out)) as (body & sig & out & Hx).
  { do 3 eexists. vm_compute. reflexivity. }
  destruct (honest_participants_agree demo_env (demo_stm 11 alice) (demo_stm 22 bob) Open [] demo_prop body sig out 0
    ltac:(split; reflexivity) ltac:(discriminate) eq_refl eq_refl ltac:(unfold u64_max; lia) demo_prop_ok Hx)
    as (pA & pA1 & pB & pB1 & sA & sB & final & _ & _ & _ & _ & _ & _ & _ & _ & H1 & _ & H2).
  exists final. split; [exact H1|exact H2].
Defined.

Lemma stranger_outside : (5%fin : @AccountAddress toy_libra) ∉ parts.
Proof. unfold parts, alice, bob. set_solver. Qed.

Lemma outsider_signature_blocks_consensus_witness : exists s p',
  sigs_address s = (5%fin : toy_addr) /\
  handle_proposal_signature (demo_stm 11 alice) demo_negotiating (channel_txn_hash (demo_txn 0)) s = Ok p'.
Proof.
  destruct (outsider_signature_blocks_consensus (demo_stm 11 alice) demo_negotiating 0 (99%Z : @KeyPair toy_libra) (5%fin : toy_addr) demo_action
    eq_refl ltac:(unfold u64_max; lia) demo_action_ok stranger_outside (lookup_empty _) ltac:(discriminate))
    as (s & Hs & _ & H & _).
  destruct (H eq_refl) as (p' & Hp & _). exists s, p'. split; [exact Hs|exact Hp].
Defined.

(** *** Channels *)

Definition demo_address : @AccountAddress toy_libra := (0%fin : toy_addr).
Definition demo_kp : @KeyPair toy_libra := 11%Z.

Lemma demo_load : exists c, load demo_address alice (Some parts) demo demo_kp demo_registry = Ok c.
Proof.
  destruct demo_store as (s & Hs & _ & Hd & Hi). unfold load. change (default ∅ (Some parts)) with parts. rewrite Hs. cbn [expect_ok mbind res_bind].
  unfold ChannelStore.participant_addresses. rewrite Hd, bool_decide_eq_false_2 by apply parts_nonempty. cbn [negb rassert mbind res_bind].
  unfold TxApplier_new, get_startup_info. rewrite Hi. simpl. eauto.
Qed.

Definition demo_messages : list (Env * res unit * message) :=
  [(demo_env, Ok tt, Started); (demo_env, Ok tt, MExecute Open []); (demo_env, Ok tt, ApplyPending)].

Lemma offchain_ledger_is_cosigned_witness : exists c0 txs,
  load demo_address alice (Some parts) demo demo_kp demo_registry = Ok c0 /\
  ledger (ta_store (Channel.tx_applier (run_channel (bootstrap demo_env c0).2 demo_messages))) txs.
Proof.
  destruct demo_load as [c0 Hc]. exists c0.
  destruct (offchain_ledger_is_cosigned demo_address alice parts demo demo_kp demo_registry c0 demo_env demo_messages
    demo_ok demo_empty parts_nonempty Hc) as (_ & _ & txs & Hl & _).
  exists txs. split; [exact Hc|exact Hl].
Defined.

Lemma channel_only_moves_forward_witness : exists (c : Channel (S := ChannelDB)) txs,
  channel_inv (handle demo_env (Ok tt) (MExecute Open []) c).2 txs.
Proof.
  destruct demo_load as [c Hc]. exists c.
  destruct (load_fresh _ _ _ _ _ _ _ demo_ok demo_empty parts_nonempty Hc) as (Hinv & _).
  destruct (channel_only_moves_forward c [] demo_env (Ok tt) (MExecute Open []) Hinv) as (txs & H & _). exists txs. exact H.
Defined.

(** A channel that has applied one co-signed transaction. *)
Lemma demo_channel_one : exists (c : Channel (S := ChannelDB)) tx t,
  channel_inv c [tx] /\ signed_channel_txn tx = Offchain t /\ raw_tx t = demo_txn 0 /\
  account_address (stm c) = alice /\ participant_addresses (stm c) = parts.
Proof.
  destruct (demo_sigs 11 alice) as [sA HA], (demo_sigs 22 bob) as [sB HB].
  destruct (generate_txn_sigs_valid (demo_stm 11 alice) _ _ _ 0 eq_refl ltac:(unfold u64_max; lia) HA) as [EA VA].
  destruct (generate_txn_sigs_valid (demo_stm 22 bob) _ _ _ 0 eq_refl ltac:(unfold u64_max; lia) HB) as [EB VB].
  set (t := mkSignedChannelTransaction (demo_txn 0) (<[bob := sB]> {[ alice := sA ]})).
  set (tx := mkToCommit (Offchain t) (output_write_set demo_out) [] (0%Z : @StatusCode toy_libra) 1).
  destruct demo_inv as (t0 & Ht0 & Hparts). destruct (apply_ok t0 [] None tx 10 Ht0) as (b & Hb & Hok & _); [done..|].
  destruct (mem_write_total (cs_db (ta_store t0)) b Hb) as [db' Hdb]. destruct (Hok db' Hdb) as (t1 & Ht1 & Hinv & Hnone).
  exists (mkChannel t1 (advance_state (demo_stm 11 alice) None (default Witness_default (last_witness [tx])) ∅) Ctx_new), tx, t.
  split; [|done]. split; unfold pending_txn; cbn [Channel.tx_applier stm]; rewrite ?Hnone; try done.
  { intros [|v] tx' t' Hv Ht'; [|done]. injection Hv as <-. injection Ht' as <-. split.
  { cbn [sct_signatures t]. by rewrite dom_insert_L, dom_singleton_L. }
  cbn [sct_signatures t]. intros a s [[<- <-]|[_ [<- <-]%lookup_singleton_Some]]%lookup_insert_Some.
  - split; [done|]. destruct VB as (H1 & H2 & _). split; [exact H1|exact H2].
  - split; [done|]. destruct VA as (H1 & H2 & _). split; [exact H1|exact H2]. }
  by rewrite (apply_participants _ _ _ _ Ht1).
Qed.

Lemma applied_proposal_is_answered_witness : exists (c : Channel (S := ChannelDB)) proposal sigs s,
  handle_collect demo_env proposal sigs c = (Ok (Some s), c).
Proof.
  destruct demo_channel_one as (c & tx & t & Hinv & Ht & Hraw & Ha & Hp). destruct (demo_sigs 22 bob) as [sB HB].
  destruct (generate_txn_sigs_valid (demo_stm 22 bob) _ _ _ 0 eq_refl ltac:(unfold u64_max; lia) HB) as [EB _].
  destruct (applied_proposal_is_answered c [tx] demo_env 0 tx t (mkProposal (raw_tx t) (proposer_public_key demo_prop) (proposer_signature demo_prop)) sB
    Hinv eq_refl Ht eq_refl ltac:(rewrite Ha, Hp; set_solver) ltac:(rewrite EB, Ha; discriminate)) as (s & _ & H).
  eexists c, _, sB, s. exact H.
Defined.
End channel_witnesses.
