(* ===== verification/NodeWitnesses.v ===== *)
(** * The theorems on messages, wallets and nodes at work

    The chain of [Witnesses] with the resources that a wallet reads, a serialization of the messages, and
    the theorems on messages, wallets and nodes applied to concrete ones. *)
From S2P Require Import Prelude Codec Libra SchemaDB Accumulator ChannelTypes ChannelStore TxApplier Chain ChannelStm Channel Messages Wallet.
From S2P Require Import Invoices Futures Stats Node Instances Witnesses.

Section node_witnesses.
#[local] Existing Instances toy_libra toy_libra_laws mem_rocks mem_rocks_laws map_batches map_batches_laws
  toy_accumulators toy_accumulators_laws toy_codecs toy_chain toy_chain_laws toy_txn_codec.

Definition toy_wallet_chain : @WalletChain toy_libra toy_chain := {|
  participant_account_path := fun _ _ => 3; decode_balance := toy_byte; decode_account_balance := toy_byte;
  user_channels_path := [601%Z]; decode_user_channels := fun _ => Ok [];
  sign_enable_txn := fun _ a n _ _ _ => Ok (mkToyTxn a n None);
  sign_module_txn := fun _ _ a n _ _ _ => Ok (mkToyTxn a n None)
|}.
#[local] Existing Instance toy_wallet_chain.

Definition demo_dbs (a : @AccountAddress toy_libra) : ChannelDB := demo_db a.
Definition demo_wallet : Wallet (S := ChannelDB) := wallet_new alice demo_kp demo_registry demo_dbs.

Lemma demo_fresh a : empty_db (demo_dbs a).
Proof. done. Qed.

Definition opening : Env * res unit * call := (demo_env, Ok tt, CExecute bob Open []).
Lemma opening_ok : calls_ok demo_wallet [opening].
Proof. split; [|exact I]. apply chain_ok_fresh; [reflexivity|by apply demo_db_ok|apply demo_fresh]. Qed.

(** The wallet of alice has a channel with bob after opening it. *)
Lemma opening_opens : bool_decide (is_Some (w_channels (run_wallet demo_wallet [opening]) !! channel_with demo_wallet bob)) = true.
Proof. vm_compute. reflexivity. Qed.


Definition other_channel : @AccountAddress toy_libra := (9%fin : toy_addr).
Lemma other_channel_ne : other_channel <> channel_with demo_wallet bob.
Proof. vm_compute. discriminate. Qed.


(** *** Messages *)

Lemma malformed_messages_panic_witness : panics (Request_try_from (mk_pb_Request None None false)) /\
  panics (Router_try_from (mk_pb_Router (Some (pb_ExchangeSeedRequest (mk_pb_SeedRequest [1%Z]))))).
Proof.
  destruct malformed_messages_panic as (H1 & _ & H3 & _).
  split; [apply H1; exact I|apply H3; discriminate].
Defined.
(** *** Serialization of the messages *)

Definition countable_prost (M : Type) `{Countable M} : Prost M :=
  {| pb_to_vec := fun x => pos_bytes (encode x); pb_decode := fun b => ok_or (decode (bytes_pos b)) "prost" |}.
Lemma countable_prost_laws (M : Type) `{Countable M} : @ProstLaws M (countable_prost M).
Proof.
  split.
  - intros m. simpl. by rewrite bytes_pos_bytes, decode_encode.
  - intros b. simpl. by destruct (decode (bytes_pos b)).
Qed.

#[local] Instance pb_op_eq : EqDecision pb_ChannelOp.
Proof. solve_decision. Defined.
#[local] Instance pb_op_countable : Countable pb_ChannelOp.
Proof.
  refine (inj_countable' (fun x => (pb_op_type x, pb_package_name x, pb_script_name x, pb_module_address x, pb_module_name x, pb_function_name x))
    (fun x => let '(a, b, c, d, e, f) := x in mk_pb_ChannelOp a b c d e f) _). by intros [].
Defined.
#[local] Instance pb_arg_eq : EqDecision (@pb_TransactionArgument toy_libra).
Proof. change (EqDecision toy_arg). apply _. Defined.
#[local] Instance pb_arg_countable : Countable (@pb_TransactionArgument toy_libra).
Proof. change (Countable toy_arg). apply _. Defined.
#[local] Instance pb_txn_eq : EqDecision pb_ChannelTransaction.
Proof. solve_decision. Defined.
#[local] Instance pb_txn_countable : Countable pb_ChannelTransaction.
Proof.
  refine (inj_countable' (fun x => (pb_version x, pb_channel_address x, pb_channel_sequence_number x, pb_operator x, pb_args x, pb_proposer x,
      pb_sequence_number x, pb_expiration_time x))
    (fun x => let '(a, b, c, d, e, f, g, h) := x in mk_pb_Txn a b c d e f g h) _). by intros [].
Defined.
#[local] Instance pb_proposal_eq : EqDecision pb_ChannelTransactionProposal.
Proof. solve_decision. Defined.
#[local] Instance pb_proposal_countable : Countable pb_ChannelTransactionProposal.
Proof.
  refine (inj_countable' (fun x => (pb_channel_txn x, pb_proposer_public_key x, pb_proposer_signature x))
    (fun x => let '(a, b, c) := x in mk_pb_Proposal a b c) _). by intros [].
Defined.
#[local] Instance pb_sigs_eq : EqDecision pb_ChannelTransactionSigs.
Proof. solve_decision. Defined.
#[local] Instance pb_sigs_countable : Countable pb_ChannelTransactionSigs.
Proof.
  refine (inj_countable' (fun x => (pb_sigs_address x, pb_sigs_public_key x, pb_channel_payload_signature x, pb_witness_data_hash x,
      pb_witness_data_signature x, pb_travel_output_witness_signature x))
    (fun x => let '(a, b, c, d, e, f) := x in mk_pb_Sigs a b c d e f) _). by intros [].
Defined.
#[local] Instance pb_request_eq : EqDecision pb_ChannelTransactionRequest.
Proof. solve_decision. Defined.
#[local] Instance pb_request_countable : Countable pb_ChannelTransactionRequest.
Proof.
  refine (inj_countable' (fun x => (pb_rq_proposal x, pb_rq_channel_txn_sigs x, pb_travel x)) (fun x => let '(a, b, c) := x in mk_pb_Request a b c) _).
  by intros [].
Defined.
#[local] Instance pb_response_eq : EqDecision pb_ChannelTransactionResponse.
Proof. solve_decision. Defined.
#[local] Instance pb_response_countable : Countable pb_ChannelTransactionResponse.
Proof. refine (inj_countable' (fun x => (pb_rs_proposal x, pb_rs_channel_txn_sigs x)) (fun x => mk_pb_Response x.1 x.2) _). by intros []. Defined.
#[local] Instance pb_hop_eq : EqDecision pb_NextHop.
Proof. solve_decision. Defined.
#[local] Instance pb_hop_countable : Countable pb_NextHop.
Proof. refine (inj_countable' (fun x => (pb_hop_remote_addr x, pb_hop_amount x)) (fun x => mk_pb_NextHop x.1 x.2) _). by intros []. Defined.
#[local] Instance pb_multi_hop_eq : EqDecision pb_MultiHopChannelRequest.
Proof. solve_decision. Defined.
#[local] Instance pb_multi_hop_countable : Countable pb_MultiHopChannelRequest.
Proof. refine (inj_countable' (fun x => (pb_mh_request x, pb_mh_hops x)) (fun x => mk_pb_MultiHop x.1 x.2) _). by intros []. Defined.
#[local] Instance pb_error_eq : EqDecision pb_ErrorMessage.
Proof. solve_decision. Defined.
#[local] Instance pb_error_countable : Countable pb_ErrorMessage.
Proof.
  refine (inj_countable' (fun x => (pb_raw_transaction_hash x, pb_error_code x, pb_error_message x)) (fun x => let '(a, b, c) := x in mk_pb_ErrorMessage a b c) _).
  by intros [].
Defined.

(** Router messages, as the bytes of their parts. *)
Definition balance_code (x : pb_BalanceQueryResponse) : bytes * Z * bytes * Z * Z :=
  (pb_local_addr x, pb_local_balance x, pb_remote_addr x, pb_remote_balance x, pb_total_pay_amount x).
Definition balance_of (x : bytes * Z * bytes * Z * Z) : pb_BalanceQueryResponse :=
  let '(a, b, c, d, e) := x in mk_pb_BalanceResponse a b c d e.
Lemma balance_codes_of l : map balance_of (map balance_code l) = l.
Proof. induction l as [|[] l IH]; simpl; [done|]. by rewrite IH. Qed.
Notation codes := (list (bytes * Z * bytes * Z * Z)).
Definition router_code (x : pb_RouterMessageItems) : bytes + (bytes * bytes) + (bytes * bytes * codes) + (bytes * codes) + (bytes * bytes) + (bytes * Z * bytes * Z * Z) :=
  match x with
  | pb_ExchangeSeedRequest m => inl (inl (inl (inl (inl (pb_rq_sender_seed m)))))
  | pb_ExchangeSeedResponse m => inl (inl (inl (inl (inr (pb_sender_seed m, pb_receiver_seed m)))))
  | pb_AntQuery m => inl (inl (inl (inr (pb_s_value m, pb_aq_sender_addr m, map balance_code (pb_aq_list m)))))
  | pb_AntFinal m => inl (inl (inr (pb_r_value m, map balance_code (pb_af_list m))))
  | pb_BalanceRequest m => inl (inr (pb_rq_local_addr m, pb_rq_remote_addr m))
  | pb_BalanceResponse m => inr (balance_code m)
  end.
Definition router_of (x : bytes + (bytes * bytes) + (bytes * bytes * codes) + (bytes * codes) + (bytes * bytes) + (bytes * Z * bytes * Z * Z)) : pb_RouterMessageItems :=
  match x with
  | inl (inl (inl (inl (inl s)))) => pb_ExchangeSeedRequest (mk_pb_SeedRequest s)
  | inl (inl (inl (inl (inr p)))) => pb_ExchangeSeedResponse (mk_pb_SeedResponse p.1 p.2)
  | inl (inl (inl (inr p))) => pb_AntQuery (mk_pb_AntQuery p.1.1 p.1.2 (map balance_of p.2))
  | inl (inl (inr p)) => pb_AntFinal (mk_pb_AntFinal p.1 (map balance_of p.2))
  | inl (inr p) => pb_BalanceRequest (mk_pb_BalanceRequest p.1 p.2)
  | inr p => pb_BalanceResponse (balance_of p)
  end.
Definition router_prost : Prost pb_RouterNetworkMessage :=
  {| pb_to_vec := fun x => pos_bytes (encode (router_code <$> router_message_items x));
     pb_decode := fun b => o ← ok_or (decode (bytes_pos b)) "prost"; Ok (mk_pb_Router (router_of <$> o)) |}.
Lemma router_prost_laws : @ProstLaws pb_RouterNetworkMessage router_prost.
Proof.
  split.
  - intros [o]. simpl. rewrite bytes_pos_bytes, decode_encode. simpl. do 2 f_equal. destruct o as [[[]|[]|[]|[]|[]|[]]|]; simpl;
      by rewrite ?balance_codes_of.
  - intros b. simpl. by destruct (decode (bytes_pos b)).
Qed.

Definition toy_node_prost : @NodeProst toy_libra :=
  {| prost_request := countable_prost _; prost_response := countable_prost _; prost_multi_hop := countable_prost _;
     prost_error := countable_prost _; prost_router := router_prost |}.
Lemma toy_node_prost_laws : @NodeProstLaws toy_libra toy_node_prost.
Proof. split; try apply countable_prost_laws. apply router_prost_laws. Qed.
#[local] Existing Instances toy_node_prost toy_node_prost_laws.

(** *** Nodes

    A wallet that signs whatever it is asked, or refuses the proposals of others. *)
Record toy_peer := mkToyPeer { tp_addr : toy_addr; tp_accepts : bool }.
Definition toy_sigs (a : toy_addr) : ChannelTransactionSigs :=
  mkSigs (a : @AccountAddress toy_libra) (0%Z : @Ed25519PublicKey toy_libra) ((0%Z, (String.EmptyString, [])) : @Ed25519Signature toy_libra)
    ((String.EmptyString, []) : @HashValue toy_libra) ((0%Z, (String.EmptyString, [])) : @Ed25519Signature toy_libra) None.
Definition toy_request (a : toy_addr) (op : ChannelOp) (args : list TransactionArgument) : ChannelTransactionRequest :=
  mkRequest (mkProposal (mkChannelTransaction 0 (a : @AccountAddress toy_libra) 0 op args a 0 0) (0%Z : @Ed25519PublicKey toy_libra)
    ((0%Z, (String.EmptyString, [])) : @Ed25519Signature toy_libra)) (toy_sigs a) false.
Definition asks (op : ChannelOp) (args : list TransactionArgument) : stM toy_peer ChannelTransactionRequest :=
  fun w => (Ok (toy_request (tp_addr w) op args), w).

Definition toy_wallet_ops : WalletOps toy_peer := {|
  wo_account := fun w => (tp_addr w : @AccountAddress toy_libra);
  wo_open := fun _ a b => asks Open [TransactionArgument_U64 a; TransactionArgument_U64 b];
  wo_deposit := fun _ a => asks (script_action "deposit") [TransactionArgument_U64 a];
  wo_withdraw := fun _ a => asks (script_action "withdraw") [TransactionArgument_U64 a];
  wo_transfer := fun p a => asks (script_action "transfer") [TransactionArgument_Address p; TransactionArgument_U64 a];
  wo_send_payment := fun p a h t => asks (script_action "send_payment")
    [TransactionArgument_Address p; TransactionArgument_U64 a; TransactionArgument_ByteArray h; TransactionArgument_U64 t];
  wo_receive_payment := fun _ pre => asks (script_action "receive_payment") [TransactionArgument_ByteArray pre];
  wo_execute_script := fun _ pkg f args => asks (Execute pkg f) args;
  wo_verify_txn := fun _ r w =>
    (if tp_accepts w then Ok (Some (mkResponse (rq_proposal r) (toy_sigs (tp_addr w)))) else Err "refused", w);
  wo_approve_txn := fun _ _ => lift (Err "no pending txn to grant");
  wo_reject_txn := fun _ _ => lift (Err "no pending txn to grant");
  wo_verify_txn_response := fun _ _ => mret tt;
  wo_apply_txn := fun _ => mret 0%Z;
  wo_force_travel_txn := fun _ => mret 0%Z;
  wo_channel_sequence_number := fun _ => mret 1%Z;
  wo_channel_balance := fun _ => mret 0%Z;
  wo_participant_channel_balance := fun _ => mret 0%Z;
  wo_install_package := fun _ => mret tt;
  wo_deploy_module := fun _ => lift (Err "no chain");
  wo_account_resource := mret [];
  wo_get_txn := fun _ _ => lift (Err "no transaction");
  wo_get_all_channels := mret ∅;
  wo_get_pending_txn_request := fun _ => mret None;
  wo_get_waiting_proposal := fun _ => mret None;
  wo_stop := mret tt
|}.
#[local] Existing Instance toy_wallet_ops.

Definition accepts (w : toy_peer) : Prop := tp_accepts w = true.
#[local] Instance toy_cooperative : Cooperative accepts.
Proof.
  split; intros w; intros; simpl; try (do 2 eexists; split_and!; [reflexivity|done..|]; split_and!; done).
  - rewrite H. do 2 eexists. split_and!; [reflexivity|done..].
  - eexists. split_and!; [reflexivity|done..].
  - do 2 eexists. split_and!; [reflexivity|done..].
  - do 2 eexists. split_and!; [reflexivity|done..].
Qed.

#[local] Instance toy_hex : Hex := {| hex_encode_upper := fun _ => EmptyString; hex_decode := fun _ => Err "hex" |}.
#[local] Instance toy_rng : @Rng toy_libra := fun z => ("random", [z]).

Definition carol : @AccountAddress toy_libra := (3%fin : toy_addr).
Definition node_of (a : @AccountAddress toy_libra) (b : bool) : Node toy_peer := Node_new (mkToyPeer (a : toy_addr) b) true 1000.
Definition demo_preimage : @HashValue toy_libra := random_hash 7.
Definition demo_lock : @HashValue toy_libra := from_sha3_256 (hash_to_vec demo_preimage).
Definition demo_route : list BalanceQueryResponse := [mkBalanceResponse alice bob 100 100 0; mkBalanceResponse bob carol 100 100 0].
Definition demo_world : World := mkWorld _ (fun _ => true) (fun _ _ => Ok demo_route) true true true 7.
Definition demo_receiver : Node toy_peer := (add_invoice demo_world 10 (node_of carol true)).2.
Definition demo_net : gmap AccountAddress (Node toy_peer) := <[ carol := demo_receiver ]> {[ bob := node_of bob true ]}.

Lemma demo_on_path : on_path accepts demo_preimage demo_net [bob; carol].
Proof.
  intros x Hx. set_unfold in Hx. destruct Hx as [->|[->|[]]].
  - exists (node_of bob true). split_and!; [reflexivity|by split_and!|]. rewrite bool_decide_eq_false_2 by discriminate. reflexivity.
  - exists demo_receiver. split_and!; [reflexivity|by split_and!|]. rewrite bool_decide_eq_true_2 by reflexivity.
    unfold get_preimage. apply lookup_insert_eq.
Qed.


Lemma rejected_payment_is_forwarded_witness : exists (n' : Node toy_peer) err r',
  n_outbox n' = [(alice, err); (carol, multi_hop_bytes (mkMultiHop r' []))] /\ pays r' carol 99 demo_lock 20000.
Proof.
  destruct (rejected_payment_is_forwarded demo_world (node_of bob false) alice
    (toy_request alice (script_action "send_payment") [TransactionArgument_Address bob; TransactionArgument_U64 10;
       TransactionArgument_ByteArray (hash_to_vec demo_lock); TransactionArgument_U64 20000])
    (mkNextHop carol 99) [] 10 demo_lock 20000 "refused" (mkToyPeer bob false) _ _ eq_refl ltac:(by split_and!) eq_refl eq_refl)
    as (n' & err & _ & _ & H & _).
  eexists n', err, _. split; [exact H|]. by split_and!.
Defined.
End node_witnesses.
