(* ===== verification/RouterWitnesses.v ===== *)
(** * The routers at work

    A graph that lists its simple paths by trying all lists of nodes, a wallet with given channels, and the
    theorems on the routers applied to concrete networks. *)
From S2P Require Import Prelude Codec Libra SchemaDB Accumulator ChannelTypes ChannelStore TxApplier Chain ChannelStm Channel Messages Wallet.
From S2P Require Import Invoices Futures Stats Node Graph AntRouter TableRouter Instances Witnesses NodeWitnesses.

(** ** A graph *)

Fixpoint lists_upto {A} (alphabet : list A) (n : nat) : list (list A) :=
  match n with
  | 0 => [[]]
  | S n => [] :: (p ← lists_upto alphabet n; (fun a => a :: p) <$> alphabet)
  end.
Lemma elem_of_lists_upto {A} (alphabet : list A) n p : p ∈ lists_upto alphabet n <-> length p <= n /\ Forall (fun a => a ∈ alphabet) p.
Proof.
  revert p. induction n as [|n IH]; intros p; simpl.
  - rewrite list_elem_of_singleton. split; [by intros ->|]. intros [? _]. by destruct p; [|simpl in *; lia].
  - rewrite elem_of_cons, list_elem_of_bind. split.
    + intros [->|(q & (a & -> & Ha)%list_elem_of_fmap & [Hlen Hq]%IH)]; [split; [simpl; lia|constructor]|]. split; [simpl; lia|by constructor].
    + intros [Hlen Hp]. destruct Hp as [|a p Ha Hp]; [by left|right]. exists p. split; [apply list_elem_of_fmap; by exists a|].
      apply IH. simpl in Hlen. split; [lia|done].
Qed.

Section toy_graph.
Context {L : Libra}.

Definition toy_graph : Type := list Vertex * list (nat * nat * Edge).
Definition toy_adjacent (g : toy_graph) (i j : nat) : bool :=
  existsb (fun x => bool_decide (x.1 = (i, j)) || bool_decide (x.1 = (j, i))) g.2.
Fixpoint toy_linked (g : toy_graph) (p : list nat) : bool :=
  match p with
  | a :: (b :: _) as p' => toy_adjacent g a b && toy_linked g p'
  | _ => true
  end.
Definition toy_simple (g : toy_graph) (i j : nat) (p : list nat) : bool :=
  bool_decide (head p = Some i) && bool_decide (last p = Some j) && bool_decide (NoDup p) && toy_linked g p.
Definition toy_swap_remove (i : nat) (l : list (nat * nat * Edge)) : list (nat * nat * Edge) :=
  match last l with
  | Some y => if bool_decide (i < length l) then <[i := y]> (take (length l - 1) l) else l
  | None => l
  end.

Definition toy_petgraph : Petgraph := {|
  PGraph := toy_graph;
  pg_new := ([], []);
  pg_nodes := fst;
  pg_edges := snd;
  pg_add_node := fun v g => Ok (length g.1, (g.1 ++ [v], g.2));
  pg_add_edge := fun i j e g =>
    if bool_decide (i < length g.1) && bool_decide (j < length g.1) then Ok (length g.2, (g.1, g.2 ++ [(i, j, e)])) else Panic "node index out of bounds";
  pg_remove_node := fun _ g => g;
  pg_remove_edge := fun i g => (g.1, toy_swap_remove i g.2);
  pg_astar := fun _ _ _ => None;
  pg_all_simple_paths := fun g i j lo hi =>
    List.filter (fun p => toy_simple g i j p && bool_decide (lo + 2 <= length p))
      (lists_upto ((fun x => x.1.1) <$> g.2 ++ ((fun x => (x.1.2, x.1.1, x.2)) <$> g.2)) (default 0 hi + 2))
|}.
#[local] Existing Instance toy_petgraph.

Lemma toy_adjacent_spec g i j : toy_adjacent g i j = true <-> adjacent g i j.
Proof.
  unfold toy_adjacent. rewrite existsb_exists. split.
  - intros ([[x y] e] & Hin%list_elem_of_In & H). rewrite orb_true_iff, !bool_decide_eq_true in H. exists e. destruct H as [[= -> ->]|[= -> ->]]; auto.
  - intros (e & [H|H]); [exists (i, j, e)|exists (j, i, e)]; (split; [by apply list_elem_of_In|]); rewrite orb_true_iff, !bool_decide_eq_true; auto.
Qed.
Lemma toy_simple_spec g i j p : toy_simple g i j p = true <-> simple_path (adjacent g) i j p.
Proof.
  unfold toy_simple, simple_path. rewrite !andb_true_iff, !bool_decide_eq_true.
  assert (toy_linked g p = true <-> linked (adjacent g) p) as Hl.
  { induction p as [|a [|b p] IH]; [done..|]. change (toy_adjacent g a b && toy_linked g (b :: p) = true <-> adjacent g a b /\ linked (adjacent g) (b :: p)).
    by rewrite andb_true_iff, toy_adjacent_spec, IH. }
  rewrite Hl. tauto.
Qed.
Lemma toy_petgraph_laws : PetgraphLaws toy_petgraph.
Proof.
  split; simpl; try done.
  - by intros v g i g' [= <- <-].
  - intros i j e g k g'. case_match; [|done]. by intros [= <- <-].
  - intros i j e g Hi Hj _. by rewrite !bool_decide_eq_true_2 by done.
  - intros i g l x y Hl Hx. unfold toy_swap_remove. rewrite Hl, last_snoc.
    rewrite bool_decide_eq_true_2 by by eapply lookup_lt_Some. by rewrite length_app, Nat.add_sub, take_app_length.
  - intros i [ns es] Hi. simpl in *. unfold toy_swap_remove. destruct (last es); [|done]. by rewrite bool_decide_eq_false_2 by lia.
  - intros g i j lo hi p Hij _ _. rewrite list_elem_of_In, filter_In, <-list_elem_of_In, andb_true_iff, toy_simple_spec, bool_decide_eq_true, elem_of_lists_upto.
    split; [naive_solver|]. intros [Hp [? ?]]. split_and!; [done| |done..].
    pose proof (simple_path_length _ _ _ _ Hij Hp) as Hlen. destruct Hp as (_ & _ & _ & Hl). apply Forall_forall.
    eapply linked_touched; [|done|exact Hl]. clear. intros a b (e & [Hin|Hin]).
    + split; apply list_elem_of_fmap; [exists (a, b, e)|exists (b, a, e)]; (split; [done|]); apply elem_of_app; [by left|right].
      apply list_elem_of_fmap. by exists (a, b, e).
    + split; apply list_elem_of_fmap; [exists (a, b, e)|exists (b, a, e)]; (split; [done|]); apply elem_of_app; [right|by left].
      apply list_elem_of_fmap. by exists (b, a, e).
Qed.
End toy_graph.

(** ** Scripts of ant networks *)

Section script.
Context {L : Libra} {K : Chain} {SR : SeedRng} {SH : SValueHash} {HO : HashOrder}.
Context {W : Type} {WO : WalletOps W}.

Inductive ant_command := CSearch (ts : Z) (last : AccountAddress) | CTake (ts : Z) (i : nat) | CPoll (k : nat) | CEnd (k : nat).
(** The action of a command: [CTake] delivers the message at a position of those in flight. *)
Definition command_action (net : AntNet (W := W)) (a : AccountAddress) (c : ant_command) : option (ant_action (W := W)) :=
  match c with
  | CSearch ts last =>
      match h_asked (an_history net) !! drawn_hash ts with None => Some (XSearch ts last) | Some _ => None end
  | CTake ts i =>
      m ← an_flight net !! i;
      if bool_decide (m.1.2 = a) then
        match m.2 with
        | MExchangeSeedMessageRequest rq =>
            match h_paired (an_history net) !! pair_hash ts rq with None => Some (XDeliver ts m.1.1 m.2) | Some _ => None end
        | _ => Some (XDeliver ts m.1.1 m.2)
        end
      else None
  | CPoll k => Some (XPoll k)
  | CEnd k => Some (XEnd k)
  end.
(** All messages stay in flight. *)
Definition command_step (net : AntNet (W := W)) (c : AccountAddress * ant_command) : option AntNet :=
  n ← an_nodes net !! c.1;
  x ← command_action net c.1 c.2;
  let n' := ant_act x n in
  Some (mkAntNet (<[c.1 := set_ar_outbox [] n']> (an_nodes net)) (an_flight net ++ ((fun m => (c.1, m.1, m.2)) <$> ar_outbox n'))
          (ant_record c.1 n x (an_history net))).
Fixpoint script_run (net : AntNet (W := W)) (l : list (AccountAddress * ant_command)) : option AntNet :=
  match l with
  | [] => Some net
  | c :: l => net' ← command_step net c; script_run net' l
  end.

Lemma command_allowed net a n c x : command_action net a c = Some x -> ant_allowed net a n x.
Proof.
  destruct c as [ts e|ts i|k|k]; simpl.
  - destruct (h_asked _ !! _) eqn:E; [done|]. by intros [= <-].
  - destruct (an_flight net !! i) as [[[from b] m]|] eqn:Ei; [|done]. simpl. case_bool_decide; [|done]. subst b.
    apply list_elem_of_lookup_2 in Ei. destruct m; try (intros [= <-]; by split).
    destruct (h_paired _ !! _) eqn:E; [done|]. intros [= <-]. by split.
  - by intros [= <-].
  - by intros [= <-].
Qed.
Lemma command_step_ok net c net' : command_step net c = Some net' -> ant_step net net'.
Proof.
  unfold command_step. destruct (an_nodes net !! c.1) as [n|] eqn:En; [|done]. simpl.
  destruct (command_action net c.1 c.2) as [x|] eqn:Ex; [|done]. simpl. intros [= <-]. apply AntStep; [done|by eapply command_allowed|].
  intros from b msg [?|([b' msg'] & [= -> -> ->] & ?)%list_elem_of_fmap]%elem_of_app; [by left|by right].
Qed.
Lemma script_run_ok net l net' : script_run net l = Some net' -> rtc ant_step net net'.
Proof.
  revert net. induction l as [|c l IH]; intros net; simpl; [intros [= ->]; done|].
  destruct (command_step net c) as [net1|] eqn:E; [|done]. simpl. intros H. eapply rtc_l; [by apply command_step_ok in E|by apply IH].
Qed.
End script.

(** ** Three nodes in a row *)

Section router_witnesses.
#[local] Existing Instances toy_libra toy_libra_laws mem_rocks toy_chain toy_petgraph canonical_order.

(** A wallet with given channels, each with the same balances. *)
Record toy_router := mkToyRouter { tr_addr : toy_addr; tr_channels : gset toy_addr }.
Definition no_call {T} : stM toy_router T := lift (Err "not used").
#[local] Instance toy_router_ops : WalletOps toy_router := {|
  wo_account := fun w => (tr_addr w : @AccountAddress toy_libra);
  wo_open := fun _ _ _ => no_call; wo_deposit := fun _ _ => no_call; wo_withdraw := fun _ _ => no_call; wo_transfer := fun _ _ => no_call;
  wo_send_payment := fun _ _ _ _ => no_call; wo_receive_payment := fun _ _ => no_call; wo_execute_script := fun _ _ _ _ => no_call;
  wo_verify_txn := fun _ _ => no_call; wo_approve_txn := fun _ _ => no_call; wo_reject_txn := fun _ _ => no_call;
  wo_verify_txn_response := fun _ _ => no_call; wo_apply_txn := fun _ => no_call; wo_force_travel_txn := fun _ => no_call;
  wo_channel_sequence_number := fun _ => no_call;
  wo_channel_balance := fun _ => mret 70%Z; wo_participant_channel_balance := fun _ => mret 30%Z;
  wo_install_package := fun _ => no_call; wo_deploy_module := fun _ => no_call; wo_account_resource := no_call;
  wo_get_txn := fun _ _ => no_call; wo_get_all_channels := fun w => (Ok (tr_channels w), w);
  wo_get_pending_txn_request := fun _ => no_call; wo_get_waiting_proposal := fun _ => no_call; wo_stop := no_call
|}.
#[local] Instance toy_account_kept : AccountKept toy_router.
Proof. by split. Qed.
#[local] Instance toy_seeds : SeedRng := fun ts => ts.
#[local] Instance toy_s_hash : SValueHash := fun a b => bool_decide (s_data a = s_data b).
#[local] Instance toy_s_hash_laws : SValueHashLaws.
Proof. intros s. by apply bool_decide_eq_true. Qed.

Definition idle_stats : StatsInner := mkStatsInner false ∅.
Definition router_at (a : @AccountAddress toy_libra) (l : gset (@AccountAddress toy_libra)) : AntRouterInner toy_router :=
  AntRouter_new (mkToyRouter a l) idle_stats 1000.
(** alice - carol - bob *)
Definition row_net : AntNet (W := toy_router) := mkAntNet
  (<[alice := router_at alice {[carol]}]> (<[carol := router_at carol {[alice; bob]}]> {[bob := router_at bob {[carol]}]})) []
  (mkHistory ∅ ∅ (fun _ _ => False)).
Definition row_script : list (@AccountAddress toy_libra * ant_command) :=
  [(alice, CSearch 5 bob); (bob, CTake 6 0); (carol, CTake 7 1); (alice, CTake 8 2); (alice, CPoll 0); (carol, CTake 9 4); (alice, CTake 10 5);
   (alice, CEnd 0)].
Definition row_route : list BalanceQueryResponse := [mkBalanceResponse alice carol 70 30 0; mkBalanceResponse carol bob 30 70 0].
Definition search_result (o : option (AntNet (W := toy_router))) : option Search :=
  net ← o; n ← an_nodes net !! (alice : @AccountAddress toy_libra); searches n !! 0.
Lemma row_result : search_result (script_run row_net row_script) = Some (Responded alice bob (Some (Ok row_route))).
Proof. vm_cast_no_check (eq_refl (Some (Responded alice bob (Some (Ok row_route))))). Qed.

Lemma row_start : ant_start row_net.
Proof.
  split; [|done]. intros a n. unfold row_net. simpl. rewrite !lookup_insert_Some.
  intros [[<- <-]|[_ [[<- <-]|[_ [<- <-]%lookup_singleton_Some]]]]; by eexists _, _, _.
Qed.

(** ** A table of three channels *)

#[local] Instance toy_graph_codecs : GraphCodecs := {|
  lcs_edge := countable_lcs Edge; lcs_vertex := countable_lcs Vertex; lcs_vertex_key := countable_lcs AccountAddress;
  lcs_number := countable_lcs Z; lcs_name := countable_lcs string
|}.
#[local] Existing Instance toy_petgraph_laws.
#[local] Instance toy_address_hash : @AddressHash toy_libra := fun a => ("address", address_to_vec a).

Definition reports (a b : @AccountAddress toy_libra) : BalanceQueryResponse := mkBalanceResponse a b 70 30 0.
#[local] Instance toy_readable : ReadableWallet reports (fun _ : toy_router => True).
Proof. split; intros; eexists; by split_and!. Qed.
Definition balances_of (a b : @AccountAddress toy_libra) : gmap AccountAddress Z := <[a := 100%Z]> {[b := 100%Z]}.
Definition row_events : list (Z * ChannelChangeEvent) :=
  [(1%Z, EvOpened alice (balances_of alice carol)); (2%Z, EvOpened bob (balances_of carol bob))].

Lemma row_opening : Forall TableRouter.opening row_events.
Proof. repeat constructor; eexists _, _; (split; [reflexivity|vm_compute; reflexivity]). Qed.
Lemma reports_honest : honest reports alice.
Proof. intros a b. unfold in_u64, u64_max. simpl. split_and!; done || lia. Qed.
Definition row_table : RouterInner toy_router :=
  mkRouterInner (mkGraphStore (pg_new : @PGraph toy_libra toy_petgraph) ∅ ∅ ∅ false None) [] true (mkToyRouter alice ∅) MessageProcessor_new idle_stats.


Lemma closing_locked_channel_drops_another_witness :
  let find r := find_all_path (new_with_bi_type carol) (new_with_bi_type bob) 5 (graph_store r) in
  let r3 := run_events [(1%Z, EvOpened alice (balances_of alice carol)); (2%Z, EvOpened bob (balances_of carol bob));
                        (3%Z, EvLocked alice (balances_of alice carol))] row_table in
  let r4 := (handle_stream (Ok (4%Z, EvClosed alice (balances_of alice carol))) r3).2 in
  (exists paths, find r3 = Ok (Some paths) /\ [new_with_bi_type carol; new_with_bi_type bob] ∈ paths) /\
  ~ exists paths, find r4 = Ok (Some paths).
Proof.
  apply (closing_locked_channel_drops_another 1 2 3 4 alice bob (balances_of alice carol) (balances_of carol bob) (mkToyRouter alice ∅) idle_stats);
    [vm_compute; reflexivity|vm_compute; reflexivity| | | |discriminate|reflexivity].
  - intros Hd. assert (bob ∈ dom (balances_of carol bob)) as Hin by (apply elem_of_dom; eexists; vm_compute; reflexivity).
    rewrite <-Hd in Hin. apply elem_of_dom in Hin as [x Hx]. vm_compute in Hx. discriminate Hx.
  - apply elem_of_dom. eexists. vm_compute. reflexivity.
  - apply elem_of_dom. eexists. vm_compute. reflexivity.
Defined.
End router_witnesses.
