(* ===== verification/WatchWitnesses.v ===== *)
(** * Witnesses of the theorems on the chain's client, state access and watchers

    A small chain that the watchers run against, and the theorems of [ChainRpc] and [Watcher] applied to
    it. *)
From S2P Require Import Prelude Codec Libra ChannelTypes Chain ChainRpc StateAccess TableRouter Watcher Instances Witnesses.

Section witnesses.
#[local] Existing Instances toy_libra toy_libra_laws toy_chain canonical_order.

(** The number of an event is the event; an address is a byte. *)
Definition toy_events : ChainEvents := {|
  StructTag := unit; event_sequence_number := fun e : @ContractEvent toy_libra => e : Z; event_struct_tag := fun _ => Some tt; event_data := fun e : @ContractEvent toy_libra => [e : Z];
  channel_event_struct_tag := tt; ChannelEvent := Z;
  decode_channel_event := fun b => match b with [e] => Ok e | _ => Err "channel event" end;
  ce_channel_address := fun _ => 0%fin; ce_stage := fun e => e; ce_balances := fun _ => [];
  resource_participants := fun _ => []; channel_data_path := [1%Z]; block_meta_data_path := [600%Z];
  decode_block_meta_height := fun b => match b with [h] => Ok h | _ => Err "block meta" end;
  association_address := 0%fin; new_for_channel_global_event := 0; new_for_channel_event := fun _ => 1
|}.
#[local] Existing Instance toy_events.

(** A backoff of a second, without an end. *)
Definition toy_backoff : Backoff := {|
  ExponentialBackoff := unit; ExponentialBackoff_default := tt;
  next_backoff := fun _ _ => (Some NANOS_PER_SEC, tt); backoff_reset := fun _ _ => tt
|}.
Lemma toy_backoff_laws : @BackoffLaws toy_backoff.
Proof. split; [intros now b d b' [= <-]; done|intros; eexists; done]. Qed.
#[local] Existing Instances toy_backoff toy_backoff_laws.

(** *** [watch_transaction_ends] *)

(** The transaction is on the chain two seconds after the start. *)
Definition toy_proof : TransactionWithProof := mkTransactionWithProof _ 7%Z (@OtherTransaction toy_libra) None (mkTransactionInfo _ 1%Z (0%Z : @StatusCode toy_libra)).
Definition watch_turns (k : nat) : Z * Transport :=
  (millis (1000 * Z.of_nat k),
   mkTransport (fun _ => Ok tt)
     (fun _ => Ok [Ok (AccountTxnBySeqNumResponse (if bool_decide (2 <= k) then Some toy_proof else None) None)])).
Lemma watch_turns_clock : clock_ok 0 watch_turns.
Proof. split; [done|]. intros k. unfold watch_turns, millis. simpl fst. lia. Qed.
Lemma watch_transaction_ends_witness :
  exists j r, j < 100 /\ rpc_watch_transaction 100 0 watch_turns 0%fin 5 = Some r /\
    r = rpc_transaction_by_seq_num (watch_turns j).2 0%fin 5 /\
    (forall i, i < j -> exists s, rpc_transaction_by_seq_num (watch_turns i).2 0%fin 5 = Ok (None, s)) /\
    (forall s, r = Ok (None, s) -> (0 + millis 99000 <= (watch_turns j).1)%Z).
Proof. exact (watch_transaction_ends 0 watch_turns 0%fin 5 watch_turns_clock). Defined.

(** *** A chain of three transactions, each with an event of its number *)

Definition toy_numbers (start limit : Z) : list Z := if bool_decide (0 <= start)%Z then take (Z.to_nat limit) (seqZ start (3 - start)) else [].
Definition toy_event (n : Z) : EventWithProof := mkEventWithProof (10 + n) (n : @ContractEvent toy_libra).
Definition toy_event_chain (n : Z) : option EventWithProof := if bool_decide (0 <= n < 3)%Z then Some (toy_event n) else None.
Definition toy_info : TransactionInfo := mkTransactionInfo _ 1%Z (0%Z : @StatusCode toy_libra).
Definition toy_data (n : Z) : TxnData := (@OtherTransaction toy_libra, toy_info, [n : @ContractEvent toy_libra]).
Definition toy_txn_chain (n : Z) : option TxnData := if bool_decide (0 <= n < 3)%Z then Some (toy_data n) else None.
Definition toy_state : AccountStateWithProof := mkAccountStateWithProof 0 (Some [42%Z]) tt.
Definition toy_transactions (l : list Z) : TransactionListWithProof :=
  mkTransactionList _ ((fun _ => @OtherTransaction toy_libra) <$> l) (Some ((fun n => [n : @ContractEvent toy_libra]) <$> l)) ((fun _ => toy_info) <$> l) (head l).
Definition toy_transport : Transport := mkTransport (fun _ => Ok tt) (fun req =>
  match requested_items req with
  | [GetEventsByEventAccessPath _ start _ limit] => Ok [Ok (EventsResponse (toy_event <$> toy_numbers start limit) toy_state)]
  | [GetTransactions start limit _] => Ok [Ok (TransactionsResponse (toy_transactions (toy_numbers start limit)))]
  | _ => Ok [Ok (AccountStateResponse toy_state)]
  end).
(** The same chain while it cannot be reached. *)
Definition toy_unreachable : Transport := mkTransport (fun _ => Err "unreachable") (fun _ => Err "unreachable").

Lemma toy_answers : answers_ok toy_transport /\ answers_ok toy_unreachable.
Proof.
  split; (split; [|split; [intros b; done|intros b; by destruct b as [|? []]]]).
  - intros [v items]. unfold toy_transport. simpl. by destruct items as [|[] []].
  - by intros req.
Qed.
Lemma toy_numbers_spec start limit i n : toy_numbers start limit !! i = Some n -> n = (start + Z.of_nat i)%Z /\ (0 <= n < 3)%Z.
Proof.
  unfold toy_numbers. case_bool_decide; [|done]. intros [H1 _]%lookup_take_Some. apply lookup_seqZ in H1. lia.
Qed.
Lemma toy_numbers_length start limit : (start <= u64_max)%Z -> (start + Z.of_nat (length (toy_numbers start limit)) <= u64_max)%Z.
Proof.
  intros H. unfold toy_numbers, u64_max in *. case_bool_decide; [|simpl; lia]. rewrite length_take, length_seqZ. lia.
Qed.

Lemma toy_serves_events path : serves_events path toy_event_chain toy_transport /\ serves_events path toy_event_chain toy_unreachable.
Proof.
  split; [|by intros start limit l s rest _ [=]]. intros start limit l s rest Hst [= <- <- <-]. split; [rewrite length_fmap; by apply toy_numbers_length|].
  intros i x Hx. rewrite list_lookup_fmap in Hx. destruct (toy_numbers start limit !! i) as [n|] eqn:E; [|done].
  apply toy_numbers_spec in E as [-> Hn]. injection Hx as <-. split; [done|]. unfold toy_event_chain. by rewrite bool_decide_eq_true_2.
Qed.
Lemma toy_zip (l : list Z) : zip (zip (tl_transactions (toy_transactions l)) (tl_infos (toy_transactions l))) ((fun n => [n : @ContractEvent toy_libra]) <$> l) = toy_data <$> l.
Proof. induction l as [|n l IH]; [done|]. simpl. f_equal. apply IH. Qed.
Lemma toy_serves_transactions : serves_transactions toy_txn_chain toy_transport /\ serves_transactions toy_txn_chain toy_unreachable.
Proof.
  split; [|by intros start limit l rest _ [=]]. intros start limit l rest Hst [= <- <-] v Hv.
  assert (v = start) as ->.
  { simpl in Hv. rewrite head_lookup in Hv. apply toy_numbers_spec in Hv as [-> _]. lia. }
  split; [done|]. eexists. split; [done|]. cbv zeta. rewrite toy_zip. split; [rewrite length_fmap; by apply toy_numbers_length|].
  intros i x Hx. rewrite list_lookup_fmap in Hx. destruct (toy_numbers start limit !! i) as [n|] eqn:E; [|done].
  apply toy_numbers_spec in E as [-> Hn]. injection Hx as <-. unfold toy_txn_chain. by rewrite bool_decide_eq_true_2.
Qed.

(** *** [event_stream_in_order]

    The chain cannot be reached at first; the stream waits for a second and gives the three events. *)
Definition toy_polls : list (Z * Transport) :=
  [(0, toy_unreachable); (5, toy_transport); (from_secs 2, toy_transport); (from_secs 2, toy_transport); (from_secs 3, toy_transport); (from_secs 3, toy_transport)]%Z.
Definition toy_ask (t : Transport) : Query EventWithProof := fun version limit => Some (channel_event_query 0%fin t version limit).
Lemma toy_stream_items :
  items (run_stream (prod_map id toy_ask <$> toy_polls) (DataStream_new 0 2)).1 = [toy_event 0; toy_event 1; toy_event 2].
Proof. vm_compute. reflexivity. Qed.
Lemma event_stream_in_order_witness :
  let '(out, s) := run_stream (prod_map id toy_ask <$> toy_polls) (DataStream_new 0 2) in
  items out = [toy_event 0; toy_event 1; toy_event 2] /\ Forall no_panic out /\
  (forall i evt, items out !! i = Some evt -> toy_event_chain (0 + Z.of_nat i)%Z = Some evt /\ event_sequence_number (ewp_event evt) = (0 + Z.of_nat i)%Z).
Proof.
  pose proof (event_stream_in_order 0%fin toy_event_chain 0 2 toy_polls) as H. fold toy_ask in H. cbv zeta in H. pose proof toy_stream_items as E.
  destruct (run_stream _ _) as [out s]. split; [exact E|]. destruct H as (H1 & H2 & _); [unfold u64_max; lia| |by split].
  destruct toy_answers, (toy_serves_events (1 : @AccessPath toy_libra)).
  repeat (apply List.Forall_cons; [by split|]). apply List.Forall_nil.
Defined.

(** *** [subscribers_see_every_match]

    One subscriber wants the transactions of even number, one the first transaction; a third is dropped. *)
Definition toy_watch : list watch_event :=
  [WAdd false 1 (fun x => Z.even (twi_version x)); WAdd true 2 (fun _ => true); WAdd false 3 (fun _ => true); WDrop 2; WPoll 0 toy_unreachable;
   WPoll (from_secs 2) toy_transport; WDeliver; WDeliver; WDeliver; WDeliver; WCleanup; WReceive 0; WReceive 1; WPoll (from_secs 2) toy_transport; WDeliver;
   WDeliver; WPoll (from_secs 3) toy_transport; WDeliver; WDeliver; WStop].
Lemma toy_watch_contents :
  ((fun w => (fun ch => twi_version <$> contents ch) <$> (map_to_list (w_chans w)).*2) <$> run_watcher 0 2 toy_watch) = Ok [[]; [0]; [0; 2]]%Z.
Proof. vm_compute. reflexivity. Qed.
Lemma subscribers_see_every_match_witness :
  exists w, run_watcher 0 2 toy_watch = Ok w /\
    (forall i x, handled w !! i = Some x -> txn_at toy_txn_chain (0 + Z.of_nat i) x) /\
    (forall c oneshot p born ch, subscribed w !! c = Some (oneshot, p, born) -> w_chans w !! c = Some ch -> wc_dropped ch = false ->
       delivering w = None -> wc_taken ch ++ wc_buffer ch = matching oneshot p (drop born (handled w))) /\
    (forall t tag rest, delivering w = Some (t, tag :: rest) -> deliver_next w = Ok w -> exists c, chan_full w c = true /\ chan_dropped w c = false) /\
    ((fun w => (fun ch => twi_version <$> contents ch) <$> (map_to_list (w_chans w)).*2) <$> run_watcher 0 2 toy_watch) = Ok [[]; [0]; [0; 2]]%Z.
Proof.
  destruct (subscribers_see_every_match toy_txn_chain 0 2 toy_watch) as (w & E & H1 & H2 & H3); [unfold u64_max; lia| |].
  { destruct toy_answers, toy_serves_transactions. repeat (apply List.Forall_cons; [by try split|]). apply List.Forall_nil. }
  exists w. split; [exact E|]. split; [exact H1|]. split; [exact H2|]. split; [exact H3|exact toy_watch_contents].
Defined.
End witnesses.
