(* ===== verification/OverlayWitnesses.v ===== *)
(** * Witnesses of the theorems on the overlay network and the network service

    Identities that are their bytes, a codec for the messages, and the theorems applied to concrete runs. *)
From S2P Require Import Prelude Codec Libra Overlay Instances.

Section overlay_witness.
#[local] Existing Instances toy_libra toy_libra_laws.

Definition toy_peers : PeerIds := {|
  PeerId := bytes; peer_as_bytes := fun p => p; peer_from_bytes := Some; peer_to_string := fun _ => "peer";
  address_from_str := fun _ => Err "address"
|}.
Lemma toy_peers_laws : @PeerIdsLaws toy_libra toy_peers.
Proof. split; [intros a; by eexists|by intros b p [= ->]]. Qed.
Definition toy_parity : ParityCodec := {|
  parity_encode := fun m => match m with ACK id => [0; id]%Z | Payload p => (1 :: pm_id p :: pm_data p)%Z end;
  parity_decode := fun b => match b with [0; id]%Z => Some (ACK id) | (1 :: id :: data)%Z => Some (Payload (mkPayloadMsg id data)) | _ => None end
|}.
Lemma toy_parity_laws : @ParityCodecLaws toy_parity.
Proof. by intros [id|[id data]]. Qed.
#[local] Existing Instances toy_peers toy_peers_laws toy_parity toy_parity_laws.

(** Two nodes connect; one sends with an acknowledgement, the other without; all is delivered but a second
    message, which is lost. *)
Definition ov_a : @AccountAddress toy_libra := (1%fin : toy_addr).
Definition ov_b : @AccountAddress toy_libra := (2%fin : toy_addr).
Definition ov_peer (a : @AccountAddress toy_libra) : @PeerId toy_libra toy_peers := [22; 32]%Z ++ address_to_vec a.
Definition ov_events : list overlay_event :=
  [OLink (ov_peer ov_a) (ov_peer ov_b) true; OLink (ov_peer ov_b) (ov_peer ov_a) true; OSend (ov_peer ov_a) 100 ov_b [7%Z]; OUser (ov_peer ov_b) ov_a [8%Z];
   OFlush (ov_peer ov_b); ODeliver 1; ODeliver 0; ODeliver 0; OSend (ov_peer ov_a) 101 ov_b [9%Z]; OLose 0; OSend (ov_peer ov_a) 102 ov_b [10%Z]].
Definition ov_summary : res (list (list nat * list bytes) * list bytes) :=
  w ← run_overlay [ov_a; ov_b] ov_events;
  Ok ((fun s => (elements (ns_done s), nm_data <$> ns_to_user s)) <$> (map_to_list (w_nodes w)).*2, (w_wires w).*2).
Lemma ov_summary_eq : ov_summary = Ok ([([0%nat], [[8]]); ([], [[7]])], [[1; 102; 10]])%Z.
Proof. vm_compute. reflexivity. Qed.
End overlay_witness.
