(* ===== verification/ServiceWitnesses.v ===== *)
(** * Witnesses of the theorems on the network service

    Toy versions of libp2p's behaviours, keys and addresses, and the theorems applied to concrete runs. *)
From stdpp Require Import pretty.
From S2P Require Import Prelude Codec PeersState Peerset Substream ProtoHandler CustomProto NetConfig Discovery DebugInfo NetService NetState Instances NetWitnesses.

Section service_witness.
#[local] Existing Instance canonical_order.

(** Behaviours that return the events queued in them. *)
Definition queue_behaviour (In NodeOut Out : Type) : NetworkBehaviour nat string (list Out) In NodeOut Out := {|
  addresses_of_peer := fun _ _ => []; nb_inject_connected := fun _ _ k => k; nb_inject_disconnected := fun _ _ k => k;
  nb_inject_replaced := fun _ _ _ k => k; nb_inject_node_event := fun _ _ k => k;
  nb_poll := fun k => match k with [] => (None, []) | e :: k => (Some (AGenerateEvent e), k) end
|}.
(** A query finds the node it asks for. *)
Definition toy_kademlia : Kademlia nat string := {|
  Key := nat; Kad := list (KademliaEvent nat nat); KadIn := unit; KadOut := unit; kad_behaviour := queue_behaviour _ _ _;
  kad_new := fun _ => []; kad_add_address := fun _ _ k => k; kbuckets_entries := fun _ => []; kad_get_record := fun _ k => k;
  kad_put_record := fun _ _ k => k; kad_get_closest_peers := fun p k => k ++ [KadRoutingUpdated p];
  Mdns := list (MdnsEvent nat string); mdns_behaviour := queue_behaviour _ _ _; starts_private := fun _ => false
|}.
Definition toy_ping : PingIdentify nat string := {|
  Ping := list (PingEvent nat); PingIn := unit; PingOut := unit; ping_behaviour := queue_behaviour _ _ _; ping_new := [PingRtt 7 3%Z];
  PublicKey := nat; Identify := list (IdentifyEvent nat string); IdentifyIn := unit; IdentifyOut := unit;
  identify_behaviour := queue_behaviour _ _ _; identify_new := fun _ user_agent _ => [IdentifyReceived 7 (mkIdentifyInfo user_agent ["a"])]
|}.
Definition toy_keys : NodeKeys := {|
  SecretKey := nat; Keypair := nat; keypair_of := fun k => k;
  sk_from_bytes := fun b => match b with [z] => if bool_decide (0 <= z)%Z then inl (Z.to_nat z) else inr "negative" | _ => inr "length" end;
  sk_as_ref := fun k => [Z.of_nat k]
|}.
Lemma toy_keys_laws : @NodeKeysLaws toy_keys.
Proof. intros k. simpl. rewrite bool_decide_eq_true_2 by lia. by rewrite Nat2Z.id. Qed.
Definition toy_addresses : Multiaddrs nat string := {|
  Multihash := nat; ma_parse := fun s => if bool_decide (s = "bad") then inr "bad" else inl s;
  ma_pop := fun s => (Some (Some (String.length s)), s); from_multihash := fun n => Some n
|}.
#[local] Existing Instances toy_kademlia toy_ping toy_keys toy_keys_laws toy_addresses.

Definition toy_key (n : nat) : @SecretKey toy_keys := n.
Definition toy_pair (n : nat) : @Keypair toy_keys := n.

(** A key file that does not exist yet. *)
Definition empty_fs : Fs := mkFs ∅ (fun _ => None) (fun _ => None) (fun _ => None) (fun _ => None).
Definition key_fs : Fs := (into_keypair (fun _ => Some "dir") (toy_key 5) (KeyEd25519 (SecretFile "key")) empty_fs).2.
Lemma identity_persists_witness :
  into_keypair (fun _ => Some "dir") (toy_key 5) (KeyEd25519 (SecretFile "key")) empty_fs = (inl (toy_pair 5), key_fs) /\
  into_keypair (fun _ => Some "dir") (toy_key 6) (KeyEd25519 (SecretFile "key")) key_fs = (inl (toy_pair 5), key_fs).
Proof. split; [reflexivity|]. apply (identity_persists (fun _ => Some "dir") "key" (toy_key 5) (toy_key 6) empty_fs (toy_pair 5) key_fs). reflexivity. Defined.

(** Queries in the first second, after one and after three; one connection stays open. *)
Definition query_events : list (discovery_event (PeerId := nat) (Multiaddr := string)) :=
  [DConnected 7 (PointDialer "a"); DPoll false (from_secs 0) S; DConnected 8 (PointDialer "b"); DPoll false 5 S; DPoll false (from_secs 1) S;
   DKnownAddress 9 "c"; DPoll false (from_secs 3) S; DDisconnected 7 (PointDialer "a"); DPoll false (from_secs 3) S].
Definition query_run := discovery_run 5 query_events (DiscoveryBehaviour_new 0 1 [(2, "boot")] None true, ∅).
Lemma query_run_eq : (r ← query_run; Ok r.1) = Ok [from_secs 0; from_secs 1; from_secs 3].
Proof. vm_compute. reflexivity. Qed.
Lemma random_queries_back_off_witness :
  (r ← query_run; Ok r.1) = Ok [from_secs 0; from_secs 1; from_secs 3] /\
  match query_run with Ok (_, (d, conn)) => num_connections d = Z.of_nat (size conn) | Err _ => True | Panic _ => False end.
Proof.
  split; [exact query_run_eq|]. unfold query_run.
  assert (Z.of_nat (length query_events) <= u64_max)%Z as Hl by (vm_compute; discriminate).
  pose proof (random_queries_back_off 5 query_events 0 1 [(2, "boot")] None true Hl) as Hr.
  destruct (discovery_run _ _ _) as [[ts [d conn]]|e|e]; [|exact Hr..]. apply Hr.
Defined.

(** A node comes, is identified and pinged, leaves and comes back in time. *)
Definition info_events : list (debug_event (PeerId := nat) (Multiaddr := string)) :=
  [GConnected 0 7 (PointDialer "a"); GPoll (from_secs 1) 0; GDisconnected (from_secs 2) 7 (PointDialer "a"); GPoll (from_secs 300) 1;
   GConnected (from_secs 600) 7 (PointDialer "b"); GPoll (from_secs 601) 1; GConnected (from_secs 602) 8 (PointDialer "c");
   GDisconnected (from_secs 603) 8 (PointDialer "c"); GPoll (from_secs 1300) 1].
Definition info_run := debug_run 5 info_events (DebugInfoBehaviour_new "v1" (1 : @PublicKey _ _ toy_ping), ∅, 0%Z).
Lemma info_run_eq : (r ← info_run; Ok (debug_node r.1.1 7, debug_node r.1.1 8)) = Ok (Some (mkCachedInfo None (PointDialer "b") (Some "v1") (Some 3%Z)), None).
Proof. vm_compute. reflexivity. Qed.
Lemma node_info_kept_witness :
  (r ← info_run; Ok (debug_node r.1.1 7, debug_node r.1.1 8)) = Ok (Some (mkCachedInfo None (PointDialer "b") (Some "v1") (Some 3%Z)), None) /\
  match info_run with Ok (d, h, _) => forall p, h !! p = None -> debug_node d p = None | Err _ => True | Panic _ => False end.
Proof.
  split; [exact info_run_eq|]. unfold info_run. pose proof (node_info_kept 5 info_events "v1" (1 : @PublicKey _ _ toy_ping) 0) as Hr.
  destruct (debug_run _ _ _) as [[[d h] now]|e|e]; [|exact Hr..]. destruct Hr as [Hr _]. intros p Hp. specialize (Hr p). rewrite Hp in Hr. exact Hr.
Defined.

(** The run of [demo_inputs], polled after every input, with events of the other behaviours. *)
Definition service_inputs : list (service_input (PeerId := nat) (Multiaddr := string)) :=
  flat_map (fun i => [SProto i; SPoll]) demo_inputs ++
  [SDiscovery (ValuePut (3 : @Key _ _ toy_kademlia)); SDebug (Identified 1 (mkIdentifyInfo "v2" ["a"])); SDiscovery (Discovered 3); SSend 1 [1%Z]; SDrop 1;
   SKnownAddress 2 "b"; SProto (IPoll no_timer); SPoll].
Definition demo_config : NetworkConfiguration string :=
  mkNetworkConfiguration None (Some "net") [] [] ["1"; "bad"] (KeyEd25519 SecretNew) 2 2 ["22"] Accept "client" "node" (Normal true true).
Definition show_demo (p : nat) (v : option string) (pt : ConnectedPoint string) : string := match pt with PointDialer a | PointListener _ a => a end.
Definition demo_service : res ((Service (PeerId := nat) (Multiaddr := string) + IoError) * Fs) :=
  start_service demo_clock (fun kp : @Keypair toy_keys => (kp : @PublicKey _ _ toy_ping)) (fun k => k) 0 (fun _ => None) (toy_key 5) None [1%Z] demo_config empty_fs.
Definition service_summary : res (list (ServiceEvent (PeerId := nat)) * list nat) :=
  '(r, _) ← demo_service;
  match r with
  | inl s => '(_, reported, w) ← service_run demo_clock show_demo 20 service_inputs (s, ∅); Ok (reported, elements (connected_peers w.1))
  | inr _ => Err "start"
  end.
Definition service_reported : res (list (ServiceEvent (PeerId := nat)) * list nat) :=
  Ok ([OpenedCustomProtocol 1 1 "one"; CustomMessage 1 [7%Z]; ClosedCustomProtocol 1 "one"], []).
Lemma service_summary_eq : service_summary = service_reported.
Proof. vm_compute. reflexivity. Qed.
Lemma service_inputs_known : Forall (fun x => service_ids x ⊆ demo_universe) service_inputs.
Proof. unfold service_inputs, demo_inputs, demo_universe. repeat (apply List.Forall_cons; [simpl; set_solver|]). apply List.Forall_nil. Qed.

(** A snapshot while the protocol with node 1 is open *)
Definition demo_base58 (p : nat) : string := pretty p.
Definition demo_swarm : SwarmInfo (PeerId := nat) (Multiaddr := string) := mkSwarmInfo 5 ["here"] [] 0 0.
Definition open_inputs : list (service_input (PeerId := nat) (Multiaddr := string)) := take 30 service_inputs.
Definition demo_snapshot : res (list (string * option string * bool) * list (string * (bool * Z))) :=
  '(r, _) ← demo_service;
  match r with
  | inl s =>
      '(_, _, w) ← service_run demo_clock show_demo 20 open_inputs (s, ∅);
      '(st, _) ← service_state demo_clock demo_base58 demo_swarm w.1;
      Ok ((fun kv => (kv.1, version_string kv.2, nsp_open kv.2)) <$> map_to_list (ns_connected_peers st), map_to_list (pi_nodes (ns_peerset st)))
  | inr _ => Err "start"
  end.
Lemma demo_snapshot_eq : demo_snapshot = Ok ([("1", None, true)], [("1", (true, 0%Z)); ("2", (true, 0%Z)); ("4", (true, (-7)%Z))]).
Proof. vm_compute. reflexivity. Qed.
Lemma network_state_is_true_witness :
  exists N, forall fuel, N <= fuel ->
  match demo_service with
  | Ok (inl s0, _) =>
      match service_run demo_clock show_demo fuel open_inputs (s0, ∅) with
      | Ok (_, _, (s, _)) => exists st s', service_state demo_clock demo_base58 demo_swarm s = Ok (st, s') /\ nodes_info s' = nodes_info s
      | Err _ => True
      | Panic _ => False
      end
  | Ok (inr _, _) => True
  | Err _ | Panic _ => False
  end.
Proof.
  destruct (network_state_is_true demo_clock demo_base58 _ demo_clock_mono demo_universe demo_small show_demo
    (fun kp : @Keypair toy_keys => (kp : @PublicKey _ _ toy_ping)) (fun k => k)
    0 (fun _ => None) (toy_key 5) None [1%Z] demo_config empty_fs open_inputs (drop 30 service_inputs) demo_swarm) as [N HN].
  1, 2: split; vm_compute; discriminate.
  1, 2: apply (bool_decide_unpack _); vm_compute; exact Logic.I.
  1: unfold open_inputs; rewrite take_drop; exact service_inputs_known.
  1: vm_compute; discriminate.
  exists N. intros fuel Hf. specialize (HN fuel Hf). unfold demo_service. destruct (start_service _ _ _ _ _ _ _ _ _ _) as [[[s0|e] fs]|e|e]; [|exact HN..].
  destruct (service_run _ _ _ _ _) as [[[outs reported] [s env]]|e|e]; [|exact HN..].
  destruct HN as (st & s' & E & _ & _ & En & _). exists st, s'. split; [exact E|exact En].
Defined.
End service_witness.
