(* ===== verification/RpcWitnesses.v ===== *)
(** * Witnesses of the theorem on the RPC service

    The node of [NodeWitnesses] behind the service, and a client that opens a channel with it. *)
From S2P Require Import Prelude Codec Libra SchemaDB Accumulator ChannelTypes ChannelStore TxApplier Chain ChannelStm Channel Messages Wallet.
From S2P Require Import Invoices Futures Stats Node NodeRpc Instances Witnesses NodeWitnesses.

Section rpc_witness.
#[local] Existing Instances toy_libra toy_libra_laws toy_chain toy_txn_codec toy_node_prost toy_node_prost_laws toy_wallet_ops toy_hex toy_rng.
Definition toy_proofs : @ProofCodec toy_libra := {|
  pb_TransactionWithProof := @TransactionWithProof toy_libra; proof_into := fun t => t; proof_try_from := Ok
|}.
Lemma toy_proofs_laws : @ProofCodecLaws toy_libra toy_proofs.
Proof. by intros t. Qed.
#[local] Existing Instances toy_proofs toy_proofs_laws.

(** The other side answers the first request and refuses the second. *)
Definition demo_wait (f : nat) : Z + string := if bool_decide (f = 0) then inl 1%Z else inr "refused".
Definition client_opens (x y : Z) : stM (Node toy_peer) OpenChannelResponse :=
  client_open_channel demo_world demo_wait status_details "dropped" (mkOpenChannelRequest bob x y).
Lemma client_opens_eq : (client_opens 10 5 (node_of alice true)).1 = Ok mkOpenChannelResponse /\
  (client_opens 5 10 (node_of alice true)).1 = Err "GRPC error: Failed to process request: sender amount should bigger than receiver amount.".
Proof. split; vm_compute; reflexivity. Qed.
End rpc_witness.
