(* ===== verification/CliWitnesses.v ===== *)
(** * Witnesses of the theorems on the compiler, the faucet and the command line

    A compiler that takes the text of a script as its code, a directory with a script, a chain that knows two accounts, and
    a shell whose node is that of [NodeWitnesses]. *)
From S2P Require Import Prelude Codec Substream Text NetConfig Libra SchemaDB Accumulator ChannelTypes ChannelStore TxApplier Chain ChainRpc Compiler Faucet.
From S2P Require Import ChannelStm Channel Messages Wallet Invoices Futures Stats Node NodeRpc Cli Instances Witnesses NodeWitnesses WatchWitnesses RpcWitnesses.
From stdpp Require Import pretty.
From Stdlib Require Import Ascii.

Section witnesses.
#[local] Existing Instances toy_libra toy_libra_laws toy_chain toy_events toy_txn_codec toy_node_prost toy_node_prost_laws toy_wallet_ops toy_hex toy_rng toy_proofs toy_proofs_laws.

(** ** The compiler *)

Notation toy_module := (@AccountAddress toy_libra * string)%type.
Definition toy_ir : IrCompiler := {|
  AstScript := string; AstModule := string; AstProgram := string; CompiledScript := string; CompiledModule := bytes; VerifiedModule := bytes;
  parse_script := fun s => if bool_decide (s = "bad") then Err "parse" else Ok s; parse_module := Ok; parse_program := Ok;
  script_imports := fun s => if bool_decide (s = "uses M and N") then [IdentQualified bob "M"; IdentTransaction "N"] else [];
  script_external_deps := fun _ => []; module_external_deps := fun _ => []; program_script := fun p => p; program_modules := fun _ => [];
  ir_compile_script := fun _ s deps => Ok (s +:+ pretty (length deps)); ir_compile_module := fun _ s _ => Ok (ascii_bytes s);
  ir_compile_program := fun _ s _ => Ok ([], s); script_serialize := fun s => Ok (ascii_bytes s); module_serialize := Ok;
  module_deserialize := Ok; VerifiedModule_new := Ok; self_id := fun _ => (alice, "std") : toy_module; stdlib_modules := [];
  code_access_path := fun _ => 600
|}.
Lemma toy_ir_laws : @IrCompilerLaws toy_libra toy_ir.
Proof. intros a s deps deps' Hp. simpl. f_equal. f_equal. f_equal. apply (Permutation_length Hp). Qed.
#[local] Existing Instances toy_ir toy_ir_laws.

Definition code_tuple (p : ChannelScriptPackage) : string * list (string * string * bytes) :=
  (package_name p, (fun c => (sc_name c, sc_source_code c, sc_byte_code c)) <$> scripts p).
Definition tuple_code (t : string * list (string * string * bytes)) : ChannelScriptPackage :=
  mkPackage t.1 ((fun c => mkScriptCode c.1.1 c.1.2 c.2) <$> t.2).
Definition toy_json : PackageJson := {| json_to_vec := fun p => Ok (to_blob (code_tuple p)); json_from_slice := fun b => t ← of_blob b; Ok (tuple_code t) |}.
Lemma toy_json_laws : @PackageJsonLaws toy_json.
Proof.
  intros p b [= <-]. simpl. rewrite decode_encode. simpl. f_equal. destruct p as [n cs]. unfold tuple_code, code_tuple. simpl. f_equal.
  rewrite <-list_fmap_compose. rewrite <-(list_fmap_id cs) at 2. apply list_fmap_ext. by intros i [] _.
Qed.
#[local] Existing Instances toy_json toy_json_laws.

Definition demo_fs : Fs := mkFs {[ "pkg/transfer.mvir" := ascii_bytes "uses M and N"; "pkg/README" := ascii_bytes "about" ]} (fun _ => None) (fun _ => None) (fun _ => None) (fun _ => None).
Definition demo_disk : Disk := mkDisk demo_fs {[ "pkg" := [Ok "README"; Ok "transfer.mvir"; Ok "sub"]; "pkg/sub" := [] ]}.
Definition demo_modules : gmap toy_module bytes := {[ (bob, "M") := [1%Z]; (alice, "N") := [2%Z] ]}.
Definition demo_package : ChannelScriptPackage := mkPackage "pkg" [mkScriptCode "transfer" "uses M and N" (ascii_bytes "uses M and N2")].
Definition compile_demo : res ChannelScriptPackage := (compile_package (HO := canonical_order) MockModuleLoader alice demo_disk ["pkg"] demo_modules).1.
Lemma compile_demo_eq : compile_demo = Ok demo_package.
Proof. vm_compute. reflexivity. Qed.

Lemma compiled_package_is_directory_witness : compile_demo = Ok demo_package /\
  (compile_package (HO := reversed_order) (pure_loader (fun id => Ok (demo_modules !! id))) alice demo_disk ["pkg"] tt).1 = Ok demo_package.
Proof.
  split; [exact compile_demo_eq|].
  refine (proj2 (proj2 (compiled_package_is_directory canonical_order reversed_order MockModuleLoader (pure_loader (fun id => Ok (demo_modules !! id)))
    (eq demo_modules) (fun _ => True) (fun id => Ok (demo_modules !! id)) alice demo_disk ["pkg"] ["README"; "transfer.mvir"; "sub"] demo_modules tt
    demo_package _ _ eq_refl I eq_refl _ compile_demo_eq))); [apply mock_answers|by intros id []|by apply (bool_decide_unpack _)].
Defined.

Lemma package_file_roundtrip_witness : let '(r, (s, d)) := compile_package_with_output (HO := canonical_order) MockModuleLoader alice ["pkg"] ["pkg.csp"] (demo_modules, demo_disk) in
  r = Ok demo_package /\ (disk_read d ["pkg.csp"] ≫= json_from_slice) = Ok demo_package.
Proof.
  assert (E : (compile_package_with_output (HO := canonical_order) MockModuleLoader alice ["pkg"] ["pkg.csp"] (demo_modules, demo_disk)).1 = Ok demo_package) by (vm_compute; reflexivity).
  pose proof (package_file_roundtrip (HO := canonical_order) MockModuleLoader alice ["pkg"] ["pkg.csp"] demo_modules demo_disk) as H.
  destruct (compile_package_with_output _ _ _ _ _) as [r [s d]]. simpl in E. subst r. split; [done|]. by apply (proj2 H demo_package eq_refl).
Defined.

(** ** The faucet *)

(** A script is its receiver and amount; the balance of an account is the first byte of its resource. *)
Definition toy_faucet : @FaucetOps toy_libra toy_chain := {|
  Ed25519PrivateKey := Z; private_public := fun k => k : @Ed25519PublicKey toy_libra; private_key_try_from := fun b => ok_or (head b) "key"; base64_decode := Ok;
  address_from_public_key := fun _ => bob; GENESIS_PRIVATE_KEY := 7%Z; Script := @AccountAddress toy_libra * Z;
  encode_create_account_script := pair; encode_transfer_script := pair;
  sign_script := fun _ _ sender n _ _ _ _ => Ok (mkToyTxn sender n None : @SignedTransaction toy_libra);
  blob_sequence_number := fun _ => Ok 3%Z; account_resource_path := [600%Z]; decode_resource_balance := fun b => ok_or (head b) "balance"
|}.
#[local] Existing Instance toy_faucet.

(** A chain on which every account has [balance] coins *)
Definition chain_of (balance : Z) (_ : nat) : Transport := mkTransport (fun _ => Ok tt) (fun _ => Ok [Ok (AccountStateResponse (mkAccountStateWithProof 0 (Some [balance]) tt))]).
Definition faucet_run (balance amount : Z) : res unit * list (@SignedTransaction toy_libra) :=
  let '(r, s) := service_faucet (chain_of balance) (fun _ _ _ => Ok (None, None)) (7%Z : @Ed25519PrivateKey _ _ toy_faucet) (mk_pb_FaucetRequest [1%Z] amount) (mkCalls 0 []) in (r, Faucet.submitted s).
(** A poor account is paid, and a rich one is not. *)
Example faucet_runs : faucet_run 9999999 5 = (Ok tt, [mkToyTxn bob 3 None : @SignedTransaction toy_libra]) /\ faucet_run 10000000 5 = (Ok tt, []).
Proof. split; vm_compute; reflexivity. Qed.

(** ** The command line *)

Definition toy_explorer : @Explorer toy_libra toy_chain := {|
  BlockSummary := unit; BlockDetail := unit; TransactionList := unit; format_block_summary := fun _ _ => "block";
  debug_block_detail := fun _ => "detail"; debug_transaction_list := fun _ => "transactions"; debug_transaction := fun _ => "transaction"
|}.
Definition toy_cli : @CliOps toy_libra toy_chain := {|
  WalletLibrary := list (@AccountAddress toy_libra); ChildNumber := nat; debug_child := pretty; wl_new := [];
  wl_new_address := fun w => (Ok (alice, length w), w ++ [alice]); wl_get_addresses := Ok; wl_write_recovery := fun _ _ => mret tt; wl_recover := fun _ _ => Ok [];
  address_from_hex_literal := fun s => if bool_decide (s = "0x02") then Ok bob else Err "hex"; hash_from_hex := fun _ => Err "hex";
  parse_as_transaction_argument := fun _ => Err "argument"; hex_encode := fun _ => "hex"; resource_debug := fun _ => Ok "resource";
  channel_transaction_debug := fun _ => "transaction"; deploy_response_debug := fun _ => "deployed"
|}.
Lemma toy_cli_laws : @CliLaws toy_libra toy_chain toy_cli.
Proof. split; intros s; [|done]. simpl. by case_bool_decide. Qed.
#[local] Existing Instances canonical_order toy_explorer toy_cli toy_cli_laws.

Definition demo_shell : Shell (W := toy_peer) := mkShell (node_of alice true) ([] : @WalletLibrary _ _ toy_cli) demo_disk (mkCalls 0 []) [].
Definition demo_view (_ : nat) : ChainClient := mkChainClient (fun _ _ => Err "chain") (fun _ => Err "chain") (fun _ _ => Err "chain") (fun _ _ => Err "chain") (fun _ _ _ => Err "chain").
Definition demo_turn (line : string) : res bool * Shell (W := toy_peer) :=
  turn demo_world demo_wait status_details "dropped" (chain_of 5) (fun _ _ _ => Ok (None, None)) demo_view
    (fun _ _ => inr (RpcFailure true "down")) (fun _ _ => inr (RpcFailure true "down")) "usage" (Line line) demo_shell.
Lemma demo_turn_eq : (demo_turn "n oc 0x02 10").1 = Ok true /\ sh_out (demo_turn "n oc 0x02 10").2 = ["open channel success"].
Proof. split; vm_compute; reflexivity. Qed.
Lemma typed_commands_reach_node_witness : ((demo_turn "n oc 0x02 10").1 = Ok true /\ sh_out (demo_turn "n oc 0x02 10").2 = ["open channel success"]) /\
  line_does demo_world demo_wait status_details "dropped" (chain_of 5) (fun _ _ _ => Ok (None, None)) demo_view
    (fun _ _ => inr (RpcFailure true "down")) (fun _ _ => inr (RpcFailure true "down")) "usage" "n oc 0x02 10"
    (open_channel_oneshot demo_world demo_wait bob 10 0) rx_answer (fun _ => "open channel success") "Error open channel".
Proof.
  split; [exact demo_turn_eq|]. refine (proj1 (typed_commands_reach_node demo_world demo_wait status_details "dropped" (chain_of 5)
    (fun _ _ _ => Ok (None, None)) demo_view (fun _ _ => inr (RpcFailure true "down")) (fun _ _ => inr (RpcFailure true "down")) "usage" "n" "0x02" bob 10 "invoice" _ _ eq_refl _ _));
    by apply (bool_decide_unpack _).
Defined.
Lemma node_and_explorer_lines_never_panic_witness : no_panic (demo_turn "block latest_height").1.
Proof.
  refine (node_and_explorer_lines_never_panic demo_world demo_wait status_details "dropped" (chain_of 5) (fun _ _ _ => Ok (None, None)) demo_view
    (fun _ _ => inr (RpcFailure true "down")) (fun _ _ => inr (RpcFailure true "down")) _ _ "usage" "block latest_height" demo_shell _); [done..|].
  intros g H. vm_compute in H. injection H as <-. by apply (bool_decide_unpack _).
Defined.
End witnesses.
