(* ===== verification/ServerWitnesses.v ===== *)
(** * Witnesses of the theorems on the running node, its routers and its start

    A node that is called, gets a message and is shut down; a router that hands on messages; and the start of a node from a
    configuration and a key file. *)
From S2P Require Import Prelude Codec Substream Text NetConfig Libra SchemaDB Accumulator ChannelTypes ChannelStore TxApplier Chain Compiler Overlay.
From S2P Require Import ChannelStm Channel Messages Wallet Invoices Futures Stats Node NodeServer AntRouter Graph TableRouter RouterServer Startup.
From S2P Require Import Instances Witnesses NodeWitnesses RouterWitnesses WatchWitnesses OverlayWitnesses ServiceWitnesses CliWitnesses.

Section witnesses.
#[local] Existing Instances toy_libra toy_libra_laws mem_rocks mem_rocks_laws map_batches map_batches_laws toy_accumulators toy_accumulators_laws
  toy_codecs toy_chain toy_chain_laws toy_txn_codec toy_wallet_chain toy_node_prost toy_node_prost_laws toy_wallet_ops toy_hex toy_rng canonical_order.

(** ** The node *)

Definition started_server : res (Server (W := toy_peer)) := server_start demo_world (fun _ => Ok 0%Z) (Server_new (node_of alice true)).
Definition demo_server : Server (W := toy_peer) := match started_server with Ok s => s | _ => Server_new (node_of alice true) end.
Lemma started_server_ok : match started_server with Ok _ => true | _ => false end = true.
Proof. vm_compute. reflexivity. Qed.
Lemma started_server_eq : started_server = Ok demo_server.
Proof. pose proof started_server_ok as H. unfold demo_server. by destruct started_server. Qed.

(** Two calls are taken, and the second is handled first; a message is taken and handled; the third call comes too late. *)
Definition demo_acts : list Action :=
  [Call 0 (NOpenChannel bob 10 5); CmdTakes; Call 1 NChainBalance; Arrive bob [0; 0]%Z; NetTakes; CmdTakes; TaskRuns 2 demo_world; TaskRuns 0 demo_world;
   Call 2 (NChannelPay bob 3); Shutdown; TaskRuns 0 demo_world; CmdStops; NetStops].
Definition demo_run : option (list (World * Op) * Server (W := toy_peer)) := run demo_world demo_acts demo_server.
Definition demo_end : list (World * Op) * Server (W := toy_peer) := match demo_run with Some r => r | None => ([], demo_server) end.
Lemma demo_run_ok : match demo_run with Some _ => true | None => false end = true.
Proof. vm_compute. reflexivity. Qed.
Lemma demo_run_eq : run demo_world demo_acts demo_server = Some (demo_end.1, demo_end.2).
Proof. pose proof demo_run_ok as H. unfold demo_end. fold demo_run. by destruct demo_run as [[]|]. Qed.
Lemma demo_end_state : sv_network demo_end.2 = Stopped /\ sv_command demo_end.2 = Stopped /\ sv_tasks demo_end.2 = [] /\
  sv_settled demo_end.2 = [(1, Some (AResource (Ok []))); (0, Some (AFuture (Ok 0))); (2, None)].
Proof. split_and!; vm_compute; reflexivity. Qed.


Lemma demo_end_stuck a : internal a = true -> step a demo_end.2 = None.
Proof. destruct demo_end_state as (En & Ec & Et & _). destruct a; try done; intros _; simpl; by rewrite ?En, ?Ec, ?Et. Qed.
Lemma demo_end_shutdown : Shutdown ∈ demo_acts.
Proof. unfold demo_acts. set_solver. Qed.

(** ** The routers *)

Definition balance_message : RouterNetworkMessage := MBalanceQueryRequest (mkBalanceRequest alice bob).
Definition demo_mix (start : res Z) : MixRouter := match mix_router_start start (fun _ => []) MixRouter_new with Ok m => m | _ => MixRouter_new end.
Definition mix_acts : list MixAction := [MReceive bob balance_message; MMix OnMessage; MTable OnMessage].
Definition mix_end : MixRouter := match mix_run mix_acts (demo_mix (Ok 0%Z)) with Some m => m | None => MixRouter_new end.
Lemma mix_router_dispatches_witness : handed (mx_table mix_end) = [(bob, balance_message)] /\ handed (mx_table mix_end) `prefix_of` [(bob, balance_message)].
Proof.
  split; [reflexivity|].
  destruct (mix_router_dispatches (Ok 0%Z) (fun _ => []) (demo_mix (Ok 0%Z)) mix_acts mix_end eq_refl eq_refl) as (taken & rest & Hr & _ & Hk).
  by exists [].
Defined.

(** ** The start *)

Definition toy_toml : Toml := fun s => if bool_decide (s = "config") then Ok (get_test_config "localhost" 3000 3001 100 true "ant" None) else Err "toml".
Definition toy_wallet_keys : @WalletKeys toy_libra := {|
  Mnemonic := string; KeyFactory := string; Ed25519PrivateKey := Z; mnemonic_from := Ok; key_factory_new := fun m _ => Ok m;
  private_child_raw := fun _ n => Ok n; keypair_of_private := fun z => (z : @KeyPair toy_libra); private_key_bytes := fun kp : @KeyPair toy_libra => [kp : Z];
  account_of_public_key := fun _ => alice
|}.
#[local] Existing Instances toy_toml toy_wallet_keys toy_ir toy_peers toy_keys.
Definition start_disk : Disk :=
  mkDisk (mkFs {[ "wallet/node.toml" := ascii_bytes "config"; "wallet/key" := ascii_bytes "some words;1" ]} (fun _ => None) (fun _ => None) (fun _ => None) (fun _ => None)) ∅.
Definition start_scripts : IncludedDir := mkIncludedDir [("open.mvir", ascii_bytes "open it"); ("close.mvir", ascii_bytes "close it")] [].
Definition start_client : ChainClient :=
  mkChainClient (fun _ _ => Ok (5%Z, Some [9%Z], tt)) (fun _ => Ok tt) (fun _ _ => Ok (Some toy_proof)) (fun _ _ => Ok None) (fun _ _ _ => Err "no transaction").
Definition start_demo (key : string) : res (NodeConfig * NetworkConfiguration string * Server (W := WalletAt (S := ChannelDB)) * NodeRouter) :=
  prepare (S := ChannelDB) (fun _ _ => Ok demo_dbs) start_scripts Ok start_disk "wallet" key 1 (fun _ => (mkEnv _ _ start_client 1000 10, Ok tt)) (fun _ => Ok 0%Z) (fun _ => []).
(** The node starts with the channels of alice enabled and an ant router; without the key file the process ends. *)
Example start_demo_runs :
  match start_demo "wallet/key" with
  | Ok (config, network, server, UseAnt _ 50%Z) =>
      bool_decide (wo_account (n_wallet (sv_node server)) = alice) && channel_enabled (wa_wallet (n_wallet (sv_node server))) &&
      bool_decide (listen_addresses network = ["/ip4/127.0.0.1/tcp/8000"])
  | _ => false
  end = true /\ match start_demo "wallet/other" with Panic _ => true | _ => false end = true.
Proof. split; vm_compute; reflexivity. Qed.
End witnesses.
